(** * libfilezilla asynchronous I/O: buffer pool, readers, writers

    A shallow embedding of the aio layer of libfilezilla
    (lib/aio/aio.cpp, aio/reader.cpp, aio/writer.cpp, their headers) and of
    [get_ipv6_long_form] (iputils.cpp), with the properties of the
    specification stated and proved over it.

    Conventions.
    - [size_t] and [uint64_t] are 64 bits wide; a value is a [Z] in
      [0, 2^64) and every arithmetic result is reduced with [wrap].
    - A pointer is the [Z] of its address.
    - Code that runs under one mutex is one atomic function on the state of
      the object; a worker thread is a step function on that state. *)

From Stdlib Require Import Ascii String ZArith List Bool Lia.
Import ListNotations.
Open Scope Z_scope.

(** ** Machine integers *)

Definition modulus : Z := 2 ^ 64.

(** Reduction of an arithmetic result to [uint64_t] / [size_t]. *)
Definition wrap (z : Z) : Z := z mod modulus.

(** [aio_base::nosize = static_cast<size_type>(-1)]. *)
Definition nosize : Z := modulus - 1.

(** [std::string::npos]. *)
Definition npos : Z := modulus - 1.

Definition in_range (z : Z) : Prop := 0 <= z < modulus.

(** A byte of memory. *)
Definition byte : Type := Byte.byte.

(** The address space: what a load from an address yields. *)
Definition memory : Type := Z -> byte.

(** [memcpy]'s source side: the [n] bytes at [p], [p+1], ... with pointer
    arithmetic in 64 bits. *)
Fixpoint load (m : memory) (p : Z) (n : nat) : list byte :=
  match n with
  | O => []
  | S n' => m (wrap p) :: load m (wrap (p + 1)) n'
  end.

(** ** nonowning_buffer *)

(** Modelled from the spec: nonowning_buffer.hpp is not part of the sources.
    The spec gives a buffer as (base pointer, capacity, fill) with
    [0 <= fill <= capacity]; the bytes of the filled part are kept as a
    list, so that [size()] is its length. *)
Record nonowning_buffer : Type := mk_nonowning_buffer {
  nb_ptr : Z;
  nb_capacity : Z;
  nb_bytes : list byte
}.

Module nonowning_buffer_ops.

Definition size (b : nonowning_buffer) : Z := Z.of_nat (length (nb_bytes b)).

Definition empty (b : nonowning_buffer) : bool := size b =? 0.

(** [explicit operator bool]: the buffer holds data. *)
Definition to_bool (b : nonowning_buffer) : bool := negb (empty b).

Definition clear (b : nonowning_buffer) : nonowning_buffer :=
  mk_nonowning_buffer (nb_ptr b) (nb_capacity b) [].

(** [append(data, len)]: copies [len] bytes behind the filled part. *)
Definition append (b : nonowning_buffer) (bytes : list byte) : nonowning_buffer :=
  mk_nonowning_buffer (nb_ptr b) (nb_capacity b) (nb_bytes b ++ bytes).

(** [consume(n)]: drops the first [n] filled bytes. *)
Definition consume (b : nonowning_buffer) (n : Z) : nonowning_buffer :=
  mk_nonowning_buffer (nb_ptr b) (nb_capacity b) (skipn (Z.to_nat n) (nb_bytes b)).

End nonowning_buffer_ops.

(** ** buffer_lease *)

(** A lease is a buffer and the back pointer to its pool; there is one pool
    in the model, so the back pointer is [true] for it and [false] for
    [nullptr]. [buffer_lease()] is [empty_lease]. *)
Record buffer_lease : Type := mk_lease {
  lease_buffer : nonowning_buffer;
  lease_pool : bool
}.

Definition null_buffer : nonowning_buffer := mk_nonowning_buffer 0 0 [].

Definition empty_lease : buffer_lease := mk_lease null_buffer false.

(** ** aio_waitable *)

Module aio_waitable.

(** The two queues of an [aio_waitable]; a waiter or handler is named by
    a number (its address). *)
Record t : Type := mk {
  waiting_ : list nat;
  waiting_handlers_ : list nat
}.

Definition init : t := mk [] [].

Definition add_waiter (w : t) (h : nat) : t :=
  mk (waiting_ w ++ [h]) (waiting_handlers_ w).

Definition add_waiter_handler (w : t) (h : nat) : t :=
  mk (waiting_ w) (waiting_handlers_ w ++ [h]).

(** [std::remove] + [erase]. *)
Definition remove_waiter (w : t) (h : nat) : t :=
  mk (filter (fun x => negb (Nat.eqb x h)) (waiting_ w)) (waiting_handlers_ w).

Definition remove_waiter_handler (w : t) (h : nat) : t :=
  mk (waiting_ w) (filter (fun x => negb (Nat.eqb x h)) (waiting_handlers_ w)).

Definition remove_waiters (w : t) : t := init.

(** Who gets notified by [signal_availibility]. *)
Inductive signalled : Type :=
| nobody
| waiter (h : nat)      (* [on_buffer_availability] is invoked on it *)
| handler (h : nat).    (* an [aio_buffer_event] is sent to it *)

(** [signal_availibility()]: the last raw waiter, else the last handler. *)
Definition signal_availibility (w : t) : signalled * t :=
  match rev (waiting_ w) with
  | h :: front => (waiter h, mk (rev front) (waiting_handlers_ w))
  | [] =>
      match rev (waiting_handlers_ w) with
      | h :: front => (handler h, mk (waiting_ w) (rev front))
      | [] => (nobody, w)
      end
  end.

End aio_waitable.

(** ** aio_buffer_pool *)

Module aio_buffer_pool.

Record t : Type := mk {
  buffer_count_ : Z;
  memory_size_ : Z;
  memory_ : option Z;                 (* [None] is [nullptr] *)
  buffers_ : list nonowning_buffer;   (* the free list, back = last *)
  waitable : aio_waitable.t
}.

(** [operator bool]. *)
Definition to_bool (p : t) : bool :=
  match memory_ p with Some _ => true | None => false end.

Definition default_buffer_size : Z := 256 * 1024.

(** The rounding of the constructor: [buffer_size] up to a multiple of
    the page size, in [size_t]. *)
Definition adjusted_buffer_size (psz buffer_size : Z) : Z :=
  if buffer_size mod psz =? 0 then buffer_size
  else wrap (buffer_size + wrap (psz - buffer_size mod psz)).

(** The loop [for (i = 0; i < buffer_count; ++i, p += adjusted + psz)]
    that fills the free list. *)
Fixpoint carve (n : nat) (p stride capacity : Z) : list nonowning_buffer :=
  match n with
  | O => []
  | S n' => mk_nonowning_buffer p capacity [] :: carve n' (wrap (p + stride)) stride capacity
  end.

(** What obtaining the backing memory can come to. *)
Inductive allocation : Type :=
| allocated (base : Z)   (* [mmap], [MapViewOfFile] or [new] gave [base] *)
| no_memory              (* a step failed and [memory_] is [nullptr] *)
| map_failed.            (* [mmap] gave [MAP_FAILED], which is kept in [memory_] *)

(** [MAP_FAILED] is [(void* )-1]. *)
Definition MAP_FAILED : Z := modulus - 1.

(** The constructor. [psz] is [get_page_size()]; [allocate len] is the
    outcome of obtaining [len] bytes: the shared memory object, its
    sizing, sealing and mapping when [use_shm], else [new(std::nothrow)].
    Every failure returns before the free list is filled. *)
Definition construct (psz : Z) (allocate : Z -> allocation)
           (buffer_count buffer_size : Z) : t :=
  let buffer_size := if buffer_size =? 0 then default_buffer_size else buffer_size in
  let adjusted := adjusted_buffer_size psz buffer_size in
  let memory_size := wrap (wrap (wrap (adjusted + psz) * buffer_count) + psz) in
  match allocate memory_size with
  | no_memory => mk buffer_count memory_size None [] aio_waitable.init
  | map_failed => mk buffer_count memory_size (Some MAP_FAILED) [] aio_waitable.init
  | allocated base =>
      mk buffer_count memory_size (Some base)
         (carve (Z.to_nat buffer_count) (wrap (base + psz)) (wrap (adjusted + psz)) buffer_size)
         aio_waitable.init
  end.

Definition set_buffers (p : t) (bs : list nonowning_buffer) : t :=
  mk (buffer_count_ p) (memory_size_ p) (memory_ p) bs (waitable p).

Definition set_waitable (p : t) (w : aio_waitable.t) : t :=
  mk (buffer_count_ p) (memory_size_ p) (memory_ p) (buffers_ p) w.

(** [get_buffer(aio_waiter & h)]: the last free buffer, or [h] is queued
    and the lease is empty. *)
Definition get_buffer (p : t) (h : nat) : buffer_lease * t :=
  match rev (buffers_ p) with
  | [] => (empty_lease, set_waitable p (aio_waitable.add_waiter (waitable p) h))
  | b :: front => (mk_lease b true, set_buffers p (rev front))
  end.

(** [release(b)]: a buffer with a base pointer is cleared and put back;
    then [signal_availibility()]. The second component is the party that
    was notified. *)
Definition release (p : t) (b : nonowning_buffer) : aio_waitable.signalled * t :=
  let p1 := if nb_ptr b =? 0 then p
            else set_buffers p (buffers_ p ++ [nonowning_buffer_ops.clear b]) in
  let (who, w) := aio_waitable.signal_availibility (waitable p1) in
  (who, set_waitable p1 w).

(** [buffer_lease::release()], also run by the destructor of a lease. *)
Definition release_lease (p : t) (l : buffer_lease) : t :=
  if lease_pool l then snd (release p (lease_buffer l)) else p.

(** Destruction of a list of leases, front to back. *)
Definition release_all (p : t) (ls : list buffer_lease) : t :=
  fold_left release_lease ls p.

Definition remove_waiter (p : t) (h : nat) : t :=
  set_waitable p (aio_waitable.remove_waiter (waitable p) h).

(** Mathematical rounding up to a multiple, for the statements. *)
Definition round_up (x m : Z) : Z := ((x + m - 1) / m) * m.

End aio_buffer_pool.

(** ** aio_result *)

Inductive aio_result : Type := ok | wait | error.

(** ** reader_base *)

Module reader_base.

Record t : Type := mk {
  self : nat;                        (* the reader as an [aio_waiter] *)
  waitable : aio_waitable.t;         (* the reader as an [aio_waitable] *)
  max_buffers_ : Z;
  buffers_ : list buffer_lease;
  size_ : Z;
  max_size_ : Z;
  start_offset_ : Z;
  remaining_ : Z;
  get_buffer_called_ : bool;
  error_ : bool;
  eof_ : bool
}.

(** The constructor [reader_base(name, pool, max_buffers)] with the
    default member initializers of the class. *)
Definition construct (self : nat) (max_buffers : Z) : t :=
  mk self aio_waitable.init
     (if max_buffers =? 0 then 1 else max_buffers)
     []
     nosize nosize nosize nosize
     false false false.

Definition set_error (r : t) (e : bool) : t :=
  mk (self r) (waitable r) (max_buffers_ r) (buffers_ r) (size_ r) (max_size_ r)
     (start_offset_ r) (remaining_ r) (get_buffer_called_ r) e (eof_ r).

Definition set_max_size (r : t) (m : Z) : t :=
  mk (self r) (waitable r) (max_buffers_ r) (buffers_ r) (size_ r) m
     (start_offset_ r) (remaining_ r) (get_buffer_called_ r) (error_ r) (eof_ r).

Definition set_waitable (r : t) (w : aio_waitable.t) : t :=
  mk (self r) w (max_buffers_ r) (buffers_ r) (size_ r) (max_size_ r)
     (start_offset_ r) (remaining_ r) (get_buffer_called_ r) (error_ r) (eof_ r).

(** The virtual functions [seek] calls, for a class that derives from
    [reader_base] and adds members of type [D]. [do_seek] gives its
    result and the state it leaves. *)
Record virtuals (D : Type) : Type := mk_virtuals {
  seekable : t -> D -> bool;
  do_seek : t -> D -> bool * t * D
}.
Arguments mk_virtuals {D} _ _.
Arguments seekable {D} _ _ _.
Arguments do_seek {D} _ _ _.

(** The defaults of the base class. *)
Definition base_virtuals (D : Type) : virtuals D :=
  mk_virtuals (fun _ _ => false) (fun r d => (false, r, d)).

(** The range [seek] settles on: [nosize] for the offset is the current
    offset (0 when none was set), and then [nosize] for the size is the
    current size. *)
Definition seek_offset (r : t) (offset : Z) : Z :=
  if offset =? nosize
  then (if start_offset_ r =? nosize then 0 else start_offset_ r)
  else offset.

Definition seek_size (r : t) (offset size : Z) : Z :=
  if (offset =? nosize) && (size =? nosize) then size_ r else size.

(** Step 2 of [seek]: whether the range [offset], [size] differs from the
    current one, or buffers were handed out already. *)
Definition changes (r : t) (offset size : Z) : bool :=
  get_buffer_called_ r
  || negb (offset =? start_offset_ r)
  || (if size =? nosize
      then negb (wrap (offset + size_ r) =? max_size_ r)
      else negb (size =? size_ r)).

(** The size [seek] installs: the given one, or what lies between [offset]
    and the end of the source, or [nosize] when the end is not known. *)
Definition seek_new_size (r : t) (offset size : Z) : Z :=
  if negb (size =? nosize) then size
  else if negb (max_size_ r =? nosize) then wrap (max_size_ r - offset)
  else max_size_ r.

(** [seek(offset, size)]. The result is the returned [bool], the reader,
    the members of the derived class and the pool (queued leases go back
    to it). *)
Definition seek {D : Type} (v : virtuals D) (r : t) (d : D)
           (pool : aio_buffer_pool.t) (offset size : Z)
  : bool * t * D * aio_buffer_pool.t :=
  (* Step 1: sanity checks *)
  let size := seek_size r offset size in
  let offset := seek_offset r offset in
  if negb (size =? nosize) && (wrap (nosize - size) <=? offset) then (false, r, d, pool)
  else if negb (size =? nosize) && (wrap (offset + size) >? max_size_ r) then (false, r, d, pool)
  else if error_ r then (false, r, d, pool)
  else
    (* Step 2: is anything changing? *)
    if negb (changes r offset size) then (true, r, d, pool)
    else if negb (seekable v r d) && (negb (start_offset_ r =? nosize) || negb (offset =? 0))
    then (false, r, d, pool)
    else
      let pool1 := aio_buffer_pool.remove_waiter pool (self r) in
      let w1 := aio_waitable.remove_waiters (waitable r) in
      let pool2 := aio_buffer_pool.release_all pool1 (buffers_ r) in
      let new_size := seek_new_size r offset size in
      let r1 := mk (self r) w1 (max_buffers_ r) [] new_size (max_size_ r)
                   offset new_size false (error_ r) (new_size =? 0) in
      match do_seek v r1 d with
      | (res, r2, d2) => (res, r2, d2, pool2)
      end.

(** [rewind()]. *)
Definition rewind {D : Type} (v : virtuals D) (r : t) (d : D) (pool : aio_buffer_pool.t)
  : bool * t * D * aio_buffer_pool.t :=
  seek v r d pool (start_offset_ r) (size_ r).

(** [error()]. *)
Definition error (r : t) : bool := error_ r.

(** [get_buffer(aio_waiter & h)] around the virtual [do_get_buffer]. *)
Definition get_buffer
           (do_get_buffer : t -> aio_buffer_pool.t -> aio_result * buffer_lease * t * aio_buffer_pool.t)
           (r : t) (pool : aio_buffer_pool.t) (h : nat)
  : aio_result * buffer_lease * t * aio_buffer_pool.t :=
  match do_get_buffer r pool with
  | (wait, b, r1, pool1) =>
      (wait, b, set_waitable r1 (aio_waitable.add_waiter (waitable r1) h), pool1)
  | other => other
  end.

(** [close()] for a reader whose [do_close] leaves the base state alone. *)
Definition close (r : t) (pool : aio_buffer_pool.t) : t * aio_buffer_pool.t :=
  let pool1 := aio_buffer_pool.remove_waiter pool (self r) in
  let pool2 := aio_buffer_pool.release_all pool1 (buffers_ r) in
  (mk (self r) (aio_waitable.remove_waiters (waitable r)) (max_buffers_ r) []
      (size_ r) (max_size_ r) (start_offset_ r) (remaining_ r)
      (get_buffer_called_ r) (error_ r) (eof_ r),
   pool2).

End reader_base.

(** ** view_reader and string_reader *)

(** A [std::string_view]: where the characters are and how many. *)
Record string_view : Type := mk_view {
  view_data : Z;
  view_size : Z
}.

Module view_reader.

Record t : Type := mk {
  base : reader_base.t;
  view_ : string_view
}.

(** The constructor: [reader_base(name, pool, 1)], then
    [size_ = max_size_ = remaining_ = view_.size()] and [eof_] when that is
    zero. No other member is assigned. *)
Definition construct (self : nat) (data : string_view) : t :=
  let b := reader_base.construct self 1 in
  let n := view_size data in
  mk (reader_base.mk (reader_base.self b) (reader_base.waitable b)
        (reader_base.max_buffers_ b) (reader_base.buffers_ b)
        n n (reader_base.start_offset_ b) n
        (reader_base.get_buffer_called_ b) (reader_base.error_ b)
        (if n =? 0 then true else reader_base.eof_ b))
     data.

(** [seekable()] is [true] and [do_seek] returns [true]. *)
Definition virtuals : reader_base.virtuals string_view :=
  reader_base.mk_virtuals (fun _ _ => true) (fun r d => (true, r, d)).

(** [do_get_buffer]: one buffer from the pool, filled from
    [view_.data() + start_offset_ + size_ - remaining_]. *)
Definition do_get_buffer (m : memory) (view : string_view)
           (r : reader_base.t) (pool : aio_buffer_pool.t)
  : aio_result * buffer_lease * reader_base.t * aio_buffer_pool.t :=
  if reader_base.error_ r then (error, empty_lease, r, pool)
  else if reader_base.eof_ r then (ok, empty_lease, r, pool)
  else
    let (b, pool1) := aio_buffer_pool.get_buffer pool (reader_base.self r) in
    if negb (lease_pool b) then (wait, empty_lease, r, pool1)
    else
      let remaining := reader_base.remaining_ r in
      let capacity := nb_capacity (lease_buffer b) in
      let to_read :=
        if negb (remaining =? nosize) && (remaining <? capacity)
        then remaining else capacity in
      let src :=
        wrap (wrap (wrap (view_data view + reader_base.start_offset_ r)
                    + reader_base.size_ r) - remaining) in
      let b1 := mk_lease
                  (nonowning_buffer_ops.append (lease_buffer b)
                     (load m src (Z.to_nat to_read)))
                  (lease_pool b) in
      let remaining1 := wrap (remaining - to_read) in
      let r1 := reader_base.mk (reader_base.self r) (reader_base.waitable r)
                  (reader_base.max_buffers_ r) (reader_base.buffers_ r)
                  (reader_base.size_ r) (reader_base.max_size_ r)
                  (reader_base.start_offset_ r) remaining1
                  true (reader_base.error_ r)
                  (if remaining1 =? 0 then true else reader_base.eof_ r) in
      (ok, b1, r1, pool1).

(** [get_buffer] of the base class on a view reader. *)
Definition get_buffer (m : memory) (r : t) (pool : aio_buffer_pool.t) (h : nat)
  : aio_result * buffer_lease * t * aio_buffer_pool.t :=
  match reader_base.get_buffer (do_get_buffer m (view_ r)) (base r) pool h with
  | (res, b, r1, pool1) => (res, b, mk r1 (view_ r), pool1)
  end.

Definition seek (r : t) (pool : aio_buffer_pool.t) (offset size : Z)
  : bool * t * aio_buffer_pool.t :=
  match reader_base.seek virtuals (base r) (view_ r) pool offset size with
  | (res, r1, v1, pool1) => (res, mk r1 v1, pool1)
  end.

End view_reader.

(** [view_reader_factory::open(pool, offset, size, max_buffers)]: a seek only
    when an offset or a size is given. *)
Definition view_reader_factory_open (self : nat) (view : string_view)
           (pool : aio_buffer_pool.t) (offset size : Z)
  : option view_reader.t * aio_buffer_pool.t :=
  let ret := view_reader.construct self view in
  if negb (offset =? 0) || negb (size =? nosize) then
    match view_reader.seek ret pool offset size with
    | (true, r, pool1) => (Some r, pool1)
    | (false, _, pool1) => (None, pool1)
    end
  else (Some ret, pool).

(** [string_reader] has the text of [view_reader] with [data_], its own copy
    of the string, for [view_]; the copy is the view of where it is stored. *)
Module string_reader.

Definition t : Type := view_reader.t.

Definition construct (self : nat) (data_ : string_view) : t :=
  view_reader.construct self data_.

Definition do_get_buffer := view_reader.do_get_buffer.

Definition get_buffer := view_reader.get_buffer.

End string_reader.

(** ** The blocking file capability *)

(** Modelled from the spec: file.hpp and local_filesys.hpp are not part of
    the sources. The spec lists the capability the aio layer consumes:
    [size], [seek], [read], [write], [truncate], [fsync],
    [set_modification_time], [position], [close]. A file is its bytes, the
    position of the handle and what the device answers. *)
Record file : Type := mk_file {
  f_open : bool;              (* [operator bool] of the handle *)
  f_bytes : list byte;
  f_pos : Z;
  f_size_known : bool;        (* [size()] is nonnegative *)
  f_io_ok : bool;             (* [read], [write] and [fsync] succeed *)
  f_mtime : option Z
}.

Module file_ops.

Definition len (f : file) : Z := Z.of_nat (length (f_bytes f)).

(** [size()]: the length, or -1. *)
Definition size (f : file) : Z :=
  if f_open f && f_size_known f then len f else -1.

Definition position (f : file) : Z := if f_open f then f_pos f else -1.

(** [seek(offset, file::begin)]: the new position, or -1. *)
Definition seek (f : file) (offset : Z) : Z * file :=
  if f_open f && (0 <=? offset)
  then (offset, mk_file (f_open f) (f_bytes f) offset (f_size_known f) (f_io_ok f) (f_mtime f))
  else (-1, f).

(** [read(dst, n)]: up to [n] bytes from the position on. *)
Definition read (f : file) (n : Z) : Z * list byte * file :=
  if f_open f && f_io_ok f then
    let got := firstn (Z.to_nat n) (skipn (Z.to_nat (f_pos f)) (f_bytes f)) in
    let r := Z.of_nat (length got) in
    (r, got, mk_file (f_open f) (f_bytes f) (f_pos f + r) (f_size_known f) (f_io_ok f) (f_mtime f))
  else (-1, [], f).

(** [write(src, n)]: the bytes replace what is at the position and extend
    the file behind its end. *)
Definition write (f : file) (src : list byte) : Z * file :=
  if f_open f && f_io_ok f then
    let n := Z.of_nat (length src) in
    let before := firstn (Z.to_nat (f_pos f)) (f_bytes f) in
    let after := skipn (Z.to_nat (f_pos f) + length src) (f_bytes f) in
    (n, mk_file (f_open f) (before ++ src ++ after) (f_pos f + n)
          (f_size_known f) (f_io_ok f) (f_mtime f))
  else (-1, f).

(** [truncate()]: the file ends at the position. *)
Definition truncate (f : file) : bool * file :=
  if f_open f then
    let kept := firstn (Z.to_nat (f_pos f)) (f_bytes f) in
    let pad := repeat Byte.x00 (Z.to_nat (f_pos f) - length kept) in
    (true, mk_file (f_open f) (kept ++ pad) (f_pos f) (f_size_known f) (f_io_ok f) (f_mtime f))
  else (false, f).

Definition fsync (f : file) : bool := f_open f && f_io_ok f.

(** [set_modification_time(t)]: a valid time on an open file is taken. *)
Definition set_modification_time (f : file) (t : option Z) : bool * file :=
  match t with
  | Some _ =>
      if f_open f
      then (true, mk_file (f_open f) (f_bytes f) (f_pos f) (f_size_known f) (f_io_ok f) t)
      else (false, f)
  | None => (false, f)
  end.

Definition close (f : file) : file :=
  mk_file false (f_bytes f) 0 (f_size_known f) (f_io_ok f) (f_mtime f).

End file_ops.

(** The state of a joinable [async_task] and of the thread behind it. *)
Inductive task : Type :=
| no_task        (* nothing was spawned, or the task was joined *)
| at_loop_head   (* the worker holds or is about to take the mutex *)
| in_wait        (* the worker is inside [cond_.wait(l)] *)
| returned.      (* [entry()] has returned *)

(** ** threaded_reader *)

Module threaded_reader.

Record t : Type := mk {
  base : reader_base.t;
  cond_ : bool;    (* [condition]: signalled and not yet consumed by a wait *)
  task_ : task;
  quit_ : bool
}.

Definition construct (self : nat) (max_buffers : Z) : t :=
  mk (reader_base.construct self max_buffers) false no_task false.

Definition set_base (r : t) (b : reader_base.t) : t :=
  mk b (cond_ r) (task_ r) (quit_ r).

Definition set_task (r : t) (k : task) : t :=
  mk (base r) (cond_ r) k (quit_ r).

Definition set_cond (r : t) (c : bool) : t :=
  mk (base r) c (task_ r) (quit_ r).

(** [wakeup(l)] is [cond_.signal(l)]. *)
Definition wakeup (r : t) : t := set_cond r true.

(** [do_get_buffer]: queued buffers are handed out first; [error_] and
    [eof_] are looked at when the queue is empty. *)
Definition do_get_buffer (r : t) : aio_result * buffer_lease * t :=
  let b := base r in
  match reader_base.buffers_ b with
  | [] =>
      if reader_base.error_ b then (error, empty_lease, r)
      else if reader_base.eof_ b then (ok, empty_lease, r)
      else (wait, empty_lease, r)
  | front :: rest =>
      let w := Z.of_nat (length (reader_base.buffers_ b)) =? reader_base.max_buffers_ b in
      let b1 := reader_base.mk (reader_base.self b) (reader_base.waitable b)
                  (reader_base.max_buffers_ b) rest
                  (reader_base.size_ b) (reader_base.max_size_ b)
                  (reader_base.start_offset_ b) (reader_base.remaining_ b)
                  true (reader_base.error_ b) (reader_base.eof_ b) in
      let r1 := set_base r b1 in
      (ok, front, if w then wakeup r1 else r1)
  end.

(** [get_buffer(aio_waiter & h)]. *)
Definition get_buffer (r : t) (h : nat) : aio_result * buffer_lease * t :=
  match do_get_buffer r with
  | (wait, b, r1) =>
      (wait, b,
       set_base r1
         (reader_base.set_waitable (base r1)
            (aio_waitable.add_waiter (reader_base.waitable (base r1)) h)))
  | other => other
  end.

End threaded_reader.

(** ** file_reader *)

(** [static_cast<int64_t>] of a 64-bit unsigned value. *)
Definition to_int64 (z : Z) : Z := if z <? 2 ^ 63 then z else z - modulus.

Module file_reader.

Record t : Type := mk {
  tr : threaded_reader.t;
  file_ : file;
  can_spawn : bool     (* [thread_pool::spawn] gives a task *)
}.

(** The members [seek] does not know: those of [threaded_reader] and of
    [file_reader]. *)
Record members : Type := mk_members {
  m_cond : bool;
  m_task : task;
  m_quit : bool;
  m_file : file;
  m_can_spawn : bool
}.

Definition members_of (r : t) : members :=
  mk_members (threaded_reader.cond_ (tr r)) (threaded_reader.task_ (tr r))
             (threaded_reader.quit_ (tr r)) (file_ r) (can_spawn r).

Definition assemble (b : reader_base.t) (d : members) : t :=
  mk (threaded_reader.mk b (m_cond d) (m_task d) (m_quit d)) (m_file d) (m_can_spawn d).

Definition base (r : t) : reader_base.t := threaded_reader.base (tr r).

(** [seekable()]. *)
Definition seekable (b : reader_base.t) (_ : members) : bool :=
  negb (reader_base.max_size_ b =? nosize).

(** [do_seek]: the worker is told to quit and joined, the file is
    positioned at [start_offset_], and a worker is spawned unless the
    range is empty. A worker inside [cond_.wait] takes the signal with
    it; otherwise the signal stays. *)
Definition do_seek (b : reader_base.t) (d : members) : bool * reader_base.t * members :=
  let cond1 := match m_task d with in_wait => false | _ => true end in
  let want := to_int64 (reader_base.start_offset_ b) in
  let (pos, f1) := file_ops.seek (m_file d) want in
  if negb (pos =? want) then
    (false, b, mk_members cond1 no_task false f1 (m_can_spawn d))
  else if negb (reader_base.eof_ b) then
    if m_can_spawn d
    then (true, b, mk_members cond1 at_loop_head false f1 (m_can_spawn d))
    else (false, b, mk_members cond1 no_task false f1 (m_can_spawn d))
  else (true, b, mk_members cond1 no_task false f1 (m_can_spawn d)).

Definition virtuals : reader_base.virtuals members :=
  reader_base.mk_virtuals seekable do_seek.

Definition seek (r : t) (pool : aio_buffer_pool.t) (offset size : Z)
  : bool * t * aio_buffer_pool.t :=
  match reader_base.seek virtuals (base r) (members_of r) pool offset size with
  | (res, b1, d1, pool1) => (res, assemble b1 d1, pool1)
  end.

(** The constructor (the overload [file_reader_factory::open] uses). *)
Definition construct (self : nat) (pool : aio_buffer_pool.t) (f : file)
           (can_spawn : bool) (offset size max_buffers : Z)
  : t * aio_buffer_pool.t :=
  let r0 := mk (threaded_reader.construct self max_buffers) f can_spawn in
  if f_open f then
    let s := file_ops.size f in
    let r1 := if 0 <=? s
              then assemble (reader_base.set_max_size (base r0) s) (members_of r0)
              else r0 in
    match seek r1 pool offset size with
    | (true, r2, pool1) => (r2, pool1)
    | (false, r2, pool1) =>
        (assemble (reader_base.set_error (base r2) true) (members_of r2), pool1)
    end
  else (assemble (reader_base.set_error (base r0) true) (members_of r0), pool).

(** [file_reader_factory::open]: no reader when the file cannot be opened
    or the reader is in error. *)
Definition factory_open (self : nat) (pool : aio_buffer_pool.t) (f : file)
           (can_spawn : bool) (offset size max_buffers : Z)
  : option t * aio_buffer_pool.t :=
  let max_buffers := if max_buffers =? 0 then 4 else max_buffers in
  if negb (f_open f) then (None, pool)
  else
    let (r, pool1) := construct self pool f can_spawn offset size max_buffers in
    if reader_base.error (base r) then (None, pool1) else (Some r, pool1).

(** The inner loop of [entry()], [while (b->size() < b->capacity())]: the
    file, the buffer, [remaining_], [error_] and [eof_] after it. *)
Fixpoint read_loop (fuel : nat) (f : file) (b : nonowning_buffer)
         (remaining : Z) (err eof : bool)
  : file * nonowning_buffer * Z * bool * bool :=
  match fuel with
  | O => (f, b, remaining, err, eof)
  | S fuel' =>
      if nonowning_buffer_ops.size b <? nb_capacity b then
        let room := wrap (nb_capacity b - nonowning_buffer_ops.size b) in
        let to_read :=
          if negb (remaining =? nosize) && (room >? remaining) then remaining else room in
        match (if to_read =? 0 then (0, [], f) else file_ops.read f to_read) with
        | (r, got, f1) =>
            if r <? 0 then (f1, b, remaining, true, eof)
            else if r =? 0 then
              if negb (remaining =? 0) && negb (remaining =? nosize)
              then (f1, b, remaining, true, eof)
              else (f1, b, remaining, err, true)
            else
              read_loop fuel' f1 (nonowning_buffer_ops.append b got)
                        (if negb (remaining =? nosize) then wrap (remaining - r) else remaining)
                        err eof
        end
      else (f, b, remaining, err, eof)
  end.

(** [cond_.wait(l)] at the loop head: a pending signal is consumed and the
    loop goes on, else the worker sleeps. *)
Definition cond_wait (r : t) : t :=
  if threaded_reader.cond_ (tr r)
  then mk (threaded_reader.set_cond (tr r) false) (file_ r) (can_spawn r)
  else mk (threaded_reader.set_task (tr r) in_wait) (file_ r) (can_spawn r).

(** [on_buffer_availability]: the pool notified this reader. *)
Definition notified (r : t) (who : aio_waitable.signalled) : t :=
  match who with
  | aio_waitable.waiter h =>
      if Nat.eqb h (reader_base.self (base r))
      then mk (threaded_reader.wakeup (tr r)) (file_ r) (can_spawn r)
      else r
  | _ => r
  end.

(** One turn of the worker: one pass through the body of the outer loop of
    [entry()], run without another thread in between. [None]: the worker
    sleeps with no signal pending, or there is no running worker. The list
    holds whom the reader notified through [signal_availibility]. *)
Definition entry_step (r : t) (pool : aio_buffer_pool.t)
  : option (t * aio_buffer_pool.t * list aio_waitable.signalled) :=
  let b := base r in
  match threaded_reader.task_ (tr r) with
  | no_task | returned => None
  | in_wait =>
      if threaded_reader.cond_ (tr r)
      then Some (mk (threaded_reader.mk b false at_loop_head (threaded_reader.quit_ (tr r)))
                    (file_ r) (can_spawn r), pool, [])
      else None
  | at_loop_head =>
      if threaded_reader.quit_ (tr r) || reader_base.error_ b then
        Some (mk (threaded_reader.set_task (tr r) returned) (file_ r) (can_spawn r), pool, [])
      else if Z.of_nat (length (reader_base.buffers_ b)) =? reader_base.max_buffers_ b then
        Some (cond_wait r, pool, [])
      else
        let (lease, pool1) := aio_buffer_pool.get_buffer pool (reader_base.self b) in
        if negb (lease_pool lease) then Some (cond_wait r, pool1, [])
        else
          match read_loop (S (Z.to_nat (nb_capacity (lease_buffer lease))))
                          (file_ r) (lease_buffer lease)
                          (reader_base.remaining_ b) (reader_base.error_ b) (reader_base.eof_ b)
          with
          | (f1, buf, remaining1, err1, eof1) =>
              let queued := negb (nonowning_buffer_ops.empty buf) in
              let buffers1 :=
                if queued then reader_base.buffers_ b ++ [mk_lease buf true]
                else reader_base.buffers_ b in
              let first := queued && (Z.of_nat (length buffers1) =? 1) in
              let (who1, w1) :=
                if first then aio_waitable.signal_availibility (reader_base.waitable b)
                else (aio_waitable.nobody, reader_base.waitable b) in
              let last := (eof1 || err1) && negb (threaded_reader.quit_ (tr r))
                          && (Z.of_nat (length buffers1) =? 0) in
              let (who2, w2) :=
                if last then aio_waitable.signal_availibility w1
                else (aio_waitable.nobody, w1) in
              let b1 := reader_base.mk (reader_base.self b) w2
                          (reader_base.max_buffers_ b) buffers1
                          (reader_base.size_ b) (reader_base.max_size_ b)
                          (reader_base.start_offset_ b) remaining1
                          (reader_base.get_buffer_called_ b) err1 eof1 in
              let r1 := mk (threaded_reader.mk b1 (threaded_reader.cond_ (tr r))
                              (if last then returned else at_loop_head)
                              (threaded_reader.quit_ (tr r)))
                           f1 (can_spawn r) in
              (* the local lease goes out of scope *)
              let (who3, pool2) :=
                if queued then (aio_waitable.nobody, pool1)
                else aio_buffer_pool.release pool1 buf in
              Some (notified r1 who3, pool2, [who1; who2])
          end
  end.

(** [get_buffer] of the base class on a file reader. *)
Definition get_buffer (r : t) (h : nat) : aio_result * buffer_lease * t :=
  match threaded_reader.get_buffer (tr r) h with
  | (res, b, tr1) => (res, b, mk tr1 (file_ r) (can_spawn r))
  end.

End file_reader.

(** ** writer_base *)

Module writer_base.

Record t : Type := mk {
  waitable : aio_waitable.t;
  max_buffers_ : Z;
  buffers_ : list buffer_lease;
  error_ : bool;
  finalizing_ : Z;          (* [uint8_t]: 0, 1 or 2 *)
  progress_ : list Z        (* what [progress_cb_] was called with, latest first *)
}.

(** The constructor [writer_base(name, pool, progress_cb, max_buffers)]. *)
Definition construct (max_buffers : Z) : t :=
  mk aio_waitable.init (if max_buffers =? 0 then 1 else max_buffers) [] false 0 [].

Definition set_waitable (w : t) (x : aio_waitable.t) : t :=
  mk x (max_buffers_ w) (buffers_ w) (error_ w) (finalizing_ w) (progress_ w).

Definition set_buffers (w : t) (bs : list buffer_lease) : t :=
  mk (waitable w) (max_buffers_ w) bs (error_ w) (finalizing_ w) (progress_ w).

Definition set_error (w : t) (e : bool) : t :=
  mk (waitable w) (max_buffers_ w) (buffers_ w) e (finalizing_ w) (progress_ w).

Definition set_finalizing (w : t) (x : Z) : t :=
  mk (waitable w) (max_buffers_ w) (buffers_ w) (error_ w) x (progress_ w).

(** [progress_cb_(this, written)]. *)
Definition progress (w : t) (written : Z) : t :=
  mk (waitable w) (max_buffers_ w) (buffers_ w) (error_ w) (finalizing_ w)
     (written :: progress_ w).

Definition add_waiter (w : t) (h : nat) : t :=
  set_waitable w (aio_waitable.add_waiter (waitable w) h).

(** [!buffer || !*buffer]: no lease, or a lease on an empty buffer. *)
Definition nothing_to_add (b : buffer_lease) : bool :=
  negb (lease_pool b) || negb (nonowning_buffer_ops.to_bool (lease_buffer b)).

End writer_base.

(** ** buffer_writer *)

Module buffer_writer.

Record t : Type := mk {
  base : writer_base.t;
  buffer_ : list byte;      (* the client's [fz::buffer] *)
  size_limit_ : Z
}.

Definition construct (buffer : list byte) (size_limit : Z) : t :=
  mk (writer_base.construct 1) buffer size_limit.

Definition buffer_size (w : t) : Z := Z.of_nat (length (buffer_ w)).

(** [preallocate(size)]. *)
Definition preallocate (w : t) (size : Z) : aio_result * t :=
  if size >? size_limit_ w then (error, w) else (ok, w).

(** [do_add_buffer]: the lease stays with the caller. *)
Definition do_add_buffer (w : t) (b : buffer_lease) : aio_result * t :=
  let n := nonowning_buffer_ops.size (lease_buffer b) in
  if wrap (size_limit_ w - buffer_size w) <? n then
    (error, mk (writer_base.set_error (base w) true) (buffer_ w) (size_limit_ w))
  else
    (ok, mk (writer_base.progress (base w) n)
            (buffer_ w ++ nb_bytes (lease_buffer b)) (size_limit_ w)).

(** [do_finalize]. *)
Definition do_finalize (w : t) : aio_result * t :=
  (if writer_base.error_ (base w) then error else ok, w).

(** [add_buffer(buffer_lease && b, aio_waiter & h)] of the base class.
    The last component is the lease the caller is left with. *)
Definition add_buffer (w : t) (b : buffer_lease) (h : nat)
  : aio_result * t * buffer_lease :=
  if writer_base.error_ (base w) then (error, w, b)
  else if writer_base.nothing_to_add b then (ok, w, b)
  else
    match do_add_buffer w b with
    | (wait, w1) =>
        (wait, mk (writer_base.add_waiter (base w1) h) (buffer_ w1) (size_limit_ w1), b)
    | (r, w1) => (r, w1, b)
    end.

(** [finalize(aio_waiter & h)] of the base class. *)
Definition finalize (w : t) (h : nat) : aio_result * t :=
  match do_finalize w with
  | (wait, w1) =>
      (wait, mk (writer_base.add_waiter (base w1) h) (buffer_ w1) (size_limit_ w1))
  | other => other
  end.

End buffer_writer.

(** [buffer_writer_factory::open]: only at offset 0. *)
Definition buffer_writer_factory_open (buffer : list byte) (size_limit offset : Z)
  : option buffer_writer.t :=
  if negb (offset =? 0) then None else Some (buffer_writer.construct buffer size_limit).

(** ** threaded_writer and file_writer *)

Module file_writer.

Record t : Type := mk {
  base : writer_base.t;
  (* threaded_writer *)
  cond_ : bool;
  task_ : task;
  quit_ : bool;
  (* file_writer *)
  file_ : file;
  fsync_ : bool;
  preallocated_ : bool;
  (* the directory entry [name_] *)
  on_disk : bool
}.

Definition set_base (w : t) (b : writer_base.t) : t :=
  mk b (cond_ w) (task_ w) (quit_ w) (file_ w) (fsync_ w) (preallocated_ w) (on_disk w).

Definition set_cond (w : t) (c : bool) : t :=
  mk (base w) c (task_ w) (quit_ w) (file_ w) (fsync_ w) (preallocated_ w) (on_disk w).

Definition set_task (w : t) (k : task) : t :=
  mk (base w) (cond_ w) k (quit_ w) (file_ w) (fsync_ w) (preallocated_ w) (on_disk w).

Definition set_file (w : t) (f : file) : t :=
  mk (base w) (cond_ w) (task_ w) (quit_ w) f (fsync_ w) (preallocated_ w) (on_disk w).

(** [wakeup(l)] is [cond_.signal(l)]. *)
Definition wakeup (w : t) : t := set_cond w true.

(** The constructor: a worker is spawned for an open file; without file
    or worker the file is closed and the writer is in error. *)
Definition construct (f : file) (can_spawn fsync on_disk : bool) (max_buffers : Z) : t :=
  let b := writer_base.construct max_buffers in
  let k := if f_open f && can_spawn then at_loop_head else no_task in
  if negb (f_open f) || negb (f_open f && can_spawn)
  then mk (writer_base.set_error b true) false k false (file_ops.close f) fsync false on_disk
  else mk b false k false f fsync false on_disk.

(** [threaded_writer::do_add_buffer]: the lease moves into the queue. *)
Definition do_add_buffer (w : t) (b : buffer_lease) : aio_result * t :=
  let buffers1 := writer_base.buffers_ (base w) ++ [b] in
  let w1 := set_base w (writer_base.set_buffers (base w) buffers1) in
  let w2 := if Z.of_nat (length buffers1) =? 1 then wakeup w1 else w1 in
  if Z.of_nat (length buffers1) >=? writer_base.max_buffers_ (base w)
  then (wait, w2) else (ok, w2).

(** [file_writer::continue_finalize]. *)
Definition continue_finalize (w : t) : aio_result * t :=
  if negb (f_open (file_ w)) then
    (error, set_base w (writer_base.set_error (base w) true))
  else
    let empty := match writer_base.buffers_ (base w) with [] => true | _ => false end in
    let w1 := if fsync_ w && empty then wakeup w else w in
    if negb empty || fsync_ w then (wait, w1) else (ok, w1).

(** [threaded_writer::do_finalize]. *)
Definition do_finalize (w : t) : aio_result * t :=
  if writer_base.error_ (base w) then (error, w)
  else if writer_base.finalizing_ (base w) =? 2 then (ok, w)
  else continue_finalize (set_base w (writer_base.set_finalizing (base w) 1)).

(** [add_buffer(buffer_lease && b, aio_waiter & h)] of the base class.
    The last component is the lease the caller is left with. *)
Definition add_buffer (w : t) (b : buffer_lease) (h : nat)
  : aio_result * t * buffer_lease :=
  if writer_base.error_ (base w) then (error, w, b)
  else if writer_base.nothing_to_add b then (ok, w, b)
  else
    match do_add_buffer w b with
    | (wait, w1) => (wait, set_base w1 (writer_base.add_waiter (base w1) h), empty_lease)
    | (r, w1) => (r, w1, empty_lease)
    end.

(** [finalize(aio_waiter & h)] of the base class. *)
Definition finalize (w : t) (h : nat) : aio_result * t :=
  match do_finalize w with
  | (wait, w1) => (wait, set_base w1 (writer_base.add_waiter (base w1) h))
  | other => other
  end.

(** [preallocate(size)]. *)
Definition preallocate (w : t) (size : Z) : aio_result * t :=
  let queued := match writer_base.buffers_ (base w) with [] => false | _ => true end in
  if writer_base.error_ (base w) || queued || negb (writer_base.finalizing_ (base w) =? 0)
  then (error, w)
  else
    let oldPos := file_ops.position (file_ w) in
    if oldPos <? 0 then (error, w)
    else
      let seek_offset := to_int64 (wrap (oldPos + size)) in
      let (p1, f1) := file_ops.seek (file_ w) seek_offset in
      let f2 := if p1 =? seek_offset then snd (file_ops.truncate f1) else f1 in
      let (p3, f3) := file_ops.seek f2 oldPos in
      if negb (p3 =? oldPos)
      then (error, set_base (set_file w f3) (writer_base.set_error (base w) true))
      else (ok, mk (base w) (cond_ w) (task_ w) (quit_ w) f3 (fsync_ w) true (on_disk w)).

(** [set_mtime(t)]; an invalid [datetime] is [None]. *)
Definition set_mtime (w : t) (time : option Z) : bool * t :=
  if writer_base.error_ (base w)
     || negb (writer_base.finalizing_ (base w) =? 2)
     || negb (f_open (file_ w))
  then (false, w)
  else
    let (res, f1) := file_ops.set_modification_time (file_ w) time in
    (res, set_file w f1).

(** [threaded_writer::do_close]: the worker is told to quit and joined. *)
Definition threaded_do_close (w : t) : t :=
  let cond1 := match task_ w with in_wait => false | _ => true end in
  mk (base w) cond1 no_task true (file_ w) (fsync_ w) (preallocated_ w) (on_disk w).

(** [file_writer::do_close]. *)
Definition do_close (w : t) : t :=
  let w1 := threaded_do_close w in
  if f_open (file_ w1) then
    let remove :=
      (writer_base.finalizing_ (base w1) =? 0) && (file_ops.position (file_ w1) =? 0) in
    let f1 := if negb remove && preallocated_ w1
              then snd (file_ops.truncate (file_ w1)) else file_ w1 in
    mk (base w1) (cond_ w1) (task_ w1) (quit_ w1) (file_ops.close f1)
       (fsync_ w1) (preallocated_ w1) (if remove then false else on_disk w1)
  else w1.

(** [writer_base::close()]: [do_close], then the waiters and the queued
    leases go. *)
Definition close (w : t) (pool : aio_buffer_pool.t) : t * aio_buffer_pool.t :=
  let w1 := do_close w in
  let pool1 := aio_buffer_pool.release_all pool (writer_base.buffers_ (base w1)) in
  (set_base w1
     (writer_base.set_buffers
        (writer_base.set_waitable (base w1) (aio_waitable.remove_waiters (writer_base.waitable (base w1))))
        []),
   pool1).

(** The inner loop of [entry()], [while (!b->empty())]: [None] when a
    write fails. *)
Fixpoint write_loop (fuel : nat) (f : file) (b : nonowning_buffer) (reported : list Z)
  : option (file * nonowning_buffer * list Z) :=
  match fuel with
  | O => Some (f, b, reported)
  | S fuel' =>
      if nonowning_buffer_ops.empty b then Some (f, b, reported)
      else
        let (written, f1) := file_ops.write f (nb_bytes b) in
        if written <=? 0 then None
        else write_loop fuel' f1 (nonowning_buffer_ops.consume b written) (written :: reported)
  end.

(** [cond_.wait(l)] at the loop head. *)
Definition cond_wait (w : t) : t :=
  if cond_ w then set_cond w false else set_task w in_wait.

(** One turn of the worker: one pass through the body of the loop of
    [entry()], run without another thread in between. [None]: the worker
    sleeps with no signal pending, or there is no running worker. The
    list holds whom the writer notified through [signal_availibility]. *)
Definition entry_step (w : t) (pool : aio_buffer_pool.t)
  : option (t * aio_buffer_pool.t * list aio_waitable.signalled) :=
  let b := base w in
  match task_ w with
  | no_task | returned => None
  | in_wait =>
      if cond_ w then Some (set_task (set_cond w false) at_loop_head, pool, []) else None
  | at_loop_head =>
      if quit_ w || writer_base.error_ b then Some (set_task w returned, pool, [])
      else
        match writer_base.buffers_ b with
        | [] =>
            if writer_base.finalizing_ b =? 1 then
              let err := fsync_ w && negb (file_ops.fsync (file_ w)) in
              let (who, wt) := aio_waitable.signal_availibility (writer_base.waitable b) in
              let b1 := writer_base.mk wt (writer_base.max_buffers_ b) []
                          (writer_base.error_ b || err) 2 (writer_base.progress_ b) in
              Some (set_task (set_base w b1) returned, pool, [who])
            else Some (cond_wait w, pool, [])
        | front :: rest =>
            match write_loop (S (length (nb_bytes (lease_buffer front))))
                             (file_ w) (lease_buffer front) (writer_base.progress_ b)
            with
            | None =>
                Some (set_task (set_base w (writer_base.set_error b true)) returned, pool, [])
            | Some (f1, buf, reported) =>
                let signal := Z.of_nat (length (writer_base.buffers_ b)) =? writer_base.max_buffers_ b in
                let pool1 := aio_buffer_pool.release_lease pool (mk_lease buf (lease_pool front)) in
                let (who, wt) :=
                  if signal then aio_waitable.signal_availibility (writer_base.waitable b)
                  else (aio_waitable.nobody, writer_base.waitable b) in
                let b1 := writer_base.mk wt (writer_base.max_buffers_ b) rest
                            (writer_base.error_ b) (writer_base.finalizing_ b) reported in
                Some (set_file (set_base w b1) f1, pool1, [who])
            end
        end
  end.

(** The worker runs until it sleeps or returns, or [fuel] turns are done. *)
Fixpoint run_worker (fuel : nat) (w : t) (pool : aio_buffer_pool.t)
  : t * aio_buffer_pool.t :=
  match fuel with
  | O => (w, pool)
  | S fuel' =>
      match entry_step w pool with
      | None => (w, pool)
      | Some (w1, pool1, _) => run_worker fuel' w1 pool1
      end
  end.

End file_writer.

(** What [file_writer_factory::open] finds under the name, and what the
    system lets it do. *)
Record disk : Type := mk_disk {
  disk_bytes : option (list byte);   (* the file under the name, if any *)
  disk_open_ok : bool;               (* opening for writing succeeds *)
  disk_io_ok : bool;
  disk_can_spawn : bool
}.

(** [file_writer_factory::open(pool, offset, progress_cb, max_buffers)]:
    [file::existing] for a nonzero offset, [file::empty] else; at a nonzero
    offset the file is positioned there and cut there. *)
Definition file_writer_factory_open (d : disk) (fsync : bool) (offset max_buffers : Z)
  : option file_writer.t :=
  let max_buffers := if max_buffers =? 0 then 4 else max_buffers in
  if negb (disk_open_ok d) then None
  else
    let kept := if negb (offset =? 0)
                then match disk_bytes d with Some bs => bs | None => [] end
                else [] in
    let f := mk_file true kept 0 true (disk_io_ok d) None in
    if negb (offset =? 0) then
      let seek := to_int64 offset in
      let (new_pos, f1) := file_ops.seek f seek in
      if negb (new_pos =? seek) then None
      else
        let (cut, f2) := file_ops.truncate f1 in
        if negb cut then None
        else Some (file_writer.construct f2 (disk_can_spawn d) fsync true max_buffers)
    else Some (file_writer.construct f (disk_can_spawn d) fsync true max_buffers).

(** ** Factory holders *)

(** [reader_factory_holder] and [writer_factory_holder] have the same text
    over [std::unique_ptr<reader_factory>] and
    [std::unique_ptr<writer_factory>]. Holders are objects with an address;
    [operator=] compares addresses, so the operations act on a store of
    holders. *)
Module factory_holder.

Section Holder.

(** The factory class and its [clone()]. *)
Variable factory : Type.
Variable clone : factory -> factory.

(** [impl_], with [None] for the null pointer. *)
Definition t : Type := option factory.

(** The holders in memory, by address. *)
Definition store : Type := nat -> t.

Definition put (s : store) (a : nat) (h : t) : store :=
  fun x => if Nat.eqb x a then h else s x.

(** [explicit operator bool]. *)
Definition to_bool (h : t) : bool :=
  match h with Some _ => true | None => false end.

(** The default constructor. *)
Definition construct_default : t := None.

(** [holder(holder const& op)]. *)
Definition construct_copy (s : store) (this op : nat) : store :=
  put s this (match s op with Some f => Some (clone f) | None => None end).

(** [holder(holder && op)]. *)
Definition construct_move (s : store) (this op : nat) : store :=
  put (put s this (s op)) op None.

(** [operator=(holder const& op)]. *)
Definition assign_copy (s : store) (this op : nat) : store :=
  if negb (Nat.eqb this op) then
    match s op with
    | Some f => put s this (Some (clone f))
    | None => s
    end
  else s.

(** [operator=(holder && op)]. *)
Definition assign_move (s : store) (this op : nat) : store :=
  if negb (Nat.eqb this op) then put (put s this (s op)) op None else s.

End Holder.

End factory_holder.

(** The reader factories of the library; [clone()] makes an equal factory. *)
Inductive reader_factory : Type :=
| file_reader_factory (name : string)
| view_reader_factory (name : string) (view : string_view)
| string_reader_factory (name : string) (data : list byte).

Definition reader_factory_clone (f : reader_factory) : reader_factory :=
  match f with
  | file_reader_factory n => file_reader_factory n
  | view_reader_factory n v => view_reader_factory n v
  | string_reader_factory n d => string_reader_factory n d
  end.

(** The writer factories of the library. *)
Inductive writer_factory : Type :=
| file_writer_factory (name : string) (fsync : bool)
| buffer_writer_factory (name : string) (size_limit : Z).

Definition writer_factory_clone (f : writer_factory) : writer_factory :=
  match f with
  | file_writer_factory n s => file_writer_factory n s
  | buffer_writer_factory n l => buffer_writer_factory n l
  end.

Module reader_factory_holder.
Definition t := factory_holder.t reader_factory.
Definition store := factory_holder.store reader_factory.
Definition to_bool := @factory_holder.to_bool reader_factory.
Definition assign_copy := factory_holder.assign_copy reader_factory reader_factory_clone.
Definition assign_move := @factory_holder.assign_move reader_factory.
Definition construct_move := @factory_holder.construct_move reader_factory.
End reader_factory_holder.

Module writer_factory_holder.
Definition t := factory_holder.t writer_factory.
Definition store := factory_holder.store writer_factory.
Definition to_bool := @factory_holder.to_bool writer_factory.
Definition assign_copy := factory_holder.assign_copy writer_factory writer_factory_clone.
Definition assign_move := @factory_holder.assign_move writer_factory.
Definition construct_move := @factory_holder.construct_move writer_factory.
End writer_factory_holder.

(** ** A view reader piped into a buffer writer *)

(** How the loop of a client ends (the handler of the demo program). *)
Inductive pipe_end : Type :=
| pipe_eof       (* [get_buffer] gave [ok] and no buffer *)
| pipe_wait      (* an operation gave [wait] *)
| pipe_error     (* an operation gave [error] *)
| pipe_more.     (* the turns ran out *)

(** [get_buffer], then [add_buffer] with the lease, which goes back to the
    pool at the end of the turn; at most [fuel] turns. *)
Fixpoint pipe (fuel : nat) (m : memory) (h : nat)
         (r : view_reader.t) (w : buffer_writer.t) (pool : aio_buffer_pool.t)
  : pipe_end * view_reader.t * buffer_writer.t * aio_buffer_pool.t :=
  match fuel with
  | O => (pipe_more, r, w, pool)
  | S fuel' =>
      match view_reader.get_buffer m r pool h with
      | (error, _, r1, pool1) => (pipe_error, r1, w, pool1)
      | (wait, _, r1, pool1) => (pipe_wait, r1, w, pool1)
      | (ok, b, r1, pool1) =>
          if negb (lease_pool b) then (pipe_eof, r1, w, pool1)
          else
            match buffer_writer.add_buffer w b h with
            | (error, w1, b1) => (pipe_error, r1, w1, aio_buffer_pool.release_lease pool1 b1)
            | (wait, w1, b1) => (pipe_wait, r1, w1, aio_buffer_pool.release_lease pool1 b1)
            | (ok, w1, b1) => pipe fuel' m h r1 w1 (aio_buffer_pool.release_lease pool1 b1)
            end
      end
  end.

(** A view over the bytes [s] at address [data]: memory holds [s] there. *)
Definition holds (m : memory) (data : Z) (s : list byte) : Prop :=
  load m data (length s) = s.

(** Memory with [s] at [data] and [fill] everywhere else. *)
Definition memory_with (fill : byte) (data : Z) (s : list byte) : memory :=
  fun a =>
    if (data <=? a) && (a <? data + Z.of_nat (length s))
    then nth (Z.to_nat (a - data)) s fill
    else fill.

(** ** get_ipv6_long_form *)

Module ipv6.

(** The instance for [std::string_view]: [Char] is [char]. *)
Definition Char : Type := ascii.
Definition String : Type := list ascii.

Definition colon : Char := ":"%char.

Definition code (c : Char) : Z := Z.of_N (N_of_ascii c).

(** [(c >= '0' && c <= '9') || (c >= 'a' && c <= 'f')]. *)
Definition lower_hex (c : Char) : bool :=
  ((48 <=? code c) && (code c <=? 57)) || ((97 <=? code c) && (code c <=? 102)).

(** [c >= 'A' && c <= 'F']. *)
Definition upper_hex (c : Char) : bool := (65 <=? code c) && (code c <=? 70).

(** What the copy loops store for [c]; [None] is an invalid character. *)
Definition stored (c : Char) : option Char :=
  if lower_hex c then Some c
  else if upper_hex c then Some (ascii_of_N (N_of_ascii c + 32))
  else None.

Definition size (s : String) : Z := Z.of_nat (length s).

(** [short_address[i]]. *)
Definition at_ (s : String) (i : Z) : Char := nth (Z.to_nat i) s zero.

(** [short_address.find(':', start)]. *)
Fixpoint find_from (s : String) (i : Z) : Z :=
  match s with
  | [] => npos
  | c :: rest => if Ascii.eqb c colon then i else find_from rest (i + 1)
  end.

Definition find (s : String) (start : Z) : Z :=
  find_from (skipn (Z.to_nat start) s) start.

(** [short_address.rfind(':', last)]: the last colon at or before [last]. *)
Fixpoint rfind_in (s : String) (i : Z) (found : Z) : Z :=
  match s with
  | [] => found
  | c :: rest => rfind_in rest (i + 1) (if Ascii.eqb c colon then i else found)
  end.

Definition rfind (s : String) (last : Z) : Z :=
  rfind_in (firstn (S (Z.to_nat last)) s) 0 npos.

(** [buf[i] = c]. *)
Fixpoint store_at (buf : list Char) (i : nat) (c : Char) : list Char :=
  match buf, i with
  | [], _ => []
  | _ :: rest, O => c :: rest
  | x :: rest, S i' => x :: store_at rest i' c
  end.

(** The initial [buf]: 0000:0000:0000:0000:0000:0000:0000:0000. *)
Definition initial_buf : list Char :=
  list_ascii_of_string "0000:0000:0000:0000:0000:0000:0000:0000".

(** The copy loop of the left half: the characters [chars] go to
    [out], [out + 1], ... *)
Fixpoint copy_up (chars : list Char) (buf : list Char) (out : Z) : option (list Char) :=
  match chars with
  | [] => Some buf
  | c :: rest =>
      match stored c with
      | None => None
      | Some c' => copy_up rest (store_at buf (Z.to_nat out) c') (out + 1)
      end
  end.

(** The copy loop of the right half: [chars] are read from the last one
    on, each stored after [--out]. *)
Fixpoint copy_down (chars : list Char) (buf : list Char) (out : Z) : option (list Char) :=
  match chars with
  | [] => Some buf
  | c :: rest =>
      match stored c with
      | None => None
      | Some c' => copy_down rest (store_at buf (Z.to_nat (out - 1)) c') (out - 1)
      end
  end.

(** The characters at [from], ..., [to - 1]. *)
Definition slice (s : String) (from to : Z) : list Char :=
  firstn (Z.to_nat (to - from)) (skipn (Z.to_nat from) s).

(** The loop of the left half, before a possible [::]. [None]: the
    function returns the empty string. Otherwise [buf], [left_segments]
    and [start] after the loop. *)
Fixpoint left_half (fuel : nat) (s : String) (end_ : Z)
         (buf : list Char) (left_segments start : Z)
  : option (list Char * Z * Z) :=
  match fuel with
  | O => Some (buf, left_segments, start)
  | S fuel' =>
      if (left_segments <? 8) && (start <? end_) then
        let found := find s start in
        let pos := if found =? npos then end_ else found in
        if pos =? start then
          if left_segments =? 0 then
            if negb (Ascii.eqb (at_ s (start + 1)) colon) then None
            else Some (buf, left_segments, pos + 1)
          else Some (buf, left_segments, pos)
        else
          let group_length := wrap (pos - start) in
          if group_length >? 4 then None
          else
            match copy_up (slice s start pos) buf (5 * left_segments + (4 - group_length)) with
            | None => None
            | Some buf1 => left_half fuel' s end_ buf1 (left_segments + 1) (pos + 1)
            end
      else Some (buf, left_segments, start)
  end.

(** The loop of the right half, after a possible [::]. [None]: the
    function returns the empty string. Otherwise [buf] and [end] after
    the loop. *)
Fixpoint right_half (fuel : nat) (s : String) (start left_segments : Z)
         (buf : list Char) (right_segments end_ : Z)
  : option (list Char * Z) :=
  match fuel with
  | O => Some (buf, end_)
  | S fuel' =>
      if (left_segments + right_segments <? 8) && (start <? end_) then
        let end1 := end_ - 1 in
        let pos := rfind s end1 in
        let group_length := wrap (end1 - pos) in
        if group_length =? 0 then
          if negb (left_segments =? 0) || negb (right_segments =? 0) then None
          else Some (buf, end1)
        else if group_length >? 4 then None
        else
          let chars := if pos <? end1 then rev (slice s (pos + 1) (end1 + 1)) else [] in
          match copy_down chars buf (5 * (8 - right_segments) - 1) with
          | None => None
          | Some buf1 => right_half fuel' s start left_segments buf1 (right_segments + 1) pos
          end
      else Some (buf, end_)
  end.

(** [do_get_ipv6_long_form]; the empty string is [[]]. Each loop runs at
    most eight times before its segment count stops it. *)
Definition do_get_ipv6_long_form (short_address : String) : String :=
  let bracket :=
    match short_address with
    | c :: _ => Ascii.eqb c "["%char
    | [] => false
    end in
  if bracket && negb (Ascii.eqb (last short_address zero) "]"%char) then []
  else
    let start := if bracket then 1 else 0 in
    let end_ := if bracket then size short_address - 1 else size short_address in
    if (wrap (end_ - start) <? 2) || (wrap (end_ - start) >? 39) then []
    else
      match left_half 9 short_address end_ initial_buf 0 start with
      | None => []
      | Some (buf, left_segments, start1) =>
          match right_half 9 short_address start1 left_segments buf 0 end_ with
          | None => []
          | Some (buf1, end1) => if start1 <? end1 then [] else buf1
          end
      end.

(** [get_ipv6_long_form(std::string_view const&)]. *)
Definition get_ipv6_long_form (short_address : string) : string :=
  string_of_list_ascii (do_get_ipv6_long_form (list_ascii_of_string short_address)).

(** The four zeros of a group of the initial buffer. *)
Definition zeros : list Char := ["0"; "0"; "0"; "0"]%char.

(** A group of the long form: four characters out of [0-9a-f]. *)
Definition is_group (g : list Char) : Prop :=
  length g = 4%nat /\ Forall (fun c => lower_hex c = true) g.

(** Groups joined by colons. *)
Fixpoint join (groups : list (list Char)) : list Char :=
  match groups with
  | [] => []
  | [g] => g
  | g :: rest => g ++ colon :: join rest
  end.

(** The long form: eight groups of four lower-case hexadecimal digits
    with colons between them, 39 characters. *)
Definition is_long_form (s : String) : Prop :=
  exists groups, length groups = 8%nat /\ Forall is_group groups /\ s = join groups.

(** [s] has [::] at index [i]. *)
Definition double_colon_at (s : String) (i : nat) : Prop :=
  nth_error s i = Some colon /\ nth_error s (S i) = Some colon.

(** [s] contains [::] twice: at two different places. *)
Definition two_double_colons (s : String) : Prop :=
  exists i j, (i < j)%nat /\ double_colon_at s i /\ double_colon_at s j.

End ipv6.

(** ** Statements and inputs of the properties *)

(** The layout the specification gives a pool over a mapping at [base]:
    the mapping length, the free list (buffer [i] at offset
    [page + i * (rounded + page)] with the capacity asked for and nothing
    filled), and for each buffer that its offset is a multiple of the page
    size, that a page lies before it, that its capacity fits the rounded
    region and that a page of the mapping follows the region. *)
Definition laid_out (psz count buffer_size base : Z) (p : aio_buffer_pool.t) : Prop :=
  let size := if buffer_size =? 0 then aio_buffer_pool.default_buffer_size else buffer_size in
  let rounded := aio_buffer_pool.round_up size psz in
  aio_buffer_pool.memory_size_ p = (rounded + psz) * count + psz
  /\ aio_buffer_pool.buffers_ p
     = map (fun i => mk_nonowning_buffer
                       (wrap (base + (psz + Z.of_nat i * (rounded + psz)))) size [])
           (seq 0 (Z.to_nat count))
  /\ forall i, 0 <= i < count ->
       let offset := psz + i * (rounded + psz) in
       offset mod psz = 0
       /\ psz <= offset
       /\ size <= rounded
       /\ offset + rounded + psz <= aio_buffer_pool.memory_size_ p.

(** What the specification gives a freshly opened reader over [n] bytes. *)
Definition initial_state_as_specified (n : Z) (r : reader_base.t) : Prop :=
  reader_base.start_offset_ r = 0
  /\ reader_base.size_ r = n
  /\ reader_base.remaining_ r = reader_base.size_ r
  /\ reader_base.eof_ r = (reader_base.remaining_ r =? 0).

(** Three reader factory holders: at 0 a file reader factory, at 1 a view
    reader factory, at 2 a holder move-constructed from the one at 1, which
    leaves 1 moved from. *)
Definition reader_holders : reader_factory_holder.store :=
  reader_factory_holder.construct_move
    (fun a => match a with
              | O => Some (file_reader_factory "a")
              | S O => Some (view_reader_factory "b" (mk_view 1000 5))
              | _ => None
              end)
    2%nat 1%nat.

Definition writer_holders : writer_factory_holder.store :=
  writer_factory_holder.construct_move
    (fun a => match a with
              | O => Some (file_writer_factory "a" false)
              | S O => Some (buffer_writer_factory "b" 5)
              | _ => None
              end)
    2%nat 1%nat.

(** The parts of what [reader_base::seek] returns. *)
Definition seek_result {D : Type} (x : bool * reader_base.t * D * aio_buffer_pool.t) : bool :=
  fst (fst (fst x)).

Definition seek_state {D : Type} (x : bool * reader_base.t * D * aio_buffer_pool.t)
  : reader_base.t :=
  snd (fst (fst x)).

(** The members of a reader are 64-bit values. *)
Definition reader_in_range (r : reader_base.t) : Prop :=
  in_range (reader_base.size_ r) /\ in_range (reader_base.max_size_ r)
  /\ in_range (reader_base.start_offset_ r).

(** A class whose [do_seek] leaves the members of [reader_base] alone, as
    those of the library do. *)
Definition do_seek_keeps_base {D : Type} (v : reader_base.virtuals D) : Prop :=
  forall r d, snd (fst (reader_base.do_seek v r d)) = r.

(** The file readers a client can hold: constructed without error, and what
    [get_buffer], successful seeks and the turns of the worker make of
    them. *)
Inductive file_reader_opened : file_reader.t -> Prop :=
| opened_construct (self : nat) (pool pool1 : aio_buffer_pool.t) (f : file)
    (can_spawn : bool) (offset size max_buffers : Z) (r : file_reader.t) :
    file_reader.construct self pool f can_spawn offset size max_buffers = (r, pool1) ->
    reader_base.error_ (file_reader.base r) = false ->
    file_reader_opened r
| opened_get_buffer (r r1 : file_reader.t) (h : nat) (res : aio_result) (b : buffer_lease) :
    file_reader_opened r ->
    file_reader.get_buffer r h = (res, b, r1) ->
    file_reader_opened r1
| opened_entry_step (r r1 : file_reader.t) (pool pool1 : aio_buffer_pool.t)
    (who : list aio_waitable.signalled) :
    file_reader_opened r ->
    file_reader.entry_step r pool = Some (r1, pool1, who) ->
    file_reader_opened r1
| opened_seek (r r1 : file_reader.t) (pool pool1 : aio_buffer_pool.t) (offset size : Z) :
    file_reader_opened r ->
    file_reader.seek r pool offset size = (true, r1, pool1) ->
    file_reader_opened r1.

(** A pool of two buffers of two bytes on pages of 4096 bytes. *)
Definition small_pool : aio_buffer_pool.t :=
  aio_buffer_pool.construct 4096 (fun _ => aio_buffer_pool.allocated 65536) 2 2.

(** A source of three bytes that does not tell its size, read with a
    size of four: the reader finds the end one byte early. *)
Definition short_source : file :=
  mk_file true [Byte.x41; Byte.x42; Byte.x43] 0 false true None.

(** The file reader over [short_source] after two turns of its worker. *)
Definition reader_after_short_read : option file_reader.t :=
  let (r0, pool0) := file_reader.construct 7 small_pool short_source true 0 4 4 in
  match file_reader.entry_step r0 pool0 with
  | Some (r1, pool1, _) =>
      match file_reader.entry_step r1 pool1 with
      | Some (r2, _, _) => Some r2
      | None => None
      end
  | None => None
  end.

(** A new file that can be opened and written, with a thread to spare. *)
Definition fresh_disk : disk := mk_disk None true true true.

(** A file of seven bytes that is there already. *)
Definition old_disk : disk :=
  mk_disk (Some [Byte.x41; Byte.x42; Byte.x43; Byte.x44; Byte.x45; Byte.x46; Byte.x47])
          true true true.

(** A file writer without fsync, opened at offset 0 on [fresh_disk], whose
    worker has found the queue empty and sleeps. *)
Definition idle_writer : option file_writer.t :=
  match file_writer_factory_open fresh_disk false 0 0 with
  | Some w => Some (fst (file_writer.run_worker 5 w small_pool))
  | None => None
  end.

(** The writer is not in error, its file is open, no fsync is asked for,
    nothing is queued, finalize was not called and the worker sleeps with
    no signal pending. *)
Definition writer_idle (w : file_writer.t) : Prop :=
  writer_base.error_ (file_writer.base w) = false
  /\ f_open (file_writer.file_ w) = true
  /\ file_writer.fsync_ w = false
  /\ writer_base.buffers_ (file_writer.base w) = []
  /\ writer_base.finalizing_ (file_writer.base w) = 0
  /\ file_writer.task_ w = in_wait
  /\ file_writer.cond_ w = false.

(** A file writer opened at offset 5 on [old_disk], whose worker sleeps. *)
Definition writer_at_offset_5 : option file_writer.t :=
  match file_writer_factory_open old_disk false 5 0 with
  | Some w => Some (fst (file_writer.run_worker 5 w small_pool))
  | None => None
  end.

(** The five bytes ABCDE, a memory that holds them at address 1000 in
    front of zero bytes, a pool of one buffer of four bytes, a fresh view
    reader over the five bytes and a buffer writer with a limit of five. *)
Definition abcde : list byte := [Byte.x41; Byte.x42; Byte.x43; Byte.x44; Byte.x45].

Definition abcde_memory : memory := memory_with Byte.x00 1000 abcde.

Definition one_buffer_pool : aio_buffer_pool.t :=
  aio_buffer_pool.construct 4096 (fun _ => aio_buffer_pool.allocated 65536) 1 4.

Definition abcde_reader : view_reader.t := view_reader.construct 7 (mk_view 1000 5).

Definition abcde_writer : buffer_writer.t := buffer_writer.construct [] 5.

(** The destination buffer after a pipe. *)
Definition piped (x : pipe_end * view_reader.t * buffer_writer.t * aio_buffer_pool.t)
  : list byte :=
  buffer_writer.buffer_ (snd (fst x)).

Definition pipe_ended (x : pipe_end * view_reader.t * buffer_writer.t * aio_buffer_pool.t)
  : pipe_end :=
  fst (fst (fst x)).

(** [s] has a colon at index [i]. *)
Definition colon_at (s : ipv6.String) (i : Z) : Prop :=
  nth_error s (Z.to_nat i) = Some ipv6.colon.

(** No [::] of [s] lies wholly before index [x]. *)
Definition no_double_colon_below (s : ipv6.String) (x : Z) : Prop :=
  forall i : nat, Z.of_nat i + 1 < x -> ~ ipv6.double_colon_at s i.

(** No [::] of [s] begins at index [x] or behind it. *)
Definition no_double_colon_from (s : ipv6.String) (x : Z) : Prop :=
  forall i : nat, x <= Z.of_nat i -> ~ ipv6.double_colon_at s i.

(** The length of the address in [s]: without the brackets when [s] begins
    with one. *)
Definition address_length (s : ipv6.String) : Z :=
  match s with
  | c :: _ => if Ascii.eqb c "["%char then ipv6.size s - 2 else ipv6.size s
  | [] => 0
  end.

(** A long-form address in brackets, 41 characters. *)
Definition bracketed_long_form : string :=
  "[2001:0db8:0000:0000:0000:ff00:0042:8329]".

(** A pool whose next free buffer is empty, has a base pointer and a capacity
    of [capacity], and on which nobody waits. *)
Definition pool_ready (pool : aio_buffer_pool.t) (capacity : Z) : Prop :=
  exists front b,
    aio_buffer_pool.buffers_ pool = front ++ [b]
    /\ nb_bytes b = [] /\ nb_capacity b = capacity /\ nb_ptr b <> 0
    /\ aio_buffer_pool.waitable pool = aio_waitable.init.

(** Where a view reader reads next. *)
Definition read_position (view : string_view) (r : reader_base.t) : Z :=
  wrap (wrap (wrap (view_data view + reader_base.start_offset_ r) + reader_base.size_ r)
        - reader_base.remaining_ r).


(** ** Further commands of the clients and of the classes *)

(** [signal_availibility()] called again and again until nobody is left to
    notify, at most [fuel] times: who was notified, in this order, and
    what is left of the queues. *)
Fixpoint signal_all (fuel : nat) (w : aio_waitable.t)
  : list aio_waitable.signalled * aio_waitable.t :=
  match fuel with
  | O => ([], w)
  | S fuel' =>
      match aio_waitable.signal_availibility w with
      | (aio_waitable.nobody, w1) => ([], w1)
      | (who, w1) => let (rest, w2) := signal_all fuel' w1 in (who :: rest, w2)
      end
  end.

(** [aio_buffer_pool::~aio_buffer_pool()]: whether it calls [abort()],
    [memory_ && buffers_.size() != buffer_count_]. *)
Definition aio_buffer_pool_destructor_aborts (p : aio_buffer_pool.t) : bool :=
  aio_buffer_pool.to_bool p
  && negb (Z.of_nat (length (aio_buffer_pool.buffers_ p)) =? aio_buffer_pool.buffer_count_ p).

(** The bytes of a list of leases, front first. *)
Definition queued_bytes (ls : list buffer_lease) : list byte :=
  flat_map (fun l => nb_bytes (lease_buffer l)) ls.

(** The sum of what [progress_cb_] was called with. *)
Definition reported (w : writer_base.t) : Z :=
  fold_right Z.add 0 (writer_base.progress_ w).

(** What a client and the worker make of a file writer. [file_writer_fed w0
    w data]: [w] comes from [w0] by calls of [add_buffer] that did not
    return [error], which handed over the bytes [data] in this order, by
    calls of [finalize], and by turns of the worker, in any order. *)
Inductive file_writer_fed (w0 : file_writer.t) : file_writer.t -> list byte -> Prop :=
| fed_start : file_writer_fed w0 w0 []
| fed_add_buffer (w w1 : file_writer.t) (data : list byte) (b b1 : buffer_lease) (h : nat)
    (res : aio_result) :
    file_writer_fed w0 w data ->
    file_writer.add_buffer w b h = (res, w1, b1) ->
    res <> error ->
    file_writer_fed w0 w1
      (data ++ if writer_base.nothing_to_add b then [] else nb_bytes (lease_buffer b))
| fed_finalize (w : file_writer.t) (data : list byte) (h : nat) :
    file_writer_fed w0 w data ->
    file_writer_fed w0 (snd (file_writer.finalize w h)) data
| fed_entry_step (w w1 : file_writer.t) (data : list byte) (pool pool1 : aio_buffer_pool.t)
    (who : list aio_waitable.signalled) :
    file_writer_fed w0 w data ->
    file_writer.entry_step w pool = Some (w1, pool1, who) ->
    file_writer_fed w0 w1 data.

(** The bytes in the file and in the queue of [w] are those of the file of
    [w0] followed by [data], the file is positioned at its end, and the
    progress callback was told of as many bytes as the file has grown by. *)
Definition file_writer_holds (w0 w : file_writer.t) (data : list byte) : Prop :=
  f_bytes (file_writer.file_ w) ++ queued_bytes (writer_base.buffers_ (file_writer.base w))
  = f_bytes (file_writer.file_ w0) ++ data
  /\ f_pos (file_writer.file_ w) = file_ops.len (file_writer.file_ w)
  /\ reported (file_writer.base w)
     = reported (file_writer.base w0)
       + (file_ops.len (file_writer.file_ w) - file_ops.len (file_writer.file_ w0)).

(** A lease on a buffer that holds the two bytes AB. *)
Definition ab_lease : buffer_lease :=
  mk_lease (mk_nonowning_buffer 69632 2 [Byte.x41; Byte.x42]) true.

(** A file writer over a new, empty file; the writer after [add_buffer] with
    [ab_lease]; and the writer after the turn of the worker that follows. *)
Definition new_file_writer : file_writer.t :=
  file_writer.construct (mk_file true [] 0 true true None) true false true 4.

Definition new_file_writer_added : file_writer.t :=
  snd (fst (file_writer.add_buffer new_file_writer ab_lease 7)).

Definition new_file_writer_written : file_writer.t :=
  match file_writer.entry_step new_file_writer_added small_pool with
  | Some (w, _, _) => w
  | None => new_file_writer_added
  end.

(** A worker that can go on writing: it is at the head of its loop, was not
    told to quit, the writer is not in error, and the file is open, takes
    writes and is positioned at its end. *)
Definition worker_writing (w : file_writer.t) : Prop :=
  file_writer.task_ w = at_loop_head
  /\ file_writer.quit_ w = false
  /\ writer_base.error_ (file_writer.base w) = false
  /\ f_open (file_writer.file_ w) = true
  /\ f_io_ok (file_writer.file_ w) = true
  /\ f_pos (file_writer.file_ w) = file_ops.len (file_writer.file_ w).

(** [w1] is [w] but for the queue, the file contents and position, the
    reported progress and the waiters. *)
Definition same_writer (w w1 : file_writer.t) : Prop :=
  writer_base.max_buffers_ (file_writer.base w1) = writer_base.max_buffers_ (file_writer.base w)
  /\ writer_base.finalizing_ (file_writer.base w1) = writer_base.finalizing_ (file_writer.base w)
  /\ file_writer.cond_ w1 = file_writer.cond_ w
  /\ file_writer.fsync_ w1 = file_writer.fsync_ w
  /\ file_writer.preallocated_ w1 = file_writer.preallocated_ w
  /\ file_writer.on_disk w1 = file_writer.on_disk w
  /\ f_mtime (file_writer.file_ w1) = f_mtime (file_writer.file_ w).

(** A file writer over a file of the three bytes ABC, positioned at its
    end, whose worker has not run yet. *)
Definition abc_file_writer : file_writer.t :=
  file_writer.construct (mk_file true [Byte.x41; Byte.x42; Byte.x43] 3 true true None)
                        true false true 4.

(** A file writer with a budget of one buffer over a file on a device that
    fails, after [add_buffer] with [ab_lease]. *)
Definition failing_file_writer : file_writer.t :=
  snd (fst (file_writer.add_buffer
              (file_writer.construct (mk_file true [] 0 true false None) true false true 1)
              ab_lease 7)).

(** The free buffers of the pool are empty and have a capacity: what the
    constructor makes and [release] keeps. *)
Definition pool_clean (pool : aio_buffer_pool.t) : Prop :=
  Forall (fun b => nb_bytes b = [] /\ 0 < nb_capacity b < modulus)
         (aio_buffer_pool.buffers_ pool).

(** The bytes of [l] from index [from] up to index [to]. *)
Definition bytes_between (l : list byte) (from to : Z) : list byte :=
  firstn (Z.to_nat (to - from)) (skipn (Z.to_nat from) l).

(** What a client and the worker make of a file reader that is not sought
    again. [file_reader_read r0 r delivered]: [r] comes from [r0] by calls
    of [get_buffer], whose leases held the bytes [delivered] in this order,
    and by turns of the worker on a pool with clean buffers, in any
    order. *)
Inductive file_reader_read (r0 : file_reader.t) : file_reader.t -> list byte -> Prop :=
| read_start : file_reader_read r0 r0 []
| read_get_buffer (r r1 : file_reader.t) (delivered : list byte) (h : nat)
    (res : aio_result) (b : buffer_lease) :
    file_reader_read r0 r delivered ->
    file_reader.get_buffer r h = (res, b, r1) ->
    file_reader_read r0 r1 (delivered ++ nb_bytes (lease_buffer b))
| read_entry_step (r r1 : file_reader.t) (delivered : list byte)
    (pool pool1 : aio_buffer_pool.t) (who : list aio_waitable.signalled) :
    file_reader_read r0 r delivered ->
    pool_clean pool ->
    file_reader.entry_step r pool = Some (r1, pool1, who) ->
    file_reader_read r0 r1 delivered.

(** A reader that was just positioned: nothing queued, the file at a
    position within it, [remaining_] a 64-bit value and [eof_] set exactly
    when nothing remains. *)
Definition file_reader_positioned (r : file_reader.t) : Prop :=
  reader_base.buffers_ (file_reader.base r) = []
  /\ 0 <= f_pos (file_reader.file_ r)
  /\ 0 <= reader_base.remaining_ (file_reader.base r) <= nosize
  /\ reader_base.eof_ (file_reader.base r) = (reader_base.remaining_ (file_reader.base r) =? 0).

(** What was delivered and what is queued are the bytes of the file from
    where [r0] was positioned up to where the file of [r] is now;
    [remaining_] went down by as much, unless it is [nosize]; and [eof_] is
    only set when nothing remains or, without a size, at the end of the
    file. *)
Definition file_reader_holds (r0 r : file_reader.t) (delivered : list byte) : Prop :=
  let f0 := file_reader.file_ r0 in
  let f := file_reader.file_ r in
  let rem0 := reader_base.remaining_ (file_reader.base r0) in
  let rem := reader_base.remaining_ (file_reader.base r) in
  f_bytes f = f_bytes f0
  /\ f_pos f0 <= f_pos f
  /\ delivered ++ queued_bytes (reader_base.buffers_ (file_reader.base r))
     = bytes_between (f_bytes f0) (f_pos f0) (f_pos f)
  /\ (if rem0 =? nosize then rem = nosize
      else rem = rem0 - (f_pos f - f_pos f0) /\ 0 <= rem)
  /\ (reader_base.eof_ (file_reader.base r) = true ->
      rem = 0 \/ (rem = nosize /\ file_ops.len f <= f_pos f))
  /\ Forall (fun l => lease_pool l = true) (reader_base.buffers_ (file_reader.base r)).

(** A file of the five bytes ABCDE that tells its size, and the file reader
    the factory opens on it at offset 1 with size 3. *)
Definition abcde_file : file :=
  mk_file true [Byte.x41; Byte.x42; Byte.x43; Byte.x44; Byte.x45] 0 true true None.

Definition bcd_reader : option file_reader.t :=
  fst (file_reader.factory_open 7 small_pool abcde_file true 1 3 0).

(** What a reader and its pool come to when the worker takes [turns] turns
    and the client then calls [get_buffer] and releases the lease, [calls]
    times over; with it what the leases held. *)
Fixpoint reader_turns (turns : nat) (r : file_reader.t) (pool : aio_buffer_pool.t)
  : file_reader.t * aio_buffer_pool.t :=
  match turns with
  | O => (r, pool)
  | S turns' =>
      match file_reader.entry_step r pool with
      | Some (r1, pool1, _) => reader_turns turns' r1 pool1
      | None => (r, pool)
      end
  end.

(** The reader that [bcd_reader] holds, the same reader after the first
    turn of its worker, and after the call of [get_buffer] that follows. *)
Definition bcd_reader_opened : file_reader.t :=
  fst (file_reader.construct 7 small_pool abcde_file true 1 3 4).

Definition bcd_reader_filled : file_reader.t :=
  fst (reader_turns 1 bcd_reader_opened small_pool).

Definition bcd_reader_taken : file_reader.t :=
  snd (file_reader.get_buffer bcd_reader_filled 9).


(** ** get_address_type *)

(** [enum class address_type]. *)
Module address_type.

Inductive t : Type := unknown | ipv4 | ipv6.

End address_type.

Module iputils.

Definition dot : ascii := "."%char.

(** The largest [int]. *)
Definition INT_MAX : Z := 2147483647.

(** A value as an [int] holds it: 32 bits, two's complement. The
    language leaves an overflow of signed arithmetic undefined; the
    compiled function wraps around, and the model follows it. *)
Definition to_int (x : Z) : Z := (x + 2 ^ 31) mod 2 ^ 32 - 2 ^ 31.

(** The loop of [do_get_address_type] over the characters from the
    current index on, [segment] and [dotcount] being what they are there.
    A character outside ASCII compares below ['0'] where [char] is signed
    and above ['9'] where it is not: unknown either way. *)
Fixpoint address_loop (rest : list ascii) (segment dotcount : Z) : address_type.t :=
  match rest with
  | [] =>
      if negb (dotcount =? 3) then address_type.unknown
      else if segment >? 255 then address_type.unknown
      else address_type.ipv4
  | c :: rest' =>
      if Ascii.eqb c dot then
        if match rest' with c' :: _ => Ascii.eqb c' dot | [] => false end
        then address_type.unknown
        else if segment >? 255 then address_type.unknown
        else if (dotcount =? 0) && (segment =? 0) then address_type.unknown
        else address_loop rest' 0 (to_int (dotcount + 1))
      else if (ipv6.code c <? 48) || (ipv6.code c >? 57) then address_type.unknown
      else address_loop rest' (to_int (to_int (to_int (segment * 10) + ipv6.code c) - 48))
                        dotcount
  end.

(** [std::string::empty]. *)
Definition empty (s : ipv6.String) : bool :=
  match s with [] => true | _ :: _ => false end.

(** [do_get_address_type]. *)
Definition do_get_address_type (address : ipv6.String) : address_type.t :=
  if negb (empty (ipv6.do_get_ipv6_long_form address)) then address_type.ipv6
  else address_loop address 0 0.

(** [get_address_type(std::string_view const&)]. *)
Definition get_address_type (address : string) : address_type.t :=
  do_get_address_type (list_ascii_of_string address).

(** [operator==] of two strings. *)
Fixpoint string_eqb (a b : list ascii) : bool :=
  match a, b with
  | [], [] => true
  | x :: a', y :: b' => Ascii.eqb x y && string_eqb a' b'
  | _, _ => false
  end.

(** [address.substr(pos, n)] and [address.substr(pos)], for [pos] within
    the string. *)
Definition substr (s : list ascii) (pos n : nat) : list ascii := firstn n (skipn pos s).

Definition substr_from (s : list ascii) (pos : nat) : list ascii := skipn pos s.

(** [middle.find('.')]. *)
Fixpoint find_dot (s : list ascii) (i : Z) : Z :=
  match s with
  | [] => npos
  | c :: rest => if Ascii.eqb c dot then i else find_dot rest (i + 1)
  end.

Section Routable.

(** Functions of the library that [do_is_routable_address] calls:
    [hex_char_to_int], [toString<std::string>] on an [int] and
    [to_integral<uint8_t>]. *)
Variable hex_char_to_int : ascii -> Z.
Variable toString : Z -> list ascii.
Variable to_integral : list ascii -> Z.

Definition unspecified : list ascii :=
  list_ascii_of_string "0000:0000:0000:0000:0000:0000:0000:0000".

Definition loopback : list ascii :=
  list_ascii_of_string "0000:0000:0000:0000:0000:0000:0000:0001".

Definition mapped_prefix : list ascii :=
  list_ascii_of_string "0000:0000:0000:0000:0000:ffff:".

(** [do_is_routable_address]. An IPv4-mapped address is answered by a
    call of the function itself on the dotted form; [fuel] bounds the
    depth of such calls, and [None] is fuel used up. *)
Fixpoint do_is_routable_address (fuel : nat) (address : list ascii) : option bool :=
  match fuel with
  | O => None
  | S fuel' =>
      match do_get_address_type address with
      | address_type.ipv6 =>
          let long_address := ipv6.do_get_ipv6_long_form address in
          if negb (ipv6.size long_address =? 39) then Some false
          else if Ascii.eqb (ipv6.at_ long_address 0) "0" then
            if string_eqb long_address unspecified then Some false
            else if string_eqb long_address loopback then Some false
            else if string_eqb (substr long_address 0 30) mapped_prefix then
              let ipv4 :=
                toString (hex_char_to_int (ipv6.at_ long_address 30) * 16
                          + hex_char_to_int (ipv6.at_ long_address 31))
                ++ dot ::
                toString (hex_char_to_int (ipv6.at_ long_address 32) * 16
                          + hex_char_to_int (ipv6.at_ long_address 33))
                ++ dot ::
                toString (hex_char_to_int (ipv6.at_ long_address 35) * 16
                          + hex_char_to_int (ipv6.at_ long_address 36))
                ++ dot ::
                toString (hex_char_to_int (ipv6.at_ long_address 37) * 16
                          + hex_char_to_int (ipv6.at_ long_address 38)) in
              do_is_routable_address fuel' ipv4
            else Some true
          else if Ascii.eqb (ipv6.at_ long_address 0) "f" then
            if Ascii.eqb (ipv6.at_ long_address 1) "e" then
              let v := hex_char_to_int (ipv6.at_ long_address 2) in
              Some (negb (Z.land v 12 =? 8))
            else if Ascii.eqb (ipv6.at_ long_address 1) "c"
                    || Ascii.eqb (ipv6.at_ long_address 1) "d" then Some false
            else Some true
          else Some true
      | address_type.ipv4 =>
          if ipv6.size address <? 7 then Some false
          else if string_eqb (substr address 0 3) (list_ascii_of_string "127")
                  || string_eqb (substr address 0 3) (list_ascii_of_string "10.")
                  || string_eqb (substr address 0 7) (list_ascii_of_string "192.168")
                  || string_eqb (substr address 0 7) (list_ascii_of_string "169.254")
          then Some false
          else if string_eqb (substr address 0 3) (list_ascii_of_string "172") then
            let middle := substr_from address 4 in
            let pos := find_dot middle 0 in
            if (pos =? npos) || (pos >? 3) then Some false
            else
              let segment := to_integral (substr middle 0 (Z.to_nat pos)) in
              if (segment >=? 16) && (segment <=? 31) then Some false
              else Some true
          else Some true
      | address_type.unknown => Some false
      end
  end.

End Routable.

End iputils.

(** A decimal digit, and the number a run of digits spells after
    [segment]. *)
Definition digit (c : ascii) : bool := (48 <=? ipv6.code c) && (ipv6.code c <=? 57).

Definition number_from (segment : Z) (ds : list ascii) : Z :=
  fold_left (fun acc c => acc * 10 + ipv6.code c - 48) ds segment.

Definition number (ds : list ascii) : Z := number_from 0 ds.

(** What [segment] holds after the loop of [do_get_address_type] went
    over a run of digits. *)
Definition segment_after (segment : Z) (ds : list ascii) : Z :=
  fold_left (fun acc c =>
               iputils.to_int (iputils.to_int (iputils.to_int (acc * 10) + ipv6.code c) - 48))
            ds segment.

(** The texts [do_get_address_type] takes for IPv4: four runs of digits
    with dots between them, the first three not empty, none above 255 and
    the first not 0. The last run may be empty and leading zeros are
    allowed. *)
Definition ipv4_text (s : list ascii) : Prop :=
  exists a b c d,
    s = a ++ iputils.dot :: b ++ iputils.dot :: c ++ iputils.dot :: d
    /\ Forall (fun x => digit x = true) (a ++ b ++ c ++ d)
    /\ b <> [] /\ c <> []
    /\ 0 < number a <= 255 /\ number b <= 255 /\ number c <= 255 /\ number d <= 255.

(** The same with the number of each run as an [int] holds it: this is
    how the compiled loop sees the runs. A run that spells a number
    beyond [int] counts by its wrapped value, which may be negative. *)
Definition ipv4_as_compiled (s : list ascii) : Prop :=
  exists a b c d,
    s = a ++ iputils.dot :: b ++ iputils.dot :: c ++ iputils.dot :: d
    /\ Forall (fun x => digit x = true) (a ++ b ++ c ++ d)
    /\ b <> [] /\ c <> []
    /\ iputils.to_int (number a) <= 255 /\ iputils.to_int (number a) <> 0
    /\ iputils.to_int (number b) <= 255
    /\ iputils.to_int (number c) <= 255
    /\ iputils.to_int (number d) <= 255.

(** A character [c] of the buffer fits the character [t] the initial
    buffer has at its place: a colon where that has one, a lower-case
    hexadecimal digit elsewhere. *)
Definition slot_ok (t c : ascii) : Prop :=
  if Ascii.eqb t ipv6.colon then c = ipv6.colon else ipv6.lower_hex c = true.

(** The buffer has the layout of the initial buffer. *)
Definition shaped (buf : list ascii) : Prop := Forall2 slot_ok ipv6.initial_buf buf.

(** Index [i] of the buffer is a place of a digit. *)
Definition digit_place (t : list ascii) (i : nat) : bool :=
  negb (Ascii.eqb (nth i t ipv6.colon) ipv6.colon).

(** The characters the copy loops store for [g]. *)
Definition lowered (g : list ascii) : list ascii :=
  map (fun c => match ipv6.stored c with Some c' => c' | None => c end) g.

(** The seven groups of zeros behind the first group of the initial
    buffer. *)
Definition zero_groups : list ascii :=
  list_ascii_of_string ":0000:0000:0000:0000:0000:0000:0000".

(** A file reader whose worker has found the end while buffers are still
    queued: the worker is at the head of its loop, nothing stops it, the
    queue is neither empty nor full, and nothing is left to read (the
    size is used up, or there is no size and the file is at its end). *)
Definition waiting_to_be_read (r : file_reader.t) : Prop :=
  let b := file_reader.base r in
  let f := file_reader.file_ r in
  threaded_reader.task_ (file_reader.tr r) = at_loop_head
  /\ threaded_reader.quit_ (file_reader.tr r) = false
  /\ reader_base.error_ b = false
  /\ reader_base.eof_ b = true
  /\ reader_base.buffers_ b <> []
  /\ Z.of_nat (length (reader_base.buffers_ b)) <> reader_base.max_buffers_ b
  /\ (reader_base.remaining_ b = 0
      \/ (reader_base.remaining_ b = nosize
          /\ f_open f = true /\ f_io_ok f = true
          /\ 0 <= f_pos f /\ file_ops.len f <= f_pos f)).

(** A clean pool with a free buffer, every free buffer having a base
    pointer. *)
Definition pool_has_buffers (pool : aio_buffer_pool.t) : Prop :=
  pool_clean pool
  /\ aio_buffer_pool.buffers_ pool <> []
  /\ Forall (fun b => nb_ptr b <> 0) (aio_buffer_pool.buffers_ pool).

(** A pool of four buffers of two bytes, and the file reader over
    [abcde_file] at offset 1 with size 3 after two turns of its worker on
    this pool: BC and D are queued and the end was found. *)
Definition four_pool : aio_buffer_pool.t :=
  aio_buffer_pool.construct 4096 (fun _ => aio_buffer_pool.allocated 65536) 4 2.

Definition bcd_reader_at_end : file_reader.t * aio_buffer_pool.t :=
  reader_turns 2 (fst (file_reader.construct 7 four_pool abcde_file true 1 3 4)) four_pool.

(** ** The overloads for an event handler *)

(** [get_buffer(event_handler & h)], [add_buffer(buffer_lease &&,
    event_handler & h)] and [finalize(event_handler & h)]: the text of the
    overloads for an [aio_waiter], with [h] queued among the handlers. *)
Module with_handler.

Definition get_buffer (r : file_reader.t) (h : nat)
  : aio_result * buffer_lease * file_reader.t :=
  match threaded_reader.do_get_buffer (file_reader.tr r) with
  | (wait, b, tr1) =>
      (wait, b,
       file_reader.mk
         (threaded_reader.set_base tr1
            (reader_base.set_waitable (threaded_reader.base tr1)
               (aio_waitable.add_waiter_handler
                  (reader_base.waitable (threaded_reader.base tr1)) h)))
         (file_reader.file_ r) (file_reader.can_spawn r))
  | (res, b, tr1) => (res, b, file_reader.mk tr1 (file_reader.file_ r) (file_reader.can_spawn r))
  end.

Definition add_waiter (w : writer_base.t) (h : nat) : writer_base.t :=
  writer_base.set_waitable w (aio_waitable.add_waiter_handler (writer_base.waitable w) h).

Definition add_buffer (w : file_writer.t) (b : buffer_lease) (h : nat)
  : aio_result * file_writer.t * buffer_lease :=
  if writer_base.error_ (file_writer.base w) then (error, w, b)
  else if writer_base.nothing_to_add b then (ok, w, b)
  else
    match file_writer.do_add_buffer w b with
    | (wait, w1) => (wait, file_writer.set_base w1 (add_waiter (file_writer.base w1) h), empty_lease)
    | (r, w1) => (r, w1, empty_lease)
    end.

Definition finalize (w : file_writer.t) (h : nat) : aio_result * file_writer.t :=
  match file_writer.do_finalize w with
  | (wait, w1) => (wait, file_writer.set_base w1 (add_waiter (file_writer.base w1) h))
  | other => other
  end.

End with_handler.

(** ** The copy demo *)

(** [class worker] of demos/aio.cpp: an event handler that copies what a
    file reader delivers into a file writer. *)
(** [file_reader::do_close]: the worker is told to quit and joined, and
    the file is closed. A worker inside [cond_.wait] takes the signal
    with it; otherwise the signal stays. *)
Definition file_reader_do_close (r : file_reader.t) : file_reader.t :=
  let cond1 := match threaded_reader.task_ (file_reader.tr r) with
               | in_wait => false
               | _ => true
               end in
  file_reader.mk (threaded_reader.mk (file_reader.base r) cond1 no_task true)
                 (file_ops.close (file_reader.file_ r)) (file_reader.can_spawn r).

(** [close()] on a file reader: [do_close], then [reader_base::close]
    takes the reader off the pool, drops its waiters and its queue. *)
Definition file_reader_close (r : file_reader.t) (pool : aio_buffer_pool.t)
  : file_reader.t * aio_buffer_pool.t :=
  let r1 := file_reader_do_close r in
  let (b1, pool1) := reader_base.close (file_reader.base r1) pool in
  (file_reader.assemble b1 (file_reader.members_of r1), pool1).

Module demo.

(** Where the handler is: outside of [operator()], or inside it before one
    of its three calls into the library; [i] is the counter of the loop and
    [b] the lease of the structured binding. *)
Inductive place : Type :=
| waiting_for_event
| at_get_buffer (i : nat)
| at_finalize
| at_add_buffer (i : nat) (b : buffer_lease)
| stopped.                                 (* [event_loop_.stop()] was called *)

Record t : Type := mk {
  buffer_pool_ : aio_buffer_pool.t;
  reader_ : file_reader.t;
  writer_ : file_writer.t;
  done_ : Z;
  hash_ : list byte;          (* what [hash_.update] was given, in order *)
  success_ : bool;
  at_ : place
}.

(** [written_]: the callback [cb] adds up what the writer reports. *)
Definition written_ (d : t) : Z := wrap (reported (file_writer.base (writer_ d))).

(** The constructor; [None] when it stops the loop. The pool has 8 buffers
    of the default size; the factories are called through the base
    classes, whose default arguments are offset 0, no size and
    [max_buffers] 0. [input] is what the reader factory finds under its
    name, [output] what the writer factory finds. *)
Definition construct (psz : Z) (allocate : Z -> aio_buffer_pool.allocation)
           (reader_self : nat) (input : file) (can_spawn : bool)
           (output : disk) (fsync : bool) : option t :=
  let pool := aio_buffer_pool.construct psz allocate 8 0 in
  if negb (aio_buffer_pool.to_bool pool) then None
  else
    match file_reader.factory_open reader_self pool input can_spawn 0 nosize 0 with
    | (None, _) => None
    | (Some r, pool1) =>
        match file_writer_factory_open output fsync 0 0 with
        | None => None
        | Some w => Some (mk pool1 r w 0 [] false waiting_for_event)
        end
    end.

(** The handler goes on by one call: an event enters [operator()]; inside
    it, the next call into the library is made and its result decides
    where the handler is then. A lease left with the handler is released
    when the iteration ends. [None]: the loop was stopped. *)
Definition handler_step (me : nat) (d : t) : option t :=
  match at_ d with
  | waiting_for_event =>
      Some (mk (buffer_pool_ d) (reader_ d) (writer_ d) (done_ d) (hash_ d) (success_ d)
               (at_get_buffer 0))
  | at_get_buffer i =>
      match with_handler.get_buffer (reader_ d) me with
      | (error, _, r1) =>
          Some (mk (buffer_pool_ d) r1 (writer_ d) (done_ d) (hash_ d) (success_ d) stopped)
      | (wait, _, r1) =>
          Some (mk (buffer_pool_ d) r1 (writer_ d) (done_ d) (hash_ d) (success_ d)
                   waiting_for_event)
      | (ok, b, r1) =>
          if negb (lease_pool b)
          then Some (mk (buffer_pool_ d) r1 (writer_ d) (done_ d) (hash_ d) (success_ d)
                        at_finalize)
          else Some (mk (buffer_pool_ d) r1 (writer_ d)
                        (wrap (done_ d + nonowning_buffer_ops.size (lease_buffer b)))
                        (hash_ d ++ nb_bytes (lease_buffer b))
                        (success_ d) (at_add_buffer i b))
      end
  | at_finalize =>
      match with_handler.finalize (writer_ d) me with
      | (wait, w1) =>
          Some (mk (buffer_pool_ d) (reader_ d) w1 (done_ d) (hash_ d) (success_ d)
                   waiting_for_event)
      | (error, w1) =>
          Some (mk (buffer_pool_ d) (reader_ d) w1 (done_ d) (hash_ d) (success_ d) stopped)
      | (ok, w1) =>
          Some (mk (buffer_pool_ d) (reader_ d) w1 (done_ d) (hash_ d) true stopped)
      end
  | at_add_buffer i b =>
      match with_handler.add_buffer (writer_ d) b me with
      | (res, w1, b1) =>
          let pool1 := aio_buffer_pool.release_lease (buffer_pool_ d) b1 in
          Some (mk pool1 (reader_ d) w1 (done_ d) (hash_ d) (success_ d)
                   match res with
                   | wait => waiting_for_event
                   | error => stopped
                   | ok => if Nat.ltb (S i) 10 then at_get_buffer (S i) else waiting_for_event
                   end)
      end
  | stopped => None
  end.

(** What can happen next: the handler goes on, the worker of the reader or
    of the writer takes a turn, or the pool notifies the reader of a free
    buffer. Events only decide when the handler is entered; the relation
    lets it be entered at any time and a notification arrive at any time,
    so every run of the program is a sequence of these steps. *)
Inductive step (me : nat) (d : t) : t -> Prop :=
| step_handler (d1 : t) :
    handler_step me d = Some d1 -> step me d d1
| step_reader (r1 : file_reader.t) (pool1 : aio_buffer_pool.t)
              (who : list aio_waitable.signalled) :
    file_reader.entry_step (reader_ d) (buffer_pool_ d) = Some (r1, pool1, who) ->
    step me d (mk pool1 r1 (writer_ d) (done_ d) (hash_ d) (success_ d) (at_ d))
| step_writer (w1 : file_writer.t) (pool1 : aio_buffer_pool.t)
              (who : list aio_waitable.signalled) :
    file_writer.entry_step (writer_ d) (buffer_pool_ d) = Some (w1, pool1, who) ->
    step me d (mk pool1 (reader_ d) w1 (done_ d) (hash_ d) (success_ d) (at_ d))
| step_notified (who : aio_waitable.signalled) :
    step me d (mk (buffer_pool_ d) (file_reader.notified (reader_ d) who) (writer_ d)
                  (done_ d) (hash_ d) (success_ d) (at_ d)).

(** The states a run from [d0] comes to. *)
Inductive runs (me : nat) (d0 : t) : t -> Prop :=
| run_start : runs me d0 d0
| run_step (d d1 : t) : runs me d0 d -> step me d d1 -> runs me d0 d1.

(** The parties of a schedule, and the state a schedule leads to: each
    party in turn takes its step. *)
Inductive party : Type := handler | reader_worker | writer_worker.

Fixpoint schedule (me : nat) (ps : list party) (d : t) : option t :=
  match ps with
  | [] => Some d
  | handler :: rest =>
      match handler_step me d with
      | Some d1 => schedule me rest d1
      | None => None
      end
  | reader_worker :: rest =>
      match file_reader.entry_step (reader_ d) (buffer_pool_ d) with
      | Some (r1, pool1, _) =>
          schedule me rest (mk pool1 r1 (writer_ d) (done_ d) (hash_ d) (success_ d) (at_ d))
      | None => None
      end
  | writer_worker :: rest =>
      match file_writer.entry_step (writer_ d) (buffer_pool_ d) with
      | Some (w1, pool1, _) =>
          schedule me rest (mk pool1 (reader_ d) w1 (done_ d) (hash_ d) (success_ d) (at_ d))
      | None => None
      end
  end.

(** The destructor of [worker] destroys the members in the reverse order
    of their declaration: the writer is closed, then the reader, and then
    the destructor of the pool runs. The result is whether that calls
    [abort()], and the pool it finds. *)
Definition destroy (d : t) : bool * aio_buffer_pool.t :=
  let (w1, pool1) := file_writer.close (writer_ d) (buffer_pool_ d) in
  let (r1, pool2) := file_reader_close (reader_ d) pool1 in
  (aio_buffer_pool_destructor_aborts pool2, pool2).

End demo.

(** The bytes of the lease the handler holds between [get_buffer] and
    [add_buffer]. *)
Definition held (p : demo.place) : list byte :=
  match p with
  | demo.at_add_buffer _ b => nb_bytes (lease_buffer b)
  | _ => []
  end.

(** A lease on a buffer of the pool with a capacity. *)
Definition lease_ok (l : buffer_lease) : Prop :=
  lease_pool l = true /\ 0 < nb_capacity (lease_buffer l) < modulus.

(** The reader has found the end and its queue is empty. *)
Definition reader_finished (r : file_reader.t) : Prop :=
  reader_base.eof_ (file_reader.base r) = true
  /\ reader_base.buffers_ (file_reader.base r) = [].

(** What every state of a run of the demo keeps, [r0] and [w0] being the
    reader and the writer the constructor opened: the reader has
    delivered what was hashed; the writer was given what was hashed but
    for the lease in the hands of the handler; the free buffers are
    clean and every lease in a queue or in the hands of the handler is on
    a buffer with a capacity; [done_] counts the hashed bytes; once
    finalizing was asked for, or is about to be, the reader has finished
    and the handler holds no lease; when the worker of the writer has
    finalized, its queue is empty; and after success the loop is stopped,
    nothing is queued and the file holds what was hashed. *)
Definition demo_invariant (r0 : file_reader.t) (w0 : file_writer.t) (d : demo.t) : Prop :=
  let r := demo.reader_ d in
  let w := demo.writer_ d in
  file_reader_holds r0 r (demo.hash_ d)
  /\ (writer_base.error_ (file_writer.base w) = false ->
      exists data, file_writer_holds w0 w data /\ demo.hash_ d = data ++ held (demo.at_ d))
  /\ pool_clean (demo.buffer_pool_ d)
  /\ Forall lease_ok (reader_base.buffers_ (file_reader.base r))
  /\ Forall lease_ok (writer_base.buffers_ (file_writer.base w))
  /\ (forall i b, demo.at_ d = demo.at_add_buffer i b -> lease_ok b)
  /\ demo.done_ d = wrap (Z.of_nat (length (demo.hash_ d)))
  /\ (writer_base.finalizing_ (file_writer.base w) <> 0 \/ demo.at_ d = demo.at_finalize ->
      reader_finished r /\ held (demo.at_ d) = []
      /\ forall i b, demo.at_ d <> demo.at_add_buffer i b)
  /\ (writer_base.finalizing_ (file_writer.base w) = 2 ->
      writer_base.buffers_ (file_writer.base w) = [])
  /\ (demo.success_ d = true ->
      demo.at_ d = demo.stopped
      /\ reader_finished r
      /\ writer_base.buffers_ (file_writer.base w) = []
      /\ file_writer_holds w0 w (demo.hash_ d)).

(** An input file of the five bytes ABCDE, an output name under which
    there is no file yet, and the demo on them after a schedule in which
    the reader reads the file, the handler passes the buffer on and finds
    the end, the writer writes the buffer and the handler finalizes. *)
Definition demo_start : option demo.t :=
  demo.construct 4096 (fun _ => aio_buffer_pool.allocated 65536) 7 abcde_file true
                 (mk_disk None true true true) false.

Definition demo_schedule : list demo.party :=
  [demo.reader_worker; demo.handler; demo.handler; demo.handler; demo.handler;
   demo.writer_worker; demo.handler].

(** ** rewind *)

(** [rewind()] on a file reader. *)
Definition file_reader_rewind (r : file_reader.t) (pool : aio_buffer_pool.t)
  : bool * file_reader.t * aio_buffer_pool.t :=
  match reader_base.rewind file_reader.virtuals (file_reader.base r)
                           (file_reader.members_of r) pool with
  | (res, b1, d1, pool1) => (res, file_reader.assemble b1 d1, pool1)
  end.

(** A file reader that was just positioned on the range of [size] bytes
    at [offset] of a file of known size: the range lies within the file,
    nothing is queued, the file is at [offset], and workers can be
    spawned. *)
Definition file_reader_ranged (r : file_reader.t) (offset size : Z) : Prop :=
  let b := file_reader.base r in
  let f := file_reader.file_ r in
  reader_base.start_offset_ b = offset
  /\ reader_base.size_ b = size
  /\ reader_base.remaining_ b = size
  /\ reader_base.max_size_ b = file_ops.len f
  /\ reader_base.buffers_ b = []
  /\ reader_base.eof_ b = (size =? 0)
  /\ f_pos f = offset
  /\ f_open f = true
  /\ file_reader.can_spawn r = true
  /\ 0 <= offset /\ 0 <= size
  /\ offset + size <= file_ops.len f
  /\ file_ops.len f < 2 ^ 63.

(** A lease that puts its buffer back when it is released. *)
Definition lease_returns (l : buffer_lease) : Prop :=
  lease_pool l = true /\ nb_ptr (lease_buffer l) <> 0.

(** The lease in the hands of the handler. *)
Definition held_leases (p : demo.place) : list buffer_lease :=
  match p with
  | demo.at_add_buffer _ b => [b]
  | _ => []
  end.

(** The account of the buffers of the demo: the free buffers, those
    queued in the reader and in the writer and the one in the hands of
    the handler are [n] buffers, the pool counts [n] buffers, and every
    one of them goes back to the free list when its lease is released. *)
Definition demo_accounts (n : nat) (d : demo.t) : Prop :=
  let pool := demo.buffer_pool_ d in
  let rq := reader_base.buffers_ (file_reader.base (demo.reader_ d)) in
  let wq := writer_base.buffers_ (file_writer.base (demo.writer_ d)) in
  (length (aio_buffer_pool.buffers_ pool) + length rq + length wq
   + length (held_leases (demo.at_ d)) = n)%nat
  /\ aio_buffer_pool.buffer_count_ pool = Z.of_nat n
  /\ aio_buffer_pool.to_bool pool = true
  /\ Forall (fun b => nb_ptr b <> 0) (aio_buffer_pool.buffers_ pool)
  /\ Forall lease_returns rq
  /\ Forall lease_returns wq
  /\ Forall lease_returns (held_leases (demo.at_ d)).
(** * Properties *)

(** ** Arithmetic of the machine integers *)

Lemma modulus_pos : 0 < modulus.
Proof. reflexivity. Qed.

Lemma wrap_small (z : Z) : 0 <= z < modulus -> wrap z = z.
Proof. intros; unfold wrap; apply Z.mod_small; assumption. Qed.

Lemma wrap_range (z : Z) : 0 <= wrap z < modulus.
Proof. unfold wrap; apply Z.mod_pos_bound; reflexivity. Qed.

Lemma wrap_add_l (a b : Z) : wrap (wrap a + b) = wrap (a + b).
Proof. unfold wrap; apply Zplus_mod_idemp_l. Qed.

Lemma nosize_range : 0 <= nosize < modulus.
Proof. unfold nosize, modulus; split; [ discriminate | reflexivity ]. Qed.

Lemma nosize_not_zero : nosize <> 0.
Proof. discriminate. Qed.

(** ** The buffer budget (C10) *)

Lemma reader_budget_of_zero (self : nat) :
  reader_base.max_buffers_ (reader_base.construct self 0) = 1.
Proof. reflexivity. Qed.

Lemma writer_budget_of_zero : writer_base.max_buffers_ (writer_base.construct 0) = 1.
Proof. reflexivity. Qed.

Lemma reader_budget_positive (self : nat) (n : Z) :
  0 <= n -> 1 <= reader_base.max_buffers_ (reader_base.construct self n).
Proof.
  intros Hn; cbn.
  destruct (Z.eqb_spec n 0) as [E | E]; lia.
Qed.

Lemma writer_budget_positive (n : Z) :
  0 <= n -> 1 <= writer_base.max_buffers_ (writer_base.construct n).
Proof.
  intros Hn; cbn.
  destruct (Z.eqb_spec n 0) as [E | E]; lia.
Qed.

(** [max_buffers_] is a [const] member: the operations leave it alone. *)
Lemma seek_keeps_budget {D : Type} (v : reader_base.virtuals D)
      (r : reader_base.t) (d : D) (pool : aio_buffer_pool.t) (offset size : Z) :
  (forall r0 d0, reader_base.max_buffers_ (snd (fst (reader_base.do_seek v r0 d0)))
                 = reader_base.max_buffers_ r0) ->
  reader_base.max_buffers_ (snd (fst (fst (reader_base.seek v r d pool offset size))))
  = reader_base.max_buffers_ r.
Proof.
  intros Hv; unfold reader_base.seek.
  repeat match goal with
         | |- context [if ?c then _ else _] => destruct c; cbn [fst snd]; try reflexivity
         end.
  all: match goal with
       | |- context [reader_base.do_seek ?v1 ?r1 ?d1] =>
           specialize (Hv r1 d1); destruct (reader_base.do_seek v1 r1 d1) as [[res r2] d2]
       end.
  all: cbn [fst snd] in *; rewrite Hv; reflexivity.
Qed.

Lemma view_get_buffer_keeps_budget (m : memory) (view : string_view)
      (r : reader_base.t) (pool : aio_buffer_pool.t) :
  reader_base.max_buffers_ (snd (fst (view_reader.do_get_buffer m view r pool)))
  = reader_base.max_buffers_ r.
Proof.
  unfold view_reader.do_get_buffer.
  destruct (reader_base.error_ r); [ reflexivity | ].
  destruct (reader_base.eof_ r); [ reflexivity | ].
  destruct (aio_buffer_pool.get_buffer pool (reader_base.self r)) as [b pool1].
  destruct (negb (lease_pool b)); reflexivity.
Qed.

Lemma threaded_get_buffer_keeps_budget (r : threaded_reader.t) :
  reader_base.max_buffers_ (threaded_reader.base (snd (threaded_reader.do_get_buffer r)))
  = reader_base.max_buffers_ (threaded_reader.base r).
Proof.
  unfold threaded_reader.do_get_buffer.
  destruct (reader_base.buffers_ (threaded_reader.base r)) as [| front rest].
  - destruct (reader_base.error_ (threaded_reader.base r)); [ reflexivity | ].
    destruct (reader_base.eof_ (threaded_reader.base r)); reflexivity.
  - cbn [snd].
    destruct (Z.of_nat (length (front :: rest)) =? _); reflexivity.
Qed.

Lemma file_writer_add_buffer_keeps_budget (w : file_writer.t) (b : buffer_lease) (h : nat) :
  writer_base.max_buffers_ (file_writer.base (snd (fst (file_writer.add_buffer w b h))))
  = writer_base.max_buffers_ (file_writer.base w).
Proof.
  unfold file_writer.add_buffer, file_writer.do_add_buffer.
  destruct (writer_base.error_ (file_writer.base w)); [ reflexivity | ].
  destruct (writer_base.nothing_to_add b); [ reflexivity | ].
  repeat match goal with
         | |- context [if ?c then _ else _] => destruct c
         end; reflexivity.
Qed.

Lemma buffer_writer_add_buffer_keeps_budget (w : buffer_writer.t) (b : buffer_lease) (h : nat) :
  writer_base.max_buffers_ (buffer_writer.base (snd (fst (buffer_writer.add_buffer w b h))))
  = writer_base.max_buffers_ (buffer_writer.base w).
Proof.
  unfold buffer_writer.add_buffer, buffer_writer.do_add_buffer.
  destruct (writer_base.error_ (buffer_writer.base w)); [ reflexivity | ].
  destruct (writer_base.nothing_to_add b); [ reflexivity | ].
  destruct (wrap _ <? _); reflexivity.
Qed.

Lemma file_reader_entry_step_keeps_budget (r r1 : file_reader.t)
      (pool pool1 : aio_buffer_pool.t) (who : list aio_waitable.signalled) :
  file_reader.entry_step r pool = Some (r1, pool1, who) ->
  reader_base.max_buffers_ (file_reader.base r1)
  = reader_base.max_buffers_ (file_reader.base r).
Proof.
  unfold file_reader.entry_step, file_reader.cond_wait, file_reader.notified.
  intros H.
  repeat match type of H with
         | context [match ?x with _ => _ end] => destruct x eqn:?
         end;
    try discriminate; inversion H; subst; reflexivity.
Qed.

Lemma file_writer_entry_step_keeps_budget (w w1 : file_writer.t)
      (pool pool1 : aio_buffer_pool.t) (who : list aio_waitable.signalled) :
  file_writer.entry_step w pool = Some (w1, pool1, who) ->
  writer_base.max_buffers_ (file_writer.base w1)
  = writer_base.max_buffers_ (file_writer.base w).
Proof.
  unfold file_writer.entry_step, file_writer.cond_wait.
  intros H.
  repeat match type of H with
         | context [match ?x with _ => _ end] => destruct x eqn:?
         end;
    try discriminate; inversion H; subst; reflexivity.
Qed.

(** C10. A reader or writer constructed with [max_buffers = 0] has
    [max_buffers_ = 1]; with any [max_buffers] (a [size_t], so not negative)
    [max_buffers_] is at least 1, and [get_buffer], [add_buffer] and the
    workers, which compare the queue length with it, leave it as
    constructed. *)
Theorem max_buffers_at_least_one (self : nat) (n : Z) (Hn : 0 <= n) :
  reader_base.max_buffers_ (reader_base.construct self 0) = 1
  /\ writer_base.max_buffers_ (writer_base.construct 0) = 1
  /\ 1 <= reader_base.max_buffers_ (reader_base.construct self n)
  /\ 1 <= writer_base.max_buffers_ (writer_base.construct n)
  /\ (forall r,
        reader_base.max_buffers_ (threaded_reader.base (snd (threaded_reader.do_get_buffer r)))
        = reader_base.max_buffers_ (threaded_reader.base r))
  /\ (forall w b h,
        writer_base.max_buffers_ (file_writer.base (snd (fst (file_writer.add_buffer w b h))))
        = writer_base.max_buffers_ (file_writer.base w))
  /\ (forall r r1 pool pool1 who,
        file_reader.entry_step r pool = Some (r1, pool1, who) ->
        reader_base.max_buffers_ (file_reader.base r1)
        = reader_base.max_buffers_ (file_reader.base r))
  /\ (forall w w1 pool pool1 who,
        file_writer.entry_step w pool = Some (w1, pool1, who) ->
        writer_base.max_buffers_ (file_writer.base w1)
        = writer_base.max_buffers_ (file_writer.base w)).
Proof.
  split; [ reflexivity | ].
  split; [ reflexivity | ].
  split; [ apply reader_budget_positive; assumption | ].
  split; [ apply writer_budget_positive; assumption | ].
  split; [ apply threaded_get_buffer_keeps_budget | ].
  split; [ apply file_writer_add_buffer_keeps_budget | ].
  split; [ apply file_reader_entry_step_keeps_budget | ].
  apply file_writer_entry_step_keeps_budget.
Qed.

Lemma max_buffers_at_least_one_witness :
  1 <= reader_base.max_buffers_ (reader_base.construct 0 4)
  /\ 1 <= writer_base.max_buffers_ (writer_base.construct 4).
Proof.
  destruct (max_buffers_at_least_one 0 4 ltac:(lia)) as (_ & _ & Hr & Hw & _).
  split; assumption.
Defined.

(** ** The layout of the pool (C7) *)

Lemma round_up_exact (x m : Z) :
  0 < m -> x mod m = 0 -> aio_buffer_pool.round_up x m = x.
Proof.
  intros Hm Hx; unfold aio_buffer_pool.round_up.
  pose proof (Z.div_mod x m ltac:(lia)) as E; rewrite Hx in E.
  replace ((x + m - 1) / m) with (x / m); [ lia | ].
  apply Z.div_unique with (r := m - 1); lia.
Qed.

Lemma round_up_inexact (x m : Z) :
  0 < m -> x mod m <> 0 -> aio_buffer_pool.round_up x m = x + (m - x mod m).
Proof.
  intros Hm Hx; unfold aio_buffer_pool.round_up.
  pose proof (Z.div_mod x m ltac:(lia)) as E.
  pose proof (Z.mod_pos_bound x m Hm) as B.
  replace ((x + m - 1) / m) with (x / m + 1); [ lia | ].
  apply Z.div_unique with (r := x mod m - 1); lia.
Qed.

Lemma round_up_bounds (x m : Z) :
  0 < m -> x <= aio_buffer_pool.round_up x m /\ aio_buffer_pool.round_up x m mod m = 0.
Proof.
  intros Hm; split.
  - destruct (Z.eq_dec (x mod m) 0) as [E | E].
    + rewrite round_up_exact by assumption; lia.
    + rewrite round_up_inexact by assumption.
      pose proof (Z.mod_pos_bound x m Hm); lia.
  - unfold aio_buffer_pool.round_up; apply Z.mod_mul; lia.
Qed.

Lemma adjusted_is_round_up (psz size : Z) :
  0 < psz -> 0 <= size -> aio_buffer_pool.round_up size psz + psz < modulus ->
  aio_buffer_pool.adjusted_buffer_size psz size = aio_buffer_pool.round_up size psz.
Proof.
  intros Hp Hs Hr; unfold aio_buffer_pool.adjusted_buffer_size.
  pose proof (Z.mod_pos_bound size psz Hp) as B.
  destruct (Z.eqb_spec (size mod psz) 0) as [E | E].
  - symmetry; apply round_up_exact; assumption.
  - pose proof (round_up_inexact size psz Hp E) as R.
    rewrite (wrap_small (psz - size mod psz)) by lia.
    rewrite wrap_small by lia.
    lia.
Qed.

Lemma carve_map (n : nat) (q stride capacity : Z) :
  aio_buffer_pool.carve n (wrap q) stride capacity
  = map (fun i => mk_nonowning_buffer (wrap (q + Z.of_nat i * stride)) capacity [])
        (seq 0 n).
Proof.
  revert q; induction n as [| n IH]; intros q; [ reflexivity | ].
  cbn [aio_buffer_pool.carve seq map].
  rewrite wrap_add_l, IH, <- seq_shift, map_map.
  f_equal; [ f_equal; f_equal; lia | ].
  apply map_ext; intros i; f_equal; f_equal; lia.
Qed.

Lemma carve_length (n : nat) (p stride capacity : Z) :
  length (aio_buffer_pool.carve n p stride capacity) = n.
Proof.
  revert p; induction n as [| n IH]; intros p; cbn; [ reflexivity | rewrite IH; reflexivity ].
Qed.

Lemma carve_capacity (n : nat) (p stride capacity : Z) :
  Forall (fun b => nb_capacity b = capacity /\ nb_bytes b = [])
         (aio_buffer_pool.carve n p stride capacity).
Proof.
  revert p; induction n as [| n IH]; intros p; cbn; constructor; auto.
Qed.

(** The pool as the constructor leaves it when the layout arithmetic does
    not leave [size_t]. *)
Lemma pool_laid_out (psz count buffer_size base : Z) (allocate : Z -> aio_buffer_pool.allocation) :
  let size := if buffer_size =? 0 then aio_buffer_pool.default_buffer_size else buffer_size in
  let rounded := aio_buffer_pool.round_up size psz in
  0 < psz -> 1 <= count -> 0 <= buffer_size < modulus ->
  (rounded + psz) * count + psz < modulus ->
  allocate ((rounded + psz) * count + psz) = aio_buffer_pool.allocated base ->
  let p := aio_buffer_pool.construct psz allocate count buffer_size in
  laid_out psz count buffer_size base p
  /\ Z.of_nat (length (aio_buffer_pool.buffers_ p)) = count
  /\ Forall (fun b => nb_capacity b = size /\ nb_bytes b = []) (aio_buffer_pool.buffers_ p)
  /\ aio_buffer_pool.memory_ p = Some base.
Proof.
  intros size rounded Hp Hc Hb Hfit Halloc p.
  assert (Hsize : 0 <= size).
  { unfold size, aio_buffer_pool.default_buffer_size.
    destruct (buffer_size =? 0); lia. }
  destruct (round_up_bounds size psz Hp) as [Hle Hdiv]; fold rounded in Hle, Hdiv.
  assert (Hstride : rounded + psz < modulus) by nia.
  assert (Hadj : aio_buffer_pool.adjusted_buffer_size psz size = rounded)
    by (apply adjusted_is_round_up; assumption).
  assert (Hmem : wrap (wrap (wrap (rounded + psz) * count) + psz)
                 = (rounded + psz) * count + psz).
  { rewrite (wrap_small (rounded + psz)) by lia.
    rewrite (wrap_small ((rounded + psz) * count)) by nia.
    apply wrap_small; nia. }
  assert (Hp_eq : p = aio_buffer_pool.mk count ((rounded + psz) * count + psz) (Some base)
                        (aio_buffer_pool.carve (Z.to_nat count) (wrap (base + psz))
                           (rounded + psz) size)
                        aio_waitable.init).
  { unfold p, aio_buffer_pool.construct; fold size.
    rewrite Hadj, Hmem, Halloc.
    rewrite (wrap_small (rounded + psz)) by lia.
    reflexivity. }
  rewrite Hp_eq; cbn [aio_buffer_pool.buffers_ aio_buffer_pool.memory_].
  split; [ | split; [ | split ] ].
  - unfold laid_out; fold size; fold rounded.
    cbn [aio_buffer_pool.buffers_ aio_buffer_pool.memory_size_].
    split; [ reflexivity | split ].
    + rewrite carve_map.
      apply map_ext; intros i; f_equal; f_equal; lia.
    + intros i Hi; cbn zeta.
      split; [ | split; [ | split ] ].
      * replace (psz + i * (rounded + psz))
          with (rounded * i + (1 + i) * psz) by lia.
        rewrite Z.mod_add by lia.
        rewrite Z.mul_comm, Z.mul_mod by lia.
        rewrite Hdiv, Z.mul_0_r; apply Z.mod_0_l; lia.
      * nia.
      * assumption.
      * nia.
  - rewrite carve_length; lia.
  - apply carve_capacity.
  - reflexivity.
Qed.

(** The layout of a pool. When the layout arithmetic does not leave
    [size_t] (the rounded size plus a page, times the count, plus a page
    is below 2^64), a pool constructed for [buffer_count >= 1] buffers
    whose memory was obtained has the mapping length
    [(round_up(buffer_size, page) + page) * buffer_count + page], and its
    free list holds exactly [buffer_count] empty buffers of the capacity
    asked for (256 KiB for 0), buffer [i] at the offset
    [page + i * (rounded + page)] of the memory: a multiple of the page
    size, with a page before it and a page behind its rounded region.
    When the memory lies in the address space, every buffer is as far
    from a page boundary as the memory itself: page-aligned when the
    memory is (as a mapping), and not when it is not (as [new] may give
    it). *)
Theorem pool_layout (psz count buffer_size base : Z) (allocate : Z -> aio_buffer_pool.allocation) :
  let size := if buffer_size =? 0 then aio_buffer_pool.default_buffer_size else buffer_size in
  let rounded := aio_buffer_pool.round_up size psz in
  0 < psz -> 1 <= count -> 0 <= buffer_size < modulus ->
  (rounded + psz) * count + psz < modulus ->
  allocate ((rounded + psz) * count + psz) = aio_buffer_pool.allocated base ->
  let p := aio_buffer_pool.construct psz allocate count buffer_size in
  laid_out psz count buffer_size base p
  /\ Z.of_nat (length (aio_buffer_pool.buffers_ p)) = count
  /\ Forall (fun b => nb_capacity b = size /\ nb_bytes b = []) (aio_buffer_pool.buffers_ p)
  /\ aio_buffer_pool.memory_ p = Some base
  /\ (0 <= base -> base + ((rounded + psz) * count + psz) <= modulus ->
      Forall (fun b => nb_ptr b mod psz = base mod psz) (aio_buffer_pool.buffers_ p)).
Proof.
  intros size rounded Hp Hc Hb Hfit Halloc p.
  destruct (pool_laid_out psz count buffer_size base allocate Hp Hc Hb Hfit Halloc)
    as (Hlaid & Hcount & Hcap & Hmem).
  fold size in Hcap; fold p in Hlaid, Hcount, Hcap, Hmem.
  split; [ exact Hlaid | split; [ exact Hcount | split; [ exact Hcap | split; [ exact Hmem | ] ] ] ].
  intros Hbase Hspace.
  unfold laid_out in Hlaid; fold size in Hlaid; fold rounded in Hlaid.
  destruct Hlaid as (Hlen & Hbufs & Hoffsets).
  rewrite Hbufs; apply Forall_forall; intros b Hin.
  apply in_map_iff in Hin; destruct Hin as (i & Eb & Hi); subst b.
  apply in_seq in Hi; cbn [nb_ptr].
  destruct (Hoffsets (Z.of_nat i) ltac:(lia)) as (Hmod & Hpage & Hsize & Hend).
  cbv zeta in Hmod, Hpage, Hsize, Hend.
  rewrite Hlen in Hend.
  assert (Hrounded : 0 <= rounded).
  { assert (0 <= size) by (unfold size, aio_buffer_pool.default_buffer_size;
                           destruct (buffer_size =? 0); lia).
    lia. }
  rewrite wrap_small by lia.
  rewrite Z.add_mod, Hmod, Z.add_0_r, Z.mod_mod by lia.
  reflexivity.
Qed.

(** The pool of the demo program: eight buffers of the default size on
    pages of 4096 bytes, over memory at a page boundary. *)
Lemma pool_layout_witness :
  let p := aio_buffer_pool.construct 4096 (fun _ => aio_buffer_pool.allocated 65536) 8 0 in
  aio_buffer_pool.memory_size_ p = 2134016
  /\ Z.of_nat (length (aio_buffer_pool.buffers_ p)) = 8
  /\ Forall (fun b => nb_ptr b mod 4096 = 0) (aio_buffer_pool.buffers_ p).
Proof.
  destruct (pool_layout 4096 8 0 65536 (fun _ => aio_buffer_pool.allocated 65536))
    as ((Hlen & _) & Hcount & _ & _ & Hpos).
  - lia.
  - lia.
  - unfold modulus; lia.
  - vm_compute; reflexivity.
  - reflexivity.
  - split; [ exact Hlen | split; [ exact Hcount | ] ].
    apply Hpos; [ lia | vm_compute; discriminate ].
Defined.

(** C7 at the failing input. The constructor rounds [buffer_size] up to
    the page size in [size_t] without a check: for one buffer of 2^64 - 1
    bytes on pages of 4096 bytes the rounded size wraps to 0, the pool is
    constructed over a mapping of 8192 bytes, not of the length the
    formula gives, and the buffer in its free list has a capacity of
    2^64 - 1 bytes, far beyond the mapping. *)
Lemma pool_layout_overflow :
  let p := aio_buffer_pool.construct 4096 (fun _ => aio_buffer_pool.allocated 65536)
             1 (modulus - 1) in
  aio_buffer_pool.to_bool p = true
  /\ aio_buffer_pool.memory_size_ p = 8192
  /\ aio_buffer_pool.buffers_ p = [mk_nonowning_buffer 69632 (modulus - 1) []]
  /\ ~ laid_out 4096 1 (modulus - 1) 65536 p.
Proof.
  cbv zeta.
  split; [ reflexivity | split; [ reflexivity | split; [ reflexivity | ] ] ].
  intros (Hlen & _).
  vm_compute in Hlen; discriminate Hlen.
Qed.

(** ** The initial state of a reader (C2) *)

(** The state the constructor of [view_reader] (and of [string_reader])
    leaves: the sizes and [eof_] as specified, [start_offset_] still at the
    default member initializer [nosize]. *)
Lemma view_reader_construct_state (self : nat) (data : string_view) :
  let r := view_reader.base (view_reader.construct self data) in
  reader_base.start_offset_ r = nosize
  /\ reader_base.size_ r = view_size data
  /\ reader_base.max_size_ r = view_size data
  /\ reader_base.remaining_ r = reader_base.size_ r
  /\ reader_base.eof_ r = (reader_base.remaining_ r =? 0)
  /\ reader_base.error_ r = false
  /\ reader_base.get_buffer_called_ r = false.
Proof.
  cbn.
  destruct (view_size data =? 0); repeat split; reflexivity.
Qed.

(** The factory seeks only for a nonzero offset or a given size, so the
    reader it opens for the whole view is the constructed one. *)
Lemma view_reader_factory_open_whole (self : nat) (data : string_view)
      (pool : aio_buffer_pool.t) :
  view_reader_factory_open self data pool 0 nosize
  = (Some (view_reader.construct self data), pool).
Proof. reflexivity. Qed.

(** C2 at the failing input: a view reader over the five bytes at address
    1000, opened by its factory for the whole view, starts with
    [start_offset_ = nosize = 2^64 - 1], not 0; its sizes and [eof_] are as
    specified. A file reader opened at offset 0 does start at 0. *)
Theorem view_reader_initial_start_offset :
  let r := view_reader.base (view_reader.construct 7 (mk_view 1000 5)) in
  view_reader_factory_open 7 (mk_view 1000 5)
    (aio_buffer_pool.construct 4096 (fun _ => aio_buffer_pool.allocated 65536) 1 4) 0 nosize
  = (Some (view_reader.construct 7 (mk_view 1000 5)),
     aio_buffer_pool.construct 4096 (fun _ => aio_buffer_pool.allocated 65536) 1 4)
  /\ reader_base.start_offset_ r = 18446744073709551615
  /\ reader_base.size_ r = 5
  /\ reader_base.remaining_ r = 5
  /\ reader_base.eof_ r = false
  /\ ~ initial_state_as_specified 5 r.
Proof.
  cbv zeta.
  repeat split; try reflexivity.
  intros (H & _); vm_compute in H; discriminate H.
Qed.

(** The sibling path: the constructor of [file_reader] seeks, which sets
    [start_offset_]. *)
Lemma file_reader_initial_state :
  let f := mk_file true [Byte.x41; Byte.x42; Byte.x43; Byte.x44; Byte.x45] 0 true true None in
  let pool := aio_buffer_pool.construct 4096 (fun _ => aio_buffer_pool.allocated 65536) 1 4 in
  initial_state_as_specified 5
    (file_reader.base (fst (file_reader.construct 7 pool f true 0 nosize 4))).
Proof. vm_compute; repeat split; reflexivity. Qed.

(** ** Assignment of factory holders (C8) *)

Section HolderFacts.

Variable factory : Type.
Variable clone : factory -> factory.

(** A holder that was moved from holds nothing. *)
Lemma moved_from_is_empty (s : factory_holder.store factory) (this op : nat) :
  factory_holder.construct_move factory s this op op = None.
Proof.
  unfold factory_holder.construct_move, factory_holder.put.
  rewrite Nat.eqb_refl; reflexivity.
Qed.

(** Move assignment from an empty holder empties the destination. *)
Lemma assign_move_from_empty (s : factory_holder.store factory) (this op : nat) :
  s op = None ->
  factory_holder.to_bool factory (factory_holder.assign_move factory s this op this) = false.
Proof.
  intros Hop; unfold factory_holder.assign_move, factory_holder.put.
  destruct (Nat.eqb_spec this op) as [E | E]; cbn [negb].
  - subst; rewrite Hop; reflexivity.
  - rewrite Nat.eqb_refl.
    destruct (Nat.eqb_spec this op) as [E' | _]; [ contradiction | ].
    rewrite Hop; reflexivity.
Qed.

(** The copy constructor from an empty holder gives an empty holder. *)
Lemma construct_copy_from_empty (s : factory_holder.store factory) (this op : nat) :
  s op = None ->
  factory_holder.to_bool factory (factory_holder.construct_copy factory clone s this op this)
  = false.
Proof.
  intros Hop; unfold factory_holder.construct_copy, factory_holder.put.
  rewrite Nat.eqb_refl, Hop; reflexivity.
Qed.

(** Copy assignment from an empty holder changes nothing: the
    destination keeps what it held. *)
Lemma assign_copy_from_empty (s : factory_holder.store factory) (this op : nat) :
  s op = None ->
  factory_holder.assign_copy factory clone s this op = s.
Proof.
  intros Hop; unfold factory_holder.assign_copy.
  destruct (negb (this =? op)%nat); [ rewrite Hop | ]; reflexivity.
Qed.

End HolderFacts.

(** C8 at the failing input: the holder at 1 is moved from; after the copy
    assignment [holder0 = holder1] the holder at 0 still holds its file
    factory, for readers and for writers, while the move assignment
    [holder0 = std::move(holder1)] leaves it empty. *)
Theorem holder_copy_assign_from_moved_from :
  reader_factory_holder.to_bool (reader_holders 1%nat) = false
  /\ reader_factory_holder.to_bool
       (reader_factory_holder.assign_copy reader_holders 0%nat 1%nat 0%nat) = true
  /\ reader_factory_holder.assign_copy reader_holders 0%nat 1%nat 0%nat
     = Some (file_reader_factory "a")
  /\ reader_factory_holder.to_bool
       (reader_factory_holder.assign_move reader_holders 0%nat 1%nat 0%nat) = false
  /\ writer_factory_holder.to_bool (writer_holders 1%nat) = false
  /\ writer_factory_holder.to_bool
       (writer_factory_holder.assign_copy writer_holders 0%nat 1%nat 0%nat) = true
  /\ writer_factory_holder.assign_copy writer_holders 0%nat 1%nat 0%nat
     = Some (file_writer_factory "a" false)
  /\ writer_factory_holder.to_bool
       (writer_factory_holder.assign_move writer_holders 0%nat 1%nat 0%nat) = false.
Proof. repeat split; reflexivity. Qed.

(** ** seek (C6) *)

Section Seek.

Context {D : Type} (v : reader_base.virtuals D).
Variables (r : reader_base.t) (d : D) (pool : aio_buffer_pool.t).
Variables (offset size : Z).

Let off := reader_base.seek_offset r offset.
Let sz := reader_base.seek_size r offset size.
Let out := reader_base.seek v r d pool offset size.

(** The range [seek] works with is never at the sentinel offset. *)
Lemma seek_offset_not_nosize : off <> nosize.
Proof.
  unfold off, reader_base.seek_offset.
  destruct (Z.eqb_spec offset nosize) as [E | E]; [ | assumption ].
  destruct (Z.eqb_spec (reader_base.start_offset_ r) nosize); [ discriminate | assumption ].
Qed.

Lemma seek_rejects_overflow :
  in_range off -> in_range sz -> sz <> nosize -> modulus <= off + sz ->
  seek_result out = false.
Proof.
  intros Ho Hs Hn Hov.
  unfold out, reader_base.seek; fold off; fold sz.
  destruct (Z.eqb_spec sz nosize) as [E | _]; [ contradiction | ].
  unfold in_range, nosize in *.
  rewrite wrap_small by lia.
  destruct (Z.leb_spec (modulus - 1 - sz) off); [ reflexivity | lia ].
Qed.

Lemma seek_rejects_unfulfillable :
  in_range off -> in_range sz -> sz <> nosize -> off + sz > reader_base.max_size_ r ->
  seek_result out = false.
Proof.
  intros Ho Hs Hn Hgt.
  unfold out, reader_base.seek; fold off; fold sz.
  destruct (Z.eqb_spec sz nosize) as [E | _]; [ contradiction | ].
  unfold in_range, nosize in *.
  rewrite (wrap_small (modulus - 1 - sz)) by lia.
  destruct (Z.leb_spec (modulus - 1 - sz) off); [ reflexivity | ].
  rewrite (wrap_small (off + sz)) by lia.
  cbn [negb andb].
  destruct (Z.gtb_spec (off + sz) (reader_base.max_size_ r)); [ reflexivity | lia ].
Qed.

Lemma seek_rejects_error : reader_base.error_ r = true -> seek_result out = false.
Proof.
  intros He.
  unfold out, reader_base.seek; fold off; fold sz.
  destruct (negb (sz =? nosize) && (wrap (nosize - sz) <=? off)); [ reflexivity | ].
  destruct (negb (sz =? nosize) && (wrap (off + sz) >? reader_base.max_size_ r));
    [ reflexivity | ].
  rewrite He; reflexivity.
Qed.

Lemma seek_rejects_not_seekable :
  reader_base.changes r off sz = true ->
  reader_base.seekable v r d = false ->
  off <> 0 \/ reader_base.start_offset_ r <> nosize ->
  seek_result out = false.
Proof.
  intros Hc Hs Hw.
  unfold out, reader_base.seek; fold off; fold sz.
  destruct (negb (sz =? nosize) && (wrap (nosize - sz) <=? off)); [ reflexivity | ].
  destruct (negb (sz =? nosize) && (wrap (off + sz) >? reader_base.max_size_ r));
    [ reflexivity | ].
  destruct (reader_base.error_ r); [ reflexivity | ].
  rewrite Hc, Hs; cbn [negb andb].
  destruct (Z.eqb_spec (reader_base.start_offset_ r) nosize) as [E1 | E1];
    destruct (Z.eqb_spec off 0) as [E2 | E2]; cbn; try reflexivity.
  destruct Hw; contradiction.
Qed.

(** What a successful [seek] leaves. *)
Lemma seek_installs :
  do_seek_keeps_base v -> reader_in_range r -> in_range off ->
  seek_result out = true ->
  reader_base.start_offset_ (seek_state out) = off
  /\ (sz <> nosize -> reader_base.size_ (seek_state out) = sz)
  /\ (sz = nosize -> reader_base.max_size_ r <> nosize -> off <= reader_base.max_size_ r ->
      reader_base.size_ (seek_state out) = reader_base.max_size_ r - off)
  /\ (reader_base.changes r off sz = true ->
      reader_base.size_ (seek_state out) = reader_base.seek_new_size r off sz
      /\ reader_base.remaining_ (seek_state out) = reader_base.size_ (seek_state out)
      /\ reader_base.eof_ (seek_state out) = (reader_base.size_ (seek_state out) =? 0)
      /\ reader_base.get_buffer_called_ (seek_state out) = false
      /\ reader_base.buffers_ (seek_state out) = []).
Proof.
  intros Hv (Hsize & Hmax & Hstart) Ho.
  unfold out, reader_base.seek; fold off; fold sz.
  destruct (negb (sz =? nosize) && (wrap (nosize - sz) <=? off)); [ discriminate | ].
  destruct (negb (sz =? nosize) && (wrap (off + sz) >? reader_base.max_size_ r));
    [ discriminate | ].
  destruct (reader_base.error_ r); [ discriminate | ].
  destruct (reader_base.changes r off sz) eqn:Hc; cbn [negb].
  - destruct (negb (reader_base.seekable v r d) && _); [ discriminate | ].
    match goal with
    | |- context [reader_base.do_seek v ?r1 d] =>
        pose proof (Hv r1 d) as Hk; destruct (reader_base.do_seek v r1 d) as [[res r2] d2]
    end.
    cbn [fst snd seek_result seek_state] in *; subst r2.
    intros _; cbn [reader_base.start_offset_ reader_base.size_ reader_base.remaining_
                   reader_base.eof_ reader_base.get_buffer_called_ reader_base.buffers_].
    unfold reader_base.seek_new_size.
    repeat split; try reflexivity.
    + intros Hn; destruct (Z.eqb_spec sz nosize); [ contradiction | reflexivity ].
    + intros Hn Hm Hle; rewrite Hn.
      destruct (Z.eqb_spec (reader_base.max_size_ r) nosize); [ contradiction | ].
      cbn. apply wrap_small. unfold in_range in *; lia.
  - cbn [fst snd seek_result seek_state]; intros _.
    unfold reader_base.changes in Hc.
    apply orb_false_iff in Hc; destruct Hc as [Hc Hc3].
    apply orb_false_iff in Hc; destruct Hc as [_ Hc2].
    apply negb_false_iff, Z.eqb_eq in Hc2.
    repeat split; try discriminate.
    + symmetry; assumption.
    + intros Hn; destruct (Z.eqb_spec sz nosize); [ contradiction | ].
      apply negb_false_iff, Z.eqb_eq in Hc3; symmetry; assumption.
    + intros Hn Hm Hle; rewrite Hn, Z.eqb_refl in Hc3.
      apply negb_false_iff, Z.eqb_eq in Hc3.
      unfold wrap in Hc3; unfold in_range in *.
      assert (Hcases : off + reader_base.size_ r < modulus
                       \/ modulus <= off + reader_base.size_ r) by lia.
      destruct Hcases as [Hlt | Hge].
      * rewrite Z.mod_small in Hc3 by lia; lia.
      * replace (off + reader_base.size_ r)
          with ((off + reader_base.size_ r - modulus) + 1 * modulus) in Hc3 by lia.
        rewrite Z.mod_add in Hc3 by (unfold modulus; lia).
        rewrite Z.mod_small in Hc3 by lia; lia.
Qed.

End Seek.

Lemma seek_success_start_offset {D : Type} (v : reader_base.virtuals D)
      (r : reader_base.t) (d : D) (pool : aio_buffer_pool.t) (offset size : Z) :
  do_seek_keeps_base v ->
  seek_result (reader_base.seek v r d pool offset size) = true ->
  reader_base.start_offset_ (seek_state (reader_base.seek v r d pool offset size))
  = reader_base.seek_offset r offset.
Proof.
  intros Hv; unfold reader_base.seek.
  set (off := reader_base.seek_offset r offset).
  set (sz := reader_base.seek_size r offset size).
  destruct (negb (sz =? nosize) && (wrap (nosize - sz) <=? off)); [ discriminate | ].
  destruct (negb (sz =? nosize) && (wrap (off + sz) >? reader_base.max_size_ r));
    [ discriminate | ].
  destruct (reader_base.error_ r); [ discriminate | ].
  destruct (reader_base.changes r off sz) eqn:Hc; cbn [negb].
  - destruct (negb (reader_base.seekable v r d) && _); [ discriminate | ].
    match goal with
    | |- context [reader_base.do_seek v ?r1 d] =>
        pose proof (Hv r1 d) as Hk; destruct (reader_base.do_seek v r1 d) as [[res r2] d2]
    end.
    cbn [fst snd seek_result seek_state] in *; subst r2; reflexivity.
  - intros _; cbn [fst snd seek_result seek_state].
    unfold reader_base.changes in Hc.
    apply orb_false_iff in Hc; destruct Hc as [Hc _].
    apply orb_false_iff in Hc; destruct Hc as [_ Hc].
    apply negb_false_iff, Z.eqb_eq in Hc; symmetry; exact Hc.
Qed.

Lemma view_reader_do_seek_keeps_base : do_seek_keeps_base view_reader.virtuals.
Proof. intros r d; reflexivity. Qed.

Lemma file_reader_do_seek_keeps_base : do_seek_keeps_base file_reader.virtuals.
Proof.
  intros r d; cbn [file_reader.virtuals reader_base.do_seek].
  unfold file_reader.do_seek.
  destruct (file_ops.seek (file_reader.m_file d) _) as [pos f1].
  destruct (negb (pos =? _)); [ reflexivity | ].
  destruct (negb (reader_base.eof_ r)); [ | reflexivity ].
  destruct (file_reader.m_can_spawn d); reflexivity.
Qed.

Lemma file_reader_seek_started (r r1 : file_reader.t) (pool pool1 : aio_buffer_pool.t)
      (offset size : Z) :
  file_reader.seek r pool offset size = (true, r1, pool1) ->
  reader_base.start_offset_ (file_reader.base r1) <> nosize.
Proof.
  unfold file_reader.seek; intros H.
  pose proof (seek_success_start_offset file_reader.virtuals (file_reader.base r)
                (file_reader.members_of r) pool offset size
                file_reader_do_seek_keeps_base) as Hs.
  destruct (reader_base.seek file_reader.virtuals (file_reader.base r)
              (file_reader.members_of r) pool offset size) as [[[res b1] d1] p1].
  inversion H; subst; clear H.
  cbn [seek_result seek_state fst snd] in Hs.
  unfold file_reader.base, file_reader.assemble; cbn.
  rewrite (Hs eq_refl).
  apply seek_offset_not_nosize.
Qed.

Lemma file_reader_get_buffer_keeps_start (r r1 : file_reader.t) (h : nat)
      (res : aio_result) (b : buffer_lease) :
  file_reader.get_buffer r h = (res, b, r1) ->
  reader_base.start_offset_ (file_reader.base r1)
  = reader_base.start_offset_ (file_reader.base r).
Proof.
  unfold file_reader.get_buffer, threaded_reader.get_buffer, threaded_reader.do_get_buffer,
    file_reader.base.
  intros H.
  destruct (reader_base.buffers_ (threaded_reader.base (file_reader.tr r))) as [| front rest].
  - destruct (reader_base.error_ _); [ inversion H; reflexivity | ].
    destruct (reader_base.eof_ _); inversion H; reflexivity.
  - destruct (Z.of_nat (length (front :: rest)) =? _); inversion H; reflexivity.
Qed.

Lemma file_reader_entry_step_keeps_start (r r1 : file_reader.t)
      (pool pool1 : aio_buffer_pool.t) (who : list aio_waitable.signalled) :
  file_reader.entry_step r pool = Some (r1, pool1, who) ->
  reader_base.start_offset_ (file_reader.base r1)
  = reader_base.start_offset_ (file_reader.base r).
Proof.
  unfold file_reader.entry_step, file_reader.cond_wait, file_reader.notified.
  intros H.
  repeat match type of H with
         | context [match ?x with _ => _ end] => destruct x eqn:?
         end;
    try discriminate; inversion H; subst; reflexivity.
Qed.

Lemma file_reader_opened_started (r : file_reader.t) :
  file_reader_opened r -> reader_base.start_offset_ (file_reader.base r) <> nosize.
Proof.
  induction 1 as [self pool pool1 f can_spawn offset size max_buffers r Hc He
                 | r r1 h res b _ IH Hg
                 | r r1 pool pool1 who _ IH Hs
                 | r r1 pool pool1 offset size _ IH Hs].
  - unfold file_reader.construct in Hc.
    destruct (f_open f).
    + match type of Hc with
      | context [file_reader.seek ?r0 pool offset size] =>
          destruct (file_reader.seek r0 pool offset size) as [[res r2] p2] eqn:Hseek
      end.
      destruct res.
      * inversion Hc; subst; clear Hc.
        eapply file_reader_seek_started; eassumption.
      * inversion Hc; subst; clear Hc; discriminate He.
    + inversion Hc; subst; clear Hc; discriminate He.
  - rewrite (file_reader_get_buffer_keeps_start _ _ _ _ _ Hg); assumption.
  - rewrite (file_reader_entry_step_keeps_start _ _ _ _ _ Hs); assumption.
  - eapply file_reader_seek_started; eassumption.
Qed.

(** A file reader without a known size refuses every seek once a buffer was
    handed out. *)
Lemma file_reader_no_seek_after_reading (r : file_reader.t) (pool : aio_buffer_pool.t)
      (offset size : Z) :
  file_reader_opened r ->
  file_reader.seekable (file_reader.base r) (file_reader.members_of r) = false ->
  reader_base.get_buffer_called_ (file_reader.base r) = true ->
  fst (fst (file_reader.seek r pool offset size)) = false.
Proof.
  intros Ho Hs Hg.
  pose proof (seek_rejects_not_seekable file_reader.virtuals (file_reader.base r)
                (file_reader.members_of r) pool offset size) as Hrej.
  unfold file_reader.seek.
  destruct (reader_base.seek file_reader.virtuals (file_reader.base r)
              (file_reader.members_of r) pool offset size) as [[[res b1] d1] p1].
  cbn [fst snd seek_result] in *.
  apply Hrej.
  - unfold reader_base.changes; rewrite Hg; reflexivity.
  - exact Hs.
  - right; apply file_reader_opened_started; assumption.
Qed.

(** Step 1 of [seek] lets a range pass exactly when no size is given or
    offset + size stays below [nosize] and within [max_size_]. *)
Lemma seek_checks_fit (off sz max : Z) :
  in_range off -> in_range sz -> in_range max ->
  ((negb (sz =? nosize) && (wrap (nosize - sz) <=? off)) = false
   /\ (negb (sz =? nosize) && (wrap (off + sz) >? max)) = false)
  <-> (sz = nosize \/ (off + sz < nosize /\ off + sz <= max)).
Proof.
  intros Ho Hs Hm; unfold in_range in *.
  destruct (Z.eqb_spec sz nosize) as [E | E]; cbn [negb andb].
  - split; [ intros _; left; exact E | intros _; split; reflexivity ].
  - assert (Hsz : sz < nosize) by (unfold nosize in *; lia).
    rewrite (wrap_small (nosize - sz)) by (unfold nosize in *; lia).
    destruct (Z.leb_spec (nosize - sz) off) as [H1 | H1].
    + split; [ intros [H _]; discriminate H | intros [H | [H _]]; [ contradiction | lia ] ].
    + rewrite (wrap_small (off + sz)) by (unfold nosize in *; lia).
      destruct (Z.gtb_spec (off + sz) max) as [H2 | H2].
      * split; [ intros [_ H]; discriminate H | intros [H | [_ H]]; [ contradiction | lia ] ].
      * split; [ intros _; right; lia | intros _; split; reflexivity ].
Qed.

(** Step 2 of [seek] finds nothing to change exactly when no buffer was
    handed out and the range is the current one. *)
Lemma seek_changes_same (r : reader_base.t) (off sz : Z) :
  reader_base.changes r off sz = false
  <-> (reader_base.get_buffer_called_ r = false
       /\ off = reader_base.start_offset_ r
       /\ (sz = nosize -> wrap (off + reader_base.size_ r) = reader_base.max_size_ r)
       /\ (sz <> nosize -> sz = reader_base.size_ r)).
Proof.
  unfold reader_base.changes.
  destruct (reader_base.get_buffer_called_ r); cbn [orb].
  { split; [ discriminate | intros [H _]; discriminate H ]. }
  destruct (Z.eqb_spec off (reader_base.start_offset_ r)) as [E1 | E1]; cbn [negb orb].
  2: { split; [ discriminate | intros (_ & H & _); contradiction ]. }
  destruct (Z.eqb_spec sz nosize) as [E2 | E2].
  - destruct (Z.eqb_spec (wrap (off + reader_base.size_ r)) (reader_base.max_size_ r)) as [E3 | E3];
      cbn [negb].
    + split; [ intros _; repeat split; [ assumption | intros _; assumption | intros H; contradiction ]
             | reflexivity ].
    + split; [ discriminate | intros (_ & _ & H & _); destruct (E3 (H E2)) ].
  - destruct (Z.eqb_spec sz (reader_base.size_ r)) as [E3 | E3]; cbn [negb].
    + split; [ intros _; repeat split; [ assumption | intros H; contradiction | intros _; assumption ]
             | reflexivity ].
    + split; [ discriminate | intros (_ & _ & _ & H); destruct (E3 (H E2)) ].
Qed.

(** The cases of [seek], for a class whose [do_seek] leaves the base
    members alone: refused and nothing touched; nothing to change,
    accepted and nothing touched; or the queue returned to the pool, the
    range installed and the answer that of [do_seek]. *)
Lemma seek_cases {D : Type} (v : reader_base.virtuals D)
        (r : reader_base.t) (d : D) (pool : aio_buffer_pool.t) (offset size : Z) :
  in_range offset -> in_range size -> reader_in_range r -> do_seek_keeps_base v ->
  let out := reader_base.seek v r d pool offset size in
  let current :=
    if reader_base.start_offset_ r =? nosize then 0 else reader_base.start_offset_ r in
  let off := if offset =? nosize then current else offset in
  let sz := if (offset =? nosize) && (size =? nosize) then reader_base.size_ r else size in
  let fits := sz = nosize \/ (off + sz < nosize /\ off + sz <= reader_base.max_size_ r) in
  let same :=
    reader_base.get_buffer_called_ r = false
    /\ off = reader_base.start_offset_ r
    /\ (sz = nosize -> wrap (off + reader_base.size_ r) = reader_base.max_size_ r)
    /\ (sz <> nosize -> sz = reader_base.size_ r) in
  let may_restart :=
    reader_base.seekable v r d = true
    \/ (reader_base.start_offset_ r = nosize /\ off = 0) in
  (~ fits \/ reader_base.error_ r = true \/ (~ same /\ ~ may_restart) ->
   out = (false, r, d, pool))
  /\ (fits -> reader_base.error_ r = false -> same -> out = (true, r, d, pool))
  /\ (fits -> reader_base.error_ r = false -> ~ same -> may_restart ->
      let r1 := seek_state out in
      reader_base.do_seek v r1 d = fst out
      /\ snd out = aio_buffer_pool.release_all
                     (aio_buffer_pool.remove_waiter pool (reader_base.self r))
                     (reader_base.buffers_ r)
      /\ reader_base.start_offset_ r1 = off
      /\ reader_base.size_ r1
         = (if sz =? nosize
            then if reader_base.max_size_ r =? nosize then nosize
                 else wrap (reader_base.max_size_ r - off)
            else sz)
      /\ (sz = nosize -> reader_base.max_size_ r <> nosize -> off <= reader_base.max_size_ r ->
          reader_base.size_ r1 = reader_base.max_size_ r - off)
      /\ reader_base.remaining_ r1 = reader_base.size_ r1
      /\ reader_base.eof_ r1 = (reader_base.size_ r1 =? 0)
      /\ reader_base.get_buffer_called_ r1 = false
      /\ reader_base.buffers_ r1 = []
      /\ reader_base.waitable r1 = aio_waitable.remove_waiters (reader_base.waitable r)
      /\ reader_base.max_size_ r1 = reader_base.max_size_ r
      /\ reader_base.max_buffers_ r1 = reader_base.max_buffers_ r
      /\ reader_base.error_ r1 = false).
Proof.
  intros Ho Hs Hr Hv out current off sz fits same may_restart.
  assert (Eoff : off = reader_base.seek_offset r offset) by reflexivity.
  assert (Esz : sz = reader_base.seek_size r offset size) by reflexivity.
  assert (Hoff : in_range off).
  { unfold off, current.
    destruct (offset =? nosize); [ | assumption ].
    destruct (reader_base.start_offset_ r =? nosize);
      [ unfold in_range, modulus; lia | apply Hr ]. }
  assert (Hsz : in_range sz).
  { unfold sz; destruct ((offset =? nosize) && (size =? nosize)); [ apply Hr | assumption ]. }
  assert (Hmax : in_range (reader_base.max_size_ r)) by apply Hr.
  pose proof (seek_checks_fit off sz (reader_base.max_size_ r) Hoff Hsz Hmax) as Hfit.
  pose proof (seek_changes_same r off sz) as Hsame.
  fold fits in Hfit; fold same in Hsame.
  assert (Hrestart : (negb (reader_base.seekable v r d)
                      && (negb (reader_base.start_offset_ r =? nosize) || negb (off =? 0)))
                     = false <-> may_restart).
  { unfold may_restart.
    destruct (reader_base.seekable v r d); cbn [negb andb].
    - split; [ intros _; left; reflexivity | reflexivity ].
    - destruct (Z.eqb_spec (reader_base.start_offset_ r) nosize) as [E1 | E1];
        destruct (Z.eqb_spec off 0) as [E2 | E2]; cbn [negb orb];
        split; try discriminate; try reflexivity;
        try (intros [H | [H1 H2]]; [ discriminate H | contradiction ]).
      intros _; right; split; assumption. }
  assert (Hunfold :
            out = if negb (sz =? nosize) && (wrap (nosize - sz) <=? off) then (false, r, d, pool)
                  else if negb (sz =? nosize) && (wrap (off + sz) >? reader_base.max_size_ r)
                       then (false, r, d, pool)
                  else if reader_base.error_ r then (false, r, d, pool)
                  else if negb (reader_base.changes r off sz) then (true, r, d, pool)
                  else if negb (reader_base.seekable v r d)
                          && (negb (reader_base.start_offset_ r =? nosize) || negb (off =? 0))
                       then (false, r, d, pool)
                  else
                    let pool1 := aio_buffer_pool.remove_waiter pool (reader_base.self r) in
                    let w1 := aio_waitable.remove_waiters (reader_base.waitable r) in
                    let pool2 := aio_buffer_pool.release_all pool1 (reader_base.buffers_ r) in
                    let new_size := reader_base.seek_new_size r off sz in
                    let r1 := reader_base.mk (reader_base.self r) w1 (reader_base.max_buffers_ r) []
                                new_size (reader_base.max_size_ r)
                                off new_size false (reader_base.error_ r) (new_size =? 0) in
                    match reader_base.do_seek v r1 d with
                    | (res, r2, d2) => (res, r2, d2, pool2)
                    end) by reflexivity.
  clearbody out off sz.
  destruct (negb (sz =? nosize) && (wrap (nosize - sz) <=? off)) eqn:C1.
  { assert (Hnf : ~ fits) by (intros F; apply Hfit in F; destruct F; discriminate).
    split; [ intros _; exact Hunfold | ].
    split; [ intros F; contradiction | intros F; contradiction ]. }
  destruct (negb (sz =? nosize) && (wrap (off + sz) >? reader_base.max_size_ r)) eqn:C2.
  { assert (Hnf : ~ fits) by (intros F; apply Hfit in F; destruct F; discriminate).
    split; [ intros _; exact Hunfold | ].
    split; [ intros F; contradiction | intros F; contradiction ]. }
  assert (F : fits) by (apply Hfit; split; reflexivity).
  destruct (reader_base.error_ r) eqn:He.
  { split; [ intros _; exact Hunfold | ].
    split; [ intros _ H; discriminate H | intros _ H; discriminate H ]. }
  destruct (reader_base.changes r off sz) eqn:Hc; cbn [negb] in Hunfold.
  2: { assert (Sm : same) by (apply Hsame; reflexivity).
       split; [ intros [H | [H | [H _]]]; [ contradiction | discriminate H | contradiction ] | ].
       split; [ intros _ _ _; exact Hunfold | intros _ _ H; contradiction ]. }
  assert (Nsm : ~ same) by (intros Sm; apply Hsame in Sm; discriminate Sm).
  destruct (negb (reader_base.seekable v r d)
            && (negb (reader_base.start_offset_ r =? nosize) || negb (off =? 0))) eqn:C3.
  { assert (Nr : ~ may_restart) by (intros M; apply Hrestart in M; discriminate M).
    split; [ intros _; exact Hunfold | ].
    split; [ intros _ _ H; contradiction | intros _ _ _ H; contradiction ]. }
  assert (M : may_restart) by (apply Hrestart; reflexivity).
  split; [ intros [H | [H | [_ H]]]; [ contradiction | discriminate H | contradiction ] | ].
  split; [ intros _ _ H; contradiction | ].
  intros _ _ _ _.
  cbv zeta in Hunfold.
  match type of Hunfold with
  | context [reader_base.do_seek v ?r1 d] =>
      pose proof (Hv r1 d) as Hk; destruct (reader_base.do_seek v r1 d) as [[res r2] d2] eqn:Hd
  end.
  cbn [fst snd] in Hk; subst r2.
  rewrite Hunfold; cbv zeta; cbn [seek_state fst snd].
  cbn [reader_base.start_offset_ reader_base.size_ reader_base.remaining_ reader_base.eof_
       reader_base.get_buffer_called_ reader_base.buffers_ reader_base.waitable
       reader_base.max_size_ reader_base.max_buffers_ reader_base.error_].
  split; [ exact Hd | ].
  split; [ reflexivity | ].
  split; [ reflexivity | ].
  assert (Hnew : reader_base.seek_new_size r off sz
                 = (if sz =? nosize
                    then if reader_base.max_size_ r =? nosize then nosize
                         else wrap (reader_base.max_size_ r - off)
                    else sz)).
  { unfold reader_base.seek_new_size.
    destruct (sz =? nosize); cbn [negb]; [ | reflexivity ].
    destruct (Z.eqb_spec (reader_base.max_size_ r) nosize) as [E | E]; cbn [negb];
      [ exact E | reflexivity ]. }
  split; [ exact Hnew | ].
  split.
  { intros E1 E2 E3; rewrite Hnew.
    destruct (Z.eqb_spec sz nosize); [ | contradiction ].
    destruct (Z.eqb_spec (reader_base.max_size_ r) nosize); [ contradiction | ].
    apply wrap_small; unfold in_range in *; lia. }
  repeat split; reflexivity.
Qed.

(** [reader_base::seek(offset, size)], for a class whose [do_seek]
    leaves the base members alone, case by case. With [nosize] as offset
    the current offset is taken (0 if none was set), and then [nosize] as
    size is the current size. [seek] returns [false] and touches nothing
    when a size is given and offset + size reaches [nosize] or exceeds
    [max_size_], when the error flag is set, and when something would
    change on a reader that is not seekable and was started before or is
    not sought to 0. It returns [true] and touches nothing when no buffer
    was handed out and the range is the current one. In every other case
    the waiters are dropped, the queued leases go back to the pool, the
    range is installed ([nosize] as size being the rest of the source
    from the offset on, or [nosize] when the end is not known),
    [remaining_] is the size, [get_buffer_called_] is cleared, and the
    answer is that of [do_seek]. A file reader without a known size
    refuses every seek once a buffer was handed out. *)
Theorem seek_semantics {D : Type} (v : reader_base.virtuals D)
        (r : reader_base.t) (d : D) (pool : aio_buffer_pool.t) (offset size : Z) :
  in_range offset -> in_range size -> reader_in_range r -> do_seek_keeps_base v ->
  let out := reader_base.seek v r d pool offset size in
  let current :=
    if reader_base.start_offset_ r =? nosize then 0 else reader_base.start_offset_ r in
  let off := if offset =? nosize then current else offset in
  let sz := if (offset =? nosize) && (size =? nosize) then reader_base.size_ r else size in
  let fits := sz = nosize \/ (off + sz < nosize /\ off + sz <= reader_base.max_size_ r) in
  let same :=
    reader_base.get_buffer_called_ r = false
    /\ off = reader_base.start_offset_ r
    /\ (sz = nosize -> wrap (off + reader_base.size_ r) = reader_base.max_size_ r)
    /\ (sz <> nosize -> sz = reader_base.size_ r) in
  let may_restart :=
    reader_base.seekable v r d = true
    \/ (reader_base.start_offset_ r = nosize /\ off = 0) in
  (~ fits \/ reader_base.error_ r = true \/ (~ same /\ ~ may_restart) ->
   out = (false, r, d, pool))
  /\ (fits -> reader_base.error_ r = false -> same -> out = (true, r, d, pool))
  /\ (fits -> reader_base.error_ r = false -> ~ same -> may_restart ->
      let r1 := seek_state out in
      reader_base.do_seek v r1 d = fst out
      /\ snd out = aio_buffer_pool.release_all
                     (aio_buffer_pool.remove_waiter pool (reader_base.self r))
                     (reader_base.buffers_ r)
      /\ reader_base.start_offset_ r1 = off
      /\ reader_base.size_ r1
         = (if sz =? nosize
            then if reader_base.max_size_ r =? nosize then nosize
                 else wrap (reader_base.max_size_ r - off)
            else sz)
      /\ (sz = nosize -> reader_base.max_size_ r <> nosize -> off <= reader_base.max_size_ r ->
          reader_base.size_ r1 = reader_base.max_size_ r - off)
      /\ reader_base.remaining_ r1 = reader_base.size_ r1
      /\ reader_base.eof_ r1 = (reader_base.size_ r1 =? 0)
      /\ reader_base.get_buffer_called_ r1 = false
      /\ reader_base.buffers_ r1 = []
      /\ reader_base.waitable r1 = aio_waitable.remove_waiters (reader_base.waitable r)
      /\ reader_base.max_size_ r1 = reader_base.max_size_ r
      /\ reader_base.max_buffers_ r1 = reader_base.max_buffers_ r
      /\ reader_base.error_ r1 = false)
  /\ (forall (fr : file_reader.t) (fpool : aio_buffer_pool.t),
        file_reader_opened fr ->
        file_reader.seekable (file_reader.base fr) (file_reader.members_of fr) = false ->
        reader_base.get_buffer_called_ (file_reader.base fr) = true ->
        fst (fst (file_reader.seek fr fpool offset size)) = false).
Proof.
  intros Ho Hs Hr Hv out current off sz fits same may_restart.
  destruct (seek_cases v r d pool offset size Ho Hs Hr Hv) as (H1 & H2 & H3).
  split; [ exact H1 | split; [ exact H2 | split; [ exact H3 | ] ] ].
  intros fr fpool; apply file_reader_no_seek_after_reading.
Qed.

(** A view reader over five bytes is sought to offset 2 with no size: it
    then starts at 2 and has the three bytes to the end; sought again to
    the current range, it answers [true] and is left as it is. *)
Lemma seek_semantics_witness :
  let r := view_reader.base (view_reader.construct 7 (mk_view 1000 5)) in
  let pool := aio_buffer_pool.construct 4096 (fun _ => aio_buffer_pool.allocated 65536) 1 4 in
  let out := reader_base.seek view_reader.virtuals r (mk_view 1000 5) pool 2 nosize in
  seek_result out = true
  /\ reader_base.start_offset_ (seek_state out) = 2
  /\ reader_base.size_ (seek_state out) = 3
  /\ reader_base.seek view_reader.virtuals (seek_state out) (mk_view 1000 5) (snd out)
       nosize nosize
     = (true, seek_state out, mk_view 1000 5, snd out).
Proof.
  cbv zeta.
  set (r := view_reader.base (view_reader.construct 7 (mk_view 1000 5))).
  set (pool := aio_buffer_pool.construct 4096 (fun _ => aio_buffer_pool.allocated 65536) 1 4).
  assert (Hin : forall z, 0 <= z < modulus -> in_range z) by (intros z H; exact H).
  pose proof (seek_semantics view_reader.virtuals r (mk_view 1000 5) pool 2 nosize
                (Hin 2 ltac:(unfold modulus; lia)) nosize_range) as H.
  cbv zeta in H.
  destruct H as (_ & _ & Hchange & _).
  - repeat split; vm_compute; congruence.
  - apply view_reader_do_seek_keeps_base.
  - destruct Hchange as (Hd & _ & H1 & _ & H3 & _).
    + left; reflexivity.
    + reflexivity.
    + intros (_ & E & _); vm_compute in E; discriminate E.
    + left; reflexivity.
    + split; [ unfold seek_result; rewrite <- Hd; reflexivity | ].
      split; [ exact H1 | ].
      split; [ apply H3; [ reflexivity | discriminate | vm_compute; congruence ] | ].
      set (out := reader_base.seek view_reader.virtuals r (mk_view 1000 5) pool 2 nosize).
      pose proof (seek_semantics view_reader.virtuals (seek_state out) (mk_view 1000 5)
                    (snd out) nosize nosize nosize_range nosize_range) as K.
      cbv zeta in K.
      destruct K as (_ & Hsame & _).
      * repeat split; vm_compute; congruence.
      * apply view_reader_do_seek_keeps_base.
      * apply Hsame.
        -- right; vm_compute; split; [ reflexivity | congruence ].
        -- reflexivity.
        -- repeat split; try reflexivity; vm_compute; congruence.
Defined.

(** C6 at the failing input. A seek with [nosize] as size is to read to
    the end of the source, but [seek] compares the range with [max_size_]
    only when a size is given: on a seekable reader without error, an
    offset behind the end of the source is accepted, and the size
    installed is [max_size_ - offset] in 64 bits, that is
    2^64 - (offset - max_size_) bytes to be read from behind the end of a
    source of [max_size_] bytes. *)
Theorem seek_to_end_behind_the_source {D : Type} (v : reader_base.virtuals D)
        (r : reader_base.t) (d : D) (pool : aio_buffer_pool.t) (offset : Z) :
  do_seek_keeps_base v ->
  (forall r1, fst (fst (reader_base.do_seek v r1 d)) = true) ->
  reader_base.seekable v r d = true ->
  reader_in_range r -> reader_base.error_ r = false ->
  reader_base.max_size_ r < offset < nosize ->
  let out := reader_base.seek v r d pool offset nosize in
  seek_result out = true
  /\ reader_base.start_offset_ (seek_state out) = offset
  /\ reader_base.max_size_ (seek_state out) = reader_base.max_size_ r
  /\ reader_base.size_ (seek_state out) = modulus + reader_base.max_size_ r - offset
  /\ (reader_base.changes r offset nosize = true ->
      reader_base.remaining_ (seek_state out) = modulus + reader_base.max_size_ r - offset
      /\ reader_base.eof_ (seek_state out) = false).
Proof.
  intros Hv Hacc Hseek Hr He Hoff out.
  assert (Ho : in_range offset) by (destruct Hr as (_ & Hm & _); unfold in_range, nosize in *; lia).
  destruct (seek_cases v r d pool offset nosize Ho nosize_range Hr Hv) as (_ & Hsame & Hchange).
  cbv zeta in Hsame, Hchange; fold out in Hsame, Hchange.
  assert (Eo : (offset =? nosize) = false) by (apply Z.eqb_neq; lia).
  rewrite Eo in Hsame, Hchange; cbn [andb] in Hsame, Hchange.
  assert (Hmax : (reader_base.max_size_ r =? nosize) = false) by (apply Z.eqb_neq; lia).
  assert (Hnew : wrap (reader_base.max_size_ r - offset)
                 = modulus + reader_base.max_size_ r - offset).
  { destruct Hr as (_ & Hm & _); unfold in_range, nosize in *.
    unfold wrap; symmetry; apply (Z.mod_unique _ _ (-1)); lia. }
  destruct (reader_base.changes r offset nosize) eqn:Hc.
  - assert (Nsm : ~ (reader_base.get_buffer_called_ r = false
                     /\ offset = reader_base.start_offset_ r
                     /\ (nosize = nosize ->
                         wrap (offset + reader_base.size_ r) = reader_base.max_size_ r)
                     /\ (nosize <> nosize -> nosize = reader_base.size_ r))).
    { intros Sm; apply seek_changes_same in Sm; congruence. }
    destruct (Hchange (or_introl eq_refl) He Nsm (or_introl Hseek))
      as (Hd & _ & H1 & H2 & _ & H3 & H4 & _ & _ & _ & H5 & _).
    rewrite Z.eqb_refl, Hmax, Hnew in H2.
    split; [ unfold seek_result; rewrite <- Hd; apply Hacc | ].
    split; [ exact H1 | split; [ exact H5 | split; [ exact H2 | ] ] ].
    intros _; rewrite H3, H4, H2.
    split; [ reflexivity | ].
    apply Z.eqb_neq; destruct Hr as (_ & Hm & _); unfold in_range, nosize in *; lia.
  - pose proof (proj1 (seek_changes_same r offset nosize) Hc) as Sm.
    rewrite (Hsame (or_introl eq_refl) He Sm); cbn [seek_result seek_state fst snd].
    destruct Sm as (_ & E1 & E2 & _).
    split; [ reflexivity | split; [ symmetry; exact E1 | split; [ reflexivity | ] ] ].
    split; [ | discriminate ].
    specialize (E2 eq_refl).
    destruct Hr as (Hs & Hm & _); unfold in_range, nosize in *.
    unfold wrap in E2.
    assert (Hq : (offset + reader_base.size_ r) mod modulus
                 = offset + reader_base.size_ r - modulus).
    { destruct (Z_lt_le_dec (offset + reader_base.size_ r) modulus) as [Hlt | Hge].
      - rewrite Z.mod_small in E2 by lia; lia.
      - symmetry; apply (Z.mod_unique _ _ 1); lia. }
    lia.
Qed.

(** A fresh view reader over five bytes sought to offset 7 with no size:
    the answer is [true] and the size installed is 2^64 - 2. *)
Lemma seek_to_end_behind_the_source_witness :
  let out := reader_base.seek view_reader.virtuals (view_reader.base abcde_reader)
               (mk_view 1000 5) one_buffer_pool 7 nosize in
  seek_result out = true
  /\ reader_base.start_offset_ (seek_state out) = 7
  /\ reader_base.max_size_ (seek_state out) = 5
  /\ reader_base.size_ (seek_state out) = modulus - 2.
Proof.
  cbv zeta.
  destruct (seek_to_end_behind_the_source view_reader.virtuals (view_reader.base abcde_reader)
              (mk_view 1000 5) one_buffer_pool 7)
    as (H1 & H2 & H3 & H4 & _).
  - apply view_reader_do_seek_keeps_base.
  - intros r1; reflexivity.
  - reflexivity.
  - repeat split; vm_compute; congruence.
  - reflexivity.
  - cbn; unfold nosize, modulus; lia.
  - split; [ exact H1 | split; [ exact H2 | split; [ exact H3 | ] ] ].
    rewrite H4; cbn; lia.
Defined.

(** ** The error latch (C3) *)

Lemma file_writer_add_buffer_in_error (w : file_writer.t) (b : buffer_lease) (h : nat) :
  writer_base.error_ (file_writer.base w) = true ->
  file_writer.add_buffer w b h = (error, w, b).
Proof. intros He; unfold file_writer.add_buffer; rewrite He; reflexivity. Qed.

Lemma file_writer_finalize_in_error (w : file_writer.t) (h : nat) :
  writer_base.error_ (file_writer.base w) = true ->
  file_writer.finalize w h = (error, w).
Proof.
  intros He; unfold file_writer.finalize, file_writer.do_finalize; rewrite He; reflexivity.
Qed.

Lemma file_writer_preallocate_in_error (w : file_writer.t) (n : Z) :
  writer_base.error_ (file_writer.base w) = true ->
  file_writer.preallocate w n = (error, w).
Proof. intros He; unfold file_writer.preallocate; rewrite He; reflexivity. Qed.

Lemma file_writer_set_mtime_in_error (w : file_writer.t) (time : option Z) :
  writer_base.error_ (file_writer.base w) = true ->
  file_writer.set_mtime w time = (false, w).
Proof. intros He; unfold file_writer.set_mtime; rewrite He; reflexivity. Qed.

Lemma buffer_writer_add_buffer_in_error (w : buffer_writer.t) (b : buffer_lease) (h : nat) :
  writer_base.error_ (buffer_writer.base w) = true ->
  buffer_writer.add_buffer w b h = (error, w, b).
Proof. intros He; unfold buffer_writer.add_buffer; rewrite He; reflexivity. Qed.

Lemma buffer_writer_finalize_in_error (w : buffer_writer.t) (h : nat) :
  writer_base.error_ (buffer_writer.base w) = true ->
  buffer_writer.finalize w h = (error, w).
Proof.
  intros He; unfold buffer_writer.finalize, buffer_writer.do_finalize; rewrite He; reflexivity.
Qed.

Lemma seek_in_error {D : Type} (v : reader_base.virtuals D) (r : reader_base.t) (d : D)
      (pool : aio_buffer_pool.t) (offset size : Z) :
  reader_base.error_ r = true ->
  reader_base.seek v r d pool offset size = (false, r, d, pool).
Proof.
  intros He; unfold reader_base.seek.
  destruct (negb _ && (wrap (nosize - _) <=? _)); [ reflexivity | ].
  destruct (negb _ && (wrap _ >? _)); [ reflexivity | ].
  rewrite He; reflexivity.
Qed.

Lemma view_reader_get_buffer_in_error (m : memory) (r : view_reader.t)
      (pool : aio_buffer_pool.t) (h : nat) :
  reader_base.error_ (view_reader.base r) = true ->
  view_reader.get_buffer m r pool h = (error, empty_lease, r, pool).
Proof.
  intros He.
  unfold view_reader.get_buffer, reader_base.get_buffer, view_reader.do_get_buffer.
  rewrite He; destruct r; reflexivity.
Qed.

Lemma threaded_reader_get_buffer_in_error_empty (r : threaded_reader.t) (h : nat) :
  reader_base.error_ (threaded_reader.base r) = true ->
  reader_base.buffers_ (threaded_reader.base r) = [] ->
  threaded_reader.get_buffer r h = (error, empty_lease, r).
Proof.
  intros He Hb; unfold threaded_reader.get_buffer, threaded_reader.do_get_buffer.
  rewrite Hb, He; reflexivity.
Qed.

Lemma threaded_reader_get_buffer_in_error_queued (r : threaded_reader.t) (h : nat)
      (front : buffer_lease) (rest : list buffer_lease) :
  reader_base.error_ (threaded_reader.base r) = true ->
  reader_base.buffers_ (threaded_reader.base r) = front :: rest ->
  exists r1,
    threaded_reader.get_buffer r h = (ok, front, r1)
    /\ reader_base.error_ (threaded_reader.base r1) = true
    /\ reader_base.buffers_ (threaded_reader.base r1) = rest.
Proof.
  intros He Hb; unfold threaded_reader.get_buffer, threaded_reader.do_get_buffer.
  rewrite Hb.
  destruct (Z.of_nat (length (front :: rest)) =? _);
    eexists; (split; [ reflexivity | split; [ exact He | reflexivity ] ]).
Qed.

(** [close] needs no flag: it empties the queue of a reader, and joins the
    worker of a file writer and closes its file. *)
Lemma reader_close_effect (r : reader_base.t) (pool : aio_buffer_pool.t) :
  reader_base.buffers_ (fst (reader_base.close r pool)) = []
  /\ reader_base.error_ (fst (reader_base.close r pool)) = reader_base.error_ r.
Proof. split; reflexivity. Qed.

Lemma file_writer_close_in_any_state (w : file_writer.t) (pool : aio_buffer_pool.t) :
  file_writer.task_ (fst (file_writer.close w pool)) = no_task
  /\ f_open (file_writer.file_ (fst (file_writer.close w pool))) = false
  /\ writer_base.buffers_ (file_writer.base (fst (file_writer.close w pool))) = [].
Proof.
  unfold file_writer.close, file_writer.do_close, file_writer.threaded_do_close.
  cbn [file_writer.file_ file_writer.base].
  destruct (f_open (file_writer.file_ w)) eqn:Ho; cbn; repeat split.
  exact Ho.
Qed.

(** C3, as amended. With [error_] set, a file writer and a buffer writer
    return [error] from [add_buffer], for an empty lease too, and from
    [finalize]; a file writer returns [error] from [preallocate] and [false]
    from [set_mtime]; a reader returns [false] from [seek]; a view or string
    reader returns [error] from [get_buffer]. Each leaves the object as it
    was, so the flag stays set. A threaded reader returns [error] from
    [get_buffer] when its queue is empty; while buffers are queued it hands
    out the first one with [ok] and keeps the flag. [close] still does its
    work: the queue of a reader is emptied, the worker of a file writer is
    joined and its file closed. *)
Theorem error_is_latched :
  (forall w b h, writer_base.error_ (file_writer.base w) = true ->
                 file_writer.add_buffer w b h = (error, w, b))
  /\ (forall w h, writer_base.error_ (file_writer.base w) = true ->
                  file_writer.add_buffer w empty_lease h = (error, w, empty_lease))
  /\ (forall w h, writer_base.error_ (file_writer.base w) = true ->
                  file_writer.finalize w h = (error, w))
  /\ (forall w n, writer_base.error_ (file_writer.base w) = true ->
                  file_writer.preallocate w n = (error, w))
  /\ (forall w time, writer_base.error_ (file_writer.base w) = true ->
                     file_writer.set_mtime w time = (false, w))
  /\ (forall w b h, writer_base.error_ (buffer_writer.base w) = true ->
                    buffer_writer.add_buffer w b h = (error, w, b))
  /\ (forall w h, writer_base.error_ (buffer_writer.base w) = true ->
                  buffer_writer.finalize w h = (error, w))
  /\ (forall (D : Type) (v : reader_base.virtuals D) r d pool offset size,
        reader_base.error_ r = true ->
        reader_base.seek v r d pool offset size = (false, r, d, pool))
  /\ (forall m r pool h, reader_base.error_ (view_reader.base r) = true ->
                         view_reader.get_buffer m r pool h = (error, empty_lease, r, pool))
  /\ (forall r h, reader_base.error_ (threaded_reader.base r) = true ->
                  reader_base.buffers_ (threaded_reader.base r) = [] ->
                  threaded_reader.get_buffer r h = (error, empty_lease, r))
  /\ (forall r h front rest,
        reader_base.error_ (threaded_reader.base r) = true ->
        reader_base.buffers_ (threaded_reader.base r) = front :: rest ->
        exists r1,
          threaded_reader.get_buffer r h = (ok, front, r1)
          /\ reader_base.error_ (threaded_reader.base r1) = true
          /\ reader_base.buffers_ (threaded_reader.base r1) = rest)
  /\ (forall r pool, reader_base.error_ r = true ->
                     reader_base.buffers_ (fst (reader_base.close r pool)) = []
                     /\ reader_base.error_ (fst (reader_base.close r pool)) = true)
  /\ (forall w pool, writer_base.error_ (file_writer.base w) = true ->
                     file_writer.task_ (fst (file_writer.close w pool)) = no_task
                     /\ f_open (file_writer.file_ (fst (file_writer.close w pool))) = false).
Proof.
  split; [ exact file_writer_add_buffer_in_error | ].
  split; [ intros w h; apply file_writer_add_buffer_in_error | ].
  split; [ exact file_writer_finalize_in_error | ].
  split; [ exact file_writer_preallocate_in_error | ].
  split; [ exact file_writer_set_mtime_in_error | ].
  split; [ exact buffer_writer_add_buffer_in_error | ].
  split; [ exact buffer_writer_finalize_in_error | ].
  split; [ intros D v r d pool offset size; apply seek_in_error | ].
  split; [ exact view_reader_get_buffer_in_error | ].
  split; [ exact threaded_reader_get_buffer_in_error_empty | ].
  split; [ exact threaded_reader_get_buffer_in_error_queued | ].
  split.
  - intros r pool He; destruct (reader_close_effect r pool) as [H1 H2].
    split; [ exact H1 | rewrite H2; exact He ].
  - intros w pool _; destruct (file_writer_close_in_any_state w pool) as (H1 & H2 & _).
    split; assumption.
Qed.

(** A buffer writer with a limit of one byte is given two bytes: it is in
    error, and the next [add_buffer], with an empty lease, returns
    [error]. *)
Lemma error_is_latched_witness :
  let b := mk_lease (mk_nonowning_buffer 69632 2 [Byte.x41; Byte.x42]) true in
  let w := snd (fst (buffer_writer.add_buffer (buffer_writer.construct [] 1) b 9)) in
  writer_base.error_ (buffer_writer.base w) = true
  /\ buffer_writer.add_buffer w empty_lease 9 = (error, w, empty_lease).
Proof.
  cbv zeta.
  destruct error_is_latched as (_ & _ & _ & _ & _ & H & _).
  split; [ reflexivity | ].
  apply H; reflexivity.
Defined.

(** C3 as stated fails for a threaded reader. A file reader reads a source
    that ends one byte before the four bytes asked for: after two turns of
    the worker [error_] is set and two buffers are queued, and [get_buffer]
    returns [ok] with the first of them. *)
Lemma error_with_queued_buffers :
  exists r,
    reader_after_short_read = Some r
    /\ reader_base.error_ (file_reader.base r) = true
    /\ map (fun l => nb_bytes (lease_buffer l)) (reader_base.buffers_ (file_reader.base r))
       = [[Byte.x41; Byte.x42]; [Byte.x43]]
    /\ fst (fst (file_reader.get_buffer r 9)) = ok
    /\ nb_bytes (lease_buffer (snd (fst (file_reader.get_buffer r 9))))
       = [Byte.x41; Byte.x42]
    /\ fst (fst (file_reader.get_buffer r 9)) <> error.
Proof.
  eexists; split; [ vm_compute; reflexivity | ].
  repeat split; try reflexivity; discriminate.
Qed.

(** ** finalize and set_mtime (C4) *)

(** Before a worker has made [finalizing_] 2, [set_mtime] returns [false]. *)
Lemma set_mtime_needs_finalized (w : file_writer.t) (time : option Z) :
  writer_base.finalizing_ (file_writer.base w) <> 2 ->
  file_writer.set_mtime w time = (false, w).
Proof.
  intros Hf; unfold file_writer.set_mtime.
  destruct (writer_base.error_ (file_writer.base w)); [ reflexivity | ].
  destruct (Z.eqb_spec (writer_base.finalizing_ (file_writer.base w)) 2);
    [ contradiction | reflexivity ].
Qed.

(** With [finalizing_] at 2 and no error, [set_mtime] takes a valid time. *)
Lemma set_mtime_when_finalized (w : file_writer.t) (time : Z) :
  writer_base.error_ (file_writer.base w) = false ->
  writer_base.finalizing_ (file_writer.base w) = 2 ->
  f_open (file_writer.file_ w) = true ->
  fst (file_writer.set_mtime w (Some time)) = true.
Proof.
  intros He Hf Ho; unfold file_writer.set_mtime, file_ops.set_modification_time.
  rewrite He, Hf, Ho; reflexivity.
Qed.

(** Without fsync, [finalize] on an idle writer returns [ok] at once: it
    sets [finalizing_] to 1 and does not wake the worker, which is the one
    to make it 2. The worker stays asleep and [set_mtime] returns
    [false]. *)
Lemma finalize_without_fsync_on_idle_writer (w : file_writer.t) (h : nat)
      (pool : aio_buffer_pool.t) (time : option Z) :
  writer_idle w ->
  let w1 := snd (file_writer.finalize w h) in
  fst (file_writer.finalize w h) = ok
  /\ writer_base.finalizing_ (file_writer.base w1) = 1
  /\ file_writer.entry_step w1 pool = None
  /\ file_writer.set_mtime w1 time = (false, w1)
  /\ file_writer.finalize w1 h = (ok, w1).
Proof.
  intros (He & Ho & Hs & Hb & Hf & Ht & Hc).
  destruct w as [b c k q f s p o]; cbn in *; subst.
  unfold file_writer.finalize, file_writer.do_finalize, file_writer.continue_finalize.
  cbn. rewrite He, Hf, Ho, Hb. cbn.
  repeat split.
  - unfold file_writer.set_mtime; cbn; rewrite He; reflexivity.
  - rewrite He, Ho, Hb; reflexivity.
Qed.

(** C4 at the failing input: a file writer without fsync is opened at
    offset 0 and its worker goes to sleep on the empty queue. [finalize]
    returns [ok] on its first call, [finalizing_] is 1, the worker has no
    turn to take, and [set_mtime] with a valid time returns [false]. With
    fsync the first [finalize] returns [wait], the worker makes
    [finalizing_] 2, the second [finalize] returns [ok] and [set_mtime]
    returns [true]. *)
Theorem set_mtime_after_finalize_without_fsync :
  exists w,
    idle_writer = Some w
    /\ writer_idle w
    /\ fst (file_writer.finalize w 9) = ok
    /\ writer_base.finalizing_ (file_writer.base (snd (file_writer.finalize w 9))) = 1
    /\ file_writer.entry_step (snd (file_writer.finalize w 9)) small_pool = None
    /\ fst (file_writer.set_mtime (snd (file_writer.finalize w 9)) (Some 1)) = false
    /\ (exists ws,
          file_writer_factory_open fresh_disk true 0 0 = Some ws
          /\ let ws1 := fst (file_writer.run_worker 5 ws small_pool) in
             fst (file_writer.finalize ws1 9) = wait
             /\ let ws2 := fst (file_writer.run_worker 5 (snd (file_writer.finalize ws1 9))
                                  small_pool) in
                fst (file_writer.finalize ws2 9) = ok
                /\ fst (file_writer.set_mtime ws2 (Some 1)) = true).
Proof.
  eexists; split; [ vm_compute; reflexivity | ].
  split; [ repeat split | ].
  repeat split.
  eexists; split; [ vm_compute; reflexivity | ].
  cbv zeta; repeat split.
Qed.

(** ** close of a file writer (C5) *)

(** What closing does to the directory entry and to the file, for every
    writer with an open file. *)
Lemma do_close_effect (w : file_writer.t) :
  f_open (file_writer.file_ w) = true ->
  let remove := (writer_base.finalizing_ (file_writer.base w) =? 0)
                && (f_pos (file_writer.file_ w) =? 0) in
  let w1 := file_writer.do_close w in
  file_writer.on_disk w1 = (if remove then false else file_writer.on_disk w)
  /\ f_open (file_writer.file_ w1) = false
  /\ f_bytes (file_writer.file_ w1)
     = (if negb remove && file_writer.preallocated_ w
        then f_bytes (snd (file_ops.truncate (file_writer.file_ w)))
        else f_bytes (file_writer.file_ w)).
Proof.
  intros Ho; cbv zeta.
  unfold file_writer.do_close, file_writer.threaded_do_close, file_ops.position.
  cbn [file_writer.file_ file_writer.base file_writer.preallocated_ file_writer.on_disk].
  rewrite Ho.
  destruct ((writer_base.finalizing_ (file_writer.base w) =? 0)
            && (f_pos (file_writer.file_ w) =? 0));
    destruct (file_writer.preallocated_ w); repeat split.
Qed.

(** [truncate] cuts an open file at the position. *)
Lemma truncate_at_position (f : file) :
  f_open f = true -> 0 <= f_pos f ->
  Z.of_nat (length (f_bytes (snd (file_ops.truncate f)))) = f_pos f
  /\ firstn (Z.to_nat (f_pos f)) (f_bytes (snd (file_ops.truncate f)))
     = f_bytes (snd (file_ops.truncate f))
  /\ (f_pos f <= Z.of_nat (length (f_bytes f)) ->
      f_bytes (snd (file_ops.truncate f)) = firstn (Z.to_nat (f_pos f)) (f_bytes f)).
Proof.
  intros Ho Hp; unfold file_ops.truncate; rewrite Ho; cbn [snd f_bytes].
  set (n := Z.to_nat (f_pos f)).
  assert (Hlen : length (firstn n (f_bytes f)
                         ++ repeat Byte.x00 (n - length (firstn n (f_bytes f)))) = n).
  { rewrite length_app, repeat_length, length_firstn; lia. }
  split; [ rewrite Hlen; unfold n; lia | split ].
  - rewrite <- Hlen at 1; apply firstn_all.
  - intros Hle.
    rewrite length_firstn.
    replace (n - Nat.min n (length (f_bytes f)))%nat with 0%nat by lia.
    cbn [repeat]; apply app_nil_r.
Qed.

(** The worker of a writer with nothing queued and no finalize asked for
    leaves file, flags and directory entry alone. *)
Lemma idle_worker_step (w w1 : file_writer.t) (pool pool1 : aio_buffer_pool.t)
      (who : list aio_waitable.signalled) :
  writer_base.buffers_ (file_writer.base w) = [] ->
  writer_base.finalizing_ (file_writer.base w) = 0 ->
  file_writer.entry_step w pool = Some (w1, pool1, who) ->
  file_writer.base w1 = file_writer.base w
  /\ file_writer.file_ w1 = file_writer.file_ w
  /\ file_writer.preallocated_ w1 = file_writer.preallocated_ w
  /\ file_writer.on_disk w1 = file_writer.on_disk w.
Proof.
  intros Hb Hf; unfold file_writer.entry_step, file_writer.cond_wait.
  rewrite Hb, Hf; cbn [Z.eqb].
  destruct (file_writer.task_ w); try discriminate.
  - destruct (file_writer.quit_ w || writer_base.error_ (file_writer.base w)).
    + intros H; inversion H; subst; repeat split.
    + destruct (file_writer.cond_ w); intros H; inversion H; subst; repeat split.
  - destruct (file_writer.cond_ w); [ | discriminate ].
    intros H; inversion H; subst; repeat split.
Qed.

Lemma idle_worker_run (n : nat) (w : file_writer.t) (pool : aio_buffer_pool.t) :
  writer_base.buffers_ (file_writer.base w) = [] ->
  writer_base.finalizing_ (file_writer.base w) = 0 ->
  let w1 := fst (file_writer.run_worker n w pool) in
  file_writer.base w1 = file_writer.base w
  /\ file_writer.file_ w1 = file_writer.file_ w
  /\ file_writer.preallocated_ w1 = file_writer.preallocated_ w
  /\ file_writer.on_disk w1 = file_writer.on_disk w.
Proof.
  revert w pool; induction n as [| n IH]; intros w pool Hb Hf; cbn [file_writer.run_worker].
  - repeat split.
  - destruct (file_writer.entry_step w pool) as [[[w1 pool1] who] |] eqn:Hs;
      [ | repeat split ].
    destruct (idle_worker_step _ _ _ _ _ Hb Hf Hs) as (E1 & E2 & E3 & E4).
    destruct (IH w1 pool1) as (F1 & F2 & F3 & F4);
      [ rewrite E1; assumption | rewrite E1; assumption | ].
    cbv zeta in *.
    rewrite F1, F2, F3, F4; repeat split; assumption.
Qed.

(** What the factory opens at an offset that is a file position (below
    2^63): nothing queued, no finalize asked for, not preallocated, the
    file on disk, and the position at the offset. *)
Lemma factory_open_state (d : disk) (fsync : bool) (offset max_buffers : Z)
      (w : file_writer.t) :
  0 <= offset < 2 ^ 63 ->
  file_writer_factory_open d fsync offset max_buffers = Some w ->
  f_open (file_writer.file_ w) = true ->
  writer_base.buffers_ (file_writer.base w) = []
  /\ writer_base.finalizing_ (file_writer.base w) = 0
  /\ file_writer.preallocated_ w = false
  /\ file_writer.on_disk w = true
  /\ f_pos (file_writer.file_ w) = offset.
Proof.
  intros Hrange; unfold file_writer_factory_open.
  assert (Hcast : to_int64 offset = offset).
  { unfold to_int64; destruct (Z.ltb_spec offset (2 ^ 63)); [ reflexivity | lia ]. }
  rewrite Hcast.
  destruct (negb (disk_open_ok d)); [ discriminate | ].
  destruct (Z.eqb_spec offset 0) as [E | E]; cbn [negb].
  - subst offset; intros H; inversion H; subst; clear H.
    unfold file_writer.construct; cbn [f_open andb negb orb].
    destruct (disk_can_spawn d); cbn; intros Ho; [ | discriminate Ho ].
    repeat split.
  - unfold file_ops.seek; cbn [f_open andb].
    destruct (Z.leb_spec 0 offset) as [Hpos | Hneg]; [ | lia ].
    rewrite Z.eqb_refl; cbn [negb].
    unfold file_ops.truncate; cbn [f_open negb].
    intros H; inversion H; subst; clear H.
    unfold file_writer.construct; cbn [f_open andb negb orb].
    destruct (disk_can_spawn d); cbn; intros Ho; [ | discriminate Ho ].
    repeat split.
Qed.

Lemma close_is_do_close (w : file_writer.t) (pool : aio_buffer_pool.t) :
  file_writer.on_disk (fst (file_writer.close w pool)) = file_writer.on_disk (file_writer.do_close w)
  /\ file_writer.file_ (fst (file_writer.close w pool)) = file_writer.file_ (file_writer.do_close w).
Proof. split; reflexivity. Qed.

(** A turn of the worker that finds a buffer with data writes it: the
    position moves on by the size of the buffer. *)
Lemma worker_write_advances (w w1 : file_writer.t) (pool pool1 : aio_buffer_pool.t)
      (who : list aio_waitable.signalled) (front : buffer_lease) (rest : list buffer_lease) :
  file_writer.task_ w = at_loop_head ->
  file_writer.quit_ w = false ->
  writer_base.error_ (file_writer.base w) = false ->
  writer_base.buffers_ (file_writer.base w) = front :: rest ->
  nb_bytes (lease_buffer front) <> [] ->
  f_open (file_writer.file_ w) = true ->
  f_io_ok (file_writer.file_ w) = true ->
  file_writer.entry_step w pool = Some (w1, pool1, who) ->
  f_pos (file_writer.file_ w1)
  = f_pos (file_writer.file_ w) + Z.of_nat (length (nb_bytes (lease_buffer front)))
  /\ f_open (file_writer.file_ w1) = true
  /\ writer_base.finalizing_ (file_writer.base w1) = writer_base.finalizing_ (file_writer.base w)
  /\ file_writer.on_disk w1 = file_writer.on_disk w.
Proof.
  intros Ht Hq He Hb Hne Ho Hio.
  unfold file_writer.entry_step; rewrite Ht, Hq, He, Hb; cbn [orb].
  destruct (nb_bytes (lease_buffer front)) as [| x xs] eqn:Hbytes; [ contradiction | ].
  cbn [file_writer.write_loop].
  unfold nonowning_buffer_ops.empty at 1, nonowning_buffer_ops.size at 1.
  rewrite Hbytes.
  destruct (Z.eqb_spec (Z.of_nat (length (x :: xs))) 0) as [E | _];
    [ cbn [length] in E; lia | ].
  unfold file_ops.write; rewrite Ho, Hio; cbn [andb].
  destruct (Z.leb_spec (Z.of_nat (length (x :: xs))) 0) as [E | _];
    [ cbn [length] in E; lia | ].
  assert (Hdone : nonowning_buffer_ops.empty
                    (nonowning_buffer_ops.consume (lease_buffer front)
                       (Z.of_nat (length (x :: xs)))) = true).
  { unfold nonowning_buffer_ops.empty, nonowning_buffer_ops.size,
      nonowning_buffer_ops.consume; cbn [nb_bytes].
    rewrite Hbytes, Nat2Z.id, skipn_all; reflexivity. }
  cbn [length] in *; cbn [file_writer.write_loop]; rewrite Hdone.
  destruct (Z.of_nat (S (length rest)) =? _);
    [ destruct (aio_waitable.signal_availibility _) as [who0 wt] | ];
    intros H; inversion H; subst; clear H; cbn; repeat split.
Qed.

(** After [finalize] on a writer that is not in error, [finalizing_] is
    not 0. *)
Lemma finalize_requested (w : file_writer.t) (h : nat) :
  writer_base.error_ (file_writer.base w) = false ->
  f_open (file_writer.file_ w) = true ->
  let w1 := snd (file_writer.finalize w h) in
  writer_base.finalizing_ (file_writer.base w1) <> 0
  /\ file_writer.file_ w1 = file_writer.file_ w
  /\ file_writer.on_disk w1 = file_writer.on_disk w.
Proof.
  intros He Ho; cbv zeta.
  unfold file_writer.finalize, file_writer.do_finalize, file_writer.continue_finalize.
  destruct w as [b c k q f s p o]; cbn in He, Ho |- *.
  rewrite He.
  destruct (Z.eqb_spec (writer_base.finalizing_ b) 2) as [E | E].
  - cbn; rewrite E; repeat split; discriminate.
  - rewrite Ho; cbn.
    destruct (writer_base.buffers_ b); destruct s;
      cbn; repeat split; try reflexivity; discriminate.
Qed.

(** C5, as amended. Closing a file writer whose file is open deletes the
    file exactly when finalize was not requested and the position of the
    file is 0, and closes the handle; when the file is not deleted and the
    writer was preallocated, the file is cut at the position first. So a
    writer opened at offset 0 that got no data and no finalize leaves no
    file; once the worker has written data, or finalize was requested, the
    file stays; and a writer opened at a nonzero offset keeps its file even
    without data. *)
Theorem file_writer_close_effect :
  (forall w pool,
     f_open (file_writer.file_ w) = true ->
     let remove := (writer_base.finalizing_ (file_writer.base w) =? 0)
                   && (f_pos (file_writer.file_ w) =? 0) in
     let w1 := fst (file_writer.close w pool) in
     file_writer.on_disk w1 = (if remove then false else file_writer.on_disk w)
     /\ f_open (file_writer.file_ w1) = false
     /\ (remove = false -> file_writer.preallocated_ w = true ->
         0 <= f_pos (file_writer.file_ w) ->
         Z.of_nat (length (f_bytes (file_writer.file_ w1))) = f_pos (file_writer.file_ w)
         /\ (f_pos (file_writer.file_ w) <= Z.of_nat (length (f_bytes (file_writer.file_ w))) ->
             f_bytes (file_writer.file_ w1)
             = firstn (Z.to_nat (f_pos (file_writer.file_ w))) (f_bytes (file_writer.file_ w)))))
  /\ (forall d fsync max_buffers n pool w,
        file_writer_factory_open d fsync 0 max_buffers = Some w ->
        f_open (file_writer.file_ w) = true ->
        file_writer.on_disk
          (fst (file_writer.close (fst (file_writer.run_worker n w pool)) pool)) = false)
  /\ (forall d fsync offset max_buffers n pool w,
        0 < offset < 2 ^ 63 ->
        file_writer_factory_open d fsync offset max_buffers = Some w ->
        f_open (file_writer.file_ w) = true ->
        file_writer.on_disk
          (fst (file_writer.close (fst (file_writer.run_worker n w pool)) pool)) = true)
  /\ (forall w w1 pool pool1 who front rest,
        file_writer.task_ w = at_loop_head ->
        file_writer.quit_ w = false ->
        writer_base.error_ (file_writer.base w) = false ->
        writer_base.buffers_ (file_writer.base w) = front :: rest ->
        nb_bytes (lease_buffer front) <> [] ->
        f_open (file_writer.file_ w) = true ->
        f_io_ok (file_writer.file_ w) = true ->
        0 <= f_pos (file_writer.file_ w) ->
        file_writer.entry_step w pool = Some (w1, pool1, who) ->
        file_writer.on_disk (fst (file_writer.close w1 pool1)) = file_writer.on_disk w)
  /\ (forall w h pool,
        writer_base.error_ (file_writer.base w) = false ->
        f_open (file_writer.file_ w) = true ->
        file_writer.on_disk (fst (file_writer.close (snd (file_writer.finalize w h)) pool))
        = file_writer.on_disk w).
Proof.
  split; [ | split; [ | split; [ | split ] ] ].
  - intros w pool Ho remove w1.
    destruct (close_is_do_close w pool) as [E1 E2].
    destruct (do_close_effect w Ho) as (H1 & H2 & H3).
    cbv zeta in H1, H2, H3; fold remove in H1, H3.
    unfold w1; rewrite E1, E2.
    split; [ exact H1 | split; [ exact H2 | ] ].
    intros Hr Hp Hpos; rewrite H3, Hr, Hp; cbn [negb andb].
    destruct (truncate_at_position _ Ho Hpos) as (T1 & _ & T3).
    split; assumption.
  - intros d fsync max_buffers n pool w Hopen Ho.
    destruct (factory_open_state d fsync 0 max_buffers w ltac:(lia) Hopen Ho)
      as (Hb & Hf & _ & Hd & Hp).
    destruct (idle_worker_run n w pool Hb Hf) as (E1 & E2 & _ & E4).
    cbv zeta in E1, E2, E4.
    destruct (close_is_do_close (fst (file_writer.run_worker n w pool)) pool) as [C1 _].
    rewrite C1.
    destruct (do_close_effect (fst (file_writer.run_worker n w pool))) as (H1 & _);
      [ rewrite E2; assumption | ].
    cbv zeta in H1; rewrite H1, E1, E2, Hf, Hp; reflexivity.
  - intros d fsync offset max_buffers n pool w Hoff Hopen Ho.
    destruct (factory_open_state d fsync offset max_buffers w ltac:(lia) Hopen Ho)
      as (Hb & Hf & _ & Hd & Hp).
    destruct (idle_worker_run n w pool Hb Hf) as (E1 & E2 & _ & E4).
    cbv zeta in E1, E2, E4.
    destruct (close_is_do_close (fst (file_writer.run_worker n w pool)) pool) as [C1 _].
    rewrite C1.
    destruct (do_close_effect (fst (file_writer.run_worker n w pool))) as (H1 & _);
      [ rewrite E2; assumption | ].
    cbv zeta in H1; rewrite H1, E1, E2, E4, Hf, Hp, Hd.
    destruct (Z.eqb_spec offset 0); [ lia | reflexivity ].
  - intros w w1 pool pool1 who front rest Ht Hq He Hb Hne Ho Hio Hpos Hs.
    destruct (worker_write_advances _ _ _ _ _ _ _ Ht Hq He Hb Hne Ho Hio Hs)
      as (P1 & P2 & _ & P4).
    destruct (close_is_do_close w1 pool1) as [C1 _]; rewrite C1.
    destruct (do_close_effect w1 P2) as (H1 & _).
    cbv zeta in H1; rewrite H1, P1, P4.
    assert (Hlen : 0 < Z.of_nat (length (nb_bytes (lease_buffer front)))).
    { destruct (nb_bytes (lease_buffer front)); [ contradiction | cbn [length]; lia ]. }
    destruct (Z.eqb_spec (f_pos (file_writer.file_ w)
                          + Z.of_nat (length (nb_bytes (lease_buffer front)))) 0);
      [ lia | ].
    rewrite andb_false_r; reflexivity.
  - intros w h pool He Ho.
    destruct (finalize_requested w h He Ho) as (F1 & F2 & F3).
    cbv zeta in F1, F2, F3.
    destruct (close_is_do_close (snd (file_writer.finalize w h)) pool) as [C1 _]; rewrite C1.
    destruct (do_close_effect (snd (file_writer.finalize w h))) as (H1 & _);
      [ rewrite F2; assumption | ].
    cbv zeta in H1; rewrite H1, F3.
    destruct (Z.eqb_spec (writer_base.finalizing_
                            (file_writer.base (snd (file_writer.finalize w h)))) 0);
      [ contradiction | reflexivity ].
Qed.

(** A writer opened at offset 0 on a new file and closed at once leaves no
    file. *)
Lemma file_writer_close_effect_witness :
  exists w,
    file_writer_factory_open fresh_disk false 0 0 = Some w
    /\ file_writer.on_disk
         (fst (file_writer.close (fst (file_writer.run_worker 5 w small_pool)) small_pool))
       = false.
Proof.
  destruct file_writer_close_effect as (_ & H & _).
  eexists; split; [ vm_compute; reflexivity | ].
  apply (H fresh_disk false 0 5%nat small_pool); [ vm_compute; reflexivity | reflexivity ].
Defined.

(** C5 as stated fails at a nonzero offset: a writer opened at offset 5 on
    a file of seven bytes gets no data and no finalize, and after [close]
    the file is still there, with its first five bytes. *)
Lemma close_at_nonzero_offset_keeps_file :
  exists w,
    writer_at_offset_5 = Some w
    /\ writer_base.finalizing_ (file_writer.base w) = 0
    /\ writer_base.progress_ (file_writer.base w) = []
    /\ file_writer.on_disk (fst (file_writer.close w small_pool)) = true
    /\ f_bytes (file_writer.file_ (fst (file_writer.close w small_pool)))
       = [Byte.x41; Byte.x42; Byte.x43; Byte.x44; Byte.x45].
Proof.
  eexists; split; [ vm_compute; reflexivity | ].
  repeat split.
Qed.

(** ** The round trip (C1) *)

(** C1 at the failing input: the view is over ABCDE at address 1000, with a
    zero byte in front of it. A fresh view reader is piped into a buffer
    writer with limit 5 through a pool of one buffer of four bytes: the
    reader reaches the end after two buffers, nothing fails, and the
    destination holds the byte in front of the view and ABCD, not ABCDE.
    After [seek(0, nosize)] the same pipe yields ABCDE. *)
Theorem pipe_of_fresh_view_reader :
  holds abcde_memory 1000 abcde
  /\ pipe_ended (pipe 10 abcde_memory 9 abcde_reader abcde_writer one_buffer_pool) = pipe_eof
  /\ piped (pipe 10 abcde_memory 9 abcde_reader abcde_writer one_buffer_pool)
     = [Byte.x00; Byte.x41; Byte.x42; Byte.x43; Byte.x44]
  /\ piped (pipe 10 abcde_memory 9 abcde_reader abcde_writer one_buffer_pool) <> abcde
  /\ (let '(res, r, pool) := view_reader.seek abcde_reader one_buffer_pool 0 nosize in
      res = true
      /\ pipe_ended (pipe 10 abcde_memory 9 r abcde_writer pool) = pipe_eof
      /\ piped (pipe 10 abcde_memory 9 r abcde_writer pool) = abcde).
Proof.
  split; [ reflexivity | ].
  split; [ vm_compute; reflexivity | ].
  split; [ vm_compute; reflexivity | ].
  split; [ vm_compute; discriminate | ].
  vm_compute; repeat split.
Qed.

(** ** get_ipv6_long_form (C9) *)

Section Ipv6LongForm.

Import ipv6.

Lemma lower_hex_not_colon (c : Char) : lower_hex c = true -> Ascii.eqb c colon = false.
Proof.
  intros H; destruct (Ascii.eqb_spec c colon) as [E | E]; [ | reflexivity ].
  subst c; discriminate H.
Qed.

Lemma stored_lower_hex (c : Char) : lower_hex c = true -> stored c = Some c.
Proof. intros H; unfold stored; rewrite H; reflexivity. Qed.

(** [find] steps over characters that are not colons. *)
Lemma find_from_skip (g rest : list Char) (i : Z) :
  Forall (fun c => lower_hex c = true) g ->
  find_from (g ++ rest) i = find_from rest (i + Z.of_nat (length g)).
Proof.
  intros Hg; revert i; induction Hg as [| c g Hc _ IH]; intros i.
  - cbn; f_equal; lia.
  - cbn [app find_from length].
    rewrite (lower_hex_not_colon c Hc), IH; f_equal; lia.
Qed.

Lemma find_after_prefix (done rest : list Char) :
  find (done ++ rest) (Z.of_nat (length done)) = find_from rest (Z.of_nat (length done)).
Proof.
  unfold find; rewrite Nat2Z.id, skipn_app, skipn_all, Nat.sub_diag; reflexivity.
Qed.

Lemma slice_middle (done g rest : list Char) :
  slice (done ++ g ++ rest) (Z.of_nat (length done))
        (Z.of_nat (length done) + Z.of_nat (length g)) = g.
Proof.
  unfold slice.
  rewrite Nat2Z.id, skipn_app, skipn_all, Nat.sub_diag; cbn [skipn app].
  replace (Z.to_nat (Z.of_nat (length done) + Z.of_nat (length g) - Z.of_nat (length done)))
    with (length g) by lia.
  rewrite firstn_app, firstn_all, Nat.sub_diag; cbn [firstn]; apply app_nil_r.
Qed.

Lemma store_at_middle (done : list Char) (z c : Char) (tl : list Char) :
  store_at (done ++ z :: tl) (length done) c = done ++ c :: tl.
Proof.
  induction done as [| x done IH]; cbn; [ reflexivity | rewrite IH; reflexivity ].
Qed.

(** The copy loop of the left half writes a group over what was there. *)
Lemma copy_up_group (g zs done tl : list Char) :
  Forall (fun c => lower_hex c = true) g ->
  length zs = length g ->
  copy_up g (done ++ zs ++ tl) (Z.of_nat (length done)) = Some (done ++ g ++ tl).
Proof.
  intros Hg; revert zs done; induction Hg as [| c g Hc _ IH]; intros zs done Hlen.
  - destruct zs; [ reflexivity | discriminate Hlen ].
  - destruct zs as [| z zs]; [ discriminate Hlen | ].
    cbn [copy_up]; rewrite (stored_lower_hex c Hc), Nat2Z.id.
    cbn [app]; rewrite store_at_middle.
    replace (done ++ c :: zs ++ tl) with ((done ++ [c]) ++ zs ++ tl)
      by (rewrite <- app_assoc; reflexivity).
    replace (Z.of_nat (length done) + 1) with (Z.of_nat (length (done ++ [c])))
      by (rewrite length_app; cbn [length]; lia).
    rewrite IH by (injection Hlen; auto).
    rewrite <- app_assoc; reflexivity.
Qed.

Lemma find_from_none (g : list Char) (i : Z) :
  Forall (fun c => lower_hex c = true) g -> find_from g i = npos.
Proof.
  intros Hg; rewrite <- (app_nil_r g), find_from_skip by assumption; reflexivity.
Qed.

Lemma slice_suffix (done g : list Char) :
  slice (done ++ g) (Z.of_nat (length done))
        (Z.of_nat (length done) + Z.of_nat (length g)) = g.
Proof.
  pose proof (slice_middle done g []) as H; rewrite app_nil_r in H; exact H.
Qed.

Lemma copy_up_last_group (g zs done : list Char) :
  Forall (fun c => lower_hex c = true) g ->
  length zs = length g ->
  copy_up g (done ++ zs) (Z.of_nat (length done)) = Some (done ++ g).
Proof.
  intros Hg Hlen.
  pose proof (copy_up_group g zs done [] Hg Hlen) as H.
  rewrite !app_nil_r in H; exact H.
Qed.

Lemma initial_buf_join : initial_buf = join (repeat zeros 8).
Proof. reflexivity. Qed.

Lemma join_cons (g : list Char) (gs : list (list Char)) :
  gs <> [] -> join (g :: gs) = g ++ colon :: join gs.
Proof. destruct gs; [ contradiction | reflexivity ]. Qed.

Lemma length_join_groups (gs : list (list Char)) :
  Forall is_group gs -> gs <> [] ->
  Z.of_nat (length (join gs)) = 5 * Z.of_nat (length gs) - 1.
Proof.
  induction 1 as [| g gs [Hg _] Hgs IH]; intros Hne; [ contradiction | ].
  destruct gs as [| g' gs'].
  - cbn [join length]; lia.
  - rewrite join_cons by discriminate.
    rewrite length_app; cbn [length]; rewrite Hg.
    specialize (IH ltac:(discriminate)); cbn [length] in IH |- *; lia.
Qed.

(** The left half on what is left of a long form: [done] is the part
    already copied (a multiple of five characters), [gs] the groups to
    come. All of them are copied and the loop stops with eight segments. *)
Lemma left_half_long_form (gs : list (list Char)) :
  Forall is_group gs -> gs <> [] ->
  forall (fuel : nat) (done : list Char) (k : Z),
    (length gs < fuel)%nat ->
    0 <= k -> k + Z.of_nat (length gs) = 8 ->
    Z.of_nat (length done) = 5 * k ->
    left_half fuel (done ++ join gs) (Z.of_nat (length (done ++ join gs)))
              (done ++ join (map (fun _ => zeros) gs)) k (5 * k)
    = Some (done ++ join gs, 8, Z.of_nat (length (done ++ join gs)) + 1).
Proof.
  induction 1 as [| g gs [Hlen Hhex] Hgs IH]; intros Hne fuel done k Hfuel Hk Hsum Hdone;
    [ contradiction | ].
  destruct fuel as [| fuel]; [ cbn [length] in Hfuel; lia | ].
  cbn [left_half].
  assert (Hk8 : (k <? 8) = true) by (apply Z.ltb_lt; cbn [length] in Hsum; lia).
  rewrite Hk8; cbn [andb].
  destruct gs as [| g' gs'].
  - (* the last group *)
    cbn [join map length] in *.
    assert (Ek : k = 7) by lia; subst k.
    rewrite length_app, Hlen.
    assert (Hstart : (5 * 7 <? Z.of_nat (length done + 4)) = true) by (apply Z.ltb_lt; lia).
    rewrite Hstart.
    rewrite <- Hdone, find_after_prefix, find_from_none by assumption.
    rewrite Z.eqb_refl.
    destruct (Z.eqb_spec (Z.of_nat (length done + 4)) (Z.of_nat (length done)));
      [ lia | ].
    replace (Z.of_nat (length done + 4) - Z.of_nat (length done)) with 4 by lia.
    rewrite (wrap_small 4) by (unfold modulus; lia).
    change (4 >? 4) with false; cbv iota.
    replace (Z.of_nat (length done + 4))
      with (Z.of_nat (length done) + Z.of_nat (length g)) by lia.
    rewrite slice_suffix.
    replace (Z.of_nat (length done) + (4 - 4)) with (Z.of_nat (length done)) by lia.
    rewrite copy_up_last_group by (try assumption; rewrite Hlen; reflexivity).
    destruct fuel as [| fuel]; [ lia | ].
    cbn [left_half].
    change (7 + 1 <? 8) with false; cbn [andb].
    repeat f_equal; rewrite Hlen; lia.
  - (* a group with more behind it *)
    rewrite (join_cons g) by discriminate.
    cbn [map]; rewrite (join_cons zeros) by discriminate.
    set (todo := join (g' :: gs')) in *.
    set (blank := join (map (fun _ => zeros) (g' :: gs'))).
    assert (Hs : Z.of_nat (length (done ++ g ++ colon :: todo))
                 = Z.of_nat (length done) + 5 + Z.of_nat (length todo)).
    { rewrite !length_app; cbn [length]; rewrite Hlen; lia. }
    assert (Hstart : (5 * k <? Z.of_nat (length (done ++ g ++ colon :: todo))) = true)
      by (apply Z.ltb_lt; lia).
    rewrite Hstart.
    rewrite <- Hdone, find_after_prefix, find_from_skip by assumption.
    cbn [find_from]; rewrite Ascii.eqb_refl, Hlen.
    assert (Hnp : Z.of_nat (length done) + Z.of_nat 4 <> npos).
    { cbn [length] in Hsum; unfold npos, modulus; lia. }
    destruct (Z.eqb_spec (Z.of_nat (length done) + Z.of_nat 4) npos); [ contradiction | ].
    destruct (Z.eqb_spec (Z.of_nat (length done) + Z.of_nat 4) (Z.of_nat (length done)));
      [ lia | ].
    replace (Z.of_nat (length done) + Z.of_nat 4 - Z.of_nat (length done)) with 4 by lia.
    rewrite (wrap_small 4) by (unfold modulus; lia).
    change (4 >? 4) with false; cbv iota.
    rewrite <- Hlen; rewrite slice_middle.
    replace (Z.of_nat (length done) + (4 - 4)) with (Z.of_nat (length done)) by lia.
    rewrite copy_up_group by (try assumption; rewrite Hlen; reflexivity).
    assert (Hdone' : Z.of_nat (length (done ++ g ++ [colon])) = 5 * (k + 1)).
    { rewrite !length_app; cbn [length]; rewrite Hlen; lia. }
    specialize (IH ltac:(discriminate) fuel (done ++ g ++ [colon]) (k + 1)
                  ltac:(cbn [length] in Hfuel |- *; lia) ltac:(lia)
                  ltac:(cbn [length] in Hsum |- *; lia) Hdone').
    fold todo in IH.
    replace (done ++ g ++ colon :: todo) with ((done ++ g ++ [colon]) ++ todo)
      by (rewrite <- !app_assoc; reflexivity).
    rewrite <- IH.
    f_equal; [ rewrite <- !app_assoc; reflexivity | rewrite Hlen in *; lia ].
Qed.

(** A long-form address is what [do_get_ipv6_long_form] returns for it. *)
Lemma long_form_fixed (s : String) :
  is_long_form s -> do_get_ipv6_long_form s = s.
Proof.
  intros (gs & Hn & Hgs & Es).
  assert (Hne : gs <> []) by (intros E; subst gs; discriminate Hn).
  assert (Hsize : size s = 39).
  { unfold size; subst s; rewrite length_join_groups by assumption; lia. }
  pose proof (left_half_long_form gs Hgs Hne 9 [] 0) as Hleft.
  cbn [app length] in Hleft.
  assert (Hblank : join (map (fun _ => zeros) gs) = initial_buf).
  { do 9 (destruct gs as [| ? gs]; try discriminate Hn); reflexivity. }
  rewrite Hblank, <- Es in Hleft.
  assert (Hlength : Z.of_nat (@length Char s) = 39) by exact Hsize.
  rewrite Hlength in Hleft.
  specialize (Hleft ltac:(lia) ltac:(lia) ltac:(lia) ltac:(lia)).
  unfold do_get_ipv6_long_form.
  assert (Hfirst : match s with c :: _ => Ascii.eqb c "["%char | [] => false end = false).
  { subst s; destruct gs as [| g gs]; [ contradiction | ].
    inversion Hgs as [| ? ? [Hl Hh] _]; subst.
    destruct g as [| c g]; [ discriminate Hl | ].
    inversion Hh as [| ? ? Hc _]; subst.
    assert (Hj : exists tl, join ((c :: g) :: gs) = c :: tl).
    { destruct gs; cbn [join app]; eexists; reflexivity. }
    destruct Hj as [tl ->].
    destruct (Ascii.eqb_spec c "["%char); [ subst c; discriminate Hc | reflexivity ]. }
  rewrite Hfirst; cbn [andb].
  rewrite Hsize.
  change (wrap (39 - 0) <? 2) with false.
  change (wrap (39 - 0) >? 39) with false.
  cbn [orb].
  change (5 * 0) with 0 in Hleft.
  rewrite Hleft.
  reflexivity.
Qed.

End Ipv6LongForm.

Section Ipv6Rejections.

Import ipv6.

Lemma find_from_spec (l : list Char) (i : Z) :
  (find_from l i = npos /\ forall k, nth_error l k <> Some colon)
  \/ exists k, (k < length l)%nat
               /\ find_from l i = i + Z.of_nat k
               /\ nth_error l k = Some colon
               /\ forall j, (j < k)%nat -> nth_error l j <> Some colon.
Proof.
  revert i; induction l as [| c l IH]; intros i.
  - left; split; [ reflexivity | intros [| k]; discriminate ].
  - cbn [find_from].
    destruct (Ascii.eqb_spec c colon) as [E | E].
    + right; exists 0%nat; cbn [length nth_error].
      repeat split; [ lia | lia | congruence | intros j Hj; lia ].
    + destruct (IH (i + 1)) as [[Hn Hall] | (k & Hk & Hf & Hc & Hmin)].
      * left; split; [ exact Hn | ].
        intros [| k]; cbn [nth_error]; [ congruence | apply Hall ].
      * right; exists (S k); cbn [length nth_error].
        repeat split; [ lia | lia | exact Hc | ].
        intros [| j] Hj; cbn [nth_error]; [ congruence | apply Hmin; lia ].
Qed.

(** [find(':', start)]: no colon from [start] on, or the first one. *)
Lemma find_spec (s : String) (start : Z) :
  0 <= start -> size s < npos ->
  (find s start = npos /\ forall i, start <= i -> ~ colon_at s i)
  \/ (start <= find s start < size s
      /\ colon_at s (find s start)
      /\ forall i, start <= i < find s start -> ~ colon_at s i).
Proof.
  intros Hs Hsize; unfold find, colon_at.
  destruct (find_from_spec (skipn (Z.to_nat start) s) start)
    as [[Hn Hall] | (k & Hk & Hf & Hc & Hmin)].
  - left; split; [ exact Hn | ].
    intros i Hi Hcolon.
    apply (Hall (Z.to_nat i - Z.to_nat start)%nat).
    rewrite nth_error_skipn.
    replace (Z.to_nat start + (Z.to_nat i - Z.to_nat start))%nat with (Z.to_nat i) by lia.
    exact Hcolon.
  - right; rewrite Hf.
    rewrite length_skipn in Hk; unfold size.
    rewrite nth_error_skipn in Hc.
    split; [ lia | split ].
    + replace (Z.to_nat (start + Z.of_nat k)) with (Z.to_nat start + k)%nat by lia.
      exact Hc.
    + intros i Hi Hcolon.
      apply (Hmin (Z.to_nat i - Z.to_nat start)%nat); [ lia | ].
      rewrite nth_error_skipn.
      replace (Z.to_nat start + (Z.to_nat i - Z.to_nat start))%nat with (Z.to_nat i) by lia.
      exact Hcolon.
Qed.

Lemma rfind_in_spec (l : list Char) (i found : Z) :
  (rfind_in l i found = found /\ forall k, nth_error l k <> Some colon)
  \/ exists k, (k < length l)%nat
               /\ rfind_in l i found = i + Z.of_nat k
               /\ nth_error l k = Some colon
               /\ forall j, (k < j)%nat -> nth_error l j <> Some colon.
Proof.
  revert i found; induction l as [| c l IH]; intros i found.
  - left; split; [ reflexivity | intros [| k]; discriminate ].
  - cbn [rfind_in].
    destruct (IH (i + 1) (if Ascii.eqb c colon then i else found))
      as [[Hn Hall] | (k & Hk & Hf & Hc & Hmax)].
    + destruct (Ascii.eqb_spec c colon) as [E | E].
      * right; exists 0%nat; cbn [length nth_error].
        repeat split; [ lia | lia | congruence | ].
        intros [| j] Hj; [ lia | cbn [nth_error]; apply Hall ].
      * left; split; [ exact Hn | ].
        intros [| k]; cbn [nth_error]; [ congruence | apply Hall ].
    + right; exists (S k); cbn [length nth_error].
      repeat split; [ lia | lia | exact Hc | ].
      intros [| j] Hj; [ lia | cbn [nth_error]; apply Hmax; lia ].
Qed.

(** [rfind(':', last)]: no colon up to [last], or the last one. *)
Lemma rfind_spec (s : String) (last : Z) :
  0 <= last ->
  (rfind s last = npos /\ forall i, 0 <= i <= last -> ~ colon_at s i)
  \/ (0 <= rfind s last <= last
      /\ colon_at s (rfind s last)
      /\ forall i, rfind s last < i <= last -> ~ colon_at s i).
Proof.
  intros Hl; unfold rfind, colon_at.
  destruct (rfind_in_spec (firstn (S (Z.to_nat last)) s) 0 npos)
    as [[Hn Hall] | (k & Hk & Hf & Hc & Hmax)].
  - left; split; [ exact Hn | ].
    intros i Hi Hcolon.
    apply (Hall (Z.to_nat i)).
    rewrite nth_error_firstn.
    destruct (Nat.ltb_spec (Z.to_nat i) (S (Z.to_nat last))); [ exact Hcolon | lia ].
  - right; rewrite Hf.
    rewrite length_firstn in Hk.
    rewrite nth_error_firstn in Hc.
    destruct (Nat.ltb_spec k (S (Z.to_nat last))); [ | discriminate Hc ].
    split; [ lia | split ].
    + replace (Z.to_nat (0 + Z.of_nat k)) with k by lia; exact Hc.
    + intros i Hi Hcolon.
      apply (Hmax (Z.to_nat i)); [ lia | ].
      rewrite nth_error_firstn.
      destruct (Nat.ltb_spec (Z.to_nat i) (S (Z.to_nat last))); [ exact Hcolon | lia ].
Qed.

(** The test [short_address[i] != ':']. *)
Lemma at_colon (s : String) (i : Z) :
  0 <= i -> Ascii.eqb (at_ s i) colon = true -> colon_at s i.
Proof.
  intros Hi H; apply Ascii.eqb_eq in H; unfold at_, colon_at in *.
  destruct (nth_error s (Z.to_nat i)) as [c |] eqn:E.
  - rewrite (nth_error_nth _ _ zero E) in H; subst c; reflexivity.
  - apply nth_error_None in E.
    rewrite nth_overflow in H by assumption; discriminate H.
Qed.

Lemma colon_at_nat (s : String) (i : nat) :
  colon_at s (Z.of_nat i) <-> nth_error s i = Some colon.
Proof. unfold colon_at; rewrite Nat2Z.id; reflexivity. Qed.

Lemma double_colon_needs_first (s : String) (i : nat) :
  ~ colon_at s (Z.of_nat i) -> ~ double_colon_at s i.
Proof. intros H [H1 _]; apply H, colon_at_nat, H1. Qed.

Lemma double_colon_needs_second (s : String) (i : nat) :
  ~ colon_at s (Z.of_nat i + 1) -> ~ double_colon_at s i.
Proof.
  intros H [_ H2]; apply H.
  replace (Z.of_nat i + 1) with (Z.of_nat (S i)) by lia.
  apply colon_at_nat, H2.
Qed.

(** The left half: when it ends, no [::] lies before [start], and either
    the segments or the characters are used up, or [start] is at a colon. *)
Lemma left_half_inv (s : String) (e : Z) :
  size s < npos ->
  forall (fuel : nat) (buf : list Char) (ls start : Z)
         (buf' : list Char) (ls' start' : Z),
    left_half fuel s e buf ls start = Some (buf', ls', start') ->
    0 <= start -> 0 <= ls -> 8 < ls + Z.of_nat fuel ->
    no_double_colon_below s start ->
    (ls = 0 -> forall i : nat, Z.of_nat i + 1 = start -> ~ double_colon_at s i) ->
    0 <= start' /\ 0 <= ls'
    /\ no_double_colon_below s start'
    /\ ((8 <= ls' \/ e <= start') \/ (colon_at s start' /\ start' <= e)).
Proof.
  intros Hsize; induction fuel as [| fuel IH];
    intros buf ls start buf' ls' start' H Hs Hl Hf Hb H0.
  - cbn [left_half] in H; inversion H; subst.
    split; [ assumption | split; [ assumption | split; [ assumption | left; left; lia ] ] ].
  - cbn [left_half] in H.
    destruct (Z.ltb_spec ls 8) as [Hls | Hls]; cbn [andb] in H;
      [ | inversion H; subst;
          split; [ assumption
                 | split; [ assumption | split; [ assumption | left; left; lia ] ] ] ].
    destruct (Z.ltb_spec start e) as [Hse | Hse];
      [ | inversion H; subst;
          split; [ assumption
                 | split; [ assumption | split; [ assumption | left; right; lia ] ] ] ].
    destruct (find_spec s start Hs Hsize) as [[Hn Hall] | (Hrange & Hc & Hmin)].
    + (* no colon from [start] on *)
      rewrite Hn, Z.eqb_refl in H.
      destruct (Z.eqb_spec e start) as [E | _]; [ lia | ].
      destruct (wrap (e - start) >? 4); [ discriminate H | ].
      match type of H with
      | context [copy_up ?a ?b ?c] => destruct (copy_up a b c) as [buf1 |]
      end; [ | discriminate H ].
      apply IH in H; [ exact H | lia | lia | lia | | intros; lia ].
      intros i Hi.
      destruct (Z.lt_ge_cases (Z.of_nat i + 1) start) as [Hlt | Hge];
        [ apply Hb; exact Hlt | ].
      apply double_colon_needs_second, Hall; lia.
    + (* the first colon from [start] on *)
      set (p := find s start) in *.
      destruct (Z.eqb_spec p npos) as [E | _]; [ lia | ].
      destruct (Z.eqb_spec p start) as [E | Hne].
      * destruct (Z.eqb_spec ls 0) as [E0 | _].
        -- destruct (Ascii.eqb (at_ s (start + 1)) colon) eqn:Hat;
             cbn [negb] in H; [ | discriminate H ].
           inversion H; subst buf' ls' start'; clear H.
           split; [ lia | split; [ lia | split ] ].
           ++ intros i Hi.
              destruct (Z.lt_ge_cases (Z.of_nat i + 1) start) as [Hlt | Hge];
                [ apply Hb; exact Hlt | apply (H0 E0); lia ].
           ++ right; split; [ | lia ].
              rewrite E; apply at_colon; [ lia | exact Hat ].
        -- inversion H; subst buf' ls' start'; clear H.
           split; [ lia | split; [ lia | split; [ | right; split; [ exact Hc | lia ] ] ] ].
           rewrite E; exact Hb.
      * destruct (wrap (p - start) >? 4); [ discriminate H | ].
        match type of H with
        | context [copy_up ?a ?b ?c] => destruct (copy_up a b c) as [buf1 |]
        end; [ | discriminate H ].
        apply IH in H; [ exact H | lia | lia | lia | | intros; lia ].
        intros i Hi.
        destruct (Z.lt_ge_cases (Z.of_nat i + 1) start) as [Hlt | Hge];
          [ apply Hb; exact Hlt | ].
        destruct (Z.lt_ge_cases (Z.of_nat i) start) as [Hbefore | Hin].
        -- apply double_colon_needs_second, Hmin; lia.
        -- apply double_colon_needs_first, Hmin; lia.
Qed.

(** The right half, entered with [start] at a colon: when it ends, [end]
    is not before [start], and no [::] begins at [end] or behind it, unless
    the loop was left at once on a colon at the very end. *)
Lemma right_half_inv (s : String) (start ls : Z) :
  size s < npos -> 0 <= start -> colon_at s start -> 0 <= ls ->
  forall (fuel : nat) (buf : list Char) (rs e : Z) (buf' : list Char) (e' : Z),
    right_half fuel s start ls buf rs e = Some (buf', e') ->
    start <= e <= size s -> 0 <= rs ->
    no_double_colon_from s e ->
    start <= e'
    /\ (no_double_colon_from s e'
        \/ (ls = 0 /\ rs = 0 /\ e' = e - 1 /\ start < e /\ colon_at s e')).
Proof.
  intros Hsize Hs Hcs Hl; induction fuel as [| fuel IH];
    intros buf rs e buf' e' H He Hr Hfrom.
  - cbn [right_half] in H; inversion H; subst.
    split; [ lia | left; assumption ].
  - cbn [right_half] in H.
    destruct (Z.ltb_spec (ls + rs) 8) as [Hseg | Hseg]; cbn [andb] in H;
      [ | inversion H; subst; split; [ lia | left; assumption ] ].
    destruct (Z.ltb_spec start e) as [Hse | Hse];
      [ | inversion H; subst; split; [ lia | left; assumption ] ].
    destruct (rfind_spec s (e - 1) ltac:(lia)) as [[Hn Hall] | (Hrange & Hc & Hmax)].
    + exfalso; apply (Hall start); [ lia | exact Hcs ].
    + set (p := rfind s (e - 1)) in *.
      assert (Hps : start <= p).
      { destruct (Z.lt_ge_cases p start) as [Hlt | Hge]; [ exfalso | exact Hge ].
        apply (Hmax start); [ lia | exact Hcs ]. }
      assert (Hrange' : 0 <= e - 1 - p < modulus)
        by (unfold npos in Hsize; lia).
      rewrite (wrap_small _ Hrange') in H.
      destruct (Z.eqb_spec (e - 1 - p) 0) as [E | Hgl].
      * destruct (Z.eqb_spec ls 0) as [E0 | _]; cbn [negb orb] in H;
          [ | discriminate H ].
        destruct (Z.eqb_spec rs 0) as [E1 | _]; cbn [negb] in H;
          [ | discriminate H ].
        inversion H; subst buf' e'; clear H.
        split; [ lia | right ].
        repeat split; try assumption; try lia.
        replace (e - 1) with p by lia; exact Hc.
      * destruct (e - 1 - p >? 4); [ discriminate H | ].
        match type of H with
        | context [copy_down ?a ?b ?c] => destruct (copy_down a b c) as [buf1 |]
        end; [ | discriminate H ].
        apply IH in H; [ | lia | lia | ].
        -- destruct H as [Hle [Hok | (_ & Hbad & _)]]; [ | lia ].
           split; [ exact Hle | left; exact Hok ].
        -- intros i Hi.
           destruct (Z.lt_ge_cases (Z.of_nat i) e) as [Hin | Hout];
             [ | apply Hfrom; exact Hout ].
           destruct (Z.eq_dec (Z.of_nat i) p) as [Ep | Hnp].
           ++ apply double_colon_needs_second, Hmax; lia.
           ++ apply double_colon_needs_first, Hmax; lia.
Qed.

Lemma nth_error_last (s : String) (d : Char) :
  s <> [] -> nth_error s (length s - 1) = Some (last s d).
Proof.
  induction s as [| c s IH]; intros Hne; [ contradiction | ].
  destruct s as [| c' s']; [ reflexivity | ].
  specialize (IH ltac:(discriminate)).
  cbn [length] in *.
  replace (S (S (length s')) - 1)%nat with (S (S (length s') - 1)) by lia.
  exact IH.
Qed.

(** An accepted address has its [::], if any, at one place. *)
Lemma accepted_double_colon_place (s : String) :
  size s < npos -> do_get_ipv6_long_form s <> [] ->
  exists x : Z, forall i : nat, double_colon_at s i -> Z.of_nat i + 1 = x.
Proof.
  intros Hsize; unfold do_get_ipv6_long_form.
  set (bracket := match s with c :: _ => Ascii.eqb c "["%char | [] => false end).
  destruct (bracket && negb (Ascii.eqb (last s zero) "]"%char)) eqn:Hclose;
    [ intros H; contradiction | ].
  set (st0 := if bracket then 1 else 0).
  set (e0 := if bracket then size s - 1 else size s).
  destruct ((wrap (e0 - st0) <? 2) || (wrap (e0 - st0) >? 39)) eqn:Hlen;
    [ intros H; contradiction | ].
  apply orb_false_iff in Hlen; destruct Hlen as [Hlen2 Hlen39].
  apply Z.ltb_ge in Hlen2.
  assert (Hlen39' : wrap (e0 - st0) <= 39).
  { destruct (Z.gtb_spec (wrap (e0 - st0)) 39); [ discriminate | assumption ]. }
  assert (Hsz : 0 <= size s) by (unfold size; lia).
  assert (Hbounds : 0 <= st0 /\ st0 + 2 <= e0 /\ e0 <= size s).
  { unfold st0, e0 in *; unfold wrap, npos in *.
    destruct bracket.
    - destruct (Z.lt_ge_cases (size s - 1 - 1) 0) as [Hneg | Hpos].
      + replace (size s - 1 - 1) with ((size s - 2 + modulus) + (-1) * modulus) in Hlen39'
          by lia.
        rewrite Z.mod_add in Hlen39' by (unfold modulus; lia).
        rewrite Z.mod_small in Hlen39' by lia.
        unfold modulus in *; lia.
      + rewrite Z.mod_small in Hlen2 by lia; lia.
    - rewrite Z.mod_small in Hlen2 by lia; lia. }
  destruct Hbounds as (Hst0 & Hgap & He0).
  assert (Hhead : forall i : nat, Z.of_nat i + 1 = st0 -> ~ double_colon_at s i).
  { intros i Hi [H1 _]; unfold st0, bracket in *.
    destruct s as [| c tl]; [ lia | ].
    destruct (Ascii.eqb_spec c "["%char) as [E | _]; [ | lia ].
    assert (i = 0%nat) by lia; subst i c; discriminate H1. }
  assert (Htail : forall j : nat, e0 <= Z.of_nat j -> nth_error s j <> Some colon).
  { intros j Hj Hc; unfold e0, bracket in *.
    assert (Hin : (j < length s)%nat)
      by (apply nth_error_Some; rewrite Hc; discriminate).
    unfold size in *.
    destruct s as [| c tl]; [ cbn [length] in Hin; lia | ].
    destruct (Ascii.eqb c "["%char); [ | lia ].
    cbn [andb] in Hclose; apply negb_false_iff, Ascii.eqb_eq in Hclose.
    assert (Ej : j = (length (c :: tl) - 1)%nat) by lia.
    rewrite Ej, (nth_error_last (c :: tl) zero) in Hc by discriminate.
    rewrite Hclose in Hc; discriminate Hc. }
  destruct (left_half 9 s e0 initial_buf 0 st0) as [[[buf ls] start1] |] eqn:HL;
    [ | intros H; contradiction ].
  destruct (right_half 9 s start1 ls buf 0 e0) as [[buf1 end1] |] eqn:HR;
    [ | intros H; contradiction ].
  destruct (Z.ltb_spec start1 end1) as [Hrej | Hacc]; [ intros H; contradiction | ].
  intros _; exists start1.
  assert (Hbelow0 : no_double_colon_below s st0).
  { intros i Hi; unfold st0 in Hi; destruct bracket; lia. }
  destruct (left_half_inv s e0 Hsize 9 initial_buf 0 st0 buf ls start1 HL Hst0
              (Z.le_refl 0) ltac:(lia) Hbelow0 (fun _ => Hhead))
    as (Hs1 & Hls & Hbelow & Hcase).
  assert (Hnone : e0 <= start1 -> forall i : nat, double_colon_at s i -> Z.of_nat i + 1 = start1).
  { intros Hpast i Hdc; exfalso.
    destruct (Z.lt_ge_cases (Z.of_nat i + 1) start1) as [Hlt | Hge];
      [ exact (Hbelow i Hlt Hdc) | ].
    destruct Hdc as [_ H2]; apply (Htail (S i)); [ lia | exact H2 ]. }
  destruct Hcase as [[H8 | Hpast] | [Hcolon Hle]].
  - cbn [right_half] in HR.
    destruct (Z.ltb_spec (ls + 0) 8); [ lia | ].
    cbn [andb] in HR; inversion HR; subst.
    apply Hnone; lia.
  - apply Hnone; exact Hpast.
  - assert (Hfrom0 : no_double_colon_from s e0).
    { intros i Hi [H1 _]; exact (Htail i Hi H1). }
    destruct (right_half_inv s start1 ls Hsize Hs1 Hcolon Hls 9 buf 0 e0 buf1 end1 HR
                ltac:(lia) (Z.le_refl 0) Hfrom0)
      as [Hle' [Hfrom | (_ & _ & Eend & Hlt & _)]]; intros i Hdc.
    + destruct (Z.lt_ge_cases (Z.of_nat i + 1) start1) as [Hlt | Hge];
        [ exfalso; exact (Hbelow i Hlt Hdc) | ].
      destruct (Z.lt_ge_cases (Z.of_nat i) start1) as [Hlt' | Hge']; [ lia | ].
      exfalso; apply (Hfrom i); [ lia | exact Hdc ].
    + destruct (Z.lt_ge_cases (Z.of_nat i + 1) start1) as [Hlt' | Hge];
        [ exfalso; exact (Hbelow i Hlt' Hdc) | ].
      destruct (Z.lt_ge_cases (Z.of_nat i) start1) as [Hlt' | Hge']; [ lia | ].
      exfalso; destruct Hdc as [_ H2]; apply (Htail (S i)); [ lia | exact H2 ].
Qed.

(** An input with [::] at two places gets the empty string. *)
Lemma two_double_colons_rejected (s : String) :
  size s < npos -> two_double_colons s -> do_get_ipv6_long_form s = [].
Proof.
  intros Hsize (i & j & Hij & Hi & Hj).
  destruct (do_get_ipv6_long_form s) as [| c r] eqn:E; [ reflexivity | exfalso ].
  destruct (accepted_double_colon_place s Hsize) as [x Hx];
    [ rewrite E; discriminate | ].
  pose proof (Hx i Hi); pose proof (Hx j Hj); lia.
Qed.

End Ipv6Rejections.

(** An input whose address has more than 39 characters gets the empty
    string. *)
Lemma too_long_rejected (s : ipv6.String) :
  ipv6.size s < npos -> 39 < address_length s -> ipv6.do_get_ipv6_long_form s = [].
Proof.
  intros Hsize Hlong; unfold ipv6.do_get_ipv6_long_form, address_length in *.
  destruct s as [| c tl]; [ lia | ].
  destruct (Ascii.eqb c "["%char); cbn [andb].
  - destruct (negb (Ascii.eqb (last (c :: tl) zero) "]"%char)); [ reflexivity | ].
    replace (ipv6.size (c :: tl) - 1 - 1) with (ipv6.size (c :: tl) - 2) by lia.
    rewrite wrap_small by (unfold npos in Hsize; lia).
    destruct (Z.gtb_spec (ipv6.size (c :: tl) - 2) 39); [ | lia ].
    rewrite orb_true_r; reflexivity.
  - rewrite Z.sub_0_r, wrap_small by (unfold npos in Hsize; lia).
    destruct (Z.gtb_spec (ipv6.size (c :: tl)) 39); [ | lia ].
    rewrite orb_true_r; reflexivity.
Qed.

(** C9, as amended. [get_ipv6_long_form] returns a long-form address
    (eight groups of four digits out of 0-9a-f between colons, 39
    characters) as it is, so applying it again changes nothing; it returns
    the empty string for every input that contains [::] twice, and for
    every input whose address, the input without its brackets if it begins
    with one, is longer than 39 characters. *)
Theorem ipv6_long_form_properties :
  (forall s, ipv6.is_long_form s ->
             ipv6.do_get_ipv6_long_form s = s
             /\ ipv6.size s = 39
             /\ ipv6.do_get_ipv6_long_form (ipv6.do_get_ipv6_long_form s)
                = ipv6.do_get_ipv6_long_form s)
  /\ (forall s, ipv6.size s < npos -> ipv6.two_double_colons s ->
                ipv6.do_get_ipv6_long_form s = [])
  /\ (forall s, ipv6.size s < npos -> 39 < address_length s ->
                ipv6.do_get_ipv6_long_form s = []).
Proof.
  split; [ | split ].
  - intros s Hs.
    pose proof (long_form_fixed s Hs) as Hfix.
    split; [ exact Hfix | split; [ | rewrite !Hfix; reflexivity ] ].
    destruct Hs as (gs & Hn & Hgs & Es).
    unfold ipv6.size; subst s.
    rewrite length_join_groups; [ lia | assumption | ].
    intros E; subst gs; discriminate Hn.
  - exact two_double_colons_rejected.
  - exact too_long_rejected.
Qed.

(** The long form of 2001:db8::ff00:42:8329 is returned as it is, and
    2001::db8::1 is rejected. *)
Lemma ipv6_long_form_properties_witness :
  ipv6.get_ipv6_long_form "2001:0db8:0000:0000:0000:ff00:0042:8329"
  = "2001:0db8:0000:0000:0000:ff00:0042:8329"%string
  /\ ipv6.get_ipv6_long_form "2001::db8::1" = ""%string.
Proof.
  destruct ipv6_long_form_properties as (Hfix & Htwo & _).
  split.
  - unfold ipv6.get_ipv6_long_form.
    destruct (Hfix (list_ascii_of_string "2001:0db8:0000:0000:0000:ff00:0042:8329"))
      as [E _].
    + exists (map list_ascii_of_string
                  ["2001"; "0db8"; "0000"; "0000"; "0000"; "ff00"; "0042"; "8329"]%string).
      split; [ reflexivity | split; [ | reflexivity ] ].
      repeat constructor.
    + rewrite E; reflexivity.
  - unfold ipv6.get_ipv6_long_form.
    rewrite Htwo; [ reflexivity | vm_compute; reflexivity | ].
    exists 4%nat, 9%nat; repeat split; lia.
Defined.

(** C9 as stated fails for inputs in brackets: a long-form address in
    brackets has 41 characters, more than 39, and is not rejected; its
    long form is returned. *)
Lemma bracketed_long_form_accepted :
  String.length bracketed_long_form = 41%nat
  /\ ipv6.get_ipv6_long_form bracketed_long_form
     = "2001:0db8:0000:0000:0000:ff00:0042:8329"%string
  /\ ipv6.get_ipv6_long_form bracketed_long_form <> ""%string.
Proof.
  split; [ reflexivity | split; [ vm_compute; reflexivity | ] ].
  vm_compute; discriminate.
Qed.

(** ** The pipe in general *)

Lemma load_app (m : memory) (a b : nat) (p : Z) :
  load m p (a + b) = load m p a ++ load m (wrap (p + Z.of_nat a)) b.
Proof.
  revert p; induction a as [| a IH]; intros p.
  - cbn [Nat.add load app].
    destruct b as [| b]; [ reflexivity | ].
    cbn [load]; unfold wrap.
    rewrite Z.add_0_r, Z.mod_mod by (unfold modulus; lia).
    do 2 f_equal; rewrite Zplus_mod_idemp_l; reflexivity.
  - cbn [Nat.add load app]; rewrite IH; do 3 f_equal.
    rewrite wrap_add_l; f_equal; lia.
Qed.

Lemma load_wrap (m : memory) (n : nat) (p : Z) : load m (wrap p) n = load m p n.
Proof.
  destruct n as [| n]; [ reflexivity | ].
  cbn [load]; unfold wrap.
  rewrite Z.mod_mod by (unfold modulus; lia).
  rewrite Zplus_mod_idemp_l; reflexivity.
Qed.

Lemma load_length (m : memory) (n : nat) (p : Z) : length (load m p n) = n.
Proof.
  revert p; induction n as [| n IH]; intros p; cbn [load length];
    [ reflexivity | rewrite IH; reflexivity ].
Qed.

(** Taking the free buffer of a ready pool and giving it back, filled or
    not, leaves the pool as it was. *)
Lemma pool_ready_cycle (pool : aio_buffer_pool.t) (capacity : Z) (h : nat) :
  pool_ready pool capacity ->
  exists b pool1,
    aio_buffer_pool.get_buffer pool h = (mk_lease b true, pool1)
    /\ nb_bytes b = [] /\ nb_capacity b = capacity
    /\ forall bytes,
         aio_buffer_pool.release_lease pool1
           (mk_lease (nonowning_buffer_ops.append b bytes) true) = pool.
Proof.
  intros (front & b & Hb & Hbytes & Hcap & Hptr & Hw).
  exists b, (aio_buffer_pool.set_buffers pool front).
  unfold aio_buffer_pool.get_buffer; rewrite Hb, rev_app_distr; cbn [rev app].
  rewrite rev_involutive.
  split; [ reflexivity | split; [ assumption | split; [ assumption | ] ] ].
  intros bytes.
  unfold aio_buffer_pool.release_lease, aio_buffer_pool.release; cbn [lease_pool lease_buffer].
  cbn [nonowning_buffer_ops.append nb_ptr].
  destruct (Z.eqb_spec (nb_ptr b) 0) as [E | _]; [ contradiction | ].
  destruct pool as [count size mem bufs w]; cbn in *; subst bufs w.
  destruct b as [ptr cap bs]; cbn in *; subst bs; reflexivity.
Qed.

(** One turn of the pipe on a reader that has [rem] bytes left. *)
Lemma pipe_turn (m : memory) (h : nat) (fuel : nat)
      (r : view_reader.t) (w : buffer_writer.t) (pool : aio_buffer_pool.t) (capacity : Z) :
  let b := view_reader.base r in
  let rem := reader_base.remaining_ b in
  let k := if rem <? capacity then rem else capacity in
  pool_ready pool capacity -> 0 < capacity ->
  reader_base.error_ b = false -> reader_base.eof_ b = false ->
  0 < rem < nosize ->
  writer_base.error_ (buffer_writer.base w) = false ->
  0 <= buffer_writer.size_limit_ w < modulus ->
  buffer_writer.buffer_size w + rem <= buffer_writer.size_limit_ w ->
  pipe (S fuel) m h r w pool
  = pipe fuel m h
      (view_reader.mk
         (reader_base.mk (reader_base.self b) (reader_base.waitable b)
            (reader_base.max_buffers_ b) (reader_base.buffers_ b)
            (reader_base.size_ b) (reader_base.max_size_ b)
            (reader_base.start_offset_ b) (rem - k)
            true false (rem - k =? 0))
         (view_reader.view_ r))
      (buffer_writer.mk (writer_base.progress (buffer_writer.base w) k)
         (buffer_writer.buffer_ w
          ++ load m (read_position (view_reader.view_ r) b) (Z.to_nat k))
         (buffer_writer.size_limit_ w))
      pool.
Proof.
  intros b rem k Hpool Hcap He Heof Hrem Hwe Hlimit Hroom.
  destruct (pool_ready_cycle pool capacity (reader_base.self b) Hpool)
    as (buf & pool1 & Hget & Hbytes & Hbcap & Hback).
  assert (Hk : 0 < k <= rem).
  { unfold k; destruct (Z.ltb_spec rem capacity); lia. }
  cbn [pipe].
  unfold view_reader.get_buffer, reader_base.get_buffer, view_reader.do_get_buffer.
  fold b; rewrite He, Heof, Hget; cbn [lease_pool negb lease_buffer].
  rewrite Hbcap; fold rem.
  destruct (Z.eqb_spec rem nosize) as [E | _]; [ lia | ]; cbn [negb andb].
  fold k.
  rewrite (wrap_small (rem - k)) by (unfold nosize in Hrem; lia).
  unfold buffer_writer.add_buffer, buffer_writer.do_add_buffer.
  rewrite Hwe.
  unfold writer_base.nothing_to_add, nonowning_buffer_ops.to_bool, nonowning_buffer_ops.empty,
    nonowning_buffer_ops.size.
  cbn [lease_pool lease_buffer negb orb nonowning_buffer_ops.append nb_bytes].
  rewrite Hbytes; cbn [app]; rewrite load_length.
  rewrite Z2Nat.id by lia.
  destruct (Z.eqb_spec k 0) as [E | _]; [ lia | ]; cbn [negb].
  unfold buffer_writer.buffer_size in *.
  rewrite wrap_small by lia.
  destruct (Z.ltb_spec (buffer_writer.size_limit_ w
                        - Z.of_nat (length (buffer_writer.buffer_ w))) k); [ lia | ].
  cbn [buffer_writer.base buffer_writer.buffer_ buffer_writer.size_limit_].
  specialize (Hback (load m (read_position (view_reader.view_ r) b) (Z.to_nat k))).
  unfold read_position in *; fold rem in Hback |- *.
  rewrite Hback.
  destruct (Z.eqb_spec (rem - k) 0); reflexivity.
Qed.

(** The pipe runs to the end of the reader and appends what lies at the
    read position, [remaining_] bytes of it. *)
Lemma pipe_runs (m : memory) (h : nat) (capacity : Z) (pool : aio_buffer_pool.t) :
  pool_ready pool capacity -> 0 < capacity ->
  forall (fuel : nat) (r : view_reader.t) (w : buffer_writer.t),
    let b := view_reader.base r in
    let rem := reader_base.remaining_ b in
    reader_base.error_ b = false ->
    reader_base.eof_ b = (rem =? 0) ->
    0 <= rem < nosize ->
    writer_base.error_ (buffer_writer.base w) = false ->
    0 <= buffer_writer.size_limit_ w < modulus ->
    buffer_writer.buffer_size w + rem <= buffer_writer.size_limit_ w ->
    (Z.to_nat rem < fuel)%nat ->
    pipe_ended (pipe fuel m h r w pool) = pipe_eof
    /\ piped (pipe fuel m h r w pool)
       = buffer_writer.buffer_ w
         ++ load m (read_position (view_reader.view_ r) b) (Z.to_nat rem).
Proof.
  intros Hpool Hcap; induction fuel as [| fuel IH];
    intros r w b rem; subst b rem; cbv zeta;
    intros He Heof Hrem Hwe Hlimit Hroom Hfuel; [ lia | ].
  destruct (Z.eq_dec (reader_base.remaining_ (view_reader.base r)) 0) as [E0 | Hpos].
  - (* the reader is at its end *)
    cbn [pipe].
    unfold view_reader.get_buffer, reader_base.get_buffer, view_reader.do_get_buffer.
    rewrite He, Heof, E0; cbn.
    split; [ reflexivity | rewrite app_nil_r; reflexivity ].
  - assert (Heof' : reader_base.eof_ (view_reader.base r) = false).
    { rewrite Heof; apply Z.eqb_neq; exact Hpos. }
    pose proof (pipe_turn m h fuel r w pool capacity) as Hturn; cbv zeta in Hturn.
    rewrite Hturn by (try assumption; lia); clear Hturn.
    set (rem := reader_base.remaining_ (view_reader.base r)) in *.
    set (k := if rem <? capacity then rem else capacity).
    assert (Hk : 0 < k <= rem).
    { unfold k; destruct (Z.ltb_spec rem capacity); lia. }
    match goal with
    | |- context [pipe fuel m h ?r1 ?w1 pool] =>
        specialize (IH r1 w1); cbv zeta in IH;
        cbn [view_reader.base view_reader.view_ reader_base.remaining_ reader_base.error_
             reader_base.eof_ buffer_writer.base buffer_writer.size_limit_
             buffer_writer.buffer_ writer_base.error_ writer_base.progress] in IH
    end.
    destruct IH as [Hend Hout].
    + reflexivity.
    + reflexivity.
    + lia.
    + exact Hwe.
    + exact Hlimit.
    + unfold buffer_writer.buffer_size in *.
      cbn [buffer_writer.buffer_]; rewrite length_app, load_length; lia.
    + lia.
    + split; [ exact Hend | ].
      rewrite Hout, <- app_assoc; f_equal.
      replace (Z.to_nat rem) with (Z.to_nat k + Z.to_nat (rem - k))%nat by lia.
      rewrite load_app; f_equal.
      unfold read_position;
        cbn [reader_base.start_offset_ reader_base.size_ reader_base.remaining_].
      fold rem; rewrite Z2Nat.id by lia.
      rewrite !wrap_add_l.
      f_equal; f_equal; lia.
Qed.

Lemma fresh_read_position (data n : Z) :
  wrap (wrap (wrap (data + nosize) + n) - n) = wrap (data - 1).
Proof.
  unfold wrap, nosize.
  rewrite Zminus_mod_idemp_l.
  replace ((data + (modulus - 1)) mod modulus + n - n)
    with ((data + (modulus - 1)) mod modulus) by lia.
  rewrite Z.mod_mod by (unfold modulus; lia).
  replace (data + (modulus - 1)) with (data - 1 + 1 * modulus) by lia.
  apply Z.mod_add; unfold modulus; lia.
Qed.

(** The defect behind C1 and C2 for every view: a fresh view reader piped
    into a buffer writer delivers the bytes from one address in front of
    the view on. *)
Lemma fresh_pipe_reads_before_view (m : memory) (self h : nat) (data n capacity limit : Z)
      (pool : aio_buffer_pool.t) :
  pool_ready pool capacity -> 0 < capacity ->
  0 <= n < nosize -> n <= limit < modulus ->
  let run := pipe (S (Z.to_nat n)) m h (view_reader.construct self (mk_view data n))
                  (buffer_writer.construct [] limit) pool in
  pipe_ended run = pipe_eof /\ piped run = load m (data - 1) (Z.to_nat n).
Proof.
  intros Hpool Hcap Hn Hlimit run.
  destruct (pipe_runs m h capacity pool Hpool Hcap (S (Z.to_nat n))
              (view_reader.construct self (mk_view data n))
              (buffer_writer.construct [] limit)) as [Hend Hout].
  - cbn; destruct (n =? 0); reflexivity.
  - cbn; destruct (n =? 0); reflexivity.
  - exact Hn.
  - reflexivity.
  - change (0 <= limit < modulus); lia.
  - change (0 + n <= limit); lia.
  - change (Z.to_nat n < S (Z.to_nat n))%nat; lia.
  - split; [ exact Hend | ].
    unfold run; rewrite Hout.
    cbn [buffer_writer.construct buffer_writer.buffer_ app].
    unfold read_position; cbn.
    rewrite fresh_read_position, load_wrap; reflexivity.
Qed.

(** After [seek(0, nosize)] the pipe is a round trip: the destination holds
    the bytes of the view. *)
Lemma round_trip_after_seek (m : memory) (self h : nat) (data capacity limit : Z)
      (s : list byte) (pool : aio_buffer_pool.t) :
  holds m data s ->
  pool_ready pool capacity -> 0 < capacity ->
  Z.of_nat (length s) < nosize -> Z.of_nat (length s) <= limit < modulus ->
  let sought := view_reader.seek (view_reader.construct self (mk_view data (Z.of_nat (length s))))
                                 pool 0 nosize in
  let run := pipe (S (length s)) m h (snd (fst sought))
                  (buffer_writer.construct [] limit) (snd sought) in
  fst (fst sought) = true /\ pipe_ended run = pipe_eof /\ piped run = s.
Proof.
  intros Hholds Hpool Hcap Hn Hlimit.
  set (n := Z.of_nat (length s)) in *.
  assert (Hseek : view_reader.seek (view_reader.construct self (mk_view data n)) pool 0 nosize
                  = (true,
                     view_reader.mk
                       (reader_base.mk self aio_waitable.init 1 [] n n 0 n false false (n =? 0))
                       (mk_view data n),
                     aio_buffer_pool.remove_waiter pool self)).
  { unfold view_reader.seek, reader_base.seek, reader_base.seek_size, reader_base.seek_offset,
      reader_base.changes, reader_base.seek_new_size.
    assert (Hnn : (n =? nosize) = false) by (apply Z.eqb_neq; lia).
    assert (Hn0 : (0 =? nosize) = false) by reflexivity.
    cbn -[nosize wrap Z.sub Z.eqb].
    rewrite !Z.eqb_refl, !Hn0, !Hnn; cbn -[nosize wrap Z.sub Z.eqb].
    rewrite ?Hnn; cbn -[nosize wrap Z.sub Z.eqb].
    rewrite Z.sub_0_r, wrap_small by (unfold nosize in Hn; lia).
    destruct (n =? 0); reflexivity. }
  cbv zeta; rewrite Hseek; cbn [fst snd].
  assert (Hpool' : pool_ready (aio_buffer_pool.remove_waiter pool self) capacity).
  { destruct Hpool as (front & b & Hb & Hrest).
    exists front, b.
    destruct Hrest as (H1 & H2 & H3 & H4).
    unfold aio_buffer_pool.remove_waiter; cbn.
    rewrite H4; repeat split; assumption. }
  destruct (pipe_runs m h capacity _ Hpool' Hcap (S (length s))
              (view_reader.mk
                 (reader_base.mk self aio_waitable.init 1 [] n n 0 n false false (n =? 0))
                 (mk_view data n))
              (buffer_writer.construct [] limit)) as [Hend Hout].
  - reflexivity.
  - reflexivity.
  - change (0 <= n < nosize); lia.
  - reflexivity.
  - change (0 <= limit < modulus); lia.
  - change (0 + n <= limit); lia.
  - change (Z.to_nat n < S (length s))%nat; lia.
  - split; [ reflexivity | split; [ exact Hend | ] ].
    rewrite Hout.
    cbn [buffer_writer.construct buffer_writer.buffer_ app].
    unfold read_position; cbn.
    rewrite Z.add_0_r.
    unfold n at 3; rewrite Nat2Z.id.
    rewrite load_wrap.
    replace (wrap (wrap data + n) - n) with (wrap (wrap data + n) + (- n)) by lia.
    rewrite <- load_wrap.
    unfold wrap at 1 2; rewrite Zplus_mod_idemp_l.
    replace (wrap data + n + - n) with (wrap data) by lia.
    fold (wrap (wrap data)); rewrite !load_wrap.
    exact Hholds.
Qed.

(** * Further properties of the code *)

(** ** Waiters (aio.cpp) *)

Lemma signal_raw_waiter (l hs : list nat) (h : nat) :
  aio_waitable.signal_availibility (aio_waitable.mk (l ++ [h]) hs)
  = (aio_waitable.waiter h, aio_waitable.mk l hs).
Proof.
  unfold aio_waitable.signal_availibility; cbn [aio_waitable.waiting_].
  rewrite rev_app_distr; cbn [rev app]; rewrite rev_involutive; reflexivity.
Qed.

Lemma signal_handler (l : list nat) (h : nat) :
  aio_waitable.signal_availibility (aio_waitable.mk [] (l ++ [h]))
  = (aio_waitable.handler h, aio_waitable.mk [] l).
Proof.
  unfold aio_waitable.signal_availibility;
    cbn [aio_waitable.waiting_ aio_waitable.waiting_handlers_ rev].
  rewrite rev_app_distr; cbn [rev app]; rewrite rev_involutive; reflexivity.
Qed.

Lemma last_case {A : Type} (l : list A) : l = [] \/ exists front x, l = front ++ [x].
Proof.
  destruct l as [| a l]; [ left; reflexivity | right ].
  destruct (exists_last (l := a :: l)) as (front & x & E); [ discriminate | ].
  exists front, x; exact E.
Qed.

(** X1. Signals serve the queues from the back: every raw waiter is
    notified once, the one added last first, and only then the event
    handlers, again the one added last first; after that nobody waits. *)
Theorem waiters_signalled_latest_first (fuel : nat) (w : aio_waitable.t) :
  (length (aio_waitable.waiting_ w) + length (aio_waitable.waiting_handlers_ w) <= fuel)%nat ->
  signal_all fuel w
  = (map aio_waitable.waiter (rev (aio_waitable.waiting_ w))
     ++ map aio_waitable.handler (rev (aio_waitable.waiting_handlers_ w)),
     aio_waitable.init).
Proof.
  revert w; induction fuel as [| fuel IH]; intros [ws hs]; cbn [aio_waitable.waiting_
    aio_waitable.waiting_handlers_]; intros Hfuel.
  - destruct ws; destruct hs; cbn in Hfuel; try lia; reflexivity.
  - cbn [signal_all].
    destruct (last_case ws) as [-> | (front & x & ->)].
    + destruct (last_case hs) as [-> | (front & x & ->)].
      * reflexivity.
      * rewrite (signal_handler front x).
        rewrite IH by (cbn in *; rewrite length_app in Hfuel; cbn in Hfuel; lia).
        cbn [aio_waitable.waiting_ aio_waitable.waiting_handlers_ rev map app].
        rewrite rev_app_distr; reflexivity.
    + rewrite (signal_raw_waiter front hs x).
      rewrite IH by (cbn in *; rewrite length_app in Hfuel; cbn in Hfuel; lia).
      cbn [aio_waitable.waiting_ aio_waitable.waiting_handlers_].
      rewrite rev_app_distr; reflexivity.
Qed.

Lemma waiters_signalled_latest_first_witness :
  signal_all 3
    (aio_waitable.add_waiter
       (aio_waitable.add_waiter_handler (aio_waitable.add_waiter aio_waitable.init 1) 2) 3)
  = ([aio_waitable.waiter 3; aio_waitable.waiter 1; aio_waitable.handler 2],
     aio_waitable.init).
Proof.
  apply (waiters_signalled_latest_first 3
           (aio_waitable.add_waiter
              (aio_waitable.add_waiter_handler (aio_waitable.add_waiter aio_waitable.init 1) 2) 3)).
  cbn; lia.
Defined.

(** Whoever is notified as a raw waiter was in the queue of raw waiters. *)
Lemma signalled_was_waiting (fuel : nat) (w : aio_waitable.t) (h : nat) :
  In (aio_waitable.waiter h) (fst (signal_all fuel w)) -> In h (aio_waitable.waiting_ w).
Proof.
  revert w; induction fuel as [| fuel IH]; intros [ws hs]; cbn [signal_all fst In];
    [ intros [] | ].
  destruct (last_case ws) as [-> | (front & x & ->)].
  - destruct (last_case hs) as [-> | (front & x & ->)].
    + cbn; intros [].
    + rewrite (signal_handler front x).
      destruct (signal_all fuel (aio_waitable.mk [] front)) as [rest w2] eqn:E.
      cbn [fst In]; intros [H | H]; [ discriminate | ].
      specialize (IH (aio_waitable.mk [] front)); rewrite E in IH; exact (IH H).
  - rewrite (signal_raw_waiter front hs x).
    destruct (signal_all fuel (aio_waitable.mk front hs)) as [rest w2] eqn:E.
    cbn [fst In aio_waitable.waiting_]; intros [H | H].
    + inversion H; subst; apply in_or_app; right; left; reflexivity.
    + specialize (IH (aio_waitable.mk front hs)); rewrite E in IH.
      apply in_or_app; left; exact (IH H).
Qed.

(** Whoever is in the queue of raw waiters is notified when enough signals
    follow. *)
Lemma waiting_is_signalled (fuel : nat) (w : aio_waitable.t) (h : nat) :
  In h (aio_waitable.waiting_ w) ->
  (length (aio_waitable.waiting_ w) <= fuel)%nat ->
  In (aio_waitable.waiter h) (fst (signal_all fuel w)).
Proof.
  revert w; induction fuel as [| fuel IH]; intros [ws hs];
    cbn [aio_waitable.waiting_]; intros Hin Hfuel.
  - destruct ws; [ destruct Hin | cbn in Hfuel; lia ].
  - cbn [signal_all].
    destruct (last_case ws) as [-> | (front & x & ->)]; [ destruct Hin | ].
    rewrite (signal_raw_waiter front hs x).
    destruct (signal_all fuel (aio_waitable.mk front hs)) as [rest w2] eqn:E.
    cbn [fst In].
    apply in_app_or in Hin; destruct Hin as [Hin | [-> | []]]; [ right | left; reflexivity ].
    specialize (IH (aio_waitable.mk front hs) Hin); rewrite E in IH; apply IH.
    rewrite length_app in Hfuel; cbn in Hfuel |- *; lia.
Qed.

(** X2. [remove_waiter] takes every registration of the waiter out of the
    queue: however many signals follow, the waiter is not notified, while
    every other waiter that was queued still is, and the event handlers
    stay queued. *)
Theorem removed_waiter_is_not_notified (w : aio_waitable.t) (h : nat) :
  (forall fuel,
     ~ In (aio_waitable.waiter h) (fst (signal_all fuel (aio_waitable.remove_waiter w h))))
  /\ (forall fuel h',
        h' <> h -> In h' (aio_waitable.waiting_ w) ->
        (length (aio_waitable.waiting_ w) <= fuel)%nat ->
        In (aio_waitable.waiter h') (fst (signal_all fuel (aio_waitable.remove_waiter w h))))
  /\ aio_waitable.waiting_handlers_ (aio_waitable.remove_waiter w h)
     = aio_waitable.waiting_handlers_ w.
Proof.
  split; [ | split; [ | reflexivity ] ].
  - intros fuel Hin.
    apply signalled_was_waiting in Hin.
    unfold aio_waitable.remove_waiter in Hin; cbn [aio_waitable.waiting_] in Hin.
    apply filter_In in Hin; destruct Hin as [_ Hne].
    rewrite Nat.eqb_refl in Hne; discriminate.
  - intros fuel h' Hne Hin Hfuel.
    apply waiting_is_signalled.
    + unfold aio_waitable.remove_waiter; cbn [aio_waitable.waiting_].
      apply filter_In; split; [ exact Hin | ].
      apply negb_true_iff, Nat.eqb_neq; exact Hne.
    + unfold aio_waitable.remove_waiter; cbn [aio_waitable.waiting_].
      pose proof (filter_length_le (fun x => negb (Nat.eqb x h)) (aio_waitable.waiting_ w)).
      lia.
Qed.

(** ** The free list of the pool (aio.cpp) *)

Lemma get_buffer_last (p : aio_buffer_pool.t) (front : list nonowning_buffer)
      (b : nonowning_buffer) (h : nat) :
  aio_buffer_pool.buffers_ p = front ++ [b] ->
  aio_buffer_pool.get_buffer p h = (mk_lease b true, aio_buffer_pool.set_buffers p front).
Proof.
  intros E; unfold aio_buffer_pool.get_buffer.
  rewrite E, rev_app_distr; cbn [rev app]; rewrite rev_involutive; reflexivity.
Qed.

(** X3. A lease taken from the pool and given back leaves the free list as
    it was: [get_buffer] hands out the buffer at the back of the free list
    and registers nobody, and whatever the holder appended or consumed,
    releasing the lease puts the same buffer back at the back, emptied. A
    lease that was moved from gives nothing back. *)
Theorem pool_lease_round_trip (p : aio_buffer_pool.t) (front : list nonowning_buffer)
        (b : nonowning_buffer) (h : nat) :
  aio_buffer_pool.buffers_ p = front ++ [b] ->
  nb_ptr b <> 0 ->
  let lease := fst (aio_buffer_pool.get_buffer p h) in
  let p1 := snd (aio_buffer_pool.get_buffer p h) in
  lease = mk_lease b true
  /\ aio_buffer_pool.buffers_ p1 = front
  /\ aio_buffer_pool.waitable p1 = aio_buffer_pool.waitable p
  /\ (forall bytes n,
        aio_buffer_pool.buffers_
          (aio_buffer_pool.release_lease p1
             (mk_lease (nonowning_buffer_ops.consume (nonowning_buffer_ops.append b bytes) n)
                       true))
        = front ++ [mk_nonowning_buffer (nb_ptr b) (nb_capacity b) []])
  /\ aio_buffer_pool.release_lease p1 empty_lease = p1.
Proof.
  intros E Hptr; cbv zeta.
  rewrite (get_buffer_last p front b h E); cbn [fst snd].
  split; [ reflexivity | split; [ reflexivity | split; [ reflexivity | split ] ] ].
  - intros bytes n.
    unfold aio_buffer_pool.release_lease, aio_buffer_pool.release.
    cbn [lease_pool lease_buffer nonowning_buffer_ops.consume nonowning_buffer_ops.append nb_ptr].
    destruct (Z.eqb_spec (nb_ptr b) 0) as [E0 | _]; [ contradiction | ].
    destruct (aio_waitable.signal_availibility _) as [who w1].
    reflexivity.
  - reflexivity.
Qed.

Lemma pool_lease_round_trip_witness :
  aio_buffer_pool.buffers_
    (aio_buffer_pool.release_lease (snd (aio_buffer_pool.get_buffer small_pool 7))
       (mk_lease
          (nonowning_buffer_ops.consume
             (nonowning_buffer_ops.append
                (lease_buffer (fst (aio_buffer_pool.get_buffer small_pool 7)))
                [Byte.x41; Byte.x42]) 1)
          true))
  = aio_buffer_pool.buffers_ small_pool.
Proof.
  destruct (pool_lease_round_trip small_pool
              [mk_nonowning_buffer 69632 2 []] (mk_nonowning_buffer 77824 2 []) 7)
    as (_ & _ & _ & H & _).
  - vm_compute; reflexivity.
  - cbn; lia.
  - exact (H [Byte.x41; Byte.x42] 1).
Defined.

(** X4. On a pool with no free buffer [get_buffer] returns the empty lease
    and queues the caller; the next buffer that is released notifies that
    caller, and its following [get_buffer] obtains the released buffer,
    emptied. The pool is then as it was before. *)
Theorem exhausted_pool_serves_waiter (p : aio_buffer_pool.t) (b : nonowning_buffer) (h : nat) :
  aio_buffer_pool.buffers_ p = [] ->
  nb_ptr b <> 0 ->
  let p1 := snd (aio_buffer_pool.get_buffer p h) in
  let p2 := snd (aio_buffer_pool.release p1 b) in
  fst (aio_buffer_pool.get_buffer p h) = empty_lease
  /\ fst (aio_buffer_pool.release p1 b) = aio_waitable.waiter h
  /\ aio_buffer_pool.get_buffer p2 h
     = (mk_lease (mk_nonowning_buffer (nb_ptr b) (nb_capacity b) []) true, p).
Proof.
  intros E Hptr; cbv zeta.
  destruct p as [count size mem bufs [ws hs]]; cbn in E; subst bufs.
  assert (Hget : aio_buffer_pool.get_buffer
                   (aio_buffer_pool.mk count size mem [] (aio_waitable.mk ws hs)) h
                 = (empty_lease,
                    aio_buffer_pool.mk count size mem [] (aio_waitable.mk (ws ++ [h]) hs)))
    by reflexivity.
  assert (Hrel : aio_buffer_pool.release
                   (aio_buffer_pool.mk count size mem [] (aio_waitable.mk (ws ++ [h]) hs)) b
                 = (aio_waitable.waiter h,
                    aio_buffer_pool.mk count size mem [nonowning_buffer_ops.clear b]
                      (aio_waitable.mk ws hs))).
  { unfold aio_buffer_pool.release.
    destruct (Z.eqb_spec (nb_ptr b) 0) as [E0 | _]; [ contradiction | ].
    cbn [aio_buffer_pool.set_buffers aio_buffer_pool.waitable aio_buffer_pool.buffers_
         aio_buffer_pool.buffer_count_ aio_buffer_pool.memory_size_ aio_buffer_pool.memory_ app].
    rewrite signal_raw_waiter; reflexivity. }
  rewrite Hget; cbn [fst snd]; rewrite Hrel; cbn [fst snd].
  split; [ reflexivity | split; [ reflexivity | ] ].
  rewrite (get_buffer_last _ [] (nonowning_buffer_ops.clear b) h) by reflexivity.
  reflexivity.
Qed.

Lemma exhausted_pool_serves_waiter_witness :
  fst (aio_buffer_pool.release
         (snd (aio_buffer_pool.get_buffer
                 (aio_buffer_pool.set_buffers small_pool []) 7))
         (mk_nonowning_buffer 69632 2 [Byte.x41]))
  = aio_waitable.waiter 7.
Proof.
  destruct (exhausted_pool_serves_waiter (aio_buffer_pool.set_buffers small_pool [])
              (mk_nonowning_buffer 69632 2 [Byte.x41]) 7) as (_ & H & _).
  - reflexivity.
  - cbn; lia.
  - exact H.
Defined.

(** X5. The destructor of a pool whose memory was obtained aborts exactly
    while a lease is out: not on the pool as constructed, it does once a
    buffer was taken with [get_buffer], and not any more when that lease
    was released. *)
Theorem pool_destructor_aborts_while_lease_is_out
        (psz count buffer_size base : Z) (h : nat) :
  1 <= count ->
  let p := aio_buffer_pool.construct psz (fun _ => aio_buffer_pool.allocated base)
                                     count buffer_size in
  let lease := fst (aio_buffer_pool.get_buffer p h) in
  let p1 := snd (aio_buffer_pool.get_buffer p h) in
  aio_buffer_pool.to_bool p = true
  /\ aio_buffer_pool_destructor_aborts p = false
  /\ lease_pool lease = true
  /\ aio_buffer_pool_destructor_aborts p1 = true
  /\ (nb_ptr (lease_buffer lease) <> 0 ->
      aio_buffer_pool_destructor_aborts (aio_buffer_pool.release_lease p1 lease) = false).
Proof.
  intros Hc p lease p1.
  assert (Hlen : Z.of_nat (length (aio_buffer_pool.buffers_ p)) = count).
  { unfold p, aio_buffer_pool.construct; cbn [aio_buffer_pool.buffers_].
    rewrite carve_length; lia. }
  assert (Hcount : aio_buffer_pool.buffer_count_ p = count) by reflexivity.
  assert (Hmem : aio_buffer_pool.to_bool p = true) by reflexivity.
  destruct (last_case (aio_buffer_pool.buffers_ p)) as [E | (front & b & E)].
  { rewrite E in Hlen; cbn in Hlen; lia. }
  assert (Hfront : Z.of_nat (length front) = count - 1).
  { rewrite E, length_app in Hlen; cbn [length] in Hlen; lia. }
  unfold lease, p1; rewrite (get_buffer_last p front b h E); cbn [fst snd lease_pool lease_buffer].
  unfold aio_buffer_pool_destructor_aborts.
  split; [ exact Hmem | split; [ | split; [ reflexivity | split ] ] ].
  - rewrite Hmem, Hlen, Hcount, Z.eqb_refl; reflexivity.
  - change (aio_buffer_pool.to_bool (aio_buffer_pool.set_buffers p front))
      with (aio_buffer_pool.to_bool p).
    cbn [aio_buffer_pool.set_buffers aio_buffer_pool.buffers_ aio_buffer_pool.buffer_count_].
    rewrite Hmem, Hfront, Hcount.
    destruct (Z.eqb_spec (count - 1) count); [ lia | reflexivity ].
  - intros Hptr.
    unfold aio_buffer_pool.release_lease, aio_buffer_pool.release; cbn [lease_pool lease_buffer].
    destruct (Z.eqb_spec (nb_ptr b) 0) as [E0 | _]; [ contradiction | ].
    destruct (aio_waitable.signal_availibility _) as [who w1].
    cbn [snd].
    match goal with
    | |- aio_buffer_pool.to_bool ?x && _ = false =>
        change (aio_buffer_pool.to_bool x) with (aio_buffer_pool.to_bool p)
    end.
    cbn [aio_buffer_pool.set_waitable aio_buffer_pool.set_buffers
         aio_buffer_pool.buffers_ aio_buffer_pool.buffer_count_].
    rewrite Hmem, Hcount.
    rewrite length_app; cbn [length].
    replace (Z.of_nat (length front + 1)) with count by lia.
    rewrite Z.eqb_refl; reflexivity.
Qed.

Lemma pool_destructor_aborts_while_lease_is_out_witness :
  aio_buffer_pool_destructor_aborts small_pool = false
  /\ aio_buffer_pool_destructor_aborts (snd (aio_buffer_pool.get_buffer small_pool 7)) = true.
Proof.
  destruct (pool_destructor_aborts_while_lease_is_out 4096 2 2 65536 7) as (_ & H1 & _ & H2 & _).
  - lia.
  - split; [ exact H1 | exact H2 ].
Defined.

(** X6. When [mmap] fails, [memory_] keeps [MAP_FAILED]: the pool converts
    to [true] although it has no buffer, every [get_buffer] returns the
    empty lease and queues the caller, and the destructor aborts. When the
    memory could not be had in another way, the pool converts to [false]
    and its destructor does not abort. *)
Theorem pool_after_failed_mapping (psz count buffer_size : Z) (h : nat) :
  1 <= count ->
  let p := aio_buffer_pool.construct psz (fun _ => aio_buffer_pool.map_failed)
                                     count buffer_size in
  let q := aio_buffer_pool.construct psz (fun _ => aio_buffer_pool.no_memory)
                                     count buffer_size in
  aio_buffer_pool.to_bool p = true
  /\ aio_buffer_pool.buffers_ p = []
  /\ fst (aio_buffer_pool.get_buffer p h) = empty_lease
  /\ aio_buffer_pool_destructor_aborts p = true
  /\ aio_buffer_pool.to_bool q = false
  /\ fst (aio_buffer_pool.get_buffer q h) = empty_lease
  /\ aio_buffer_pool_destructor_aborts q = false.
Proof.
  intros Hc p q.
  split; [ reflexivity | split; [ reflexivity | split; [ reflexivity | split ] ] ].
  - unfold p, aio_buffer_pool_destructor_aborts, aio_buffer_pool.construct.
    cbn [aio_buffer_pool.to_bool aio_buffer_pool.memory_ aio_buffer_pool.buffers_
         aio_buffer_pool.buffer_count_ length andb].
    destruct (Z.eqb_spec (Z.of_nat 0) count); [ lia | reflexivity ].
  - repeat split.
Qed.

Lemma pool_after_failed_mapping_witness :
  aio_buffer_pool_destructor_aborts
    (aio_buffer_pool.construct 4096 (fun _ => aio_buffer_pool.map_failed) 8 0) = true.
Proof.
  destruct (pool_after_failed_mapping 4096 8 0 7) as (_ & _ & _ & H & _);
    [ lia | exact H ].
Defined.

(** ** buffer_writer (writer.cpp) *)

(** X7. A buffer writer whose destination is within the size limit keeps
    it there: [add_buffer] never returns [wait] and leaves the lease with
    the caller; on [ok] the destination has grown by exactly the bytes of
    the lease (by nothing for an empty or missing lease), and on [error]
    the destination is untouched and the error flag is set. *)
Theorem buffer_writer_keeps_limit (w : buffer_writer.t) (b : buffer_lease) (h : nat) :
  0 <= buffer_writer.buffer_size w <= buffer_writer.size_limit_ w ->
  buffer_writer.size_limit_ w < modulus ->
  let res := fst (fst (buffer_writer.add_buffer w b h)) in
  let w1 := snd (fst (buffer_writer.add_buffer w b h)) in
  res <> wait
  /\ snd (buffer_writer.add_buffer w b h) = b
  /\ buffer_writer.size_limit_ w1 = buffer_writer.size_limit_ w
  /\ buffer_writer.buffer_size w1 <= buffer_writer.size_limit_ w1
  /\ (res = ok ->
      buffer_writer.buffer_ w1
      = buffer_writer.buffer_ w
        ++ (if writer_base.nothing_to_add b then [] else nb_bytes (lease_buffer b)))
  /\ (res = error ->
      buffer_writer.buffer_ w1 = buffer_writer.buffer_ w
      /\ writer_base.error_ (buffer_writer.base w1) = true).
Proof.
  intros Hsize Hlimit; cbv zeta.
  unfold buffer_writer.add_buffer.
  destruct (writer_base.error_ (buffer_writer.base w)) eqn:He.
  { cbn [fst snd]; repeat split; try discriminate; try lia; assumption. }
  destruct (writer_base.nothing_to_add b) eqn:Hn.
  { cbn [fst snd]; repeat split; try discriminate; try lia.
    intros _; symmetry; apply app_nil_r. }
  unfold buffer_writer.do_add_buffer, nonowning_buffer_ops.size.
  rewrite wrap_small by lia.
  destruct (Z.ltb_spec (buffer_writer.size_limit_ w - buffer_writer.buffer_size w)
                       (Z.of_nat (length (nb_bytes (lease_buffer b))))) as [Hlt | Hge];
    cbn [fst snd buffer_writer.buffer_ buffer_writer.base buffer_writer.size_limit_
         writer_base.set_error writer_base.error_].
  - unfold buffer_writer.buffer_size in *; cbn [buffer_writer.buffer_].
    repeat split; try discriminate; lia.
  - unfold buffer_writer.buffer_size in *; cbn [buffer_writer.buffer_].
    rewrite length_app.
    repeat split; try discriminate; lia.
Qed.

Lemma buffer_writer_keeps_limit_witness :
  buffer_writer.buffer_
    (snd (fst (buffer_writer.add_buffer (buffer_writer.construct [Byte.x41] 3)
                 (mk_lease (mk_nonowning_buffer 4096 4 [Byte.x42; Byte.x43]) true) 7)))
  = [Byte.x41; Byte.x42; Byte.x43].
Proof.
  destruct (buffer_writer_keeps_limit (buffer_writer.construct [Byte.x41] 3)
              (mk_lease (mk_nonowning_buffer 4096 4 [Byte.x42; Byte.x43]) true) 7)
    as (_ & _ & _ & _ & H & _).
  - cbn; lia.
  - cbn; unfold modulus; lia.
  - apply H; reflexivity.
Defined.

(** X8. The size limit is checked as [size_limit_ - buffer_.size() <
    b->size()] in [size_t]: over a destination that is already longer than
    the limit the difference wraps around, and the writer accepts the
    lease and appends it. *)
Theorem buffer_writer_over_limit_accepts (w : buffer_writer.t) (b : buffer_lease) (h : nat) :
  writer_base.error_ (buffer_writer.base w) = false ->
  0 <= buffer_writer.size_limit_ w < buffer_writer.buffer_size w ->
  buffer_writer.buffer_size w <= 2 ^ 63 ->
  lease_pool b = true ->
  0 < nonowning_buffer_ops.size (lease_buffer b) <= 2 ^ 63 ->
  fst (fst (buffer_writer.add_buffer w b h)) = ok
  /\ buffer_writer.buffer_ (snd (fst (buffer_writer.add_buffer w b h)))
     = buffer_writer.buffer_ w ++ nb_bytes (lease_buffer b).
Proof.
  intros He Hover Hsize Hpool Hn.
  unfold buffer_writer.add_buffer; rewrite He.
  unfold writer_base.nothing_to_add, nonowning_buffer_ops.to_bool, nonowning_buffer_ops.empty.
  rewrite Hpool.
  destruct (Z.eqb_spec (nonowning_buffer_ops.size (lease_buffer b)) 0) as [E | _]; [ lia | ].
  cbn [negb orb].
  unfold buffer_writer.do_add_buffer.
  assert (Hwrap : wrap (buffer_writer.size_limit_ w - buffer_writer.buffer_size w)
                  = buffer_writer.size_limit_ w - buffer_writer.buffer_size w + modulus).
  { unfold wrap; symmetry.
    apply (Z.mod_unique _ _ (-1)); unfold modulus in *; lia. }
  rewrite Hwrap.
  destruct (Z.ltb_spec (buffer_writer.size_limit_ w - buffer_writer.buffer_size w + modulus)
                       (nonowning_buffer_ops.size (lease_buffer b)));
    [ unfold modulus in *; lia | ].
  split; reflexivity.
Qed.

Lemma buffer_writer_over_limit_accepts_witness :
  fst (fst (buffer_writer.add_buffer (buffer_writer.construct [Byte.x41; Byte.x42] 1)
              (mk_lease (mk_nonowning_buffer 4096 4 [Byte.x43; Byte.x44]) true) 7))
  = ok.
Proof.
  apply (buffer_writer_over_limit_accepts (buffer_writer.construct [Byte.x41; Byte.x42] 1)
           (mk_lease (mk_nonowning_buffer 4096 4 [Byte.x43; Byte.x44]) true) 7).
  - reflexivity.
  - cbn; lia.
  - cbn; lia.
  - reflexivity.
  - cbn; lia.
Defined.

(** ** The file writer and its worker (writer.cpp) *)

(** The inner loop of the worker makes one write, since a write takes the
    whole buffer or fails. *)
Lemma write_loop_once (f : file) (b : nonowning_buffer) (rep : list Z) :
  file_writer.write_loop (S (length (nb_bytes b))) f b rep
  = match nb_bytes b with
    | [] => Some (f, b, rep)
    | _ :: _ =>
        if f_open f && f_io_ok f
        then Some (snd (file_ops.write f (nb_bytes b)),
                   nonowning_buffer_ops.consume b (Z.of_nat (length (nb_bytes b))),
                   Z.of_nat (length (nb_bytes b)) :: rep)
        else None
    end.
Proof.
  destruct (nb_bytes b) as [| x xs] eqn:Hb.
  - cbn [file_writer.write_loop length].
    unfold nonowning_buffer_ops.empty, nonowning_buffer_ops.size; rewrite Hb; reflexivity.
  - cbn [file_writer.write_loop].
    unfold nonowning_buffer_ops.empty at 1, nonowning_buffer_ops.size at 1; rewrite Hb.
    destruct (Z.eqb_spec (Z.of_nat (length (x :: xs))) 0) as [E | _];
      [ cbn [length] in E; lia | ].
    unfold file_ops.write.
    destruct (f_open f && f_io_ok f); [ | reflexivity ].
    destruct (Z.leb_spec (Z.of_nat (length (x :: xs))) 0) as [E | _];
      [ cbn [length] in E; lia | ].
    assert (Hdone : nonowning_buffer_ops.empty
                      (nonowning_buffer_ops.consume b (Z.of_nat (length (x :: xs)))) = true).
    { unfold nonowning_buffer_ops.empty, nonowning_buffer_ops.size,
        nonowning_buffer_ops.consume; cbn [nb_bytes].
      rewrite Hb, Nat2Z.id, skipn_all; reflexivity. }
    cbn [length] in *; cbn [file_writer.write_loop]; rewrite Hdone; reflexivity.
Qed.

(** A write at the end of a file that takes writes appends. *)
Lemma write_appends (f : file) (bs : list byte) :
  f_open f = true -> f_io_ok f = true -> f_pos f = file_ops.len f ->
  snd (file_ops.write f bs)
  = mk_file true (f_bytes f ++ bs) (f_pos f + Z.of_nat (length bs))
            (f_size_known f) true (f_mtime f).
Proof.
  intros Ho Hio Hpos; unfold file_ops.write, file_ops.len in *.
  rewrite Ho, Hio; cbn [andb snd].
  rewrite Hpos, Nat2Z.id, firstn_all, skipn_all2 by lia.
  rewrite app_nil_r; reflexivity.
Qed.

(** The inner loop of the worker on a file that is positioned at its end:
    it fails, or the bytes of the buffer are behind what the file had. *)
Lemma write_loop_at_end (f : file) (b : nonowning_buffer) (rep : list Z) :
  f_pos f = file_ops.len f ->
  file_writer.write_loop (S (length (nb_bytes b))) f b rep = None
  \/ exists f1 buf rep1,
       file_writer.write_loop (S (length (nb_bytes b))) f b rep = Some (f1, buf, rep1)
       /\ f_bytes f1 = f_bytes f ++ nb_bytes b
       /\ f_pos f1 = file_ops.len f1
       /\ fold_right Z.add 0 rep1 = fold_right Z.add 0 rep + Z.of_nat (length (nb_bytes b)).
Proof.
  intros Hpos; rewrite write_loop_once.
  destruct (nb_bytes b) as [| x xs] eqn:Hb.
  - right; exists f, b, rep.
    rewrite app_nil_r; cbn; repeat split; [ assumption | lia ].
  - destruct (f_open f && f_io_ok f) eqn:Hok; [ right | left; reflexivity ].
    apply andb_true_iff in Hok; destruct Hok as [Ho Hio].
    eexists _, _, _; split; [ reflexivity | ].
    rewrite write_appends by assumption.
    unfold file_ops.len in *; cbn [f_bytes f_pos fold_right].
    split; [ reflexivity | split ].
    + rewrite length_app; lia.
    + lia.
Qed.

Lemma queued_bytes_app (a b : list buffer_lease) :
  queued_bytes (a ++ b) = queued_bytes a ++ queued_bytes b.
Proof. unfold queued_bytes; apply flat_map_app. Qed.

(** [add_buffer] that does not return [error] leaves file and progress
    alone and puts the lease at the back of the queue. *)
Lemma add_buffer_effect (w w1 : file_writer.t) (b b1 : buffer_lease) (h : nat)
      (res : aio_result) :
  file_writer.add_buffer w b h = (res, w1, b1) ->
  res <> error ->
  writer_base.error_ (file_writer.base w1) = writer_base.error_ (file_writer.base w)
  /\ writer_base.error_ (file_writer.base w) = false
  /\ file_writer.file_ w1 = file_writer.file_ w
  /\ writer_base.progress_ (file_writer.base w1) = writer_base.progress_ (file_writer.base w)
  /\ writer_base.buffers_ (file_writer.base w1)
     = writer_base.buffers_ (file_writer.base w)
       ++ (if writer_base.nothing_to_add b then [] else [b]).
Proof.
  unfold file_writer.add_buffer.
  destruct (writer_base.error_ (file_writer.base w)) eqn:He.
  { intros H; inversion H; subst; intros Hne; contradiction. }
  destruct (writer_base.nothing_to_add b).
  { intros H; inversion H; subst; intros _; rewrite app_nil_r; repeat split; assumption. }
  unfold file_writer.do_add_buffer.
  destruct (Z.of_nat (length (writer_base.buffers_ (file_writer.base w) ++ [b])) =? 1);
    destruct (Z.of_nat (length (writer_base.buffers_ (file_writer.base w) ++ [b]))
              >=? writer_base.max_buffers_ (file_writer.base w));
    intros H; inversion H; subst; intros _; cbn; repeat split; assumption.
Qed.

(** [finalize] leaves file, queue and progress alone; it can only set the
    error flag. *)
Lemma finalize_effect (w : file_writer.t) (h : nat) :
  let w1 := snd (file_writer.finalize w h) in
  file_writer.file_ w1 = file_writer.file_ w
  /\ writer_base.progress_ (file_writer.base w1) = writer_base.progress_ (file_writer.base w)
  /\ writer_base.buffers_ (file_writer.base w1) = writer_base.buffers_ (file_writer.base w)
  /\ (writer_base.error_ (file_writer.base w1) = false ->
      writer_base.error_ (file_writer.base w) = false).
Proof.
  cbv zeta; unfold file_writer.finalize, file_writer.do_finalize, file_writer.continue_finalize.
  destruct w as [b c k q f s p o].
  cbn [file_writer.base file_writer.file_ file_writer.fsync_ file_writer.set_base
       writer_base.set_finalizing writer_base.buffers_].
  destruct (writer_base.error_ b) eqn:He;
    [ cbn; repeat split; try reflexivity; intros; congruence | ].
  destruct (writer_base.finalizing_ b =? 2);
    [ cbn; repeat split; try reflexivity; intros; congruence | ].
  destruct (f_open f); cbn [negb];
    [ | cbn; repeat split; try reflexivity; intros; congruence ].
  destruct (writer_base.buffers_ b) eqn:Hb; destruct s;
    cbn; repeat split; try reflexivity; intros; congruence.
Qed.

(** A turn of the worker keeps what the file and the queue hold together. *)
Lemma entry_step_holds (w0 w w1 : file_writer.t) (data : list byte)
      (pool pool1 : aio_buffer_pool.t) (who : list aio_waitable.signalled) :
  file_writer.entry_step w pool = Some (w1, pool1, who) ->
  writer_base.error_ (file_writer.base w1) = false ->
  writer_base.error_ (file_writer.base w) = false
  /\ (file_writer_holds w0 w data -> file_writer_holds w0 w1 data).
Proof.
  unfold file_writer.entry_step.
  destruct w as [b c k q f s p o];
    cbn [file_writer.base file_writer.task_ file_writer.cond_ file_writer.quit_
         file_writer.file_ file_writer.fsync_].
  destruct k; try discriminate.
  - (* at the loop head *)
    destruct (q || writer_base.error_ b) eqn:Hq.
    { intros H; inversion H; subst; clear H; cbn; intros He; split; [ exact He | tauto ]. }
    apply orb_false_iff in Hq; destruct Hq as [_ He0].
    destruct (writer_base.buffers_ b) as [| front rest] eqn:Hb.
    + destruct (writer_base.finalizing_ b =? 1).
      * destruct (aio_waitable.signal_availibility (writer_base.waitable b)) as [who0 wt].
        intros H; inversion H; subst; clear H; cbn; intros _; split; [ exact He0 | ].
        unfold file_writer_holds; cbn; rewrite Hb; tauto.
      * unfold file_writer.cond_wait; cbn [file_writer.cond_].
        destruct c; intros H; inversion H; subst; clear H; cbn; intros _;
          (split; [ exact He0 | tauto ]).
    + intros Hstep He1; split; [ exact He0 | ].
      intros (J1 & J2 & J3); cbn [file_writer.file_ file_writer.base] in J1, J2, J3.
      destruct (write_loop_at_end f (lease_buffer front) (writer_base.progress_ b) J2)
        as [Hnone | (f1 & buf & rep1 & Hsome & W1 & W2 & W3)].
      * rewrite Hnone in Hstep; inversion Hstep; subst; cbn in He1; discriminate.
      * rewrite Hsome in Hstep.
        destruct (if Z.of_nat (length (front :: rest)) =? writer_base.max_buffers_ b
                  then aio_waitable.signal_availibility (writer_base.waitable b)
                  else (aio_waitable.nobody, writer_base.waitable b)) as [who0 wt].
        inversion Hstep; subst; clear Hstep.
        unfold file_writer_holds, reported, file_ops.len in *;
          cbn [file_writer.file_ file_writer.base file_writer.set_file file_writer.set_base
               writer_base.buffers_ writer_base.progress_].
        rewrite Hb in J1; cbn [queued_bytes flat_map] in J1.
        fold (queued_bytes rest) in J1.
        split; [ | split ].
        -- rewrite W1, <- app_assoc; exact J1.
        -- exact W2.
        -- rewrite W3, J3, W1, length_app; lia.
  - (* asleep *)
    destruct c; [ | discriminate ].
    intros H; inversion H; subst; clear H; cbn; intros He; split; [ exact He | tauto ].
Qed.

(** X9. A file writer loses nothing and reorders nothing, however the calls
    of the client and the turns of the worker interleave: as long as the
    writer is not in error, the file followed by the queued buffers holds
    what the file held at first followed by the bytes of the accepted
    leases in the order of the calls; the file stays positioned at its end,
    and the progress callback was told of exactly the bytes written. *)
Theorem file_writer_keeps_what_it_is_given (w0 w : file_writer.t) (data : list byte) :
  writer_base.buffers_ (file_writer.base w0) = [] ->
  f_pos (file_writer.file_ w0) = file_ops.len (file_writer.file_ w0) ->
  file_writer_fed w0 w data ->
  writer_base.error_ (file_writer.base w) = false ->
  file_writer_holds w0 w data.
Proof.
  intros Hq Hpos Hfed; induction Hfed as
      [ | w w1 data b b1 h res Hfed IH Hadd Hres
        | w data h Hfed IH
        | w w1 data pool pool1 who Hfed IH Hstep ]; intros He.
  - unfold file_writer_holds; rewrite Hq; cbn; rewrite app_nil_r.
    repeat split; [ assumption | lia ].
  - destruct (add_buffer_effect _ _ _ _ _ _ Hadd Hres) as (E1 & E2 & E3 & E4 & E5).
    destruct (IH E2) as (J1 & J2 & J3).
    unfold file_writer_holds, reported in *; rewrite E3, E4, E5.
    split; [ | split; assumption ].
    rewrite queued_bytes_app, !app_assoc, J1; f_equal.
    destruct (writer_base.nothing_to_add b); cbn; [ reflexivity | apply app_nil_r ].
  - destruct (finalize_effect w h) as (E1 & E2 & E3 & E4); cbv zeta in *.
    destruct (IH (E4 He)) as (J1 & J2 & J3).
    unfold file_writer_holds, reported in *; rewrite E1, E2, E3.
    repeat split; assumption.
  - destruct (entry_step_holds w0 _ _ data _ _ _ Hstep He) as [He0 Hkeep].
    exact (Hkeep (IH He0)).
Qed.

Lemma file_writer_keeps_what_it_is_given_witness :
  file_writer_holds new_file_writer new_file_writer_written [Byte.x41; Byte.x42]
  /\ f_bytes (file_writer.file_ new_file_writer_written) = [Byte.x41; Byte.x42].
Proof.
  split; [ | reflexivity ].
  apply (file_writer_keeps_what_it_is_given new_file_writer new_file_writer_written
           [Byte.x41; Byte.x42]).
  - reflexivity.
  - reflexivity.
  - apply (fed_entry_step new_file_writer new_file_writer_added new_file_writer_written
             [Byte.x41; Byte.x42] small_pool
             (aio_buffer_pool.release_lease small_pool
                (mk_lease (mk_nonowning_buffer 69632 2 []) true))
             [aio_waitable.nobody]).
    + apply (fed_add_buffer new_file_writer new_file_writer new_file_writer_added []
               ab_lease empty_lease 7 ok).
      * apply fed_start.
      * reflexivity.
      * discriminate.
    + reflexivity.
  - reflexivity.
Defined.

(** A turn of a worker that can write and finds a buffer queued: the bytes
    of the buffer go behind the file and the buffer leaves the queue. A
    waiter is notified only when the queue was full. *)
Lemma entry_step_writes (w : file_writer.t) (pool : aio_buffer_pool.t)
      (front : buffer_lease) (rest : list buffer_lease) :
  worker_writing w ->
  writer_base.buffers_ (file_writer.base w) = front :: rest ->
  exists w1 pool1 who,
    file_writer.entry_step w pool = Some (w1, pool1, who)
    /\ worker_writing w1
    /\ same_writer w w1
    /\ writer_base.buffers_ (file_writer.base w1) = rest
    /\ f_bytes (file_writer.file_ w1)
       = f_bytes (file_writer.file_ w) ++ nb_bytes (lease_buffer front)
    /\ (let full := Z.of_nat (length (front :: rest))
                     =? writer_base.max_buffers_ (file_writer.base w) in
        let signal := aio_waitable.signal_availibility
                        (writer_base.waitable (file_writer.base w)) in
        who = [if full then fst signal else aio_waitable.nobody]
        /\ writer_base.waitable (file_writer.base w1)
           = if full then snd signal else writer_base.waitable (file_writer.base w)).
Proof.
  intros (Ht & Hq & He & Ho & Hio & Hpos) Hb.
  destruct w as [b c k q f s p o];
    cbn [file_writer.base file_writer.task_ file_writer.cond_ file_writer.quit_
         file_writer.file_ file_writer.fsync_] in *; subst k q.
  unfold file_writer.entry_step;
    cbn [file_writer.base file_writer.task_ file_writer.cond_ file_writer.quit_
         file_writer.file_ file_writer.fsync_].
  rewrite He, Hb; cbn [orb].
  destruct (write_loop_at_end f (lease_buffer front) (writer_base.progress_ b) Hpos)
    as [Hnone | (f1 & buf & rep1 & Hsome & W1 & W2 & W3)].
  - (* the write cannot fail *)
    exfalso; rewrite write_loop_once, Ho, Hio in Hnone.
    destruct (nb_bytes (lease_buffer front)); discriminate.
  - rewrite Hsome.
    assert (Hflags : f_open f1 = true /\ f_io_ok f1 = true /\ f_mtime f1 = f_mtime f).
    { rewrite write_loop_once, Ho, Hio in Hsome.
      destruct (nb_bytes (lease_buffer front)).
      - inversion Hsome; subst; repeat split; assumption.
      - rewrite write_appends in Hsome by assumption.
        inversion Hsome; subst; repeat split. }
    destruct Hflags as (O1 & O2 & O3).
    destruct (Z.eqb_spec (Z.of_nat (length (front :: rest))) (writer_base.max_buffers_ b))
      as [Efull | Efull].
    + destruct (aio_waitable.signal_availibility (writer_base.waitable b)) as [who0 wt].
      eexists _, _, _; split; [ reflexivity | ].
      unfold worker_writing, same_writer; cbn.
      repeat split; try assumption; reflexivity.
    + eexists _, _, _; split; [ reflexivity | ].
      unfold worker_writing, same_writer; cbn.
      repeat split; try assumption; reflexivity.
Qed.

(** Left alone, the worker writes out the whole queue, one buffer a turn. *)
Lemma worker_drains (q : list buffer_lease) (w : file_writer.t) (pool : aio_buffer_pool.t) :
  worker_writing w ->
  writer_base.buffers_ (file_writer.base w) = q ->
  exists w1 pool1,
    file_writer.run_worker (length q) w pool = (w1, pool1)
    /\ worker_writing w1
    /\ same_writer w w1
    /\ writer_base.buffers_ (file_writer.base w1) = []
    /\ f_bytes (file_writer.file_ w1) = f_bytes (file_writer.file_ w) ++ queued_bytes q
    /\ (Z.of_nat (length q) < writer_base.max_buffers_ (file_writer.base w) ->
        writer_base.waitable (file_writer.base w1) = writer_base.waitable (file_writer.base w)).
Proof.
  revert w pool; induction q as [| front rest IH]; intros w pool Hw Hb.
  - exists w, pool; cbn [length file_writer.run_worker queued_bytes flat_map].
    rewrite app_nil_r.
    split; [ reflexivity | split; [ exact Hw | ] ].
    unfold same_writer; repeat split; assumption.
  - destruct (entry_step_writes w pool front rest Hw Hb)
      as (w1 & pool1 & who & Hstep & Hw1 & Hsame & Hb1 & Hbytes & Hwait).
    destruct (IH w1 pool1 Hw1 Hb1) as (w2 & pool2 & Hrun & Hw2 & Hsame2 & Hb2 & Hbytes2 & Hwait2).
    exists w2, pool2.
    cbn [length file_writer.run_worker]; rewrite Hstep, Hrun.
    split; [ reflexivity | split; [ exact Hw2 | split; [ | split; [ exact Hb2 | split ] ] ] ].
    + unfold same_writer in *.
      destruct Hsame as (A1 & A2 & A3 & A4 & A5 & A6 & A7).
      destruct Hsame2 as (B1 & B2 & B3 & B4 & B5 & B6 & B7).
      repeat split; congruence.
    + rewrite Hbytes2, Hbytes, <- app_assoc; reflexivity.
    + intros Hlen.
      destruct Hsame as (A1 & _).
      cbv zeta in Hwait; destruct Hwait as [_ Hwait].
      rewrite Hwait2 by (cbn [length] in Hlen; rewrite A1; lia).
      rewrite Hwait.
      destruct (Z.eqb_spec (Z.of_nat (length (front :: rest)))
                           (writer_base.max_buffers_ (file_writer.base w)));
        [ cbn [length] in *; lia | reflexivity ].
Qed.

Lemma run_worker_app (n m : nat) (w : file_writer.t) (pool : aio_buffer_pool.t) :
  file_writer.run_worker (n + m) w pool
  = file_writer.run_worker m (fst (file_writer.run_worker n w pool))
                           (snd (file_writer.run_worker n w pool)).
Proof.
  revert w pool; induction n as [| n IH]; intros w pool; [ reflexivity | ].
  cbn [Nat.add file_writer.run_worker].
  destruct (file_writer.entry_step w pool) as [[[w1 pool1] who] |] eqn:E.
  - apply IH.
  - cbn [fst snd]; destruct m; cbn [file_writer.run_worker]; [ | rewrite E ]; reflexivity.
Qed.

(** The turn in which the worker finds the queue empty and finalize asked
    for: it makes [finalizing_] 2, notifies the waiter that was queued
    last, and returns. *)
Lemma entry_step_finalizes (w : file_writer.t) (pool : aio_buffer_pool.t)
      (ws hs : list nat) (h : nat) :
  worker_writing w ->
  writer_base.buffers_ (file_writer.base w) = [] ->
  writer_base.finalizing_ (file_writer.base w) = 1 ->
  writer_base.waitable (file_writer.base w) = aio_waitable.mk (ws ++ [h]) hs ->
  let w1 := file_writer.set_task
              (file_writer.set_base w
                 (writer_base.mk (aio_waitable.mk ws hs)
                    (writer_base.max_buffers_ (file_writer.base w)) [] false 2
                    (writer_base.progress_ (file_writer.base w))))
              returned in
  file_writer.entry_step w pool = Some (w1, pool, [aio_waitable.waiter h])
  /\ file_writer.entry_step w1 pool = None.
Proof.
  intros (Ht & Hq & He & Ho & Hio & Hpos) Hb Hf Hw; cbv zeta.
  unfold file_writer.entry_step at 1.
  rewrite Ht, Hq, He, Hb, Hf, Hw, signal_raw_waiter; cbn [orb Z.eqb Pos.eqb].
  unfold file_ops.fsync; rewrite Ho, Hio; cbn [andb negb].
  rewrite andb_false_r; cbn [orb].
  split; reflexivity.
Qed.

(** Once the worker has stopped, more fuel changes nothing. *)
Lemma run_worker_done (n m : nat) (w w1 : file_writer.t) (pool pool1 : aio_buffer_pool.t) :
  file_writer.run_worker n w pool = (w1, pool1) ->
  file_writer.entry_step w1 pool1 = None ->
  (n <= m)%nat ->
  file_writer.run_worker m w pool = (w1, pool1).
Proof.
  intros Hrun Hstop Hle.
  replace m with (n + (m - n))%nat by lia.
  rewrite run_worker_app, Hrun; cbn [fst snd].
  destruct (m - n)%nat; cbn [file_writer.run_worker]; [ | rewrite Hstop ]; reflexivity.
Qed.

(** X10. When [finalize] has to wait, the worker completes it. The worker
    is awake, or asleep on an empty queue; the queue is not full; fsync is
    asked for or buffers are queued. Then [finalize] returns [wait] and
    queues the caller; the worker, left alone, writes out the queue, makes
    [finalizing_] 2, notifies the caller and returns; after that
    [finalize] returns [ok] and [set_mtime] takes a valid time. *)
Theorem finalize_completes_after_wait (w : file_writer.t) (pool : aio_buffer_pool.t)
        (h : nat) (time : Z) :
  let q := writer_base.buffers_ (file_writer.base w) in
  writer_base.error_ (file_writer.base w) = false ->
  file_writer.quit_ w = false ->
  f_open (file_writer.file_ w) = true ->
  f_io_ok (file_writer.file_ w) = true ->
  f_pos (file_writer.file_ w) = file_ops.len (file_writer.file_ w) ->
  writer_base.finalizing_ (file_writer.base w) = 0 ->
  file_writer.task_ w = at_loop_head
  \/ (file_writer.task_ w = in_wait /\ file_writer.cond_ w = false /\ q = []) ->
  Z.of_nat (length q) < writer_base.max_buffers_ (file_writer.base w) ->
  file_writer.fsync_ w = true \/ q <> [] ->
  let w1 := snd (file_writer.finalize w h) in
  let w2 := fst (file_writer.run_worker (length q + 2) w1 pool) in
  fst (file_writer.finalize w h) = wait
  /\ aio_waitable.waiting_ (writer_base.waitable (file_writer.base w1))
     = aio_waitable.waiting_ (writer_base.waitable (file_writer.base w)) ++ [h]
  /\ writer_base.finalizing_ (file_writer.base w2) = 2
  /\ writer_base.error_ (file_writer.base w2) = false
  /\ writer_base.buffers_ (file_writer.base w2) = []
  /\ f_bytes (file_writer.file_ w2) = f_bytes (file_writer.file_ w) ++ queued_bytes q
  /\ writer_base.waitable (file_writer.base w2) = writer_base.waitable (file_writer.base w)
  /\ file_writer.task_ w2 = returned
  /\ file_writer.finalize w2 h = (ok, w2)
  /\ fst (file_writer.set_mtime w2 (Some time)) = true
  /\ f_mtime (file_writer.file_ (snd (file_writer.set_mtime w2 (Some time)))) = Some time.
Proof.
  intros q He Hq Ho Hio Hpos Hf Hstate Hlen Hwhy.
  assert (Hqdef : writer_base.buffers_ (file_writer.base w) = q) by reflexivity.
  clearbody q.
  destruct w as [b c k qt f s p o]; destruct b as [[ws hs] mx bufs e fin rep].
  cbn [file_writer.base file_writer.quit_ file_writer.file_ file_writer.task_ file_writer.cond_
       file_writer.fsync_ writer_base.error_ writer_base.finalizing_ writer_base.buffers_
       writer_base.max_buffers_ writer_base.waitable] in *.
  subst e qt fin bufs.
  set (w1 := file_writer.mk
               (writer_base.mk (aio_waitable.mk (ws ++ [h]) hs) mx q false 1 rep)
               (match q with [] => if s then true else c | _ :: _ => c end)
               k false f s p o).
  (* what finalize returns *)
  assert (Hfin : file_writer.finalize
                   (file_writer.mk (writer_base.mk (aio_waitable.mk ws hs) mx q false 0 rep)
                      c k false f s p o) h
                 = (wait, w1)).
  { unfold file_writer.finalize, file_writer.do_finalize, file_writer.continue_finalize.
    cbn; rewrite Ho; cbn.
    destruct q as [| b0 q]; destruct s; cbn; try reflexivity.
    destruct Hwhy as [H | H]; [ discriminate | contradiction ]. }
  cbv zeta; rewrite Hfin; cbn [fst snd].
  (* the worker reaches the head of its loop with the queue to write *)
  assert (Hhead : exists w1' n,
             (n <= 1)%nat
             /\ file_writer.run_worker n w1 pool = (w1', pool)
             /\ worker_writing w1'
             /\ file_writer.base w1' = file_writer.base w1
             /\ file_writer.file_ w1' = f).
  { destruct Hstate as [Ht | (Ht & Hc & Hempty)].
    - exists w1, 0%nat; cbn [file_writer.run_worker].
      split; [ lia | split; [ reflexivity | split; [ | split; reflexivity ] ] ].
      unfold worker_writing, w1; cbn; repeat split; assumption.
    - destruct Hwhy as [Hs | Hne]; [ | contradiction ].
      subst k c q s.
      exists (file_writer.set_task (file_writer.set_cond w1 false) at_loop_head), 1%nat.
      split; [ lia | split; [ reflexivity | split; [ | split; reflexivity ] ] ].
      unfold worker_writing; cbn; repeat split; assumption. }
  destruct Hhead as (w1' & n & Hn & Hrun1 & Hw1' & Hbase1 & Hfile1).
  (* the queue is written *)
  destruct (worker_drains q w1' pool Hw1') as
    (w2 & pool2 & Hrun2 & Hw2 & Hsame & Hb2 & Hbytes2 & Hwait2).
  { rewrite Hbase1; reflexivity. }
  assert (Hwt2 : writer_base.waitable (file_writer.base w2) = aio_waitable.mk (ws ++ [h]) hs).
  { rewrite Hwait2; rewrite Hbase1; [ reflexivity | exact Hlen ]. }
  destruct Hsame as (S1 & S2 & S3 & S4 & S5 & S6 & S7).
  rewrite Hbase1 in S1, S2; cbn in S1, S2.
  destruct (entry_step_finalizes w2 pool2 ws hs h Hw2 Hb2 S2 Hwt2) as [Hstep3 Hstep4].
  cbv zeta in Hstep3, Hstep4.
  set (w3 := file_writer.set_task _ returned) in *.
  (* the run as a whole *)
  assert (Hrun : file_writer.run_worker (length q + 2) w1 pool = (w3, pool2)).
  { apply (run_worker_done (n + (length q + 1))); [ | exact Hstep4 | lia ].
    rewrite run_worker_app, Hrun1; cbn [fst snd].
    rewrite run_worker_app, Hrun2; cbn [fst snd].
    cbn [file_writer.run_worker]; rewrite Hstep3; reflexivity. }
  rewrite Hrun; cbn [fst].
  destruct Hw2 as (T1 & T2 & T3 & T4 & T5 & T6).
  split; [ reflexivity | split; [ reflexivity | ] ].
  unfold w3; cbn [file_writer.set_task file_writer.set_base file_writer.base
                  file_writer.file_ file_writer.task_ writer_base.finalizing_
                  writer_base.error_ writer_base.buffers_ writer_base.waitable].
  split; [ reflexivity | split; [ reflexivity | split; [ reflexivity | ] ] ].
  split; [ rewrite Hbytes2, Hfile1; reflexivity | ].
  split; [ reflexivity | split; [ reflexivity | ] ].
  split; [ reflexivity | ].
  unfold file_writer.set_mtime, file_ops.set_modification_time; cbn; rewrite T4; cbn.
  split; reflexivity.
Qed.

Lemma finalize_completes_after_wait_witness :
  fst (file_writer.finalize new_file_writer_added 9) = wait
  /\ f_bytes (file_writer.file_
               (fst (file_writer.run_worker 3 (snd (file_writer.finalize new_file_writer_added 9))
                       small_pool)))
     = [Byte.x41; Byte.x42].
Proof.
  destruct (finalize_completes_after_wait new_file_writer_added small_pool 9 1)
    as (H1 & _ & _ & _ & _ & H2 & _).
  - reflexivity.
  - reflexivity.
  - reflexivity.
  - reflexivity.
  - reflexivity.
  - reflexivity.
  - left; reflexivity.
  - cbn; lia.
  - right; discriminate.
  - split; [ exact H1 | exact H2 ].
Defined.

(** X11. A write that fails ends the worker without a word: the turn sets
    the error flag and the worker returns, the buffer stays queued, the
    file is as it was, and nobody is notified, not even a caller that
    [add_buffer] or [finalize] told to wait. From then on [add_buffer]
    and [finalize] return [error]. *)
Theorem write_failure_is_latched (w : file_writer.t) (pool : aio_buffer_pool.t)
        (front : buffer_lease) (rest : list buffer_lease) (b : buffer_lease) (h : nat) :
  file_writer.task_ w = at_loop_head ->
  file_writer.quit_ w = false ->
  writer_base.error_ (file_writer.base w) = false ->
  writer_base.buffers_ (file_writer.base w) = front :: rest ->
  nb_bytes (lease_buffer front) <> [] ->
  f_open (file_writer.file_ w) && f_io_ok (file_writer.file_ w) = false ->
  exists w1,
    file_writer.entry_step w pool = Some (w1, pool, [])
    /\ writer_base.error_ (file_writer.base w1) = true
    /\ file_writer.task_ w1 = returned
    /\ writer_base.buffers_ (file_writer.base w1) = front :: rest
    /\ writer_base.waitable (file_writer.base w1) = writer_base.waitable (file_writer.base w)
    /\ file_writer.file_ w1 = file_writer.file_ w
    /\ file_writer.entry_step w1 pool = None
    /\ file_writer.add_buffer w1 b h = (error, w1, b)
    /\ file_writer.finalize w1 h = (error, w1).
Proof.
  intros Ht Hq He Hb Hne Hfail.
  exists (file_writer.set_task
            (file_writer.set_base w (writer_base.set_error (file_writer.base w) true))
            returned).
  unfold file_writer.entry_step at 1.
  rewrite Ht, Hq, He, Hb; cbn [orb].
  rewrite write_loop_once, Hfail.
  destruct (nb_bytes (lease_buffer front)); [ contradiction | ].
  repeat split; exact Hb.
Qed.

Lemma write_failure_is_latched_witness :
  exists w1,
    file_writer.entry_step failing_file_writer small_pool = Some (w1, small_pool, [])
    /\ aio_waitable.waiting_ (writer_base.waitable (file_writer.base w1)) = [7%nat]
    /\ file_writer.finalize w1 7 = (error, w1).
Proof.
  destruct (write_failure_is_latched failing_file_writer small_pool ab_lease [] ab_lease 7)
    as (w1 & H1 & _ & _ & _ & H2 & _ & _ & _ & H3).
  - reflexivity.
  - reflexivity.
  - reflexivity.
  - reflexivity.
  - discriminate.
  - reflexivity.
  - exists w1; split; [ exact H1 | split; [ rewrite H2; reflexivity | exact H3 ] ].
Defined.

(** X12. [add_buffer] on a writer whose queue is not full moves the lease to
    the back of the queue. It returns [ok] while the queue stays below the
    budget; when the lease fills the queue it returns [wait] and queues the
    caller, and the next turn of the worker, which takes a buffer off the
    full queue, notifies that caller. *)
Theorem add_buffer_waits_on_full_queue (w : file_writer.t) (pool : aio_buffer_pool.t)
        (b : buffer_lease) (h : nat) :
  let q := writer_base.buffers_ (file_writer.base w) in
  let budget := writer_base.max_buffers_ (file_writer.base w) in
  worker_writing w ->
  writer_base.nothing_to_add b = false ->
  Z.of_nat (length q) < budget ->
  let res := fst (fst (file_writer.add_buffer w b h)) in
  let w1 := snd (fst (file_writer.add_buffer w b h)) in
  snd (file_writer.add_buffer w b h) = empty_lease
  /\ writer_base.buffers_ (file_writer.base w1) = q ++ [b]
  /\ (Z.of_nat (length q) + 1 < budget ->
      res = ok
      /\ writer_base.waitable (file_writer.base w1) = writer_base.waitable (file_writer.base w))
  /\ (Z.of_nat (length q) + 1 = budget ->
      res = wait
      /\ aio_waitable.waiting_ (writer_base.waitable (file_writer.base w1))
         = aio_waitable.waiting_ (writer_base.waitable (file_writer.base w)) ++ [h]
      /\ exists w2 pool2,
           file_writer.entry_step w1 pool = Some (w2, pool2, [aio_waitable.waiter h])
           /\ Z.of_nat (length (writer_base.buffers_ (file_writer.base w2))) = budget - 1
           /\ writer_base.waitable (file_writer.base w2)
              = writer_base.waitable (file_writer.base w)).
Proof.
  intros q budget Hw Hb Hlen.
  assert (Hqdef : writer_base.buffers_ (file_writer.base w) = q) by reflexivity.
  assert (Hbdef : writer_base.max_buffers_ (file_writer.base w) = budget) by reflexivity.
  clearbody q budget.
  destruct Hw as (Ht & Hq & He & Ho & Hio & Hpos).
  destruct w as [bs c k qt f s p o]; destruct bs as [[ws hs] mx bufs e fin rep].
  cbn [file_writer.base file_writer.quit_ file_writer.file_ file_writer.task_ file_writer.cond_
       file_writer.fsync_ writer_base.error_ writer_base.finalizing_ writer_base.buffers_
       writer_base.max_buffers_ writer_base.waitable] in *.
  subst e qt k bufs mx.
  cbv zeta; unfold file_writer.add_buffer, file_writer.do_add_buffer.
  cbn [file_writer.base writer_base.error_ writer_base.buffers_ writer_base.max_buffers_].
  rewrite Hb.
  assert (Hlen1 : Z.of_nat (length (q ++ [b])) = Z.of_nat (length q) + 1).
  { rewrite length_app; cbn [length]; lia. }
  rewrite Hlen1.
  destruct (Z.geb_spec (Z.of_nat (length q) + 1) budget) as [Hfull | Hroom];
    cbn [fst snd].
  - (* the lease fills the queue *)
    assert (Efull : Z.of_nat (length q) + 1 = budget) by lia.
    split; [ reflexivity | split; [ destruct (_ =? 1); reflexivity | ] ].
    split; [ intros Hlt; lia | intros _ ].
    split; [ reflexivity | split; [ destruct (_ =? 1); reflexivity | ] ].
    set (w1 := file_writer.set_base _ _).
    assert (Hw1 : worker_writing w1).
    { unfold worker_writing, w1; destruct (_ =? 1); cbn; repeat split; assumption. }
    destruct (last_case q) as [Eq | (front & x & Eq)].
    + subst q.
      destruct (entry_step_writes w1 pool b [] Hw1) as
        (w2 & pool2 & who & Hstep & _ & _ & Hb2 & _ & Hwho & Hwt).
      { unfold w1; reflexivity. }
      exists w2, pool2.
      cbv zeta in Hwho, Hwt.
      assert (Hmax : writer_base.max_buffers_ (file_writer.base w1) = budget)
        by (unfold w1; reflexivity).
      assert (Hwait : writer_base.waitable (file_writer.base w1)
                      = aio_waitable.mk (ws ++ [h]) hs)
        by (unfold w1; reflexivity).
      rewrite Hmax, Hwait, signal_raw_waiter in Hwho, Hwt.
      cbn [length] in Hwho, Hwt, Efull.
      destruct (Z.eqb_spec (Z.of_nat 1) budget) as [_ | Hne]; [ | lia ].
      cbn [fst snd] in Hwho, Hwt.
      rewrite Hstep, Hwho, Hb2, Hwt; cbn [length].
      split; [ reflexivity | split; [ lia | reflexivity ] ].
    + subst q.
      destruct (entry_step_writes w1 pool
                  (hd b (front ++ [x] ++ [b])) (tl ((front ++ [x]) ++ [b])) Hw1) as
        (w2 & pool2 & who & Hstep & _ & _ & Hb2 & _ & Hwho & Hwt).
      { unfold w1; cbn [file_writer.base file_writer.set_base writer_base.buffers_
                        writer_base.add_waiter writer_base.set_waitable
                        file_writer.wakeup file_writer.set_cond].
        destruct (_ =? 1); cbn [file_writer.base file_writer.set_base writer_base.buffers_
                                file_writer.wakeup file_writer.set_cond];
          destruct front; reflexivity. }
      exists w2, pool2.
      cbv zeta in Hwho, Hwt.
      assert (Hmax : writer_base.max_buffers_ (file_writer.base w1) = budget)
        by (unfold w1; destruct (_ =? 1); reflexivity).
      assert (Hwait : writer_base.waitable (file_writer.base w1)
                      = aio_waitable.mk (ws ++ [h]) hs)
        by (unfold w1; destruct (_ =? 1); reflexivity).
      rewrite Hmax, Hwait, signal_raw_waiter in Hwho, Hwt.
      assert (Hcount : Z.of_nat (length (hd b (front ++ [x] ++ [b])
                                          :: tl ((front ++ [x]) ++ [b]))) = budget).
      { destruct front; cbn [hd tl app length] in *;
          rewrite ?length_app in *; cbn [length] in *; lia. }
      rewrite Hcount, Z.eqb_refl in Hwho, Hwt.
      cbn [fst snd] in Hwho, Hwt.
      rewrite Hstep, Hwho, Hb2, Hwt.
      split; [ reflexivity | split; [ | reflexivity ] ].
      destruct front; cbn [hd tl app length] in *;
        rewrite ?length_app in *; cbn [length] in *; lia.
  - split; [ reflexivity | split; [ destruct (_ =? 1); reflexivity | ] ].
    split; [ intros _; split; [ reflexivity | destruct (_ =? 1); reflexivity ] | ].
    intros Hfull; lia.
Qed.

Lemma add_buffer_waits_on_full_queue_witness :
  fst (fst (file_writer.add_buffer new_file_writer ab_lease 7)) = ok
  /\ writer_base.buffers_ (file_writer.base new_file_writer_added) = [ab_lease].
Proof.
  destruct (add_buffer_waits_on_full_queue new_file_writer small_pool ab_lease 7)
    as (_ & H2 & H3 & _).
  - unfold worker_writing; repeat split.
  - reflexivity.
  - cbn; lia.
  - split; [ apply H3; cbn; lia | exact H2 ].
Defined.

(** X13. [preallocate(size)] on a writer that was neither fed nor finalized
    makes the file end [size] bytes behind the position, keeps the position
    and what lies before it, and marks the writer as preallocated. When
    such a writer is closed, the part that was not written is given back:
    the file ends at the position. At position 0 without finalize the file
    is deleted instead. *)
Theorem preallocate_reserves_until_close (w : file_writer.t) (pool : aio_buffer_pool.t)
        (size : Z) :
  let f := file_writer.file_ w in
  writer_base.error_ (file_writer.base w) = false ->
  writer_base.buffers_ (file_writer.base w) = [] ->
  writer_base.finalizing_ (file_writer.base w) = 0 ->
  f_open f = true ->
  0 <= f_pos f <= file_ops.len f ->
  0 <= size ->
  f_pos f + size < 2 ^ 63 ->
  let w1 := snd (file_writer.preallocate w size) in
  let w2 := fst (file_writer.close w1 pool) in
  fst (file_writer.preallocate w size) = ok
  /\ file_writer.preallocated_ w1 = true
  /\ f_pos (file_writer.file_ w1) = f_pos f
  /\ file_ops.len (file_writer.file_ w1) = f_pos f + size
  /\ firstn (Z.to_nat (f_pos f)) (f_bytes (file_writer.file_ w1))
     = firstn (Z.to_nat (f_pos f)) (f_bytes f)
  /\ (0 < f_pos f ->
      file_writer.on_disk w2 = file_writer.on_disk w
      /\ f_bytes (file_writer.file_ w2) = firstn (Z.to_nat (f_pos f)) (f_bytes f))
  /\ (f_pos f = 0 -> file_writer.on_disk w2 = false).
Proof.
  intros f He Hb Hf Ho Hpos Hsize Hfit.
  assert (Hfdef : file_writer.file_ w = f) by reflexivity; clearbody f.
  destruct w as [bs c k qt f0 s p o]; cbn [file_writer.file_ file_writer.base] in *; subst f0.
  destruct f as [fo bytes pos known io mt];
    cbn [f_open f_pos f_bytes] in *; unfold file_ops.len in *; cbn [f_bytes] in *; subst fo.
  set (kept := firstn (Z.to_nat (pos + size)) bytes).
  set (bytes1 := kept ++ repeat Byte.x00 (Z.to_nat (pos + size) - length kept)).
  assert (Hpre : file_writer.preallocate
                   (file_writer.mk bs c k qt (mk_file true bytes pos known io mt) s p o) size
                 = (ok, file_writer.mk bs c k qt (mk_file true bytes1 pos known io mt) s true o)).
  { unfold file_writer.preallocate, file_ops.position, file_ops.seek, file_ops.truncate.
    cbn [file_writer.base file_writer.file_ f_open f_pos f_bytes andb].
    rewrite He, Hb, Hf; cbn [orb negb Z.eqb].
    destruct (Z.ltb_spec pos 0) as [E | _]; [ lia | ].
    assert (Hcast : to_int64 (wrap (pos + size)) = pos + size).
    { rewrite wrap_small by (unfold modulus; lia).
      unfold to_int64; destruct (Z.ltb_spec (pos + size) (2 ^ 63)); [ reflexivity | lia ]. }
    rewrite Hcast.
    destruct (Z.leb_spec 0 (pos + size)) as [_ | E]; [ | lia ].
    rewrite Z.eqb_refl; cbn [snd f_open f_pos f_bytes andb].
    destruct (Z.leb_spec 0 pos) as [_ | E]; [ | lia ].
    rewrite Z.eqb_refl; cbn [negb].
    reflexivity. }
  assert (Hkept : length kept = Nat.min (Z.to_nat (pos + size)) (length bytes))
    by (unfold kept; apply length_firstn).
  assert (Hlen1 : Z.of_nat (length bytes1) = pos + size).
  { unfold bytes1; rewrite length_app, repeat_length; lia. }
  assert (Hfirst : firstn (Z.to_nat pos) bytes1 = firstn (Z.to_nat pos) bytes).
  { unfold bytes1; rewrite firstn_app.
    replace (Z.to_nat pos - length kept)%nat with 0%nat by lia.
    cbn [firstn]; rewrite app_nil_r.
    unfold kept; rewrite firstn_firstn.
    f_equal; lia. }
  cbv zeta; rewrite Hpre; cbn [fst snd file_writer.preallocated_ file_writer.file_ f_pos f_bytes].
  split; [ reflexivity | split; [ reflexivity | split; [ reflexivity | ] ] ].
  split; [ exact Hlen1 | split; [ exact Hfirst | ] ].
  set (w1 := file_writer.mk bs c k qt (mk_file true bytes1 pos known io mt) s true o).
  destruct (close_is_do_close w1 pool) as [C1 C2]; rewrite C1, C2.
  destruct (do_close_effect w1 eq_refl) as (D1 & _ & D3).
  cbv zeta in D1, D3; rewrite D1, D3.
  unfold w1; cbn [file_writer.base file_writer.file_ file_writer.preallocated_
                  file_writer.on_disk f_pos].
  rewrite Hf; cbn [Z.eqb andb].
  split.
  - intros Hpos0.
    destruct (Z.eqb_spec pos 0) as [E | _]; [ lia | ].
    cbn [negb andb]; split; [ reflexivity | ].
    destruct (truncate_at_position (mk_file true bytes1 pos known io mt) eq_refl)
      as (_ & _ & T); [ cbn; lia | ].
    cbn [f_pos f_bytes] in T; rewrite T by lia.
    exact Hfirst.
  - intros ->; reflexivity.
Qed.

Lemma preallocate_reserves_until_close_witness :
  f_bytes (file_writer.file_ (snd (file_writer.preallocate abc_file_writer 2)))
  = [Byte.x41; Byte.x42; Byte.x43; Byte.x00; Byte.x00]
  /\ f_bytes (file_writer.file_
                (fst (file_writer.close (snd (file_writer.preallocate abc_file_writer 2))
                        small_pool)))
     = [Byte.x41; Byte.x42; Byte.x43].
Proof.
  destruct (preallocate_reserves_until_close abc_file_writer small_pool 2)
    as (_ & _ & _ & _ & _ & H & _).
  - reflexivity.
  - reflexivity.
  - reflexivity.
  - reflexivity.
  - cbn; lia.
  - lia.
  - cbn; lia.
  - split; [ reflexivity | apply H; cbn; lia ].
Defined.

(** ** The file reader and its worker (reader.cpp) *)

Lemma firstn_plus {A : Type} (n m : nat) (l : list A) :
  firstn (n + m) l = firstn n l ++ firstn m (skipn n l).
Proof.
  revert l; induction n as [| n IH]; intros l; [ reflexivity | ].
  destruct l as [| a l]; cbn [Nat.add firstn skipn app].
  - destruct m; reflexivity.
  - rewrite IH; reflexivity.
Qed.

Lemma skipn_plus {A : Type} (n m : nat) (l : list A) :
  skipn (n + m) l = skipn m (skipn n l).
Proof.
  revert l; induction n as [| n IH]; intros l; [ reflexivity | ].
  destruct l as [| a l]; cbn [Nat.add skipn]; [ destruct m; reflexivity | apply IH ].
Qed.

Lemma bytes_between_app (l : list byte) (a b c : Z) :
  0 <= a <= b -> b <= c ->
  bytes_between l a b ++ bytes_between l b c = bytes_between l a c.
Proof.
  intros Hab Hbc; unfold bytes_between.
  replace (Z.to_nat (c - a)) with (Z.to_nat (b - a) + Z.to_nat (c - b))%nat by lia.
  rewrite firstn_plus; f_equal.
  rewrite <- skipn_plus; do 2 f_equal; lia.
Qed.

Lemma bytes_between_nil (l : list byte) (a : Z) : bytes_between l a a = [].
Proof. unfold bytes_between; rewrite Z.sub_diag; reflexivity. Qed.

Lemma firstn_length_firstn {A : Type} (n : nat) (l : list A) :
  firstn (length (firstn n l)) l = firstn n l.
Proof.
  rewrite length_firstn.
  destruct (Nat.le_ge_cases n (length l)) as [H | H].
  - rewrite Nat.min_l by assumption; reflexivity.
  - rewrite Nat.min_r by assumption.
    rewrite firstn_all, firstn_all2 by assumption; reflexivity.
Qed.

(** A read that succeeds gives what lies between the positions before and
    after it; it gives nothing only at the end of the file. *)
Lemma read_between (f : file) (n : Z) :
  f_open f && f_io_ok f = true -> 0 <= f_pos f -> 0 < n ->
  exists r got,
    file_ops.read f n
    = (r, got, mk_file (f_open f) (f_bytes f) (f_pos f + r) (f_size_known f) (f_io_ok f)
                       (f_mtime f))
    /\ 0 <= r <= n
    /\ got = bytes_between (f_bytes f) (f_pos f) (f_pos f + r)
    /\ (r = 0 -> file_ops.len f <= f_pos f).
Proof.
  intros Hok Hpos Hn; unfold file_ops.read; rewrite Hok.
  set (X := skipn (Z.to_nat (f_pos f)) (f_bytes f)).
  exists (Z.of_nat (length (firstn (Z.to_nat n) X))), (firstn (Z.to_nat n) X).
  split; [ reflexivity | ].
  pose proof (length_firstn (Z.to_nat n) X) as Hlen.
  split; [ lia | split ].
  - unfold bytes_between; fold X.
    replace (f_pos f + Z.of_nat (length (firstn (Z.to_nat n) X)) - f_pos f)
      with (Z.of_nat (length (firstn (Z.to_nat n) X))) by lia.
    rewrite Nat2Z.id, firstn_length_firstn; reflexivity.
  - intros H0.
    assert (HX : length X = 0%nat) by lia.
    unfold X in HX; rewrite length_skipn in HX.
    unfold file_ops.len; lia.
Qed.

(** The inner loop of the worker of a file reader: the buffer gets what
    lies between the positions of the file before and after the loop. *)
Lemma read_loop_spec (fuel : nat) :
  forall (f : file) (b : nonowning_buffer) (rem : Z) (err eof : bool)
         (f1 : file) (b1 : nonowning_buffer) (rem1 : Z) (err1 eof1 : bool),
    file_reader.read_loop fuel f b rem err eof = (f1, b1, rem1, err1, eof1) ->
    0 <= f_pos f -> 0 <= rem <= nosize -> 0 <= nb_capacity b < modulus ->
    f_bytes f1 = f_bytes f
    /\ f_pos f <= f_pos f1
    /\ nb_bytes b1 = nb_bytes b ++ bytes_between (f_bytes f) (f_pos f) (f_pos f1)
    /\ (if rem =? nosize then rem1 = nosize
        else rem1 = rem - (f_pos f1 - f_pos f) /\ 0 <= rem1)
    /\ (eof1 = true ->
        eof = true \/ rem1 = 0 \/ (rem1 = nosize /\ file_ops.len f1 <= f_pos f1)).
Proof.
  induction fuel as [| fuel IH]; intros f b rem err eof f1 b1 rem1 err1 eof1 Hrun Hpos Hrem Hcap.
  { cbn in Hrun; inversion Hrun; subst; clear Hrun.
    rewrite bytes_between_nil, app_nil_r, Z.sub_diag, Z.sub_0_r.
    repeat split; try lia; [ destruct (Z.eqb_spec rem1 nosize); lia | auto ]. }
  cbn [file_reader.read_loop] in Hrun.
  assert (Hstay : (f, b, rem, err, eof) = (f1, b1, rem1, err1, eof1) ->
                  f_bytes f1 = f_bytes f
                  /\ f_pos f <= f_pos f1
                  /\ nb_bytes b1 = nb_bytes b ++ bytes_between (f_bytes f) (f_pos f) (f_pos f1)
                  /\ (if rem =? nosize then rem1 = nosize
                      else rem1 = rem - (f_pos f1 - f_pos f) /\ 0 <= rem1)
                  /\ (eof1 = true ->
                      eof = true \/ rem1 = 0
                      \/ (rem1 = nosize /\ file_ops.len f1 <= f_pos f1))).
  { intros H; inversion H; subst; clear H.
    rewrite bytes_between_nil, app_nil_r, Z.sub_diag, Z.sub_0_r.
    repeat split; try lia; [ destruct (Z.eqb_spec rem1 nosize); lia | auto ]. }
  unfold nonowning_buffer_ops.size in Hrun.
  destruct (Z.ltb_spec (Z.of_nat (length (nb_bytes b))) (nb_capacity b)) as [Hroom | Hfull];
    [ | exact (Hstay Hrun) ].
  rewrite (wrap_small (nb_capacity b - Z.of_nat (length (nb_bytes b)))) in Hrun by lia.
  set (room := nb_capacity b - Z.of_nat (length (nb_bytes b))) in *.
  set (to_read := if negb (rem =? nosize) && (room >? rem) then rem else room) in *.
  assert (Hto : 0 <= to_read /\ (rem <> nosize -> to_read <= rem)
                /\ (to_read = 0 -> rem = 0)).
  { unfold to_read.
    destruct (Z.eqb_spec rem nosize) as [E | E]; cbn [negb andb]; [ lia | ].
    destruct (Z.gtb_spec room rem); lia. }
  destruct Hto as (Hto0 & Htorem & Htozero).
  destruct (Z.eqb_spec to_read 0) as [Ezero | Enz].
  - (* nothing to read: the end of the range *)
    cbn [Z.ltb Z.eqb Z.compare] in Hrun.
    assert (E0 : rem = 0) by auto.
    rewrite E0 in Hrun; cbn [Z.eqb negb andb] in Hrun.
    inversion Hrun; subst; clear Hrun.
    rewrite bytes_between_nil, app_nil_r, Z.sub_diag.
    repeat split; try lia; auto.
  - destruct (f_open f && f_io_ok f) eqn:Hok.
    + destruct (read_between f to_read Hok Hpos ltac:(lia))
        as (r & got & Hread & Hr & Hgot & Hend).
      rewrite Hread in Hrun.
      destruct (Z.ltb_spec r 0) as [Hneg | _]; [ lia | ].
      destruct (Z.eqb_spec r 0) as [Er | Er].
      * (* the end of the file *)
        subst r.
        destruct (negb (rem =? 0) && negb (rem =? nosize)) eqn:Hshort;
          inversion Hrun; subst; clear Hrun; cbn [f_bytes f_pos];
          rewrite Z.add_0_r, bytes_between_nil, app_nil_r, Z.sub_diag, Z.sub_0_r;
          (repeat split; try lia; [ destruct (Z.eqb_spec rem1 nosize); lia | ]).
        -- auto.
        -- intros _.
           destruct (Z.eqb_spec rem1 0) as [E | E]; [ auto | ].
           destruct (Z.eqb_spec rem1 nosize) as [E' | E']; [ | discriminate Hshort ].
           right; right; split; [ exact E' | ].
           unfold file_ops.len in *; cbn [f_bytes]; auto.
      * (* some bytes were read *)
        set (f2 := mk_file (f_open f) (f_bytes f) (f_pos f + r) (f_size_known f)
                           (f_io_ok f) (f_mtime f)) in *.
        set (rem2 := if negb (rem =? nosize) then wrap (rem - r) else rem) in *.
        assert (Hrem2 : 0 <= rem2 <= nosize
                        /\ (if rem =? nosize then rem2 = nosize else rem2 = rem - r)
                        /\ (rem2 =? nosize) = (rem =? nosize)).
        { unfold rem2.
          destruct (Z.eqb_spec rem nosize) as [E | E]; cbn [negb].
          - subst rem; split; [ lia | split; reflexivity ].
          - specialize (Htorem E).
            rewrite wrap_small by (unfold nosize in *; lia).
            split; [ lia | split; [ reflexivity | ] ].
            apply Z.eqb_neq; lia. }
        destruct Hrem2 as (Hrange2 & Hval2 & Hsame2).
        destruct (IH f2 (nonowning_buffer_ops.append b got) rem2 err eof
                     f1 b1 rem1 err1 eof1 Hrun) as (I1 & I2 & I3 & I4 & I5).
        -- cbn; lia.
        -- exact Hrange2.
        -- exact Hcap.
        -- cbn [f2 f_bytes f_pos nonowning_buffer_ops.append nb_bytes] in I1, I2, I3.
           split; [ exact I1 | split; [ lia | split; [ | split ] ] ].
           ++ rewrite I3, Hgot, <- app_assoc; f_equal.
              apply bytes_between_app; lia.
           ++ rewrite Hsame2 in I4.
              destruct (rem =? nosize); [ exact I4 | ].
              cbn [f2 f_pos] in I4; lia.
           ++ exact I5.
    + (* the read fails *)
      unfold file_ops.read in Hrun; rewrite Hok in Hrun.
      cbn [Z.ltb Z.compare] in Hrun.
      inversion Hrun; subst; clear Hrun.
      rewrite bytes_between_nil, app_nil_r, Z.sub_diag, Z.sub_0_r.
      repeat split; try lia; [ destruct (Z.eqb_spec rem1 nosize); lia | auto ].
Qed.

Lemma notified_keeps (r : file_reader.t) (who : aio_waitable.signalled) :
  file_reader.base (file_reader.notified r who) = file_reader.base r
  /\ file_reader.file_ (file_reader.notified r who) = file_reader.file_ r.
Proof.
  unfold file_reader.notified; destruct who as [| h | h]; try (split; reflexivity).
  destruct (Nat.eqb h (reader_base.self (file_reader.base r))); split; reflexivity.
Qed.

Lemma cond_wait_keeps (r : file_reader.t) :
  file_reader.base (file_reader.cond_wait r) = file_reader.base r
  /\ file_reader.file_ (file_reader.cond_wait r) = file_reader.file_ r.
Proof.
  unfold file_reader.cond_wait; destruct (threaded_reader.cond_ (file_reader.tr r));
    split; reflexivity.
Qed.

(** The lease a clean pool hands out is on an empty buffer with a
    capacity. *)
Lemma clean_pool_lease (pool : aio_buffer_pool.t) (h : nat) :
  pool_clean pool ->
  let lease := fst (aio_buffer_pool.get_buffer pool h) in
  lease_pool lease = true ->
  nb_bytes (lease_buffer lease) = [] /\ 0 < nb_capacity (lease_buffer lease) < modulus.
Proof.
  intros Hclean; cbv zeta; unfold aio_buffer_pool.get_buffer.
  destruct (rev (aio_buffer_pool.buffers_ pool)) as [| b front] eqn:E; cbn [fst lease_pool];
    [ discriminate | intros _ ].
  unfold pool_clean in Hclean; rewrite Forall_forall in Hclean.
  apply (Hclean b).
  apply in_rev; rewrite E; left; reflexivity.
Qed.

(** [get_buffer] hands out the front of the queue and leaves the file and
    the state of the reading alone. *)
Lemma reader_get_buffer_effect (r r1 : file_reader.t) (h : nat) (res : aio_result)
      (b : buffer_lease) :
  file_reader.get_buffer r h = (res, b, r1) ->
  file_reader.file_ r1 = file_reader.file_ r
  /\ reader_base.remaining_ (file_reader.base r1) = reader_base.remaining_ (file_reader.base r)
  /\ reader_base.eof_ (file_reader.base r1) = reader_base.eof_ (file_reader.base r)
  /\ reader_base.error_ (file_reader.base r1) = reader_base.error_ (file_reader.base r)
  /\ ((reader_base.buffers_ (file_reader.base r) = []
       /\ reader_base.buffers_ (file_reader.base r1) = []
       /\ b = empty_lease
       /\ res = (if reader_base.error_ (file_reader.base r) then error
                 else if reader_base.eof_ (file_reader.base r) then ok else wait))
      \/ (reader_base.buffers_ (file_reader.base r)
          = b :: reader_base.buffers_ (file_reader.base r1)
          /\ res = ok)).
Proof.
  unfold file_reader.get_buffer, threaded_reader.get_buffer, threaded_reader.do_get_buffer.
  destruct r as [[bs c k q] f s]; destruct bs as [self wt mx bufs sz msz st rem g e eof].
  cbn [file_reader.tr threaded_reader.base reader_base.buffers_ reader_base.error_
       reader_base.eof_ file_reader.file_ file_reader.can_spawn file_reader.base].
  destruct bufs as [| front rest].
  - destruct e; [ | destruct eof ]; intros H; inversion H; subst; clear H; cbn;
      repeat split; left; repeat split.
  - cbn [reader_base.max_buffers_ reader_base.buffers_].
    destruct (_ =? mx);
      intros H; inversion H; subst; clear H; cbn; repeat split; right; split; reflexivity.
Qed.

(** A turn of the worker keeps what was delivered and what is queued in
    step with the position of the file. *)
Lemma reader_entry_step_holds (r0 r r1 : file_reader.t) (delivered : list byte)
      (pool pool1 : aio_buffer_pool.t) (who : list aio_waitable.signalled) :
  pool_clean pool ->
  0 <= f_pos (file_reader.file_ r0) ->
  0 <= reader_base.remaining_ (file_reader.base r0) <= nosize ->
  file_reader.entry_step r pool = Some (r1, pool1, who) ->
  file_reader_holds r0 r delivered ->
  file_reader_holds r0 r1 delivered.
Proof.
  intros Hclean Hpos0 Hrem0 Hstep (J1 & J2 & J3 & J4 & J5 & J6); cbv zeta in *.
  revert Hstep; unfold file_reader.entry_step.
  destruct (threaded_reader.task_ (file_reader.tr r)); try discriminate.
  - (* at the loop head *)
    destruct (threaded_reader.quit_ (file_reader.tr r)
              || reader_base.error_ (file_reader.base r)).
    { intros H; inversion H; subst; clear H.
      unfold file_reader_holds; cbn; repeat split; assumption. }
    destruct (Z.of_nat (length (reader_base.buffers_ (file_reader.base r)))
              =? reader_base.max_buffers_ (file_reader.base r)).
    { intros H; inversion H; subst; clear H.
      destruct (cond_wait_keeps r) as [E1 E2].
      unfold file_reader_holds; rewrite E1, E2; repeat split; assumption. }
    pose proof (clean_pool_lease pool (reader_base.self (file_reader.base r)) Hclean) as Hlease.
    cbv zeta in Hlease.
    destruct (aio_buffer_pool.get_buffer pool (reader_base.self (file_reader.base r)))
      as [lease pool2].
    cbn [fst] in Hlease.
    destruct (lease_pool lease) eqn:Hreal; cbn [negb].
    2:{ intros H; inversion H; subst; clear H.
        destruct (cond_wait_keeps r) as [E1 E2].
        unfold file_reader_holds; rewrite E1, E2; repeat split; assumption. }
    destruct (Hlease eq_refl) as [Hempty Hcap].
    destruct (file_reader.read_loop _ _ _ _ _ _) as [[[[f1 buf] rem1] err1] eof1] eqn:Hloop.
    assert (Hrem : 0 <= reader_base.remaining_ (file_reader.base r) <= nosize).
    { destruct (Z.eqb_spec (reader_base.remaining_ (file_reader.base r0)) nosize);
        unfold nosize in *; lia. }
    destruct (read_loop_spec _ _ _ _ _ _ _ _ _ _ _ Hloop) as (R1 & R2 & R3 & R4 & R5);
      [ lia | exact Hrem | lia | ].
    rewrite Hempty in R3; cbn [app] in R3.
    repeat match goal with
           | |- context [let (_, _) := ?x in _] => destruct x
           end.
    intros H; inversion H; subst; clear H.
    match goal with
    | |- file_reader_holds _ (file_reader.notified ?x ?w) _ =>
        destruct (notified_keeps x w) as [E1 E2]; unfold file_reader_holds; rewrite E1, E2
    end.
    cbn [file_reader.base file_reader.file_ file_reader.tr threaded_reader.base
         reader_base.buffers_ reader_base.remaining_ reader_base.eof_].
    assert (Hq : queued_bytes
                   (if negb (nonowning_buffer_ops.empty buf)
                    then reader_base.buffers_ (file_reader.base r) ++ [mk_lease buf true]
                    else reader_base.buffers_ (file_reader.base r))
                 = queued_bytes (reader_base.buffers_ (file_reader.base r)) ++ nb_bytes buf).
    { unfold nonowning_buffer_ops.empty, nonowning_buffer_ops.size.
      destruct (Z.eqb_spec (Z.of_nat (length (nb_bytes buf))) 0) as [E | E]; cbn [negb].
      - destruct (nb_bytes buf); [ rewrite app_nil_r; reflexivity | cbn in E; lia ].
      - rewrite queued_bytes_app; cbn; rewrite app_nil_r; reflexivity. }
    split; [ congruence | split; [ lia | split; [ | split; [ | split ] ] ] ].
    + rewrite Hq, app_assoc, J3, R3, J1.
      apply bytes_between_app; lia.
    + destruct (Z.eqb_spec (reader_base.remaining_ (file_reader.base r0)) nosize) as [E | E].
      * rewrite J4 in R4; rewrite Z.eqb_refl in R4; exact R4.
      * destruct J4 as [J4 J4'].
        destruct (Z.eqb_spec (reader_base.remaining_ (file_reader.base r)) nosize) as [E' | E'].
        -- unfold nosize in *; lia.
        -- lia.
    + intros Heof; destruct (R5 Heof) as [H | H]; [ | exact H ].
      destruct (J5 H) as [H0 | [Hn Hend]].
      * (* nothing remained: the loop read nothing *)
        rewrite H0 in R4.
        destruct (Z.eqb_spec 0 nosize) as [E | _]; [ discriminate E | ].
        left; lia.
      * rewrite Hn, Z.eqb_refl in R4.
        right; split; [ exact R4 | ].
        unfold file_ops.len in *; rewrite R1; lia.
    + destruct (negb (nonowning_buffer_ops.empty buf)); [ | exact J6 ].
      apply Forall_app; split; [ exact J6 | repeat constructor ].
  - (* asleep *)
    destruct (threaded_reader.cond_ (file_reader.tr r)); [ | discriminate ].
    intros H; inversion H; subst; clear H.
    unfold file_reader_holds; cbn; repeat split; assumption.
Qed.

(** The invariant of reading without another seek. *)
Lemma file_reader_invariant (r0 r : file_reader.t) (delivered : list byte) :
  file_reader_positioned r0 ->
  file_reader_read r0 r delivered ->
  file_reader_holds r0 r delivered.
Proof.
  intros (P1 & P2 & P3 & P4) Hread.
  induction Hread as
      [ | r r1 delivered h res b Hread IH Hget
        | r r1 delivered pool pool1 who Hread IH Hclean Hstep ].
  - unfold file_reader_holds; rewrite P1, P4, bytes_between_nil.
    split; [ reflexivity | split; [ lia | split; [ reflexivity | split; [ | split ] ] ] ].
    + destruct (Z.eqb_spec (reader_base.remaining_ (file_reader.base r0)) nosize); lia.
    + intros H; left; apply Z.eqb_eq; exact H.
    + constructor.
  - destruct IH as (J1 & J2 & J3 & J4 & J5 & J6); cbv zeta in *.
    destruct (reader_get_buffer_effect _ _ _ _ _ Hget) as (E1 & E2 & E3 & E4 & Hq).
    unfold file_reader_holds; rewrite E1, E2, E3.
    split; [ exact J1 | split; [ exact J2 | split; [ | split; [ exact J4 | split ] ] ] ].
    + rewrite <- J3.
      destruct Hq as [(Q1 & Q2 & Q3 & _) | (Q1 & _)].
      * rewrite Q1, Q2, Q3; cbn; rewrite app_nil_r; reflexivity.
      * rewrite Q1, <- app_assoc; reflexivity.
    + exact J5.
    + destruct Hq as [(Q1 & Q2 & _) | (Q1 & _)].
      * rewrite Q2; constructor.
      * rewrite Q1 in J6; inversion J6; assumption.
  - exact (reader_entry_step_holds r0 r r1 delivered pool pool1 who Hclean P2 P3 Hstep IH).
Qed.

(** When [get_buffer] reports the end, all of the range was delivered. *)
Lemma reader_eof_delivered (r0 r r1 : file_reader.t) (delivered : list byte) (h : nat)
      (b : buffer_lease) :
  0 <= f_pos (file_reader.file_ r0) ->
  0 <= reader_base.remaining_ (file_reader.base r0) <= nosize ->
  file_reader_holds r0 r delivered ->
  file_reader.get_buffer r h = (ok, b, r1) ->
  lease_pool b = false ->
  delivered
  = if reader_base.remaining_ (file_reader.base r0) =? nosize
    then skipn (Z.to_nat (f_pos (file_reader.file_ r0))) (f_bytes (file_reader.file_ r0))
    else bytes_between (f_bytes (file_reader.file_ r0)) (f_pos (file_reader.file_ r0))
           (f_pos (file_reader.file_ r0) + reader_base.remaining_ (file_reader.base r0)).
Proof.
  intros Hpos0 Hrem0 (J1 & J2 & J3 & J4 & J5 & J6) Hget Hend; cbv zeta in *.
  destruct (reader_get_buffer_effect _ _ _ _ _ Hget) as (_ & _ & _ & _ & Hq).
  destruct Hq as [(Q1 & _ & _ & Q4) | (Q1 & _)].
  2:{ rewrite Q1 in J6; inversion J6; congruence. }
  rewrite Q1 in J3; cbn in J3; rewrite app_nil_r in J3.
  destruct (reader_base.error_ (file_reader.base r)); [ discriminate | ].
  destruct (reader_base.eof_ (file_reader.base r)); [ | discriminate ].
  specialize (J5 eq_refl).
  destruct (Z.eqb_spec (reader_base.remaining_ (file_reader.base r0)) nosize) as [E | E].
  - destruct J5 as [H0 | [_ Hlen]]; [ rewrite J4 in H0; discriminate H0 | ].
    rewrite J3; unfold bytes_between; apply firstn_all2.
    unfold file_ops.len in Hlen; rewrite J1 in Hlen.
    rewrite length_skipn; lia.
  - destruct J4 as [J4 J4'].
    destruct J5 as [H0 | [Hn _]].
    + rewrite J3; f_equal; lia.
    + unfold nosize in *; lia.
Qed.

(** X14. A file reader delivers the bytes of its file in order and none
    twice, however the calls of [get_buffer] and the turns of the worker
    interleave. From a reader that was just positioned on: what the leases
    held, followed by what is queued, is what the file holds between the
    first position and the current one; the reader never reads past its
    size; and when [get_buffer] returns [ok] without a buffer, everything
    was delivered: the whole range of the size, or without a size the
    file to its end. *)
Theorem file_reader_delivers_in_order (r0 r : file_reader.t) (delivered : list byte) :
  file_reader_positioned r0 ->
  file_reader_read r0 r delivered ->
  let bytes := f_bytes (file_reader.file_ r0) in
  let start := f_pos (file_reader.file_ r0) in
  let size := reader_base.remaining_ (file_reader.base r0) in
  delivered ++ queued_bytes (reader_base.buffers_ (file_reader.base r))
  = bytes_between bytes start (f_pos (file_reader.file_ r))
  /\ start <= f_pos (file_reader.file_ r)
  /\ (size <> nosize -> f_pos (file_reader.file_ r) <= start + size)
  /\ (forall h b r1,
        file_reader.get_buffer r h = (ok, b, r1) -> lease_pool b = false ->
        delivered = if size =? nosize then skipn (Z.to_nat start) bytes
                    else bytes_between bytes start (start + size)).
Proof.
  intros Hpos Hread bytes start size.
  pose proof (file_reader_invariant r0 r delivered Hpos Hread) as Hinv.
  destruct Hpos as (P1 & P2 & P3 & P4).
  pose proof Hinv as (J1 & J2 & J3 & J4 & J5 & J6); cbv zeta in *.
  split; [ exact J3 | split; [ exact J2 | split ] ].
  - intros Hsize; fold size in J4.
    destruct (Z.eqb_spec size nosize); [ contradiction | ].
    unfold start; lia.
  - intros h b r1 Hget Hend.
    exact (reader_eof_delivered r0 r r1 delivered h b P2 P3 Hinv Hget Hend).
Qed.

(** What [file_reader_factory::open] makes of a file: a reader that is
    positioned at the offset, with the size asked for, or else what the
    file has behind the offset, to read. *)
Lemma file_reader_open_state (self : nat) (pool pool1 : aio_buffer_pool.t) (f : file)
      (can_spawn : bool) (offset size max_buffers : Z) (r0 : file_reader.t) :
  file_reader.factory_open self pool f can_spawn offset size max_buffers = (Some r0, pool1) ->
  0 <= offset < 2 ^ 63 -> 0 <= size <= nosize ->
  file_ops.len f < 2 ^ 63 -> offset <= file_ops.len f ->
  reader_base.buffers_ (file_reader.base r0) = []
  /\ f_pos (file_reader.file_ r0) = offset
  /\ f_bytes (file_reader.file_ r0) = f_bytes f
  /\ reader_base.remaining_ (file_reader.base r0)
     = (if size =? nosize
        then if f_size_known f then file_ops.len f - offset else nosize
        else size)
  /\ reader_base.eof_ (file_reader.base r0)
     = (reader_base.remaining_ (file_reader.base r0) =? 0)
  /\ (size <> nosize -> f_size_known f = true -> offset + size <= file_ops.len f).
Proof.
  intros Hopen Hoff Hsize Hlen Hle.
  unfold file_reader.factory_open in Hopen.
  destruct (f_open f) eqn:Ho; cbn [negb] in Hopen; [ | discriminate ].
  destruct (file_reader.construct self pool f can_spawn offset size
              (if max_buffers =? 0 then 4 else max_buffers)) as [r p] eqn:Hc.
  destruct (reader_base.error (file_reader.base r)) eqn:He; inversion Hopen; subst; clear Hopen.
  unfold file_reader.construct in Hc; rewrite Ho in Hc.
  set (mb := if max_buffers =? 0 then 4 else max_buffers) in *.
  unfold file_ops.size in Hc; rewrite Ho in Hc; cbn [andb] in Hc.
  assert (Hoffn : (offset =? nosize) = false)
    by (apply Z.eqb_neq; unfold nosize, modulus; lia).
  set (msz := if f_size_known f then file_ops.len f else nosize).
  set (pre := file_reader.mk
                (threaded_reader.mk
                   (reader_base.mk self aio_waitable.init (if mb =? 0 then 1 else mb) []
                      nosize msz nosize nosize false false false)
                   false no_task false)
                f can_spawn).
  assert (Hpre : (if 0 <=? (if f_size_known f then file_ops.len f else -1)
                  then file_reader.assemble
                         (reader_base.set_max_size
                            (file_reader.base
                               (file_reader.mk (threaded_reader.construct self mb) f can_spawn))
                            (if f_size_known f then file_ops.len f else -1))
                         (file_reader.members_of
                            (file_reader.mk (threaded_reader.construct self mb) f can_spawn))
                  else file_reader.mk (threaded_reader.construct self mb) f can_spawn)
                 = pre).
  { unfold pre, msz; destruct (f_size_known f); [ | reflexivity ].
    destruct (Z.leb_spec 0 (file_ops.len f)); [ reflexivity | unfold file_ops.len in *; lia ]. }
  rewrite Hpre in Hc; clear Hpre.
  assert (Hmsz : 0 <= msz <= nosize).
  { unfold msz, nosize, modulus, file_ops.len in *; destruct (f_size_known f); lia. }
  unfold file_reader.seek, reader_base.seek, reader_base.seek_size, reader_base.seek_offset in Hc.
  rewrite Hoffn in Hc; cbn [andb] in Hc.
  destruct (negb (size =? nosize) && (wrap (nosize - size) <=? offset)) eqn:C1.
  { cbn in Hc; inversion Hc; subst; cbn in He; discriminate. }
  destruct (negb (size =? nosize)
            && (wrap (offset + size) >? reader_base.max_size_ (file_reader.base pre))) eqn:C2.
  { cbn in Hc; inversion Hc; subst; cbn in He; discriminate. }
  change (reader_base.error_ (file_reader.base pre)) with false in Hc.
  assert (Hch : reader_base.changes (file_reader.base pre) offset size = true).
  { unfold reader_base.changes; cbn [file_reader.base pre file_reader.tr threaded_reader.base
                                     reader_base.get_buffer_called_ reader_base.start_offset_].
    rewrite Hoffn; reflexivity. }
  rewrite Hch in Hc; cbn [negb] in Hc.
  destruct (negb (reader_base.seekable file_reader.virtuals (file_reader.base pre)
                    (file_reader.members_of pre))
            && (negb (reader_base.start_offset_ (file_reader.base pre) =? nosize)
                || negb (offset =? 0))) eqn:C3.
  { cbn in Hc; inversion Hc; subst; cbn in He; discriminate. }
  unfold reader_base.do_seek, file_reader.virtuals, file_reader.do_seek in Hc.
  cbn [file_reader.members_of pre file_reader.tr threaded_reader.task_ file_reader.m_task file_reader.m_file
       file_reader.file_ reader_base.start_offset_] in Hc.
  assert (Hcast : to_int64 offset = offset).
  { unfold to_int64; destruct (Z.ltb_spec offset (2 ^ 63)); [ reflexivity | lia ]. }
  rewrite Hcast in Hc.
  unfold file_ops.seek in Hc; rewrite Ho in Hc.
  destruct (Z.leb_spec 0 offset) as [_ | E]; [ | lia ].
  cbn [andb] in Hc; rewrite Z.eqb_refl in Hc; cbn [negb] in Hc.
  set (new_size := reader_base.seek_new_size (file_reader.base pre) offset size) in *.
  assert (Hnew : new_size = (if size =? nosize
                             then if f_size_known f then file_ops.len f - offset else nosize
                             else size)).
  { unfold new_size, reader_base.seek_new_size.
    cbn [file_reader.base pre file_reader.tr threaded_reader.base reader_base.max_size_].
    destruct (Z.eqb_spec size nosize) as [E | E]; cbn [negb]; [ | reflexivity ].
    subst size; unfold msz; destruct (f_size_known f).
    - destruct (Z.eqb_spec (file_ops.len f) nosize) as [E1 | E1];
        [ unfold nosize, modulus in E1; lia | cbn [negb] ].
      apply wrap_small; unfold modulus; lia.
    - rewrite Z.eqb_refl; reflexivity. }
  assert (Hfit : size <> nosize -> f_size_known f = true -> offset + size <= file_ops.len f).
  { intros Hs Hk.
    apply andb_false_iff in C1, C2.
    destruct (Z.eqb_spec size nosize) as [E | _]; [ contradiction | ].
    destruct C1 as [C1 | C1]; [ discriminate | ].
    destruct C2 as [C2 | C2]; [ discriminate | ].
    cbn [file_reader.base pre file_reader.tr threaded_reader.base reader_base.max_size_] in C2.
    unfold msz in C2; rewrite Hk in C2.
    rewrite wrap_small in C1 by (unfold nosize, modulus in *; lia).
    apply Z.leb_gt in C1.
    rewrite wrap_small in C2 by (unfold nosize, modulus in *; lia).
    destruct (Z.gtb_spec (offset + size) (file_ops.len f)); [ discriminate | lia ]. }
  destruct (new_size =? 0) eqn:Hz; cbn [reader_base.eof_ negb] in Hc.
  - cbn in Hc; inversion Hc; subst; clear Hc.
    cbn; fold new_size; rewrite Hz.
    repeat split; try assumption; try reflexivity.
  - destruct can_spawn.
    + cbn in Hc; inversion Hc; subst; clear Hc.
      cbn; fold new_size; rewrite Hz.
      repeat split; try assumption; try reflexivity.
    + cbn in Hc; inversion Hc; subst; cbn in He; discriminate.
Qed.

Lemma small_pool_clean : pool_clean small_pool.
Proof. unfold pool_clean; cbn; repeat constructor; unfold modulus; lia. Qed.

Lemma file_reader_delivers_in_order_witness :
  [Byte.x42; Byte.x43]
  ++ queued_bytes (reader_base.buffers_ (file_reader.base bcd_reader_taken))
  = bytes_between (f_bytes abcde_file) 1 3.
Proof.
  destruct (file_reader_delivers_in_order bcd_reader_opened bcd_reader_taken
              [Byte.x42; Byte.x43]) as (H & _).
  - unfold file_reader_positioned; cbn; repeat split; unfold nosize, modulus; lia.
  - apply (read_get_buffer bcd_reader_opened bcd_reader_filled bcd_reader_taken [] 9 ok
             (mk_lease (mk_nonowning_buffer 77824 2 [Byte.x42; Byte.x43]) true)).
    + apply (read_entry_step bcd_reader_opened bcd_reader_opened bcd_reader_filled []
               small_pool (snd (reader_turns 1 bcd_reader_opened small_pool))
               [aio_waitable.nobody; aio_waitable.nobody]).
      * apply read_start.
      * exact small_pool_clean.
      * reflexivity.
    + reflexivity.
  - exact H.
Defined.

(** X15. [file_reader_factory::open(pool, offset, size)] on a file gives a
    reader that is positioned at the offset, and what that reader delivers,
    under any interleaving of [get_buffer] and the worker, are the bytes of
    the file from the offset on, in order: when [get_buffer] returns [ok]
    without a buffer, the leases held exactly [size] bytes from the offset,
    or without a size everything from the offset to the end of the file.
    With a size and a file that tells its length, [open] only succeeds
    when the range lies within the file. *)
Theorem file_reader_open_delivers_range (self : nat) (pool pool1 : aio_buffer_pool.t)
        (f : file) (can_spawn : bool) (offset size max_buffers : Z)
        (r0 r : file_reader.t) (delivered : list byte) :
  file_reader.factory_open self pool f can_spawn offset size max_buffers = (Some r0, pool1) ->
  0 <= offset < 2 ^ 63 -> 0 <= size <= nosize ->
  file_ops.len f < 2 ^ 63 -> offset <= file_ops.len f ->
  file_reader_read r0 r delivered ->
  f_pos (file_reader.file_ r0) = offset
  /\ (size <> nosize -> f_size_known f = true -> offset + size <= file_ops.len f)
  /\ delivered ++ queued_bytes (reader_base.buffers_ (file_reader.base r))
     = bytes_between (f_bytes f) offset (f_pos (file_reader.file_ r))
  /\ (forall h b r1,
        file_reader.get_buffer r h = (ok, b, r1) -> lease_pool b = false ->
        delivered = if size =? nosize then skipn (Z.to_nat offset) (f_bytes f)
                    else bytes_between (f_bytes f) offset (offset + size)).
Proof.
  intros Hopen Hoff Hsize Hlen Hle Hread.
  destruct (file_reader_open_state _ _ _ _ _ _ _ _ _ Hopen Hoff Hsize Hlen Hle)
    as (S1 & S2 & S3 & S4 & S5 & S6).
  assert (Hrem : 0 <= reader_base.remaining_ (file_reader.base r0) <= nosize).
  { rewrite S4.
    destruct (size =? nosize); [ destruct (f_size_known f) | ];
      unfold nosize, modulus, file_ops.len in *; lia. }
  assert (Hpos : file_reader_positioned r0).
  { unfold file_reader_positioned; rewrite S2; repeat split; try assumption; lia. }
  pose proof (file_reader_invariant r0 r delivered Hpos Hread) as Hinv.
  pose proof Hinv as (J1 & J2 & J3 & _); cbv zeta in *.
  split; [ exact S2 | split; [ exact S6 | split ] ].
  - rewrite J3, S2, S3; reflexivity.
  - intros h b r1 Hget Hend.
    rewrite (reader_eof_delivered r0 r r1 delivered h b) by (try assumption; lia).
    rewrite S2, S3, S4.
    destruct (Z.eqb_spec size nosize) as [E | E].
    + destruct (f_size_known f).
      * destruct (Z.eqb_spec (file_ops.len f - offset) nosize) as [E1 | E1];
          [ reflexivity | ].
        unfold bytes_between; apply firstn_all2.
        rewrite length_skipn; unfold file_ops.len; lia.
      * rewrite Z.eqb_refl; reflexivity.
    + destruct (Z.eqb_spec size nosize); [ contradiction | reflexivity ].
Qed.

Lemma file_reader_open_delivers_range_witness :
  bcd_reader = Some bcd_reader_opened
  /\ [Byte.x42; Byte.x43]
     ++ queued_bytes (reader_base.buffers_ (file_reader.base bcd_reader_taken))
     = bytes_between (f_bytes abcde_file) 1 3.
Proof.
  split; [ reflexivity | ].
  destruct (file_reader_open_delivers_range 7 small_pool
              (aio_buffer_pool.remove_waiter small_pool 7) abcde_file true 1 3 0
              bcd_reader_opened bcd_reader_taken [Byte.x42; Byte.x43]) as (_ & _ & H & _).
  - reflexivity.
  - lia.
  - unfold nosize, modulus; lia.
  - cbn; lia.
  - cbn; lia.
  - apply (read_get_buffer bcd_reader_opened bcd_reader_filled bcd_reader_taken [] 9 ok
             (mk_lease (mk_nonowning_buffer 77824 2 [Byte.x42; Byte.x43]) true)).
    + apply (read_entry_step bcd_reader_opened bcd_reader_opened bcd_reader_filled []
               small_pool (snd (reader_turns 1 bcd_reader_opened small_pool))
               [aio_waitable.nobody; aio_waitable.nobody]).
      * apply read_start.
      * exact small_pool_clean.
      * reflexivity.
    + reflexivity.
  - exact H.
Defined.

(** ** Factory holders (reader.cpp, writer.cpp) *)

Section HolderAssignments.

Variable factory : Type.
Variable clone : factory -> factory.

Lemma put_same (s : factory_holder.store factory) (a : nat) (h : factory_holder.t factory) :
  factory_holder.put factory s a h a = h.
Proof. unfold factory_holder.put; rewrite Nat.eqb_refl; reflexivity. Qed.

Lemma put_other (s : factory_holder.store factory) (a x : nat) (h : factory_holder.t factory) :
  x <> a -> factory_holder.put factory s a h x = s x.
Proof.
  intros Hne; unfold factory_holder.put.
  destruct (Nat.eqb_spec x a); [ contradiction | reflexivity ].
Qed.

(** Copying from a holder with a factory gives the destination a clone and
    leaves every other holder, the source among them, as it was; moving
    gives the destination what the source held and empties the source;
    assigning a holder to itself, by copy or by move, changes nothing; and
    three moves through an empty temporary exchange two holders. *)
Lemma holder_assignments (s : factory_holder.store factory) (a b tmp : nat) (f : factory) :
  a <> b ->
  s b = Some f ->
  (let s1 := factory_holder.assign_copy factory clone s a b in
   s1 a = Some (clone f) /\ forall x, x <> a -> s1 x = s x)
  /\ (let s1 := factory_holder.construct_copy factory clone s a b in
      s1 a = Some (clone f) /\ forall x, x <> a -> s1 x = s x)
  /\ (let s1 := factory_holder.assign_move factory s a b in
      s1 a = Some f /\ s1 b = None /\ forall x, x <> a -> x <> b -> s1 x = s x)
  /\ factory_holder.assign_copy factory clone s a a = s
  /\ factory_holder.assign_move factory s a a = s
  /\ (tmp <> a -> tmp <> b ->
      let s1 := factory_holder.assign_move factory s tmp a in
      let s2 := factory_holder.assign_move factory s1 a b in
      let s3 := factory_holder.assign_move factory s2 b tmp in
      s3 a = s b /\ s3 b = s a /\ s3 tmp = None
      /\ forall x, x <> a -> x <> b -> x <> tmp -> s3 x = s x).
Proof.
  intros Hab Hb.
  assert (Eab : Nat.eqb a b = false) by (apply Nat.eqb_neq; exact Hab).
  split; [ | split; [ | split; [ | split; [ | split ] ] ] ].
  - cbv zeta; unfold factory_holder.assign_copy; rewrite Eab, Hb; cbn [negb].
    split; [ apply put_same | intros x Hx; apply put_other; exact Hx ].
  - cbv zeta; unfold factory_holder.construct_copy; rewrite Hb.
    split; [ apply put_same | intros x Hx; apply put_other; exact Hx ].
  - cbv zeta; unfold factory_holder.assign_move; rewrite Eab; cbn [negb].
    split; [ | split ].
    + rewrite put_other by exact Hab; rewrite put_same; exact Hb.
    + apply put_same.
    + intros x Hxa Hxb; rewrite !put_other by assumption; reflexivity.
  - unfold factory_holder.assign_copy; rewrite Nat.eqb_refl; reflexivity.
  - unfold factory_holder.assign_move; rewrite Nat.eqb_refl; reflexivity.
  - intros Hta Htb; cbv zeta; unfold factory_holder.assign_move.
    assert (E1 : Nat.eqb tmp a = false) by (apply Nat.eqb_neq; exact Hta).
    assert (E2 : Nat.eqb b tmp = false) by (apply Nat.eqb_neq; congruence).
    rewrite E1, Eab, E2; cbn [negb].
    split; [ | split; [ | split ] ].
    + rewrite !(put_other _ _ a) by congruence.
      rewrite put_same, !(put_other _ _ b) by congruence; reflexivity.
    + rewrite (put_other _ tmp b) by congruence.
      rewrite put_same, (put_other _ b tmp) by congruence.
      rewrite (put_other _ a tmp) by congruence.
      rewrite (put_other _ a tmp) by congruence.
      rewrite put_same; reflexivity.
    + apply put_same.
    + intros x Hxa Hxb Hxt; rewrite !put_other by assumption; reflexivity.
Qed.

End HolderAssignments.

(** X16. Assignment between factory holders, for readers and for writers:
    copy assignment and copy construction from a holder with a factory give
    the destination a clone and leave every other holder, the source among
    them, as it was; move assignment gives the destination what the source
    held, leaves the source empty and every other holder as it was;
    assigning a holder to itself, by copy or by move, changes nothing; and
    three moves through a temporary exchange two holders, leave the
    temporary empty and every other holder as it was. *)
Theorem holder_copy_move_semantics (a b : nat) :
  a <> b ->
  (forall (s : reader_factory_holder.store) (f : reader_factory),
     s b = Some f ->
     (reader_factory_holder.assign_copy s a b a = Some (reader_factory_clone f)
      /\ forall x, x <> a -> reader_factory_holder.assign_copy s a b x = s x)
     /\ (factory_holder.construct_copy reader_factory reader_factory_clone s a b a
         = Some (reader_factory_clone f)
         /\ forall x, x <> a ->
              factory_holder.construct_copy reader_factory reader_factory_clone s a b x = s x)
     /\ (reader_factory_holder.assign_move s a b a = Some f
         /\ reader_factory_holder.to_bool (reader_factory_holder.assign_move s a b b) = false
         /\ forall x, x <> a -> x <> b -> reader_factory_holder.assign_move s a b x = s x)
     /\ reader_factory_holder.assign_copy s a a = s
     /\ reader_factory_holder.assign_move s a a = s
     /\ (forall tmp, tmp <> a -> tmp <> b ->
         let s3 := reader_factory_holder.assign_move
                     (reader_factory_holder.assign_move
                        (reader_factory_holder.assign_move s tmp a) a b) b tmp in
         s3 a = s b /\ s3 b = s a /\ s3 tmp = None
         /\ forall x, x <> a -> x <> b -> x <> tmp -> s3 x = s x))
  /\ (forall (s : writer_factory_holder.store) (f : writer_factory),
        s b = Some f ->
        (writer_factory_holder.assign_copy s a b a = Some (writer_factory_clone f)
         /\ forall x, x <> a -> writer_factory_holder.assign_copy s a b x = s x)
        /\ (factory_holder.construct_copy writer_factory writer_factory_clone s a b a
            = Some (writer_factory_clone f)
            /\ forall x, x <> a ->
                 factory_holder.construct_copy writer_factory writer_factory_clone s a b x = s x)
        /\ (writer_factory_holder.assign_move s a b a = Some f
            /\ writer_factory_holder.to_bool (writer_factory_holder.assign_move s a b b) = false
            /\ forall x, x <> a -> x <> b -> writer_factory_holder.assign_move s a b x = s x)
        /\ writer_factory_holder.assign_copy s a a = s
        /\ writer_factory_holder.assign_move s a a = s
        /\ (forall tmp, tmp <> a -> tmp <> b ->
            let s3 := writer_factory_holder.assign_move
                        (writer_factory_holder.assign_move
                           (writer_factory_holder.assign_move s tmp a) a b) b tmp in
            s3 a = s b /\ s3 b = s a /\ s3 tmp = None
            /\ forall x, x <> a -> x <> b -> x <> tmp -> s3 x = s x)).
Proof.
  intros Hab; split; intros s f Hb.
  - destruct (holder_assignments reader_factory reader_factory_clone s a b a f Hab Hb)
      as (C & K & (M1 & M2 & M3) & S1 & S2 & _).
    split; [ exact C | split; [ exact K | ] ].
    split; [ split; [ exact M1 | split; [ | exact M3 ] ] | ].
    { unfold reader_factory_holder.to_bool, reader_factory_holder.assign_move.
      rewrite M2; reflexivity. }
    split; [ exact S1 | split; [ exact S2 | ] ].
    intros tmp Hta Htb.
    destruct (holder_assignments reader_factory reader_factory_clone s a b tmp f Hab Hb)
      as (_ & _ & _ & _ & _ & W).
    exact (W Hta Htb).
  - destruct (holder_assignments writer_factory writer_factory_clone s a b a f Hab Hb)
      as (C & K & (M1 & M2 & M3) & S1 & S2 & _).
    split; [ exact C | split; [ exact K | ] ].
    split; [ split; [ exact M1 | split; [ | exact M3 ] ] | ].
    { unfold writer_factory_holder.to_bool, writer_factory_holder.assign_move.
      rewrite M2; reflexivity. }
    split; [ exact S1 | split; [ exact S2 | ] ].
    intros tmp Hta Htb.
    destruct (holder_assignments writer_factory writer_factory_clone s a b tmp f Hab Hb)
      as (_ & _ & _ & _ & _ & W).
    exact (W Hta Htb).
Qed.

(** Of three reader holders, the one at 1, moved from, is copy-assigned
    and copy-constructed from the file reader factory at 0: it holds a
    clone, and the holders at 0 and 2 are as before. *)
Lemma holder_copy_move_semantics_witness :
  reader_factory_holder.assign_copy reader_holders 1%nat 0%nat 1%nat
  = Some (file_reader_factory "a")
  /\ factory_holder.construct_copy reader_factory reader_factory_clone
       reader_holders 1%nat 0%nat 1%nat
     = Some (file_reader_factory "a")
  /\ reader_factory_holder.assign_copy reader_holders 1%nat 0%nat 0%nat = reader_holders 0%nat
  /\ reader_factory_holder.assign_copy reader_holders 1%nat 0%nat 2%nat = reader_holders 2%nat.
Proof.
  destruct (holder_copy_move_semantics 1 0) as [H _]; [ discriminate | ].
  destruct (H reader_holders (file_reader_factory "a") eq_refl)
    as ((H1 & H2) & (H3 & _) & _).
  split; [ exact H1 | split; [ exact H3 | split; apply H2; discriminate ] ].
Defined.

(** ** view_reader over a part of the view (reader.cpp) *)

(** What memory holds inside a view. *)
Lemma load_inside (m : memory) (data : Z) (s : list byte) (a k : nat) :
  holds m data s -> (a + k <= length s)%nat ->
  load m (data + Z.of_nat a) k = firstn k (skipn a s).
Proof.
  intros Hholds Hfit; unfold holds in Hholds.
  replace (length s) with (a + (k + (length s - a - k)))%nat in Hholds by lia.
  rewrite load_app, load_app in Hholds.
  rewrite <- Hholds at 1.
  rewrite skipn_app, load_length, Nat.sub_diag, skipn_all2 by (rewrite load_length; lia).
  cbn [skipn app].
  rewrite firstn_app, load_length, Nat.sub_diag, firstn_all2 by (rewrite load_length; lia).
  cbn [firstn]; rewrite app_nil_r, load_wrap; reflexivity.
Qed.

(** What [view_reader_factory::open] with an offset or a size within the
    view gives. *)
Lemma view_reader_open_state (self : nat) (data n offset size : Z) (pool : aio_buffer_pool.t) :
  0 <= n < nosize -> 0 <= offset <= n -> 0 <= size <= nosize ->
  offset <> 0 \/ size <> nosize ->
  (size <> nosize -> offset + size <= n) ->
  let k := if size =? nosize then n - offset else size in
  view_reader_factory_open self (mk_view data n) pool offset size
  = (Some (view_reader.mk
             (reader_base.mk self aio_waitable.init 1 [] k n offset k false false (k =? 0))
             (mk_view data n)),
     aio_buffer_pool.remove_waiter pool self).
Proof.
  intros Hn Hoff Hsize Hgiven Hfit k.
  assert (Hoffn : (offset =? nosize) = false) by (apply Z.eqb_neq; lia).
  assert (Hnn : (n =? nosize) = false) by (apply Z.eqb_neq; lia).
  assert (Hcond : negb (offset =? 0) || negb (size =? nosize) = true).
  { destruct (Z.eqb_spec offset 0); destruct (Z.eqb_spec size nosize); try reflexivity.
    destruct Hgiven; contradiction. }
  unfold view_reader_factory_open; rewrite Hcond.
  unfold view_reader.seek, reader_base.seek, reader_base.seek_size, reader_base.seek_offset,
    reader_base.changes, reader_base.seek_new_size.
  cbn [view_reader.construct view_reader.base view_reader.view_ view_size
       reader_base.construct reader_base.self reader_base.waitable reader_base.max_buffers_
       reader_base.buffers_ reader_base.size_ reader_base.max_size_ reader_base.start_offset_
       reader_base.remaining_ reader_base.get_buffer_called_ reader_base.error_
       reader_base.eof_ view_reader.virtuals reader_base.seekable reader_base.do_seek].
  rewrite Hoffn, Hnn; cbn [andb orb negb].
  assert (Hcheck1 : negb (size =? nosize) && (wrap (nosize - size) <=? offset) = false).
  { destruct (Z.eqb_spec size nosize) as [E | E]; [ reflexivity | cbn [negb andb] ].
    rewrite wrap_small by (unfold nosize, modulus in *; lia).
    apply Z.leb_gt; specialize (Hfit E); lia. }
  assert (Hcheck2 : negb (size =? nosize) && (wrap (offset + size) >? n) = false).
  { destruct (Z.eqb_spec size nosize) as [E | E]; [ reflexivity | cbn [negb andb] ].
    specialize (Hfit E).
    rewrite wrap_small by (unfold nosize, modulus in *; lia).
    destruct (Z.gtb_spec (offset + size) n); [ lia | reflexivity ]. }
  rewrite Hcheck1, Hcheck2.
  rewrite ?Hoffn.
  cbn [negb orb Z.eqb aio_buffer_pool.release_all fold_left aio_waitable.remove_waiters].
  assert (Hk : (if negb (size =? nosize) then size else wrap (n - offset)) = k).
  { unfold k; destruct (size =? nosize); cbn [negb]; [ | reflexivity ].
    apply wrap_small; unfold nosize, modulus in *; lia. }
  rewrite Hk; reflexivity.
Qed.

(** X17. A view reader opened through its factory with an offset or a size
    that lie within the view, piped into a buffer writer with room for it,
    delivers exactly that part of the view: [size] bytes from the offset,
    or without a size everything from the offset to the end. The reader
    reaches its end and nothing fails. *)
Theorem view_reader_open_reads_range (m : memory) (self h : nat)
        (data capacity limit offset size : Z) (s : list byte) (pool : aio_buffer_pool.t) :
  let n := Z.of_nat (length s) in
  let k := if size =? nosize then n - offset else size in
  holds m data s ->
  pool_ready pool capacity -> 0 < capacity ->
  n < nosize -> 0 <= offset <= n -> 0 <= size <= nosize ->
  offset <> 0 \/ size <> nosize ->
  (size <> nosize -> offset + size <= n) ->
  k <= limit < modulus ->
  let opened := view_reader_factory_open self (mk_view data n) pool offset size in
  exists r,
    fst opened = Some r
    /\ let run := pipe (S (Z.to_nat k)) m h r (buffer_writer.construct [] limit) (snd opened) in
       pipe_ended run = pipe_eof
       /\ piped run = bytes_between s offset (offset + k).
Proof.
  intros n k Hholds Hpool Hcap Hn Hoff Hsize Hgiven Hfit Hlimit opened.
  assert (Hk : 0 <= k /\ offset + k <= n).
  { unfold k; destruct (Z.eqb_spec size nosize) as [E | E]; [ lia | ].
    specialize (Hfit E); lia. }
  unfold opened.
  rewrite (view_reader_open_state self data n offset size pool) by (try assumption; lia).
  fold k; cbn [fst snd].
  eexists; split; [ reflexivity | ].
  assert (Hpool' : pool_ready (aio_buffer_pool.remove_waiter pool self) capacity).
  { destruct Hpool as (front & b & Hb & H1 & H2 & H3 & H4).
    exists front, b; unfold aio_buffer_pool.remove_waiter; cbn.
    rewrite H4; repeat split; assumption. }
  destruct (pipe_runs m h capacity _ Hpool' Hcap (S (Z.to_nat k))
              (view_reader.mk
                 (reader_base.mk self aio_waitable.init 1 [] k n offset k false false (k =? 0))
                 (mk_view data n))
              (buffer_writer.construct [] limit)) as [Hend Hout].
  - reflexivity.
  - reflexivity.
  - change (0 <= k < nosize); lia.
  - reflexivity.
  - change (0 <= limit < modulus); lia.
  - change (0 + k <= limit); lia.
  - change (Z.to_nat k < S (Z.to_nat k))%nat; lia.
  - cbv zeta; split; [ exact Hend | ].
    rewrite Hout.
    cbn [buffer_writer.construct buffer_writer.buffer_ app].
    unfold read_position;
      cbn [view_reader.view_ view_reader.base view_data reader_base.start_offset_
           reader_base.size_ reader_base.remaining_].
    assert (Hpos : wrap (wrap (wrap (data + offset) + k) - k) = wrap (data + offset)).
    { rewrite wrap_add_l.
      unfold wrap; rewrite Zminus_mod_idemp_l; f_equal; lia. }
    rewrite Hpos, load_wrap.
    replace offset with (Z.of_nat (Z.to_nat offset)) at 1 by lia.
    rewrite (load_inside m data s) by (try assumption; unfold n in *; lia).
    unfold bytes_between; do 2 f_equal; lia.
Qed.

Lemma view_reader_open_reads_range_witness :
  piped (pipe 4 abcde_memory 9
           (view_reader.mk (reader_base.mk 7 aio_waitable.init 1 [] 3 5 1 3 false false false)
                           (mk_view 1000 5))
           (buffer_writer.construct [] 5)
           (aio_buffer_pool.remove_waiter one_buffer_pool 7))
  = [Byte.x42; Byte.x43; Byte.x44].
Proof.
  destruct (view_reader_open_reads_range abcde_memory 7 9 1000 4 5 1 3 abcde one_buffer_pool)
    as (r & Hr & _ & H).
  - reflexivity.
  - exists [], (mk_nonowning_buffer 69632 4 []); cbn; repeat split; lia.
  - lia.
  - cbn; unfold nosize, modulus; lia.
  - cbn; lia.
  - unfold nosize, modulus; lia.
  - left; lia.
  - intros _; cbn; lia.
  - cbn; unfold modulus; lia.
  - cbn in Hr; inversion Hr; subst r; exact H.
Defined.

(** X18. [seek] checks the range against [max_size_] only when a size is
    given. A view reader sought to an offset behind the end of its view
    with no size accepts: the size it installs is [max_size_ - offset] in
    64 bits, a huge number, the reader is not at its end, and the next
    [get_buffer] fills a buffer from the memory at the offset, which lies
    behind the view. *)
Theorem view_reader_seek_past_end (m : memory) (self h : nat)
        (data n offset capacity : Z) (pool : aio_buffer_pool.t) :
  0 <= n -> n < offset < nosize ->
  pool_ready pool capacity -> 0 < capacity <= modulus + n - offset ->
  let sought := view_reader.seek (view_reader.construct self (mk_view data n))
                                 pool offset nosize in
  let r := snd (fst sought) in
  let got := view_reader.get_buffer m r (snd sought) h in
  fst (fst sought) = true
  /\ reader_base.start_offset_ (view_reader.base r) = offset
  /\ reader_base.size_ (view_reader.base r) = modulus + n - offset
  /\ reader_base.eof_ (view_reader.base r) = false
  /\ fst (fst (fst got)) = ok
  /\ nb_bytes (lease_buffer (snd (fst (fst got)))) = load m (data + offset) (Z.to_nat capacity).
Proof.
  intros Hn Hoff Hpool Hcap.
  assert (Hoffn : (offset =? nosize) = false) by (apply Z.eqb_neq; lia).
  assert (Hnn : (n =? nosize) = false) by (apply Z.eqb_neq; lia).
  assert (Hnew : wrap (n - offset) = modulus + n - offset).
  { unfold wrap; symmetry; apply (Z.mod_unique _ _ (-1)); unfold nosize in *; lia. }
  assert (Hseek : view_reader.seek (view_reader.construct self (mk_view data n))
                                   pool offset nosize
                  = (true,
                     view_reader.mk
                       (reader_base.mk self aio_waitable.init 1 []
                          (modulus + n - offset) n offset (modulus + n - offset)
                          false false (modulus + n - offset =? 0))
                       (mk_view data n),
                     aio_buffer_pool.remove_waiter pool self)).
  { unfold view_reader.seek, reader_base.seek, reader_base.seek_size, reader_base.seek_offset,
      reader_base.changes, reader_base.seek_new_size.
    cbn [view_reader.construct view_reader.base view_reader.view_ view_size
         reader_base.construct reader_base.self reader_base.waitable reader_base.max_buffers_
         reader_base.buffers_ reader_base.size_ reader_base.max_size_ reader_base.start_offset_
         reader_base.remaining_ reader_base.get_buffer_called_ reader_base.error_
         reader_base.eof_ view_reader.virtuals reader_base.seekable reader_base.do_seek].
    rewrite Hoffn, Z.eqb_refl, Hnn; cbn [andb orb negb].
    rewrite ?Hoffn; cbn [andb orb negb].
    rewrite Hnew; reflexivity. }
  cbv zeta; rewrite Hseek; cbn [fst snd view_reader.base reader_base.start_offset_
                                reader_base.size_ reader_base.eof_].
  split; [ reflexivity | split; [ reflexivity | split; [ reflexivity | ] ] ].
  split; [ apply Z.eqb_neq; unfold nosize in *; lia | ].
  assert (Hpool' : pool_ready (aio_buffer_pool.remove_waiter pool self) capacity).
  { destruct Hpool as (front & b & Hb & H1 & H2 & H3 & H4).
    exists front, b; unfold aio_buffer_pool.remove_waiter; cbn.
    rewrite H4; repeat split; assumption. }
  destruct (pool_ready_cycle _ capacity self Hpool') as (buf & pool1 & Hget & Hbytes & Hbcap & _).
  unfold view_reader.get_buffer, reader_base.get_buffer, view_reader.do_get_buffer.
  cbn [view_reader.base view_reader.view_ reader_base.error_ reader_base.eof_
       reader_base.self reader_base.remaining_ reader_base.start_offset_ reader_base.size_
       view_data].
  destruct (Z.eqb_spec (modulus + n - offset) 0) as [E | _]; [ unfold nosize in *; lia | ].
  rewrite Hget; cbn [lease_pool negb lease_buffer].
  rewrite Hbcap.
  assert (Hto : (if negb (modulus + n - offset =? nosize)
                    && (modulus + n - offset <? capacity)
                 then modulus + n - offset else capacity) = capacity).
  { destruct (Z.ltb_spec (modulus + n - offset) capacity); [ lia | ].
    rewrite andb_false_r; reflexivity. }
  rewrite Hto; cbn [fst snd lease_buffer nonowning_buffer_ops.append nb_bytes].
  rewrite Hbytes; cbn [app].
  split; [ reflexivity | ].
  assert (Hpos : wrap (wrap (wrap (data + offset) + (modulus + n - offset))
                       - (modulus + n - offset)) = wrap (data + offset)).
  { rewrite wrap_add_l.
    unfold wrap; rewrite Zminus_mod_idemp_l; f_equal; lia. }
  rewrite Hpos, load_wrap; reflexivity.
Qed.

Lemma view_reader_seek_past_end_witness :
  nb_bytes (lease_buffer (snd (fst (fst
     (view_reader.get_buffer abcde_memory
        (snd (fst (view_reader.seek abcde_reader one_buffer_pool 7 nosize)))
        (snd (view_reader.seek abcde_reader one_buffer_pool 7 nosize)) 9)))))
  = load abcde_memory 1007 4.
Proof.
  destruct (view_reader_seek_past_end abcde_memory 7 9 1000 5 7 4 one_buffer_pool)
    as (_ & _ & _ & _ & _ & H).
  - lia.
  - unfold nosize, modulus; lia.
  - exists [], (mk_nonowning_buffer 69632 4 []); cbn; repeat split; lia.
  - unfold modulus; lia.
  - exact H.
Defined.

(** ** close of a reader (reader.cpp) *)

Lemma signal_keeps_subset (w : aio_waitable.t) (h : nat) :
  In h (aio_waitable.waiting_ (snd (aio_waitable.signal_availibility w))) ->
  In h (aio_waitable.waiting_ w).
Proof.
  destruct w as [ws hs].
  destruct (last_case ws) as [-> | (front & x & ->)].
  - destruct (last_case hs) as [-> | (front & x & ->)].
    + cbn; tauto.
    + rewrite signal_handler; cbn; tauto.
  - rewrite signal_raw_waiter; cbn [snd aio_waitable.waiting_].
    intros H; apply in_or_app; left; exact H.
Qed.

(** Leases that go back to the pool: the buffers are behind the free list,
    emptied, in the order of the leases, and no waiter is added. *)
Lemma release_all_returns (ls : list buffer_lease) (p : aio_buffer_pool.t) :
  Forall (fun l => lease_pool l = true /\ nb_ptr (lease_buffer l) <> 0) ls ->
  aio_buffer_pool.buffers_ (aio_buffer_pool.release_all p ls)
  = aio_buffer_pool.buffers_ p ++ map (fun l => nonowning_buffer_ops.clear (lease_buffer l)) ls
  /\ forall h, In h (aio_waitable.waiting_
                      (aio_buffer_pool.waitable (aio_buffer_pool.release_all p ls))) ->
               In h (aio_waitable.waiting_ (aio_buffer_pool.waitable p)).
Proof.
  revert p; induction ls as [| l ls IH]; intros p Hall.
  - cbn; rewrite app_nil_r; split; [ reflexivity | tauto ].
  - inversion Hall as [| l0 ls0 [Hreal Hptr] Hrest]; subst.
    unfold aio_buffer_pool.release_all in *; cbn [fold_left].
    destruct (IH (aio_buffer_pool.release_lease p l) Hrest) as [IH1 IH2].
    assert (Hone : aio_buffer_pool.buffers_ (aio_buffer_pool.release_lease p l)
                   = aio_buffer_pool.buffers_ p ++ [nonowning_buffer_ops.clear (lease_buffer l)]
                   /\ forall h, In h (aio_waitable.waiting_
                                        (aio_buffer_pool.waitable
                                           (aio_buffer_pool.release_lease p l))) ->
                                In h (aio_waitable.waiting_ (aio_buffer_pool.waitable p))).
    { unfold aio_buffer_pool.release_lease, aio_buffer_pool.release; rewrite Hreal.
      destruct (Z.eqb_spec (nb_ptr (lease_buffer l)) 0) as [E | _]; [ contradiction | ].
      pose proof (signal_keeps_subset
                    (aio_buffer_pool.waitable
                       (aio_buffer_pool.set_buffers p
                          (aio_buffer_pool.buffers_ p
                           ++ [nonowning_buffer_ops.clear (lease_buffer l)])))) as Hsub.
      destruct (aio_waitable.signal_availibility _) as [who w1].
      cbn [snd aio_buffer_pool.set_waitable aio_buffer_pool.set_buffers
           aio_buffer_pool.buffers_ aio_buffer_pool.waitable] in *.
      split; [ reflexivity | exact Hsub ]. }
    destruct Hone as [H1 H2].
    split.
    + rewrite IH1, H1, <- app_assoc; reflexivity.
    + intros h Hin; apply H2, IH2, Hin.
Qed.

Lemma filter_all {A : Type} (f : A -> bool) (l : list A) :
  (forall x, In x l -> f x = true) -> filter f l = l.
Proof.
  induction l as [| a l IH]; intros H; [ reflexivity | ].
  cbn [filter]; rewrite (H a) by (left; reflexivity).
  rewrite IH; [ reflexivity | intros x Hx; apply H; right; exact Hx ].
Qed.

(** X19. [reader_base::close] gives every queued buffer back to the pool,
    emptied and in the order of the queue, takes the reader out of the
    waiters of the pool and drops the waiters of the reader; closing once
    more changes neither the reader nor the pool. *)
Theorem reader_close_returns_buffers (r : reader_base.t) (pool : aio_buffer_pool.t) :
  Forall (fun l => lease_pool l = true /\ nb_ptr (lease_buffer l) <> 0)
         (reader_base.buffers_ r) ->
  let r1 := fst (reader_base.close r pool) in
  let pool1 := snd (reader_base.close r pool) in
  aio_buffer_pool.buffers_ pool1
  = aio_buffer_pool.buffers_ pool
    ++ map (fun l => nonowning_buffer_ops.clear (lease_buffer l)) (reader_base.buffers_ r)
  /\ ~ In (reader_base.self r) (aio_waitable.waiting_ (aio_buffer_pool.waitable pool1))
  /\ reader_base.buffers_ r1 = []
  /\ reader_base.waitable r1 = aio_waitable.init
  /\ reader_base.close r1 pool1 = (r1, pool1).
Proof.
  intros Hall; cbv zeta.
  unfold reader_base.close at 1 2 3 4 5 6; cbn [fst snd].
  destruct (release_all_returns (reader_base.buffers_ r)
              (aio_buffer_pool.remove_waiter pool (reader_base.self r)) Hall) as [H1 H2].
  assert (Hgone : ~ In (reader_base.self r)
                      (aio_waitable.waiting_
                         (aio_buffer_pool.waitable
                            (aio_buffer_pool.release_all
                               (aio_buffer_pool.remove_waiter pool (reader_base.self r))
                               (reader_base.buffers_ r))))).
  { intros Hin; apply H2 in Hin.
    unfold aio_buffer_pool.remove_waiter, aio_waitable.remove_waiter in Hin.
    cbn [aio_buffer_pool.set_waitable aio_buffer_pool.waitable aio_waitable.waiting_] in Hin.
    apply filter_In in Hin; destruct Hin as [_ Hne].
    rewrite Nat.eqb_refl in Hne; discriminate. }
  split; [ exact H1 | split; [ exact Hgone | split; [ reflexivity | split; [ reflexivity | ] ] ] ].
  unfold reader_base.close; cbn [reader_base.self reader_base.buffers_ reader_base.waitable
                                 reader_base.max_buffers_ reader_base.size_
                                 reader_base.max_size_ reader_base.start_offset_
                                 reader_base.remaining_ reader_base.get_buffer_called_
                                 reader_base.error_ reader_base.eof_
                                 aio_buffer_pool.release_all fold_left].
  f_equal.
  set (p1 := aio_buffer_pool.release_all _ _) in *.
  unfold aio_buffer_pool.remove_waiter, aio_waitable.remove_waiter.
  destruct p1 as [count size mem bufs [ws hs]];
    cbn [aio_buffer_pool.set_waitable aio_buffer_pool.waitable aio_buffer_pool.buffer_count_
         aio_buffer_pool.memory_size_ aio_buffer_pool.memory_ aio_buffer_pool.buffers_
         aio_waitable.waiting_ aio_waitable.waiting_handlers_] in *.
  rewrite filter_all; [ reflexivity | ].
  intros x Hx; apply negb_true_iff, Nat.eqb_neq; intros ->; contradiction.
Qed.

Lemma reader_close_returns_buffers_witness :
  aio_buffer_pool.buffers_
    (snd (reader_base.close (file_reader.base bcd_reader_filled)
            (snd (reader_turns 1 bcd_reader_opened small_pool))))
  = aio_buffer_pool.buffers_ small_pool.
Proof.
  destruct (reader_close_returns_buffers (file_reader.base bcd_reader_filled)
              (snd (reader_turns 1 bcd_reader_opened small_pool))) as (H & _).
  - vm_compute; repeat constructor; discriminate.
  - exact H.
Defined.

(** ** get_address_type *)

Lemma digit_code (c : ascii) : digit c = true -> 48 <= ipv6.code c <= 57.
Proof. unfold digit; intros H; apply andb_prop in H; destruct H; lia. Qed.

Lemma digit_not_dot (c : ascii) : digit c = true -> Ascii.eqb c iputils.dot = false.
Proof.
  intros H; destruct (Ascii.eqb_spec c iputils.dot) as [E | E]; [ | reflexivity ].
  subst c; discriminate H.
Qed.

Lemma digit_not_colon (c : ascii) : digit c = true -> Ascii.eqb c ipv6.colon = false.
Proof.
  intros H; destruct (Ascii.eqb_spec c ipv6.colon) as [E | E]; [ | reflexivity ].
  subst c; discriminate H.
Qed.

Lemma number_from_grows (ds : list ascii) :
  Forall (fun x => digit x = true) ds ->
  forall seg, 0 <= seg -> seg <= number_from seg ds.
Proof.
  induction 1 as [| c ds Hc _ IH]; intros seg Hseg; [ cbn; lia | ].
  apply digit_code in Hc.
  change (number_from seg (c :: ds)) with (number_from (seg * 10 + ipv6.code c - 48) ds).
  specialize (IH (seg * 10 + ipv6.code c - 48) ltac:(lia)); lia.
Qed.

(** [int] arithmetic: a value within [int] is kept, and wrapping adds a
    multiple of 2^32. *)
Lemma to_int_small (x : Z) : - 2 ^ 31 <= x < 2 ^ 31 -> iputils.to_int x = x.
Proof. intros H; unfold iputils.to_int; rewrite Z.mod_small; lia. Qed.

Lemma to_int_spec (x : Z) : exists k, iputils.to_int x = x + k * 2 ^ 32.
Proof.
  exists (- ((x + 2 ^ 31) / 2 ^ 32)); unfold iputils.to_int.
  pose proof (Z.div_mod (x + 2 ^ 31) (2 ^ 32) ltac:(lia)); lia.
Qed.

Lemma to_int_shift (x k : Z) : iputils.to_int (x + k * 2 ^ 32) = iputils.to_int x.
Proof.
  unfold iputils.to_int.
  replace (x + k * 2 ^ 32 + 2 ^ 31) with (x + 2 ^ 31 + k * 2 ^ 32) by lia.
  rewrite Z_mod_plus_full; reflexivity.
Qed.

Lemma to_int_range (x : Z) : - 2 ^ 31 <= iputils.to_int x < 2 ^ 31.
Proof.
  unfold iputils.to_int.
  pose proof (Z.mod_pos_bound (x + 2 ^ 31) (2 ^ 32) ltac:(lia)); lia.
Qed.

(** One digit more, wrapped at every operation as the code does it, is
    the number with that digit, wrapped once. *)
Lemma to_int_step (x c : Z) :
  iputils.to_int (iputils.to_int (iputils.to_int (iputils.to_int x * 10) + c) - 48)
  = iputils.to_int (x * 10 + c - 48).
Proof.
  destruct (to_int_spec x) as [k1 E1]; rewrite E1.
  destruct (to_int_spec ((x + k1 * 2 ^ 32) * 10)) as [k2 E2]; rewrite E2.
  destruct (to_int_spec ((x + k1 * 2 ^ 32) * 10 + k2 * 2 ^ 32 + c)) as [k3 E3]; rewrite E3.
  replace ((x + k1 * 2 ^ 32) * 10 + k2 * 2 ^ 32 + c + k3 * 2 ^ 32 - 48)
    with (x * 10 + c - 48 + (10 * k1 + k2 + k3) * 2 ^ 32) by lia.
  apply to_int_shift.
Qed.

(** [segment] after a run of digits is the number the run spells,
    wrapped to [int]. *)
Lemma segment_after_number (ds : list ascii) :
  forall x, segment_after (iputils.to_int x) ds = iputils.to_int (number_from x ds).
Proof.
  induction ds as [| c ds IH]; intros x; [ reflexivity | ].
  change (segment_after (iputils.to_int x) (c :: ds))
    with (segment_after
            (iputils.to_int
               (iputils.to_int (iputils.to_int (iputils.to_int x * 10) + ipv6.code c) - 48))
            ds).
  rewrite to_int_step, IH; reflexivity.
Qed.

Lemma segment_after_zero (ds : list ascii) :
  segment_after 0 ds = iputils.to_int (number ds).
Proof. exact (segment_after_number ds 0). Qed.

(** The loop over a run of digits. *)
Lemma address_loop_digits (ds rest : list ascii) :
  Forall (fun x => digit x = true) ds ->
  forall seg dc,
    iputils.address_loop (ds ++ rest) seg dc
    = iputils.address_loop rest (segment_after seg ds) dc.
Proof.
  induction 1 as [| c ds Hc Hds IH]; intros seg dc; [ reflexivity | ].
  pose proof (digit_code c Hc) as Hcode.
  cbn [app iputils.address_loop].
  rewrite (digit_not_dot c Hc).
  destruct (Z.ltb_spec (ipv6.code c) 48); [ lia | ].
  destruct (Z.gtb_spec (ipv6.code c) 57); [ lia | ].
  cbn [orb].
  apply IH.
Qed.

(** What a run of the loop that ends with ipv4 went over: digits up to
    the end of the text with three dots seen, or digits up to a dot that
    is not followed by another, with the loop going on behind it. *)
Lemma address_loop_ipv4 (l : list ascii) :
  forall seg dc,
    iputils.address_loop l seg dc = address_type.ipv4 ->
    exists ds rest,
      l = ds ++ rest
      /\ Forall (fun x => digit x = true) ds
      /\ segment_after seg ds <= 255
      /\ ((rest = [] /\ dc = 3)
          \/ exists rest',
               rest = iputils.dot :: rest'
               /\ ~ (dc = 0 /\ segment_after seg ds = 0)
               /\ (forall tl, rest' <> iputils.dot :: tl)
               /\ iputils.address_loop rest' 0 (iputils.to_int (dc + 1)) = address_type.ipv4).
Proof.
  induction l as [| c l IH]; intros seg dc H.
  - cbn [iputils.address_loop] in H.
    destruct (Z.eqb_spec dc 3) as [E | E]; cbn [negb] in H; [ | discriminate H ].
    destruct (Z.gtb_spec seg 255); [ discriminate H | ].
    exists [], []; repeat split; [ constructor | cbn; lia | left; split; [ reflexivity | exact E ] ].
  - cbn [iputils.address_loop] in H.
    destruct (Ascii.eqb_spec c iputils.dot) as [Ec | Ec].
    + subst c.
      destruct (match l with c' :: _ => Ascii.eqb c' iputils.dot | [] => false end) eqn:Hnext;
        [ discriminate H | ].
      destruct (Z.gtb_spec seg 255); [ discriminate H | ].
      destruct ((dc =? 0) && (seg =? 0)) eqn:Hfirst; [ discriminate H | ].
      exists [], (iputils.dot :: l); repeat split; [ constructor | cbn; lia | ].
      right; exists l; repeat split.
      * intros [Hd Hs]; cbn in Hs; subst dc seg; discriminate Hfirst.
      * intros tl E; subst l; cbn in Hnext; discriminate Hnext.
      * exact H.
    + destruct ((ipv6.code c <? 48) || (ipv6.code c >? 57)) eqn:Hrange; [ discriminate H | ].
      apply orb_false_elim in Hrange; destruct Hrange as [Hlo Hhi].
      apply Z.ltb_ge in Hlo.
      assert (Hhi' : ipv6.code c <= 57) by (destruct (Z.gtb_spec (ipv6.code c) 57); [ discriminate | lia ]).
      destruct (IH _ dc H) as (ds & rest & El & Hds & Hn & Hrest).
      exists (c :: ds), rest; repeat split.
      * subst l; reflexivity.
      * constructor; [ unfold digit; apply andb_true_intro; split; apply Z.leb_le; lia | exact Hds ].
      * exact Hn.
      * exact Hrest.
Qed.

(** With more than three dots seen the loop never ends with ipv4, as
    long as the count of the dots stays within [int]. *)
Lemma address_loop_dots (l : list ascii) :
  forall seg dc,
    3 < dc -> dc + Z.of_nat (length l) < 2 ^ 31 ->
    iputils.address_loop l seg dc <> address_type.ipv4.
Proof.
  induction l as [| c l IH]; intros seg dc Hdc Hlen; cbn [iputils.address_loop].
  - destruct (Z.eqb_spec dc 3); [ lia | discriminate ].
  - cbn [length] in Hlen.
    destruct (Ascii.eqb c iputils.dot).
    + destruct (match l with c' :: _ => Ascii.eqb c' iputils.dot | [] => false end);
        [ discriminate | ].
      destruct (seg >? 255); [ discriminate | ].
      destruct ((dc =? 0) && (seg =? 0)); [ discriminate | ].
      rewrite to_int_small by lia.
      apply IH; lia.
    + destruct ((ipv6.code c <? 48) || (ipv6.code c >? 57)); [ discriminate | ].
      apply IH; [ exact Hdc | lia ].
Qed.

(** A run of digits ends at the first dot: two ways of cutting a text
    into a run of digits, a dot and a rest are the same. *)
Lemma run_split_unique (a a' r r' : list ascii) :
  Forall (fun x => digit x = true) a -> Forall (fun x => digit x = true) a' ->
  a ++ iputils.dot :: r = a' ++ iputils.dot :: r' -> a = a' /\ r = r'.
Proof.
  intros Ha; revert a'; induction Ha as [| x a Hx _ IH]; intros a' Ha' E.
  - destruct Ha' as [| y a' Hy _]; cbn [app] in E.
    + injection E as E; split; [ reflexivity | exact E ].
    + injection E as E _; subst y; discriminate Hy.
  - destruct Ha' as [| y a' Hy Ha']; cbn [app] in E.
    + injection E as E _; subst x; discriminate Hx.
    + injection E as E1 E2; subst y.
      destruct (IH a' Ha' E2) as [E3 E4]; subst; split; reflexivity.
Qed.

Lemma find_from_no_colon (l : list ascii) (i : Z) :
  Forall (fun x => Ascii.eqb x ipv6.colon = false) l -> ipv6.find_from l i = npos.
Proof.
  intros H; revert i; induction H as [| c l Hc _ IH]; intros i; [ reflexivity | ].
  cbn [ipv6.find_from]; rewrite Hc; apply IH.
Qed.

(** The first turn of the left half on a text without a colon: the
    whole text is one group, refused when it has more than four
    characters. *)
Lemma left_half_one_long_group (fuel : nat) (s buf : list ascii) :
  ipv6.size s < npos -> 4 < ipv6.size s ->
  Forall (fun x => Ascii.eqb x ipv6.colon = false) s ->
  ipv6.left_half (S fuel) s (ipv6.size s) buf 0 0 = None.
Proof.
  intros Hsize Hlen Hcolon.
  cbn [ipv6.left_half].
  change (0 <? 8) with true.
  destruct (Z.ltb_spec 0 (ipv6.size s)); [ | lia ].
  cbn [andb].
  unfold ipv6.find; cbn [Z.to_nat skipn].
  rewrite find_from_no_colon by assumption.
  rewrite Z.eqb_refl.
  destruct (Z.eqb_spec (ipv6.size s) 0); [ lia | ].
  rewrite Z.sub_0_r, wrap_small by (unfold npos, ipv6.size in *; lia).
  destruct (Z.gtb_spec (ipv6.size s) 4); [ reflexivity | lia ].
Qed.

(** A text of five or more characters without a colon that does not
    start with a bracket has no long form. *)
Lemma no_colon_no_long_form (s : list ascii) :
  ipv6.size s < npos -> 4 < ipv6.size s ->
  Forall (fun x => Ascii.eqb x ipv6.colon = false) s ->
  (forall tl, s <> "["%char :: tl) ->
  ipv6.do_get_ipv6_long_form s = [].
Proof.
  intros Hsize Hlen Hcolon Hbr.
  unfold ipv6.do_get_ipv6_long_form.
  assert (Hb : match s with c :: _ => Ascii.eqb c "["%char | [] => false end = false).
  { destruct s as [| c tl]; [ reflexivity | ].
    destruct (Ascii.eqb_spec c "["%char) as [E | E]; [ subst c; destruct (Hbr tl eq_refl) | reflexivity ]. }
  rewrite Hb; cbn [andb].
  rewrite Z.sub_0_r, wrap_small by (unfold npos, ipv6.size in *; lia).
  destruct (Z.ltb_spec (ipv6.size s) 2); [ lia | ].
  destruct (Z.gtb_spec (ipv6.size s) 39); [ reflexivity | ].
  cbn [orb].
  rewrite (left_half_one_long_group 8) by assumption.
  reflexivity.
Qed.

(** A text the compiled loop takes for IPv4 has no long form and takes
    the loop to ipv4. *)
Lemma as_compiled_type (s : list ascii) :
  ipv6.size s < npos -> ipv4_as_compiled s ->
  iputils.do_get_address_type s = address_type.ipv4.
Proof.
  intros Hsize (a & b & c & d & Es & Hdig & Hb & Hc & Ha & Ha0 & Hnb & Hnc & Hnd).
  apply Forall_app in Hdig; destruct Hdig as [Hda Hdig].
  apply Forall_app in Hdig; destruct Hdig as [Hdb Hdig].
  apply Forall_app in Hdig; destruct Hdig as [Hdc Hdd].
  assert (Hane : a <> []) by (intros E; subst a; apply Ha0; reflexivity).
  unfold iputils.do_get_address_type.
  rewrite no_colon_no_long_form.
  - cbn [iputils.empty negb]; subst s.
    rewrite address_loop_digits, segment_after_zero by assumption.
    cbn [iputils.address_loop]; rewrite Ascii.eqb_refl.
    destruct b as [| b0 b]; [ contradiction | ].
    inversion Hdb as [| ? ? Hb0 Hdb']; subst.
    cbn [app]; rewrite (digit_not_dot b0 Hb0).
    destruct (Z.gtb_spec (iputils.to_int (number a)) 255); [ lia | ].
    destruct (Z.eqb_spec (iputils.to_int (number a)) 0); [ contradiction | ].
    cbn [Z.eqb andb].
    change (iputils.to_int (0 + 1)) with 1.
    change (b0 :: b ++ iputils.dot :: c ++ iputils.dot :: d)
      with ((b0 :: b) ++ iputils.dot :: c ++ iputils.dot :: d).
    rewrite address_loop_digits, segment_after_zero by assumption.
    cbn [iputils.address_loop]; rewrite Ascii.eqb_refl.
    destruct c as [| c0 c]; [ contradiction | ].
    inversion Hdc as [| ? ? Hc0 Hdc']; subst.
    cbn [app]; rewrite (digit_not_dot c0 Hc0).
    destruct (Z.gtb_spec (iputils.to_int (number (b0 :: b))) 255); [ lia | ].
    change (1 =? 0) with false; cbn [andb].
    change (iputils.to_int (1 + 1)) with 2.
    change (c0 :: c ++ iputils.dot :: d) with ((c0 :: c) ++ iputils.dot :: d).
    rewrite address_loop_digits, segment_after_zero by assumption.
    cbn [iputils.address_loop]; rewrite Ascii.eqb_refl.
    assert (Hd0 : match d with c' :: _ => Ascii.eqb c' iputils.dot | [] => false end = false).
    { destruct d as [| d0 d]; [ reflexivity | ].
      inversion Hdd; subst; apply digit_not_dot; assumption. }
    rewrite Hd0.
    destruct (Z.gtb_spec (iputils.to_int (number (c0 :: c))) 255); [ lia | ].
    change (2 =? 0) with false; cbn [andb].
    change (iputils.to_int (2 + 1)) with 3.
    rewrite <- (app_nil_r d).
    rewrite address_loop_digits, segment_after_zero by assumption.
    cbn [iputils.address_loop].
    change (3 =? 3) with true; cbn [negb].
    destruct (Z.gtb_spec (iputils.to_int (number d)) 255); [ lia | reflexivity ].
  - exact Hsize.
  - subst s; unfold ipv6.size.
    destruct a as [| a0 a]; [ contradiction | ].
    destruct b as [| b0 b]; [ contradiction | ].
    destruct c as [| c0 c]; [ contradiction | ].
    cbn [app length]; rewrite !length_app; cbn [length]; rewrite !length_app; cbn [length];
      rewrite !length_app; cbn [length]; lia.
  - subst s.
    assert (Hnc' : forall l, Forall (fun x => digit x = true) l ->
                             Forall (fun x => Ascii.eqb x ipv6.colon = false) l).
    { intros l Hl; eapply Forall_impl; [ | exact Hl ]; intros x; apply digit_not_colon. }
    repeat (apply Forall_app; split; [ auto | ]; constructor; [ reflexivity | ]).
    auto.
  - intros tl E; subst s.
    destruct a as [| a0 a]; [ contradiction | ].
    inversion Hda as [| ? ? Ha0' _]; subst.
    cbn [app] in E; injection E as E0 _; subst a0; discriminate Ha0'.
Qed.

(** The number of a run within [int] is what the loop holds. *)
Lemma number_as_int (ds : list ascii) :
  Forall (fun x => digit x = true) ds -> number ds <= iputils.INT_MAX ->
  0 <= number ds /\ iputils.to_int (number ds) = number ds.
Proof.
  intros Hds Hn.
  pose proof (number_from_grows ds Hds 0 ltac:(lia)) as Hg.
  unfold number in *; split; [ exact Hg | ].
  apply to_int_small; unfold iputils.INT_MAX in Hn; lia.
Qed.

(** An ipv4 text is one the compiled loop takes for IPv4. *)
Lemma ipv4_text_as_compiled (s : list ascii) : ipv4_text s -> ipv4_as_compiled s.
Proof.
  intros (a & b & c & d & Es & Hdig & Hb & Hc & Ha & Hnb & Hnc & Hnd).
  pose proof Hdig as Hall.
  apply Forall_app in Hdig; destruct Hdig as [Hda Hdig].
  apply Forall_app in Hdig; destruct Hdig as [Hdb Hdig].
  apply Forall_app in Hdig; destruct Hdig as [Hdc Hdd].
  destruct (number_as_int a Hda ltac:(unfold iputils.INT_MAX; lia)) as [_ Ea].
  destruct (number_as_int b Hdb ltac:(unfold iputils.INT_MAX; lia)) as [_ Eb].
  destruct (number_as_int c Hdc ltac:(unfold iputils.INT_MAX; lia)) as [_ Ec].
  destruct (number_as_int d Hdd ltac:(unfold iputils.INT_MAX; lia)) as [_ Ed].
  exists a, b, c, d; rewrite Ea, Eb, Ec, Ed.
  repeat split; try assumption; lia.
Qed.

(** An ipv4 text has no long form and takes the loop to ipv4. *)
Lemma ipv4_text_type (s : list ascii) :
  ipv6.size s < npos -> ipv4_text s ->
  iputils.do_get_address_type s = address_type.ipv4.
Proof.
  intros Hsize Htext; apply as_compiled_type; [ exact Hsize | ].
  apply ipv4_text_as_compiled; exact Htext.
Qed.

(** What an answer ipv4 says of the text. *)
Lemma type_as_compiled (s : list ascii) :
  ipv6.size s < 2 ^ 31 ->
  iputils.do_get_address_type s = address_type.ipv4 -> ipv4_as_compiled s.
Proof.
  intros Hsize; unfold iputils.do_get_address_type.
  destruct (negb (iputils.empty (ipv6.do_get_ipv6_long_form s))); [ discriminate | ].
  intros H.
  destruct (address_loop_ipv4 s 0 0 H)
    as (a & r0 & Es & Ha & Hna & [[_ E] | (r1 & Er0 & Hfirst & Hnext1 & H1)]);
    [ discriminate E | ].
  change (iputils.to_int (0 + 1)) with 1 in H1.
  destruct (address_loop_ipv4 r1 0 1 H1)
    as (b & r & Er1 & Hb & Hnb & [[_ E] | (r2 & Er & _ & Hnext2 & H2)]);
    [ discriminate E | ].
  subst r.
  change (iputils.to_int (1 + 1)) with 2 in H2.
  destruct (address_loop_ipv4 r2 0 2 H2)
    as (c & r & Er2 & Hc & Hnc & [[_ E] | (r3 & Er & _ & Hnext3 & H3)]);
    [ discriminate E | ].
  subst r.
  change (iputils.to_int (2 + 1)) with 3 in H3.
  destruct (address_loop_ipv4 r3 0 3 H3)
    as (d & r & Er3 & Hd & Hnd & [[Er _] | (r4 & Er & _ & _ & H4)]).
  - subst r r0; rewrite app_nil_r in Er3; subst r3 r2 r1 s.
    rewrite !segment_after_zero in *.
    exists a, b, c, d; repeat split; try assumption.
    + repeat (apply Forall_app; split; try assumption).
    + intros E; subst b; apply (Hnext1 (c ++ iputils.dot :: d)); reflexivity.
    + intros E; subst c; apply (Hnext2 d); reflexivity.
    + intros E; apply Hfirst; split; [ reflexivity | exact E ].
  - change (iputils.to_int (3 + 1)) with 4 in H4.
    exfalso; apply (address_loop_dots r4 0 4 ltac:(lia)); [ | exact H4 ].
    subst r r0 r1 r2 r3 s; unfold ipv6.size in Hsize.
    rewrite !length_app in Hsize; cbn [length] in Hsize.
    rewrite !length_app in Hsize; cbn [length] in Hsize.
    rewrite !length_app in Hsize; cbn [length] in Hsize.
    rewrite !length_app in Hsize; cbn [length] in Hsize.
    unfold ipv6.Char in *; lia.
Qed.

(** do_get_address_type answers ipv4 for exactly the texts, of less than
    2^31 characters, of the form a.b.c.d where a, b, c and d are runs of
    decimal digits, b and c are not empty, and the number of every run,
    as the 32-bit int of the loop holds it (wrapped around), is at most
    255 and that of a is not 0. Hence every text with numbers 1..255 for a
    and 0..255 for b, c and d is ipv4, leading zeros accepted and d
    possibly empty (1.2.3. is ipv4, 0.0.0.0 is not); a text whose runs
    spell numbers within int is ipv4 only if its numbers are such; and a
    run beyond int counts by its wrapped value. *)
Theorem address_type_ipv4_texts (s : list ascii) :
  ipv6.size s < 2 ^ 31 ->
  (iputils.do_get_address_type s = address_type.ipv4 <-> ipv4_as_compiled s)
  /\ (ipv4_text s -> iputils.do_get_address_type s = address_type.ipv4)
  /\ (forall a b c d,
        s = a ++ iputils.dot :: b ++ iputils.dot :: c ++ iputils.dot :: d ->
        Forall (fun x => digit x = true) (a ++ b ++ c ++ d) ->
        number a <= iputils.INT_MAX -> number b <= iputils.INT_MAX ->
        number c <= iputils.INT_MAX -> number d <= iputils.INT_MAX ->
        iputils.do_get_address_type s = address_type.ipv4 ->
        b <> [] /\ c <> []
        /\ 0 < number a <= 255 /\ number b <= 255 /\ number c <= 255 /\ number d <= 255).
Proof.
  intros Hsize.
  assert (Hnpos : ipv6.size s < npos) by (unfold npos, modulus; lia).
  split; [ split; [ apply type_as_compiled; exact Hsize | apply as_compiled_type; exact Hnpos ] | ].
  split; [ apply ipv4_text_type; exact Hnpos | ].
  intros a b c d Es Hdig Ia Ib Ic Id Htype.
  destruct (type_as_compiled s Hsize Htype)
    as (a' & b' & c' & d' & Es' & Hdig' & Hb & Hc & Ha & Ha0 & Hnb & Hnc & Hnd).
  apply Forall_app in Hdig; destruct Hdig as [Hda Hdig].
  apply Forall_app in Hdig; destruct Hdig as [Hdb Hdig].
  apply Forall_app in Hdig; destruct Hdig as [Hdc Hdd].
  apply Forall_app in Hdig'; destruct Hdig' as [Hda' Hdig'].
  apply Forall_app in Hdig'; destruct Hdig' as [Hdb' Hdig'].
  apply Forall_app in Hdig'; destruct Hdig' as [Hdc' Hdd'].
  rewrite Es in Es'.
  destruct (run_split_unique _ _ _ _ Hda Hda' Es') as [Ea E1].
  destruct (run_split_unique _ _ _ _ Hdb Hdb' E1) as [Eb E2].
  destruct (run_split_unique _ _ _ _ Hdc Hdc' E2) as [Ec Ed].
  subst a' b' c' d'.
  destruct (number_as_int a Hda Ia) as [Pa Qa].
  destruct (number_as_int b Hdb Ib) as [Pb Qb].
  destruct (number_as_int c Hdc Ic) as [Pc Qc].
  destruct (number_as_int d Hdd Id) as [Pd Qd].
  rewrite Qa in Ha, Ha0; rewrite Qb in Hnb; rewrite Qc in Hnc; rewrite Qd in Hnd.
  repeat split; try assumption; lia.
Qed.

(** The text 4294967297.1.1.1: its first run spells 2^32 + 1, which the
    loop holds as 1, and the answer is ipv4. *)
Lemma address_type_ipv4_texts_witness :
  ipv6.size (list_ascii_of_string "4294967297.1.1.1") < 2 ^ 31
  /\ iputils.do_get_address_type (list_ascii_of_string "4294967297.1.1.1")
     = address_type.ipv4
  /\ ipv4_as_compiled (list_ascii_of_string "4294967297.1.1.1").
Proof.
  assert (Hsize : ipv6.size (list_ascii_of_string "4294967297.1.1.1") < 2 ^ 31)
    by (vm_compute; reflexivity).
  assert (Htype : iputils.do_get_address_type (list_ascii_of_string "4294967297.1.1.1")
                  = address_type.ipv4) by (vm_compute; reflexivity).
  destruct (address_type_ipv4_texts (list_ascii_of_string "4294967297.1.1.1") Hsize)
    as [[H _] _].
  exact (conj Hsize (conj Htype (H Htype))).
Defined.

(** ** The result of get_ipv6_long_form *)

Lemma stored_is_lower_hex (c c' : ascii) :
  ipv6.stored c = Some c' -> ipv6.lower_hex c' = true.
Proof.
  intros H.
  destruct c as [[] [] [] [] [] [] [] []]; vm_compute in H; try discriminate H;
    injection H as <-; reflexivity.
Qed.

Lemma store_at_keeps_shape (t buf : list ascii) :
  Forall2 slot_ok t buf ->
  forall i c, digit_place t i = true -> ipv6.lower_hex c = true ->
              Forall2 slot_ok t (ipv6.store_at buf i c).
Proof.
  induction 1 as [| t0 b0 t buf H0 Hrest IH]; intros i c Hi Hc; [ constructor | ].
  destruct i as [| i]; cbn [ipv6.store_at].
  - constructor; [ | assumption ].
    unfold digit_place in Hi; cbn [nth] in Hi; unfold slot_ok.
    destruct (Ascii.eqb t0 ipv6.colon); [ discriminate Hi | exact Hc ].
  - constructor; [ exact H0 | apply IH; [ exact Hi | exact Hc ] ].
Qed.

Lemma digit_places (seg j : Z) :
  0 <= seg <= 7 -> 0 <= j <= 3 ->
  digit_place ipv6.initial_buf (Z.to_nat (5 * seg + j)) = true.
Proof.
  intros Hs Hj.
  assert (Es : seg = 0 \/ seg = 1 \/ seg = 2 \/ seg = 3 \/ seg = 4 \/ seg = 5 \/ seg = 6 \/ seg = 7)
    by lia.
  assert (Ej : j = 0 \/ j = 1 \/ j = 2 \/ j = 3) by lia.
  repeat (destruct Es as [Es | Es]; try subst seg);
    repeat (destruct Ej as [Ej | Ej]; try subst j); reflexivity.
Qed.

Lemma copy_up_keeps_shape (chars : list ascii) :
  forall buf buf1 out seg,
    shaped buf -> 0 <= seg <= 7 ->
    5 * seg <= out -> out + Z.of_nat (length chars) <= 5 * seg + 4 ->
    ipv6.copy_up chars buf out = Some buf1 -> shaped buf1.
Proof.
  induction chars as [| c chars IH]; intros buf buf1 out seg Hb Hseg Hlo Hhi H;
    cbn [ipv6.copy_up] in H.
  - injection H as <-; exact Hb.
  - destruct (ipv6.stored c) as [c' |] eqn:Hc; [ | discriminate H ].
    cbn [length] in Hhi.
    apply (IH _ _ _ seg) in H; [ exact H | | lia | lia | lia ].
    apply store_at_keeps_shape; [ exact Hb | | exact (stored_is_lower_hex _ _ Hc) ].
    replace out with (5 * seg + (out - 5 * seg)) by lia.
    apply digit_places; lia.
Qed.

Lemma copy_down_keeps_shape (chars : list ascii) :
  forall buf buf1 out seg,
    shaped buf -> 0 <= seg <= 7 ->
    5 * seg <= out - Z.of_nat (length chars) -> out <= 5 * seg + 4 ->
    ipv6.copy_down chars buf out = Some buf1 -> shaped buf1.
Proof.
  induction chars as [| c chars IH]; intros buf buf1 out seg Hb Hseg Hlo Hhi H;
    cbn [ipv6.copy_down] in H.
  - injection H as <-; exact Hb.
  - destruct (ipv6.stored c) as [c' |] eqn:Hc; [ | discriminate H ].
    cbn [length] in Hlo.
    apply (IH _ _ _ seg) in H; [ exact H | | lia | lia | lia ].
    apply store_at_keeps_shape; [ exact Hb | | exact (stored_is_lower_hex _ _ Hc) ].
    replace (out - 1) with (5 * seg + (out - 1 - 5 * seg)) by lia.
    apply digit_places; lia.
Qed.

Lemma length_slice (s : list ascii) (from to : Z) :
  (length (ipv6.slice s from to) <= Z.to_nat (to - from))%nat.
Proof. unfold ipv6.slice; apply firstn_le_length. Qed.

(** The left half keeps the layout of the buffer. *)
Lemma left_half_keeps_shape (s : list ascii) (end_ : Z) :
  ipv6.size s < npos -> end_ <= ipv6.size s ->
  forall fuel buf ls start buf1 ls1 start1,
    shaped buf -> 0 <= ls -> 0 <= start ->
    ipv6.left_half fuel s end_ buf ls start = Some (buf1, ls1, start1) ->
    shaped buf1 /\ 0 <= ls1 /\ 0 <= start1.
Proof.
  intros Hsize Hend.
  induction fuel as [| fuel IH]; intros buf ls start buf1 ls1 start1 Hb Hls Hstart H;
    cbn [ipv6.left_half] in H.
  - injection H as <- <- <-; auto.
  - destruct ((ls <? 8) && (start <? end_)) eqn:Hcond;
      [ | injection H as <- <- <-; auto ].
    apply andb_prop in Hcond; destruct Hcond as [Hls8 Hlt].
    apply Z.ltb_lt in Hls8; apply Z.ltb_lt in Hlt.
    set (pos := if ipv6.find s start =? npos then end_ else ipv6.find s start) in *.
    assert (Hpos : start <= pos <= ipv6.size s).
    { unfold pos.
      destruct (find_spec s start Hstart Hsize) as [[Hn _] | [Hr _]].
      - rewrite Hn, Z.eqb_refl; lia.
      - destruct (Z.eqb_spec (ipv6.find s start) npos); lia. }
    destruct (Z.eqb_spec pos start) as [E | E].
    + destruct (ls =? 0).
      * destruct (negb (Ascii.eqb (ipv6.at_ s (start + 1)) ipv6.colon)); [ discriminate H | ].
        injection H as <- <- <-; repeat split; try assumption; lia.
      * injection H as <- <- <-; repeat split; try assumption; lia.
    + rewrite wrap_small in H by (unfold npos in *; lia).
      destruct (Z.gtb_spec (pos - start) 4) as [Hg | Hg]; [ discriminate H | ].
      destruct (ipv6.copy_up _ _ _) as [buf2 |] eqn:Hcopy; [ | discriminate H ].
      apply IH in H; [ exact H | | lia | lia ].
      pose proof (length_slice s start pos) as Hl.
      apply (copy_up_keeps_shape _ _ _ _ ls Hb) in Hcopy;
        [ exact Hcopy | lia | lia | unfold ipv6.Char in *; lia ].
Qed.

(** The right half keeps the layout of the buffer. *)
Lemma right_half_keeps_shape (s : list ascii) (start ls : Z) :
  0 <= start -> 0 <= ls ->
  forall fuel buf rs end_ buf1 end1,
    shaped buf -> 0 <= rs -> end_ <= npos ->
    ipv6.right_half fuel s start ls buf rs end_ = Some (buf1, end1) ->
    shaped buf1.
Proof.
  intros Hstart Hls.
  induction fuel as [| fuel IH]; intros buf rs end_ buf1 end1 Hb Hrs Hend H;
    cbn [ipv6.right_half] in H.
  - injection H as <- _; exact Hb.
  - destruct ((ls + rs <? 8) && (start <? end_)) eqn:Hcond;
      [ | injection H as <- _; exact Hb ].
    apply andb_prop in Hcond; destruct Hcond as [Hseg Hlt].
    apply Z.ltb_lt in Hseg; apply Z.ltb_lt in Hlt.
    set (pos := ipv6.rfind s (end_ - 1)) in *.
    destruct (wrap (end_ - 1 - pos) =? 0).
    + destruct (negb (ls =? 0) || negb (rs =? 0)); [ discriminate H | ].
      injection H as <- _; exact Hb.
    + destruct (Z.gtb_spec (wrap (end_ - 1 - pos)) 4) as [Hg | Hg]; [ discriminate H | ].
      destruct (ipv6.copy_down _ _ _) as [buf2 |] eqn:Hcopy; [ | discriminate H ].
      assert (Hpos : pos = npos \/ 0 <= pos <= end_ - 1).
      { unfold pos; destruct (rfind_spec s (end_ - 1) ltac:(lia)) as [[Hn _] | [Hr _]]; auto. }
      apply IH in H; [ exact H | | lia | lia ].
      apply (copy_down_keeps_shape _ _ _ _ (7 - rs) Hb) in Hcopy;
        [ exact Hcopy | lia | | lia ].
      destruct (Z.ltb_spec pos (end_ - 1)) as [Hp | Hp]; [ | cbn [length]; lia ].
      destruct Hpos as [Hpos | Hpos]; [ unfold npos in *; lia | ].
      rewrite wrap_small in Hg by (unfold npos in *; lia).
      rewrite length_rev.
      pose proof (length_slice s (pos + 1) (end_ - 1 + 1)) as Hl; unfold ipv6.Char in *; lia.
Qed.

Lemma initial_buf_shaped : shaped ipv6.initial_buf.
Proof. repeat constructor. Qed.

(** A buffer with the layout of the initial buffer is a long form. *)
Lemma shaped_is_long_form (buf : list ascii) : shaped buf -> ipv6.is_long_form buf.
Proof.
  unfold shaped; intros H.
  cbv [ipv6.initial_buf list_ascii_of_string] in H.
  repeat match goal with
         | H : Forall2 _ (_ :: _) _ |- _ => inversion H; subst; clear H
         end.
  match goal with H : Forall2 _ [] _ |- _ => inversion H; subst; clear H end.
  repeat match goal with
         | H : slot_ok _ _ |- _ => cbv [slot_ok Ascii.eqb Bool.eqb ipv6.colon] in H
         end.
  subst.
  match goal with
  | |- ipv6.is_long_form [?a0; ?a1; ?a2; ?a3; _; ?b0; ?b1; ?b2; ?b3; _; ?c0; ?c1; ?c2; ?c3; _;
                          ?d0; ?d1; ?d2; ?d3; _; ?e0; ?e1; ?e2; ?e3; _; ?f0; ?f1; ?f2; ?f3; _;
                          ?g0; ?g1; ?g2; ?g3; _; ?h0; ?h1; ?h2; ?h3] =>
      exists [[a0; a1; a2; a3]; [b0; b1; b2; b3]; [c0; c1; c2; c3]; [d0; d1; d2; d3];
              [e0; e1; e2; e3]; [f0; f1; f2; f3]; [g0; g1; g2; g3]; [h0; h1; h2; h3]]
  end.
  split; [ reflexivity | split; [ | reflexivity ] ].
  repeat constructor; assumption.
Qed.

(** Whatever do_get_ipv6_long_form is given, it returns the empty string
    or a long form: eight groups of four lower-case hexadecimal digits
    joined by colons. So it returns its own results unchanged, and the
    empty string for the empty string: applying it twice is the same as
    applying it once. *)
Theorem long_form_or_nothing (s : list ascii) :
  ipv6.size s < npos ->
  let r := ipv6.do_get_ipv6_long_form s in
  (r = [] \/ ipv6.is_long_form r)
  /\ ipv6.do_get_ipv6_long_form r = r.
Proof.
  intros Hsize r.
  assert (Hr : r = [] \/ ipv6.is_long_form r).
  { unfold r, ipv6.do_get_ipv6_long_form.
    set (bracket := match s with c :: _ => Ascii.eqb c "["%char | [] => false end).
    destruct (bracket && negb (Ascii.eqb (last s zero) "]"%char)); [ left; reflexivity | ].
    set (start := if bracket then 1 else 0).
    set (end_ := if bracket then ipv6.size s - 1 else ipv6.size s).
    destruct ((wrap (end_ - start) <? 2) || (wrap (end_ - start) >? 39));
      [ left; reflexivity | ].
    assert (Hstart : 0 <= start) by (unfold start; destruct bracket; lia).
    assert (Hend : end_ <= ipv6.size s) by (unfold end_; destruct bracket; lia).
    destruct (ipv6.left_half 9 s end_ ipv6.initial_buf 0 start) as [[[buf ls] start1] |] eqn:Hl;
      [ | left; reflexivity ].
    destruct (left_half_keeps_shape s end_ Hsize Hend 9 ipv6.initial_buf 0 start buf ls start1
                initial_buf_shaped ltac:(lia) Hstart Hl) as (Hb & Hls & Hs1).
    destruct (ipv6.right_half 9 s start1 ls buf 0 end_) as [[buf1 end1] |] eqn:Hrh;
      [ | left; reflexivity ].
    destruct (start1 <? end1); [ left; reflexivity | ].
    right; apply shaped_is_long_form.
    apply (right_half_keeps_shape s start1 ls Hs1 Hls 9 buf 0 end_ buf1 end1 Hb ltac:(lia)
             ltac:(unfold npos in *; lia) Hrh). }
  split; [ exact Hr | ].
  destruct Hr as [E | Hlf]; [ rewrite E; reflexivity | apply long_form_fixed; exact Hlf ].
Qed.

(** The short form ::1 is taken to a long form. *)
Lemma long_form_or_nothing_witness :
  ipv6.size (list_ascii_of_string "::1") < npos
  /\ ((ipv6.do_get_ipv6_long_form (list_ascii_of_string "::1") = []
       \/ ipv6.is_long_form (ipv6.do_get_ipv6_long_form (list_ascii_of_string "::1")))
      /\ ipv6.do_get_ipv6_long_form (ipv6.do_get_ipv6_long_form (list_ascii_of_string "::1"))
         = ipv6.do_get_ipv6_long_form (list_ascii_of_string "::1")).
Proof.
  split; [ vm_compute; reflexivity | ].
  apply (long_form_or_nothing (list_ascii_of_string "::1")); vm_compute; reflexivity.
Defined.

Lemma hex_not_colon (c : ascii) :
  ipv6.stored c <> None -> Ascii.eqb c ipv6.colon = false.
Proof.
  intros H; destruct (Ascii.eqb_spec c ipv6.colon) as [E | E]; [ | reflexivity ].
  subst c; destruct H; reflexivity.
Qed.

Lemma hex_not_bracket (c : ascii) :
  ipv6.stored c <> None -> Ascii.eqb c "["%char = false.
Proof.
  intros H; destruct (Ascii.eqb_spec c "["%char) as [E | E]; [ | reflexivity ].
  subst c; destruct H; reflexivity.
Qed.

(** The left half on a text without a colon of at most four characters:
    one group, copied to the first group of the buffer. *)
Lemma left_half_one_group (fuel : nat) (g buf : list ascii) :
  0 < ipv6.size g <= 4 ->
  Forall (fun x => Ascii.eqb x ipv6.colon = false) g ->
  ipv6.left_half (S (S fuel)) g (ipv6.size g) buf 0 0
  = match ipv6.copy_up g buf (4 - ipv6.size g) with
    | None => None
    | Some buf1 => Some (buf1, 1, ipv6.size g + 1)
    end.
Proof.
  intros Hlen Hcolon.
  cbn [ipv6.left_half].
  change (0 <? 8) with true.
  destruct (Z.ltb_spec 0 (ipv6.size g)); [ | lia ].
  cbn [andb].
  unfold ipv6.find; cbn [Z.to_nat skipn].
  rewrite find_from_no_colon by assumption.
  rewrite Z.eqb_refl.
  destruct (Z.eqb_spec (ipv6.size g) 0); [ lia | ].
  rewrite Z.sub_0_r, wrap_small by (unfold modulus; lia).
  destruct (Z.gtb_spec (ipv6.size g) 4); [ lia | ].
  unfold ipv6.slice; rewrite Z.sub_0_r; unfold ipv6.size at 1; rewrite Nat2Z.id.
  cbn [Z.to_nat skipn]; rewrite firstn_all.
  change (5 * 0 + (4 - ipv6.size g)) with (4 - ipv6.size g).
  destruct (ipv6.copy_up g buf (4 - ipv6.size g)) as [buf1 |]; [ | reflexivity ].
  change (0 + 1 <? 8) with true.
  destruct (Z.ltb_spec (ipv6.size g + 1) (ipv6.size g)); [ lia | reflexivity ].
Qed.

(** A text of two to four hexadecimal digits and nothing else is taken
    for an IPv6 address: do_get_ipv6_long_form makes it the first group,
    padded with zeros in front and in lower case, of an address whose
    other seven groups are 0000, and do_get_address_type answers ipv6.
    So abcd becomes abcd:0000:0000:0000:0000:0000:0000:0000. *)
Theorem lone_hex_group_is_ipv6 (g : list ascii) :
  (2 <= length g <= 4)%nat ->
  Forall (fun c => ipv6.stored c <> None) g ->
  ipv6.do_get_ipv6_long_form g
  = repeat "0"%char (4 - length g) ++ lowered g ++ zero_groups
  /\ iputils.do_get_address_type g = address_type.ipv6.
Proof.
  intros Hlen Hhex.
  assert (Hcolon : Forall (fun x => Ascii.eqb x ipv6.colon = false) g).
  { eapply Forall_impl; [ | exact Hhex ]; intros x; apply hex_not_colon. }
  assert (Hsize : 2 <= ipv6.size g <= 4) by (unfold ipv6.size; lia).
  assert (Hlong : ipv6.do_get_ipv6_long_form g
                  = repeat "0"%char (4 - length g) ++ lowered g ++ zero_groups).
  { unfold ipv6.do_get_ipv6_long_form.
    assert (Hb : match g with c :: _ => Ascii.eqb c "["%char | [] => false end = false).
    { destruct Hhex as [| c tl Hc _]; [ reflexivity | apply hex_not_bracket; exact Hc ]. }
    rewrite Hb; cbn [andb].
    rewrite Z.sub_0_r, wrap_small by (unfold modulus; lia).
    destruct (Z.ltb_spec (ipv6.size g) 2); [ lia | ].
    destruct (Z.gtb_spec (ipv6.size g) 39); [ lia | ].
    cbn [orb].
    rewrite (left_half_one_group 7) by (try assumption; lia).
    assert (Hcopy : ipv6.copy_up g ipv6.initial_buf (4 - ipv6.size g)
                    = Some (repeat "0"%char (4 - length g) ++ lowered g ++ zero_groups)).
    { destruct g as [| c1 [| c2 [| c3 [| c4 [| c5 tl]]]]]; cbn [length] in Hlen; try lia;
        repeat match goal with
               | H : Forall _ (_ :: _) |- _ => inversion H; subst; clear H
               end;
        unfold lowered; cbn [ipv6.copy_up map];
        repeat match goal with
               | H : ipv6.stored ?c <> None |- _ =>
                   destruct (ipv6.stored c); [ clear H | destruct H; reflexivity ]
               end;
        reflexivity. }
    rewrite Hcopy.
    cbn [ipv6.right_half].
    change (1 + 0 <? 8) with true.
    destruct (Z.ltb_spec (ipv6.size g + 1) (ipv6.size g)); [ lia | ].
    cbn [andb].
    destruct (Z.ltb_spec (ipv6.size g + 1) (ipv6.size g)); [ lia | reflexivity ]. }
  split; [ exact Hlong | ].
  unfold iputils.do_get_address_type; rewrite Hlong.
  destruct g as [| c1 [| c2 [| c3 [| c4 [| c5 tl]]]]]; cbn [length] in Hlen; try lia;
    reflexivity.
Qed.

(** The text abcd, four hexadecimal digits. *)
Lemma lone_hex_group_is_ipv6_witness :
  ipv6.get_ipv6_long_form "abcd" = "abcd:0000:0000:0000:0000:0000:0000:0000"%string
  /\ iputils.get_address_type "abcd" = address_type.ipv6.
Proof.
  destruct (lone_hex_group_is_ipv6 (list_ascii_of_string "abcd")) as [H1 H2].
  - cbn; lia.
  - repeat constructor; discriminate.
  - unfold ipv6.get_ipv6_long_form, iputils.get_address_type.
    rewrite H1, H2; split; reflexivity.
Defined.

(** ** is_routable_address *)

(** For an IPv4 text, do_is_routable_address goes by the characters and
    not by the numbers: a text of less than seven characters (one ending
    in a dot, as 1.2.3.) is not routable; a text beginning with 127, 10.,
    192.168 or 169.254 is not routable; and a text of seven or more
    characters beginning with 0 is routable whatever its numbers are, so
    010.0.0.1 and 0127.0.0.1 are reported routable. None of these answers
    depends on the library functions the other branches call. *)
Theorem routable_ipv4_goes_by_text
        (hex_char_to_int : ascii -> Z) (toString : Z -> list ascii)
        (to_integral : list ascii -> Z) (fuel : nat) (s : list ascii) :
  ipv6.size s < npos -> ipv4_text s ->
  let routable :=
    iputils.do_is_routable_address hex_char_to_int toString to_integral (S fuel) s in
  (ipv6.size s < 7 -> routable = Some false)
  /\ ((exists tl, s = list_ascii_of_string "127" ++ tl)
      \/ (exists tl, s = list_ascii_of_string "10." ++ tl)
      \/ (exists tl, s = list_ascii_of_string "192.168" ++ tl)
      \/ (exists tl, s = list_ascii_of_string "169.254" ++ tl) ->
      routable = Some false)
  /\ (7 <= ipv6.size s -> (exists tl, s = "0"%char :: tl) -> routable = Some true).
Proof.
  intros Hsize Htext routable.
  assert (Htype := ipv4_text_type s Hsize Htext).
  unfold routable; cbn [iputils.do_is_routable_address]; rewrite Htype.
  split; [ | split ].
  - intros Hshort; destruct (Z.ltb_spec (ipv6.size s) 7); [ reflexivity | lia ].
  - intros Hprefix.
    destruct (ipv6.size s <? 7); [ reflexivity | ].
    destruct Hprefix as [[tl E] | [[tl E] | [[tl E] | [tl E]]]]; subst s;
      cbn [list_ascii_of_string app iputils.substr firstn skipn iputils.string_eqb];
      rewrite ?Ascii.eqb_refl; cbn [andb orb];
      repeat match goal with
             | |- context [Ascii.eqb ?a ?b] =>
                 let v := eval vm_compute in (Ascii.eqb a b) in
                 change (Ascii.eqb a b) with v
             end;
      cbn [andb orb]; reflexivity.
  - intros Hlong [tl E]; subst s.
    destruct (Z.ltb_spec (ipv6.size ("0"%char :: tl)) 7); [ lia | ].
    cbn [list_ascii_of_string app iputils.substr firstn skipn iputils.string_eqb].
    repeat match goal with
           | |- context [Ascii.eqb ?a ?b] =>
               let v := eval vm_compute in (Ascii.eqb a b) in
               change (Ascii.eqb a b) with v
           end.
    cbn [andb orb]; reflexivity.
Qed.

(** The text 010.0.0.1, with any library functions. *)
Lemma routable_ipv4_goes_by_text_witness :
  iputils.do_is_routable_address (fun _ => 0) (fun _ => []) (fun _ => 0) 1
    (list_ascii_of_string "010.0.0.1") = Some true.
Proof.
  refine (proj2 (proj2 (routable_ipv4_goes_by_text (fun _ => 0) (fun _ => []) (fun _ => 0) 0
                          (list_ascii_of_string "010.0.0.1") _ _)) _ _).
  - vm_compute; reflexivity.
  - exists (list_ascii_of_string "010"), (list_ascii_of_string "0"),
      (list_ascii_of_string "0"), (list_ascii_of_string "1").
    split; [ reflexivity | ].
    split; [ repeat constructor | ].
    repeat split; try discriminate; vm_compute; try reflexivity; discriminate.
  - vm_compute; discriminate.
  - eexists; reflexivity.
Defined.

(** ** The worker of a file reader at the end of the data *)

Lemma notified_keeps_task (r : file_reader.t) (who : aio_waitable.signalled) :
  threaded_reader.task_ (file_reader.tr (file_reader.notified r who))
  = threaded_reader.task_ (file_reader.tr r)
  /\ threaded_reader.quit_ (file_reader.tr (file_reader.notified r who))
     = threaded_reader.quit_ (file_reader.tr r).
Proof.
  unfold file_reader.notified; destruct who as [| h | h]; try (split; reflexivity).
  destruct (Nat.eqb h (reader_base.self (file_reader.base r))); split; reflexivity.
Qed.

(** One turn of the worker of a reader that waits to be read: it takes a
    buffer from the pool, finds nothing to read, gives the buffer back
    and is at the head of its loop again. *)
Lemma turn_at_eof (r : file_reader.t) (pool : aio_buffer_pool.t) :
  waiting_to_be_read r -> pool_has_buffers pool ->
  exists r1 pool1 who,
    file_reader.entry_step r pool = Some (r1, pool1, who)
    /\ file_reader.base r1 = file_reader.base r
    /\ file_reader.file_ r1 = file_reader.file_ r
    /\ threaded_reader.task_ (file_reader.tr r1) = at_loop_head
    /\ threaded_reader.quit_ (file_reader.tr r1) = false
    /\ aio_buffer_pool.buffers_ pool1 = aio_buffer_pool.buffers_ pool.
Proof.
  intros (Ht & Hq & He & Heof & Hne & Hfull & Hrem) (Hclean & Hfree & Hptr).
  cbv zeta in *.
  destruct r as [[b c k q] f s]; destruct b as [self wt mx bufs sz msz st rem g e eof].
  cbn [file_reader.base file_reader.tr file_reader.file_ threaded_reader.base
       threaded_reader.task_ threaded_reader.quit_ reader_base.error_ reader_base.eof_
       reader_base.buffers_ reader_base.max_buffers_ reader_base.remaining_] in *.
  subst k q e eof.
  destruct (last_case (aio_buffer_pool.buffers_ pool)) as [E | (front & x & E)];
    [ contradiction | ].
  unfold pool_clean in Hclean; rewrite E in Hclean, Hptr.
  apply Forall_app in Hclean; destruct Hclean as [_ Hx]; inversion Hx as [| ? ? [Hb Hcap] _]; subst.
  apply Forall_app in Hptr; destruct Hptr as [_ Hp]; inversion Hp as [| ? ? Hp0 _]; subst.
  destruct x as [ptr cap bytes]; cbn [nb_bytes nb_capacity nb_ptr] in *; subst bytes.
  unfold file_reader.entry_step.
  cbn [file_reader.base file_reader.tr file_reader.file_ threaded_reader.base
       threaded_reader.task_ threaded_reader.quit_ reader_base.error_ reader_base.eof_
       reader_base.buffers_ reader_base.max_buffers_ reader_base.remaining_ orb
       reader_base.self].
  destruct (Z.eqb_spec (Z.of_nat (length bufs)) mx) as [E0 | _]; [ contradiction | ].
  unfold aio_buffer_pool.get_buffer; rewrite E, rev_app_distr; cbn [rev app].
  cbn [lease_pool negb lease_buffer nb_capacity].
  rewrite rev_involutive.
  assert (Hloop : file_reader.read_loop (S (Z.to_nat cap)) f (mk_nonowning_buffer ptr cap [])
                                        rem false true
                  = (f, mk_nonowning_buffer ptr cap [], rem, false, true)).
  { cbn [file_reader.read_loop].
    unfold nonowning_buffer_ops.size; cbn [nb_bytes nb_capacity length Z.of_nat].
    destruct (Z.ltb_spec 0 cap); [ | lia ].
    rewrite Z.sub_0_r, wrap_small by lia.
    destruct Hrem as [Hrem | (Hrem & Ho & Hio & Hpos & Hend)]; subst rem.
    - change (0 =? nosize) with false; cbn [negb andb].
      destruct (Z.gtb_spec cap 0); [ | lia ].
      reflexivity.
    - rewrite Z.eqb_refl; cbn [negb andb].
      destruct (Z.eqb_spec cap 0); [ lia | ].
      unfold file_ops.read; rewrite Ho, Hio; cbn [andb].
      rewrite skipn_all2 by (unfold file_ops.len in Hend; lia).
      rewrite firstn_nil; cbn [length Z.of_nat Z.ltb Z.compare Z.eqb].
      change (nosize =? 0) with false; cbn [negb andb].
      destruct f as [o bs p k i m];
        cbn [f_open f_bytes f_pos f_size_known f_io_ok f_mtime] in Ho, Hio |- *.
      subst o i; rewrite Z.add_0_r; reflexivity. }
  rewrite Hloop.
  unfold nonowning_buffer_ops.empty, nonowning_buffer_ops.size;
    cbn [nb_bytes length Z.of_nat Z.eqb negb andb orb].
  destruct (Z.eqb_spec (Z.of_nat (length bufs)) 0) as [E0 | _];
    [ destruct bufs; [ contradiction | discriminate E0 ] | ].
  cbn [andb].
  unfold aio_buffer_pool.release; cbn [nb_ptr].
  destruct (Z.eqb_spec ptr 0) as [E0 | _]; [ contradiction | ].
  cbn [aio_buffer_pool.set_buffers aio_buffer_pool.buffers_ aio_buffer_pool.waitable
       nonowning_buffer_ops.clear nb_ptr nb_capacity].
  destruct (aio_waitable.signal_availibility (aio_buffer_pool.waitable pool)) as [who3 w3].
  eexists _, _, _; split; [ reflexivity | ].
  match goal with
  | |- file_reader.base (file_reader.notified ?x ?w) = _ /\ _ =>
      destruct (notified_keeps x w) as [E1 E2];
        destruct (notified_keeps_task x w) as [E3 E4]; rewrite E1, E2, E3, E4
  end.
  cbn; repeat split; reflexivity.
Qed.

(** While buffers it has queued wait to be taken, the worker of a file
    reader that has found the end of the data does not sleep: each turn
    takes a free buffer from the pool, reads nothing, returns the buffer
    and starts over, leaving reader, file and free list as they were.
    Whatever the number of turns, the next turn is again such a turn: the
    worker spins until the client takes the queued buffers (or the pool
    runs dry or the queue is full). *)
Theorem worker_spins_at_end (r : file_reader.t) (pool : aio_buffer_pool.t) (n : nat) :
  waiting_to_be_read r -> pool_has_buffers pool ->
  let rn := fst (reader_turns n r pool) in
  let pn := snd (reader_turns n r pool) in
  file_reader.base rn = file_reader.base r
  /\ file_reader.file_ rn = file_reader.file_ r
  /\ aio_buffer_pool.buffers_ pn = aio_buffer_pool.buffers_ pool
  /\ exists r1 pool1 who,
       file_reader.entry_step rn pn = Some (r1, pool1, who)
       /\ threaded_reader.task_ (file_reader.tr r1) = at_loop_head.
Proof.
  revert r pool; induction n as [| n IH]; intros r pool Hr Hp; cbv zeta.
  - cbn [reader_turns fst snd].
    destruct (turn_at_eof r pool Hr Hp) as (r1 & pool1 & who & Hstep & _ & _ & Ht & _).
    repeat split; exists r1, pool1, who; split; assumption.
  - cbn [reader_turns].
    destruct (turn_at_eof r pool Hr Hp) as (r1 & pool1 & who & Hstep & Hb & Hf & Ht & Hq & Hbufs).
    rewrite Hstep.
    assert (Hr1 : waiting_to_be_read r1).
    { destruct Hr as (_ & _ & H3 & H4 & H5 & H6 & H7).
      unfold waiting_to_be_read; rewrite Hb, Hf; repeat split; assumption. }
    assert (Hp1 : pool_has_buffers pool1).
    { destruct Hp as (H1 & H2 & H3).
      unfold pool_has_buffers, pool_clean; rewrite Hbufs; repeat split; assumption. }
    destruct (IH r1 pool1 Hr1 Hp1) as (I1 & I2 & I3 & I4).
    rewrite I1, I2, I3, Hb, Hf, Hbufs; repeat split; exact I4.
Qed.

(** The reader of BCD with both buffers queued, three turns on. *)
Lemma worker_spins_at_end_witness :
  file_reader.base (fst (reader_turns 3 (fst bcd_reader_at_end) (snd bcd_reader_at_end)))
  = file_reader.base (fst bcd_reader_at_end)
  /\ threaded_reader.task_
       (file_reader.tr (fst (reader_turns 3 (fst bcd_reader_at_end) (snd bcd_reader_at_end))))
     = at_loop_head.
Proof.
  assert (Hr : waiting_to_be_read (fst bcd_reader_at_end)).
  { unfold waiting_to_be_read; cbv zeta.
    repeat split; try reflexivity; try (vm_compute; discriminate).
    left; reflexivity. }
  assert (Hp : pool_has_buffers (snd bcd_reader_at_end)).
  { unfold pool_has_buffers, pool_clean.
    let l := eval vm_compute in (aio_buffer_pool.buffers_ (snd bcd_reader_at_end)) in
    change (aio_buffer_pool.buffers_ (snd bcd_reader_at_end)) with l.
    split; [ | split ]; try discriminate;
      repeat constructor; cbn [nb_capacity nb_ptr]; unfold modulus; lia. }
  destruct (worker_spins_at_end (fst bcd_reader_at_end) (snd bcd_reader_at_end) 3 Hr Hp)
    as (H1 & _).
  split; [ exact H1 | reflexivity ].
Defined.

(** ** The copy demo *)

(** [get_buffer] for a handler hands out the front of the queue and
    leaves the file and the state of the reading alone. *)
Lemma handler_get_buffer_effect (r r1 : file_reader.t) (h : nat) (res : aio_result)
      (b : buffer_lease) :
  with_handler.get_buffer r h = (res, b, r1) ->
  file_reader.file_ r1 = file_reader.file_ r
  /\ reader_base.remaining_ (file_reader.base r1) = reader_base.remaining_ (file_reader.base r)
  /\ reader_base.eof_ (file_reader.base r1) = reader_base.eof_ (file_reader.base r)
  /\ reader_base.error_ (file_reader.base r1) = reader_base.error_ (file_reader.base r)
  /\ ((reader_base.buffers_ (file_reader.base r) = []
       /\ reader_base.buffers_ (file_reader.base r1) = []
       /\ b = empty_lease
       /\ res = (if reader_base.error_ (file_reader.base r) then error
                 else if reader_base.eof_ (file_reader.base r) then ok else wait))
      \/ (reader_base.buffers_ (file_reader.base r)
          = b :: reader_base.buffers_ (file_reader.base r1)
          /\ res = ok)).
Proof.
  unfold with_handler.get_buffer, threaded_reader.do_get_buffer.
  destruct r as [[bs c k q] f s]; destruct bs as [self wt mx bufs sz msz st rem g e eof].
  cbn [file_reader.tr threaded_reader.base reader_base.buffers_ reader_base.error_
       reader_base.eof_ file_reader.file_ file_reader.can_spawn file_reader.base].
  destruct bufs as [| front rest].
  - destruct e; [ | destruct eof ]; intros H; inversion H; subst; clear H; cbn;
      repeat split; left; repeat split.
  - cbn [reader_base.max_buffers_ reader_base.buffers_].
    destruct (_ =? mx);
      intros H; inversion H; subst; clear H; cbn; repeat split; right; split; reflexivity.
Qed.

(** [add_buffer] for a handler: in error nothing happens and the lease
    stays with the caller; else file, progress and the finalizing state
    are left alone and a lease with data goes to the back of the queue,
    while one without stays with the caller. *)
Lemma handler_add_buffer_effect (w w1 : file_writer.t) (b b1 : buffer_lease) (h : nat)
      (res : aio_result) :
  with_handler.add_buffer w b h = (res, w1, b1) ->
  (res = error /\ w1 = w /\ b1 = b /\ writer_base.error_ (file_writer.base w) = true)
  \/ (res <> error
      /\ writer_base.error_ (file_writer.base w1) = false
      /\ writer_base.error_ (file_writer.base w) = false
      /\ file_writer.file_ w1 = file_writer.file_ w
      /\ writer_base.progress_ (file_writer.base w1) = writer_base.progress_ (file_writer.base w)
      /\ writer_base.finalizing_ (file_writer.base w1)
         = writer_base.finalizing_ (file_writer.base w)
      /\ writer_base.buffers_ (file_writer.base w1)
         = writer_base.buffers_ (file_writer.base w)
           ++ (if writer_base.nothing_to_add b then [] else [b])
      /\ b1 = (if writer_base.nothing_to_add b then b else empty_lease)).
Proof.
  unfold with_handler.add_buffer.
  destruct (writer_base.error_ (file_writer.base w)) eqn:He.
  { intros H; inversion H; subst; left; repeat split; assumption. }
  destruct (writer_base.nothing_to_add b).
  { intros H; inversion H; subst; right; rewrite app_nil_r.
    repeat split; try assumption; discriminate. }
  unfold file_writer.do_add_buffer.
  destruct (Z.of_nat (length (writer_base.buffers_ (file_writer.base w) ++ [b])) =? 1);
    destruct (Z.of_nat (length (writer_base.buffers_ (file_writer.base w) ++ [b]))
              >=? writer_base.max_buffers_ (file_writer.base w));
    intros H; inversion H; subst; right; cbn; repeat split; try assumption; discriminate.
Qed.

(** [finalize] for a handler leaves file, queue and progress alone; it
    returns [ok] only without an error and with the queue empty or the
    worker done with finalizing. *)
Lemma handler_finalize_effect (w w1 : file_writer.t) (h : nat) (res : aio_result) :
  with_handler.finalize w h = (res, w1) ->
  file_writer.file_ w1 = file_writer.file_ w
  /\ writer_base.progress_ (file_writer.base w1) = writer_base.progress_ (file_writer.base w)
  /\ writer_base.buffers_ (file_writer.base w1) = writer_base.buffers_ (file_writer.base w)
  /\ (writer_base.error_ (file_writer.base w1) = false ->
      writer_base.error_ (file_writer.base w) = false)
  /\ (writer_base.finalizing_ (file_writer.base w1) = 2 ->
      writer_base.finalizing_ (file_writer.base w) = 2)
  /\ (res = ok ->
      writer_base.error_ (file_writer.base w1) = false
      /\ (writer_base.finalizing_ (file_writer.base w) = 2
          \/ writer_base.buffers_ (file_writer.base w) = [])).
Proof.
  unfold with_handler.finalize, file_writer.do_finalize, file_writer.continue_finalize.
  destruct w as [b c k q f s p o].
  cbn [file_writer.base file_writer.file_ file_writer.fsync_ file_writer.set_base
       writer_base.set_finalizing writer_base.buffers_].
  destruct (writer_base.error_ b) eqn:He.
  { intros H; inversion H; subst; cbn; repeat split;
      try assumption; try discriminate; intros; congruence. }
  destruct (Z.eqb_spec (writer_base.finalizing_ b) 2) as [E2 | E2].
  { intros H; inversion H; subst; cbn; repeat split;
      try assumption; try (intros; congruence); left; assumption. }
  destruct (f_open f); cbn [negb].
  2:{ intros H; inversion H; subst; cbn; repeat split;
      try discriminate; intros; congruence. }
  destruct (writer_base.buffers_ b) eqn:Hb; destruct s;
    cbn; intros H; inversion H; subst; cbn; rewrite ?Hb;
    repeat split; try assumption; try discriminate; try (intros; congruence);
    try (right; reflexivity).
Qed.

(** The inner loop of the reader keeps the buffer's place and capacity
    and does not take back that the end was found. *)
Lemma read_loop_keeps (fuel : nat) :
  forall (f : file) (b : nonowning_buffer) (rem : Z) (err eof : bool)
         (f1 : file) (b1 : nonowning_buffer) (rem1 : Z) (err1 eof1 : bool),
    file_reader.read_loop fuel f b rem err eof = (f1, b1, rem1, err1, eof1) ->
    nb_capacity b1 = nb_capacity b /\ nb_ptr b1 = nb_ptr b /\ (eof = true -> eof1 = true).
Proof.
  induction fuel as [| fuel IH]; intros f b rem err eof f1 b1 rem1 err1 eof1 Hrun.
  { cbn in Hrun; inversion Hrun; subst; auto. }
  cbn [file_reader.read_loop] in Hrun.
  destruct (nonowning_buffer_ops.size b <? nb_capacity b);
    [ | inversion Hrun; subst; auto ].
  destruct (if _ =? 0 then _ else _) as [[r got] f2].
  destruct (r <? 0); [ inversion Hrun; subst; auto | ].
  destruct (r =? 0).
  { destruct (negb (rem =? 0) && negb (rem =? nosize)); inversion Hrun; subst; auto. }
  apply IH in Hrun; exact Hrun.
Qed.

(** The inner loop of the reader when the end was found before: nothing
    is read into a clean buffer. *)
Lemma read_loop_at_end (fuel : nat) (f : file) (b : nonowning_buffer) (rem : Z) (err : bool) :
  nb_bytes b = [] -> 0 < nb_capacity b < modulus ->
  rem = 0 \/ (rem = nosize /\ 0 <= f_pos f /\ file_ops.len f <= f_pos f) ->
  exists f1 err1,
    file_reader.read_loop (S fuel) f b rem err true = (f1, b, rem, err1, true)
    /\ f_bytes f1 = f_bytes f /\ f_pos f1 = f_pos f.
Proof.
  intros Hb Hcap Hrem.
  cbn [file_reader.read_loop].
  unfold nonowning_buffer_ops.size; rewrite Hb; cbn [length Z.of_nat].
  destruct (Z.ltb_spec 0 (nb_capacity b)); [ | lia ].
  rewrite Z.sub_0_r, wrap_small by lia.
  destruct Hrem as [Hrem | (Hrem & Hpos & Hend)]; subst rem.
  - change (0 =? nosize) with false; cbn [negb andb].
    destruct (Z.gtb_spec (nb_capacity b) 0); [ | lia ].
    exists f, err; repeat split.
  - rewrite Z.eqb_refl; cbn [negb andb].
    destruct (Z.eqb_spec (nb_capacity b) 0); [ lia | ].
    unfold file_ops.read.
    destruct (f_open f && f_io_ok f).
    + rewrite skipn_all2 by (unfold file_ops.len in Hend; lia).
      rewrite firstn_nil; cbn [length Z.of_nat Z.ltb Z.compare Z.eqb].
      change (nosize =? 0) with false; cbn [negb andb].
      eexists _, _; split; [ reflexivity | ].
      cbn [f_bytes f_pos]; split; [ reflexivity | lia ].
    + cbn [Z.ltb Z.compare].
      exists f, true; repeat split.
Qed.

(** The inner loop of the writer keeps the buffer's place and capacity. *)
Lemma write_loop_keeps (fuel : nat) :
  forall (f : file) (b : nonowning_buffer) (rep : list Z)
         (f1 : file) (b1 : nonowning_buffer) (rep1 : list Z),
    file_writer.write_loop fuel f b rep = Some (f1, b1, rep1) ->
    nb_capacity b1 = nb_capacity b /\ nb_ptr b1 = nb_ptr b.
Proof.
  induction fuel as [| fuel IH]; intros f b rep f1 b1 rep1 Hrun.
  { cbn in Hrun; inversion Hrun; subst; auto. }
  cbn [file_writer.write_loop] in Hrun.
  destruct (nonowning_buffer_ops.empty b); [ inversion Hrun; subst; auto | ].
  destruct (file_ops.write f (nb_bytes b)) as [written f2].
  destruct (written <=? 0); [ discriminate Hrun | ].
  apply IH in Hrun; exact Hrun.
Qed.

Lemma pool_clean_release (pool : aio_buffer_pool.t) (buf : nonowning_buffer) :
  pool_clean pool -> 0 < nb_capacity buf < modulus ->
  pool_clean (snd (aio_buffer_pool.release pool buf)).
Proof.
  intros Hclean Hcap; unfold aio_buffer_pool.release.
  destruct (nb_ptr buf =? 0);
    destruct (aio_waitable.signal_availibility _) as [who w]; cbn [snd];
    unfold pool_clean in *; cbn [aio_buffer_pool.set_waitable aio_buffer_pool.set_buffers
                                 aio_buffer_pool.buffers_]; [ exact Hclean | ].
  apply Forall_app; split; [ exact Hclean | ].
  constructor; [ | constructor ].
  cbn [nonowning_buffer_ops.clear nb_bytes nb_capacity]; split; [ reflexivity | exact Hcap ].
Qed.

Lemma pool_clean_release_lease (pool : aio_buffer_pool.t) (l : buffer_lease) :
  pool_clean pool -> (lease_pool l = true -> 0 < nb_capacity (lease_buffer l) < modulus) ->
  pool_clean (aio_buffer_pool.release_lease pool l).
Proof.
  intros Hclean Hcap; unfold aio_buffer_pool.release_lease.
  destruct (lease_pool l); [ | exact Hclean ].
  apply pool_clean_release; auto.
Qed.

Lemma pool_clean_get_buffer (pool : aio_buffer_pool.t) (h : nat) :
  pool_clean pool -> pool_clean (snd (aio_buffer_pool.get_buffer pool h)).
Proof.
  intros Hclean; unfold aio_buffer_pool.get_buffer.
  destruct (rev (aio_buffer_pool.buffers_ pool)) as [| b front] eqn:E; cbn [snd].
  - exact Hclean.
  - unfold pool_clean in *; cbn.
    assert (Hall : Forall (fun b => nb_bytes b = [] /\ 0 < nb_capacity b < modulus)
                          (rev (aio_buffer_pool.buffers_ pool)))
      by (apply Forall_rev; exact Hclean).
    rewrite E in Hall; inversion Hall; subst.
    apply Forall_rev; assumption.
Qed.

(** A turn of the worker of the writer: the free buffers stay clean and
    the queued leases good; finalizing only goes from 1 to 2, and that
    with an empty queue; with an empty queue the file, the queue and
    the progress are left alone. *)
Lemma writer_turn_keeps (w w1 : file_writer.t) (pool pool1 : aio_buffer_pool.t)
      (who : list aio_waitable.signalled) :
  file_writer.entry_step w pool = Some (w1, pool1, who) ->
  pool_clean pool ->
  Forall lease_ok (writer_base.buffers_ (file_writer.base w)) ->
  pool_clean pool1
  /\ Forall lease_ok (writer_base.buffers_ (file_writer.base w1))
  /\ (writer_base.finalizing_ (file_writer.base w1) = writer_base.finalizing_ (file_writer.base w)
      \/ (writer_base.finalizing_ (file_writer.base w1) = 2
          /\ writer_base.finalizing_ (file_writer.base w) = 1
          /\ writer_base.buffers_ (file_writer.base w) = []))
  /\ (writer_base.buffers_ (file_writer.base w) = [] ->
      file_writer.file_ w1 = file_writer.file_ w
      /\ writer_base.buffers_ (file_writer.base w1) = []
      /\ writer_base.progress_ (file_writer.base w1) = writer_base.progress_ (file_writer.base w)).
Proof.
  unfold file_writer.entry_step.
  destruct w as [b c k q f s p o];
    cbn [file_writer.base file_writer.task_ file_writer.cond_ file_writer.quit_
         file_writer.file_ file_writer.fsync_].
  intros Hstep Hclean Hq.
  destruct k; try discriminate.
  - destruct (q || writer_base.error_ b).
    { inversion Hstep; subst; cbn; repeat split; auto. }
    destruct (writer_base.buffers_ b) as [| front rest] eqn:Hb.
    + destruct (Z.eqb_spec (writer_base.finalizing_ b) 1) as [Hf | Hf].
      * destruct (aio_waitable.signal_availibility (writer_base.waitable b)) as [who0 wt].
        inversion Hstep; subst; cbn; repeat split; auto.
      * unfold file_writer.cond_wait in Hstep; cbn [file_writer.cond_] in Hstep.
        destruct c; inversion Hstep; subst; cbn; rewrite ?Hb; repeat split; auto.
    + inversion Hq as [| ? ? [Hpool Hcap] Hrest]; subst.
      destruct (file_writer.write_loop _ _ _ _) as [[[f1 buf] rep] |] eqn:Hloop.
      2:{ inversion Hstep; subst; cbn; rewrite Hb; repeat split; auto; discriminate. }
      destruct (write_loop_keeps _ _ _ _ _ _ _ Hloop) as [Hc _].
      destruct (if Z.of_nat (length (front :: rest)) =? writer_base.max_buffers_ b
                then aio_waitable.signal_availibility (writer_base.waitable b)
                else (aio_waitable.nobody, writer_base.waitable b)) as [who0 wt].
      inversion Hstep; subst; cbn.
      split; [ | repeat split; auto; discriminate ].
      apply pool_clean_release_lease; [ exact Hclean | ].
      cbn [lease_buffer]; intros _; rewrite Hc; exact Hcap.
  - destruct c; [ | discriminate ].
    inversion Hstep; subst; cbn; repeat split; auto.
Qed.

(** A turn of the worker of the reader: the free buffers stay clean and
    the queued leases good. *)
Lemma reader_turn_keeps (r r1 : file_reader.t) (pool pool1 : aio_buffer_pool.t)
      (who : list aio_waitable.signalled) :
  file_reader.entry_step r pool = Some (r1, pool1, who) ->
  pool_clean pool ->
  Forall lease_ok (reader_base.buffers_ (file_reader.base r)) ->
  pool_clean pool1 /\ Forall lease_ok (reader_base.buffers_ (file_reader.base r1)).
Proof.
  unfold file_reader.entry_step.
  intros Hstep Hclean Hq; revert Hstep.
  destruct (threaded_reader.task_ (file_reader.tr r)); try discriminate.
  - destruct (threaded_reader.quit_ (file_reader.tr r)
              || reader_base.error_ (file_reader.base r)).
    { intros H; inversion H; subst; clear H; cbn; split; assumption. }
    destruct (Z.of_nat (length (reader_base.buffers_ (file_reader.base r)))
              =? reader_base.max_buffers_ (file_reader.base r)).
    { intros H; inversion H; subst; clear H.
      destruct (cond_wait_keeps r) as [E1 _]; rewrite E1; split; assumption. }
    pose proof (clean_pool_lease pool (reader_base.self (file_reader.base r)) Hclean) as Hlease.
    pose proof (pool_clean_get_buffer pool (reader_base.self (file_reader.base r)) Hclean)
      as Hpool2.
    cbv zeta in Hlease.
    destruct (aio_buffer_pool.get_buffer pool (reader_base.self (file_reader.base r)))
      as [lease pool2].
    cbn [fst snd] in Hlease, Hpool2.
    destruct (lease_pool lease) eqn:Hreal; cbn [negb].
    2:{ intros H; inversion H; subst; clear H.
        destruct (cond_wait_keeps r) as [E1 _]; rewrite E1; split; assumption. }
    destruct (Hlease eq_refl) as [Hempty Hcap].
    destruct (file_reader.read_loop _ _ _ _ _ _) as [[[[f1 buf] rem1] err1] eof1] eqn:Hloop.
    destruct (read_loop_keeps _ _ _ _ _ _ _ _ _ _ _ Hloop) as (Hc & _ & _).
    destruct (negb (nonowning_buffer_ops.empty buf)) eqn:Hqueued.
    + cbn [andb].
      repeat match goal with
             | |- context [let (_, _) := ?x in _] => destruct x
             end.
      intros H; inversion H; subst; clear H.
      cbn; split; [ exact Hpool2 | ].
      apply Forall_app; split; [ exact Hq | ].
      constructor; [ | constructor ].
      unfold lease_ok; cbn [lease_pool lease_buffer]; split; [ reflexivity | lia ].
    + cbn [andb].
      pose proof (pool_clean_release pool2 buf Hpool2 ltac:(lia)) as Hpool3.
      repeat match goal with
             | |- context [let (_, _) := ?x in _] => destruct x
             end.
      intros H; inversion H; subst; clear H.
      match goal with
      | |- _ /\ Forall _ (reader_base.buffers_ (file_reader.base (file_reader.notified ?x ?w))) =>
          destruct (notified_keeps x w) as [E1 _]; rewrite E1
      end.
      cbn; split; [ exact Hpool3 | exact Hq ].
  - destruct (threaded_reader.cond_ (file_reader.tr r)); [ | discriminate ].
    intros H; inversion H; subst; clear H; cbn; split; assumption.
Qed.

(** A reader that has finished stays finished through the turns of its
    worker: the buffer the worker takes stays empty and goes back. *)
Lemma finished_stays (r r1 : file_reader.t) (pool pool1 : aio_buffer_pool.t)
      (who : list aio_waitable.signalled) :
  file_reader.entry_step r pool = Some (r1, pool1, who) ->
  pool_clean pool ->
  reader_finished r ->
  reader_base.remaining_ (file_reader.base r) = 0
  \/ (reader_base.remaining_ (file_reader.base r) = nosize
      /\ 0 <= f_pos (file_reader.file_ r)
      /\ file_ops.len (file_reader.file_ r) <= f_pos (file_reader.file_ r)) ->
  reader_finished r1.
Proof.
  unfold file_reader.entry_step, reader_finished.
  intros Hstep Hclean [Heof Hempty] Hrem; revert Hstep.
  destruct (threaded_reader.task_ (file_reader.tr r)); try discriminate.
  - destruct (threaded_reader.quit_ (file_reader.tr r)
              || reader_base.error_ (file_reader.base r)).
    { intros H; inversion H; subst; clear H; cbn; split; assumption. }
    destruct (Z.of_nat (length (reader_base.buffers_ (file_reader.base r)))
              =? reader_base.max_buffers_ (file_reader.base r)).
    { intros H; inversion H; subst; clear H.
      destruct (cond_wait_keeps r) as [E1 _]; rewrite E1; split; assumption. }
    pose proof (clean_pool_lease pool (reader_base.self (file_reader.base r)) Hclean) as Hlease.
    cbv zeta in Hlease.
    destruct (aio_buffer_pool.get_buffer pool (reader_base.self (file_reader.base r)))
      as [lease pool2].
    cbn [fst] in Hlease.
    destruct (lease_pool lease) eqn:Hreal; cbn [negb].
    2:{ intros H; inversion H; subst; clear H.
        destruct (cond_wait_keeps r) as [E1 _]; rewrite E1; split; assumption. }
    destruct (Hlease eq_refl) as [Hb Hcap].
    rewrite Heof.
    destruct (read_loop_at_end (Z.to_nat (nb_capacity (lease_buffer lease)))
                (file_reader.file_ r) (lease_buffer lease)
                (reader_base.remaining_ (file_reader.base r))
                (reader_base.error_ (file_reader.base r)) Hb Hcap Hrem)
      as (f1 & err1 & Hloop & _).
    rewrite Hloop.
    unfold nonowning_buffer_ops.empty, nonowning_buffer_ops.size; rewrite Hb.
    cbn [length Z.of_nat Z.eqb negb andb].
    repeat match goal with
           | |- context [let (_, _) := ?x in _] => destruct x
           end.
    intros H; inversion H; subst; clear H.
    match goal with
    | |- reader_base.eof_ (file_reader.base (file_reader.notified ?x ?w)) = _ /\ _ =>
        destruct (notified_keeps x w) as [E1 _]; rewrite E1
    end.
    cbn; split; [ reflexivity | exact Hempty ].
  - destruct (threaded_reader.cond_ (file_reader.tr r)); [ | discriminate ].
    intros H; inversion H; subst; clear H; cbn; split; assumption.
Qed.

Lemma writer_holds_same (w0 w w1 : file_writer.t) (data : list byte) :
  file_writer.file_ w1 = file_writer.file_ w ->
  writer_base.buffers_ (file_writer.base w1) = writer_base.buffers_ (file_writer.base w) ->
  writer_base.progress_ (file_writer.base w1) = writer_base.progress_ (file_writer.base w) ->
  file_writer_holds w0 w data -> file_writer_holds w0 w1 data.
Proof.
  unfold file_writer_holds, reported; intros E1 E2 E3 H; rewrite E1, E2, E3; exact H.
Qed.

Lemma reader_holds_same (r0 r r1 : file_reader.t) (delivered : list byte) :
  file_reader.base r1 = file_reader.base r ->
  file_reader.file_ r1 = file_reader.file_ r ->
  file_reader_holds r0 r delivered -> file_reader_holds r0 r1 delivered.
Proof.
  unfold file_reader_holds; intros E1 E2 H; rewrite E1, E2; exact H.
Qed.

(** [get_buffer] for a handler moves the bytes of the lease from the
    queue to what was delivered. *)
Lemma reader_holds_after_get (r0 r r1 : file_reader.t) (delivered : list byte) (h : nat)
      (res : aio_result) (b : buffer_lease) :
  file_reader_holds r0 r delivered ->
  with_handler.get_buffer r h = (res, b, r1) ->
  file_reader_holds r0 r1 (delivered ++ nb_bytes (lease_buffer b)).
Proof.
  intros (J1 & J2 & J3 & J4 & J5 & J6) Hget; cbv zeta in *.
  destruct (handler_get_buffer_effect _ _ _ _ _ Hget) as (E1 & E2 & E3 & E4 & Hq).
  unfold file_reader_holds; rewrite E1, E2, E3.
  split; [ exact J1 | split; [ exact J2 | split; [ | split; [ exact J4 | split ] ] ] ].
  - rewrite <- J3.
    destruct Hq as [(Q1 & Q2 & Q3 & _) | (Q1 & _)].
    + rewrite Q1, Q2, Q3; cbn; rewrite app_nil_r; reflexivity.
    + rewrite Q1, <- app_assoc; reflexivity.
  - exact J5.
  - destruct Hq as [(Q1 & Q2 & _) | (Q1 & _)].
    + rewrite Q2; constructor.
    + rewrite Q1 in J6; inversion J6; assumption.
Qed.

(** A reader that has finished has nothing left to read. *)
Lemma finished_nothing_left (r0 r : file_reader.t) (delivered : list byte) :
  0 <= f_pos (file_reader.file_ r0) ->
  file_reader_holds r0 r delivered ->
  reader_finished r ->
  reader_base.remaining_ (file_reader.base r) = 0
  \/ (reader_base.remaining_ (file_reader.base r) = nosize
      /\ 0 <= f_pos (file_reader.file_ r)
      /\ file_ops.len (file_reader.file_ r) <= f_pos (file_reader.file_ r)).
Proof.
  intros Hpos0 (J1 & J2 & J3 & J4 & J5 & J6) [Heof _]; cbv zeta in *.
  destruct (J5 Heof) as [H | [H1 H2]]; [ left; exact H | right ].
  repeat split; [ exact H1 | lia | exact H2 ].
Qed.

(** A lease without data for the writer, coming from the pool, is on an
    empty buffer. *)
Lemma nothing_to_add_empty (b : buffer_lease) :
  lease_pool b = true -> writer_base.nothing_to_add b = true -> nb_bytes (lease_buffer b) = [].
Proof.
  unfold writer_base.nothing_to_add, nonowning_buffer_ops.to_bool, nonowning_buffer_ops.empty,
    nonowning_buffer_ops.size.
  intros -> H; cbn [negb orb] in H.
  rewrite negb_involutive in H; apply Z.eqb_eq in H.
  destruct (nb_bytes (lease_buffer b)); [ reflexivity | cbn in H; lia ].
Qed.

Section DemoRun.

Variable r0 : file_reader.t.
Variable w0 : file_writer.t.
Variable me : nat.

Hypothesis Hpos0 : 0 <= f_pos (file_reader.file_ r0).
Hypothesis Hrem0 : 0 <= reader_base.remaining_ (file_reader.base r0) <= nosize.

(** A turn of the worker of the reader keeps the invariant. *)
Lemma demo_reader_turn (d : demo.t) (r1 : file_reader.t) (pool1 : aio_buffer_pool.t)
      (who : list aio_waitable.signalled) :
  demo_invariant r0 w0 d ->
  file_reader.entry_step (demo.reader_ d) (demo.buffer_pool_ d) = Some (r1, pool1, who) ->
  demo_invariant r0 w0
    (demo.mk pool1 r1 (demo.writer_ d) (demo.done_ d) (demo.hash_ d) (demo.success_ d)
             (demo.at_ d)).
Proof.
  intros (I1 & I2 & I3 & I4 & I5 & I6 & I7 & I8 & I9 & I10) Hstep; cbv zeta in *.
  destruct (reader_turn_keeps _ _ _ _ _ Hstep I3 I4) as [P1 P2].
  assert (Hfin : reader_finished (demo.reader_ d) -> reader_finished r1).
  { intros Hf.
    exact (finished_stays _ _ _ _ _ Hstep I3 Hf (finished_nothing_left _ _ _ Hpos0 I1 Hf)). }
  unfold demo_invariant;
    cbn [demo.reader_ demo.writer_ demo.buffer_pool_ demo.done_ demo.hash_ demo.success_
         demo.at_].
  split; [ exact (reader_entry_step_holds _ _ _ _ _ _ _ I3 Hpos0 Hrem0 Hstep I1) | ].
  split; [ exact I2 | ].
  split; [ exact P1 | ].
  split; [ exact P2 | ].
  split; [ exact I5 | ].
  split; [ exact I6 | ].
  split; [ exact I7 | ].
  split; [ intros H; destruct (I8 H) as (F1 & F2 & F3); auto | ].
  split; [ exact I9 | ].
  intros H; destruct (I10 H) as (S1 & S2 & S3 & S4); auto.
Qed.

(** A turn of the worker of the writer keeps the invariant. *)
Lemma demo_writer_turn (d : demo.t) (w1 : file_writer.t) (pool1 : aio_buffer_pool.t)
      (who : list aio_waitable.signalled) :
  demo_invariant r0 w0 d ->
  file_writer.entry_step (demo.writer_ d) (demo.buffer_pool_ d) = Some (w1, pool1, who) ->
  demo_invariant r0 w0
    (demo.mk pool1 (demo.reader_ d) w1 (demo.done_ d) (demo.hash_ d) (demo.success_ d)
             (demo.at_ d)).
Proof.
  intros (I1 & I2 & I3 & I4 & I5 & I6 & I7 & I8 & I9 & I10) Hstep; cbv zeta in *.
  destruct (writer_turn_keeps _ _ _ _ _ Hstep I3 I5) as (P1 & P2 & P3 & P4).
  unfold demo_invariant;
    cbn [demo.reader_ demo.writer_ demo.buffer_pool_ demo.done_ demo.hash_ demo.success_
         demo.at_].
  split; [ exact I1 | ].
  split.
  { intros He.
    destruct (entry_step_holds w0 _ _ (demo.hash_ d) _ _ _ Hstep He) as [He0 _].
    destruct (I2 He0) as (data & Hd & Hh).
    exists data; split; [ | exact Hh ].
    destruct (entry_step_holds w0 _ _ data _ _ _ Hstep He) as [_ Hkeep]; auto. }
  split; [ exact P1 | ].
  split; [ exact I4 | ].
  split; [ exact P2 | ].
  split; [ exact I6 | ].
  split; [ exact I7 | ].
  split.
  { intros H; apply I8.
    destruct H as [H | H]; [ left | right; exact H ].
    destruct P3 as [E | (_ & E & _)]; [ rewrite <- E; exact H | rewrite E; discriminate ]. }
  split.
  { intros H.
    destruct P3 as [E | (_ & _ & E)].
    - rewrite E in H; destruct (P4 (I9 H)) as (_ & Q & _); exact Q.
    - destruct (P4 E) as (_ & Q & _); exact Q. }
  intros H; destruct (I10 H) as (S1 & S2 & S3 & S4).
  destruct (P4 S3) as (Q1 & Q2 & Q3).
  split; [ exact S1 | split; [ exact S2 | split; [ exact Q2 | ] ] ].
  apply (writer_holds_same w0 (demo.writer_ d)); try assumption.
  rewrite Q2, S3; reflexivity.
Qed.

(** A notification of the reader keeps the invariant. *)
Lemma demo_notified (d : demo.t) (who : aio_waitable.signalled) :
  demo_invariant r0 w0 d ->
  demo_invariant r0 w0
    (demo.mk (demo.buffer_pool_ d) (file_reader.notified (demo.reader_ d) who) (demo.writer_ d)
             (demo.done_ d) (demo.hash_ d) (demo.success_ d) (demo.at_ d)).
Proof.
  intros (I1 & I2 & I3 & I4 & I5 & I6 & I7 & I8 & I9 & I10); cbv zeta in *.
  destruct (notified_keeps (demo.reader_ d) who) as [E1 E2].
  unfold demo_invariant, reader_finished in *;
    cbn [demo.reader_ demo.writer_ demo.buffer_pool_ demo.done_ demo.hash_ demo.success_
         demo.at_].
  rewrite E1.
  split; [ exact (reader_holds_same _ _ _ _ E1 E2 I1) | ].
  split; [ exact I2 | ].
  split; [ exact I3 | ].
  split; [ exact I4 | ].
  split; [ exact I5 | ].
  split; [ exact I6 | ].
  split; [ exact I7 | ].
  split; [ exact I8 | ].
  split; [ exact I9 | exact I10 ].
Qed.

(** A step of the handler keeps the invariant. *)
Lemma demo_handler_step (d d1 : demo.t) :
  demo_invariant r0 w0 d ->
  demo.handler_step me d = Some d1 ->
  demo_invariant r0 w0 d1.
Proof.
  intros (I1 & I2 & I3 & I4 & I5 & I6 & I7 & I8 & I9 & I10) Hstep; cbv zeta in *.
  unfold demo.handler_step in Hstep.
  destruct (demo.at_ d) as [| i | | i b |] eqn:Hat.
  - (* an event enters operator() *)
    inversion Hstep; subst; clear Hstep.
    unfold demo_invariant;
      cbn [demo.reader_ demo.writer_ demo.buffer_pool_ demo.done_ demo.hash_ demo.success_
           demo.at_ held] in *.
    split; [ exact I1 | ].
    split; [ exact I2 | ].
    split; [ exact I3 | ].
    split; [ exact I4 | ].
    split; [ exact I5 | ].
    split; [ intros ? ? H; discriminate H | ].
    split; [ exact I7 | ].
    split.
    { intros [H | H]; [ | discriminate H ].
      destruct (I8 (or_introl H)) as (F1 & _ & _).
      split; [ exact F1 | split; [ reflexivity | intros ? ?; discriminate ] ]. }
    split; [ exact I9 | ].
    intros H; destruct (I10 H) as (S1 & _); discriminate S1.
  - (* get_buffer *)
    destruct (with_handler.get_buffer (demo.reader_ d) me) as [[res b] r1] eqn:Hget.
    pose proof (reader_holds_after_get _ _ _ _ _ _ _ I1 Hget) as R1.
    destruct (handler_get_buffer_effect _ _ _ _ _ Hget) as (E1 & E2 & E3 & E4 & Hq).
    assert (Hrest : Forall lease_ok (reader_base.buffers_ (file_reader.base r1))).
    { destruct Hq as [(_ & Q2 & _) | (Q1 & _)].
      - rewrite Q2; constructor.
      - rewrite Q1 in I4; inversion I4; assumption. }
    assert (Hnot_fin : forall x, demo.at_get_buffer i <> demo.at_add_buffer x b)
      by (intros ? ?; discriminate).
    destruct (lease_pool b) eqn:Hpool.
    + (* a lease from the queue *)
      destruct Hq as [(_ & _ & Q3 & _) | (Q1 & Q2)];
        [ subst b; discriminate Hpool | subst res ].
      cbn [negb] in Hstep; inversion Hstep; subst; clear Hstep.
      unfold demo_invariant;
        cbn [demo.reader_ demo.writer_ demo.buffer_pool_ demo.done_ demo.hash_ demo.success_
             demo.at_ held] in *.
      split; [ exact R1 | ].
      split.
      { intros He; destruct (I2 He) as (data & Hd & Hh).
        exists data; split; [ exact Hd | ].
        rewrite Hh, app_nil_r; reflexivity. }
      split; [ exact I3 | ].
      split; [ exact Hrest | ].
      split; [ exact I5 | ].
      split.
      { intros ? ? H; inversion H; subst.
        rewrite Q1 in I4; inversion I4; assumption. }
      split.
      { rewrite I7, length_app, Nat2Z.inj_add.
        unfold nonowning_buffer_ops.size, wrap.
        rewrite Zplus_mod_idemp_l; reflexivity. }
      split.
      { intros [H | H]; [ | discriminate H ].
        destruct (I8 (or_introl H)) as ([_ F1] & _).
        rewrite Q1 in F1; discriminate F1. }
      split; [ exact I9 | ].
      intros H; destruct (I10 H) as (S1 & _); discriminate S1.
    + (* no lease *)
      assert (Hb : b = empty_lease).
      { destruct Hq as [(_ & _ & Q3 & _) | (Q1 & _)]; [ exact Q3 | ].
        rewrite Q1 in I4; inversion I4 as [| ? ? [Hp _] _]; subst.
        rewrite Hp in Hpool; discriminate Hpool. }
      subst b; cbn [empty_lease lease_buffer null_buffer nb_bytes] in R1.
      rewrite app_nil_r in R1.
      assert (Hfin : res = ok -> reader_finished r1).
      { intros ->.
        destruct Hq as [(Q1 & Q2 & _ & Q4) | (Q1 & _)].
        - unfold reader_finished; rewrite E3; split; [ | exact Q2 ].
          destruct (reader_base.error_ (file_reader.base (demo.reader_ d)));
            [ discriminate Q4 | ].
          destruct (reader_base.eof_ (file_reader.base (demo.reader_ d)));
            [ reflexivity | discriminate Q4 ].
        - rewrite Q1 in I4; inversion I4 as [| ? ? [Hp _] _]; subst.
          discriminate Hp. }
      assert (Hkeep : reader_finished (demo.reader_ d) -> reader_finished r1).
      { unfold reader_finished; rewrite E3; intros [F1 F2]; split; [ exact F1 | ].
        destruct Hq as [(_ & Q2 & _) | (Q1 & _)]; [ exact Q2 | ].
        rewrite Q1 in F2; discriminate F2. }
      cbn [negb] in Hstep.
      destruct res; inversion Hstep; subst; clear Hstep;
        unfold demo_invariant;
        cbn [demo.reader_ demo.writer_ demo.buffer_pool_ demo.done_ demo.hash_ demo.success_
             demo.at_ held] in *;
        (split; [ exact R1 | ]);
        (split; [ exact I2 | ]);
        (split; [ exact I3 | ]);
        (split; [ exact Hrest | ]);
        (split; [ exact I5 | ]);
        (split; [ intros ? ? H; discriminate H | ]);
        (split; [ exact I7 | ]);
        (split; [ | split; [ exact I9 | intros H; destruct (I10 H) as (S1 & _); discriminate S1 ] ]).
      * (* ok without a lease: the end *)
        intros _; split; [ exact (Hfin eq_refl) | ].
        split; [ reflexivity | intros ? ?; discriminate ].
      * (* wait *)
        intros [H | H]; [ | discriminate H ].
        destruct (I8 (or_introl H)) as (F1 & _ & _).
        split; [ exact (Hkeep F1) | split; [ reflexivity | intros ? ?; discriminate ] ].
      * (* error *)
        intros [H | H]; [ | discriminate H ].
        destruct (I8 (or_introl H)) as (F1 & _ & _).
        split; [ exact (Hkeep F1) | split; [ reflexivity | intros ? ?; discriminate ] ].
  - (* finalize *)
    destruct (with_handler.finalize (demo.writer_ d) me) as [res w1] eqn:Hfz.
    destruct (handler_finalize_effect _ _ _ _ Hfz) as (F1 & F2 & F3 & F4 & F5 & F6).
    destruct (I8 (or_intror eq_refl)) as (Hfin & _ & _).
    assert (W : writer_base.error_ (file_writer.base w1) = false ->
                exists data, file_writer_holds w0 w1 data /\ demo.hash_ d = data ++ []).
    { intros He; destruct (I2 (F4 He)) as (data & Hd & Hh).
      exists data; split; [ exact (writer_holds_same _ _ _ _ F1 F3 F2 Hd) | exact Hh ]. }
    assert (Hq : Forall lease_ok (writer_base.buffers_ (file_writer.base w1)))
      by (rewrite F3; exact I5).
    assert (H2 : writer_base.finalizing_ (file_writer.base w1) = 2 ->
                 writer_base.buffers_ (file_writer.base w1) = [])
      by (intros H; rewrite F3; exact (I9 (F5 H))).
    destruct res; inversion Hstep; subst; clear Hstep;
      unfold demo_invariant;
      cbn [demo.reader_ demo.writer_ demo.buffer_pool_ demo.done_ demo.hash_ demo.success_
           demo.at_ held] in *;
      (split; [ exact I1 | ]);
      (split; [ exact W | ]);
      (split; [ exact I3 | ]);
      (split; [ exact I4 | ]);
      (split; [ exact Hq | ]);
      (split; [ intros ? ? H; discriminate H | ]);
      (split; [ exact I7 | ]);
      (split; [ intros _; split; [ exact Hfin | split; [ reflexivity | intros ? ?; discriminate ] ] | ]);
      (split; [ exact H2 | ]).
    + (* ok: success *)
      intros _.
      destruct (F6 eq_refl) as [He Hdone].
      split; [ reflexivity | split; [ exact Hfin | ] ].
      assert (Hempty : writer_base.buffers_ (file_writer.base w1) = []).
      { rewrite F3; destruct Hdone as [H | H]; [ exact (I9 H) | exact H ]. }
      split; [ exact Hempty | ].
      destruct (W He) as (data & Hd & Hh).
      rewrite app_nil_r in Hh; rewrite Hh; exact Hd.
    + intros H; destruct (I10 H) as (S1 & _); discriminate S1.
    + intros H; destruct (I10 H) as (S1 & _); discriminate S1.
  - (* add_buffer *)
    destruct (with_handler.add_buffer (demo.writer_ d) b me) as [[res w1] b1] eqn:Hadd.
    destruct (I6 i b eq_refl) as [Hlp Hcap].
    assert (Hnf : writer_base.finalizing_ (file_writer.base (demo.writer_ d)) = 0).
    { destruct (Z.eq_dec (writer_base.finalizing_ (file_writer.base (demo.writer_ d))) 0)
        as [E | E]; [ exact E | ].
      destruct (I8 (or_introl E)) as (_ & _ & F); destruct (F i b eq_refl). }
    inversion Hstep; subst; clear Hstep.
    destruct (handler_add_buffer_effect _ _ _ _ _ _ Hadd)
      as [(A1 & A2 & A3 & A4) | (A1 & A2 & A3 & A4 & A5 & A6 & A7 & A8)].
    + (* the writer is in error *)
      subst res w1 b1.
      unfold demo_invariant;
        cbn [demo.reader_ demo.writer_ demo.buffer_pool_ demo.done_ demo.hash_ demo.success_
             demo.at_ held] in *.
      split; [ exact I1 | ].
      split; [ intros He; rewrite He in A4; discriminate A4 | ].
      split; [ apply pool_clean_release_lease; [ exact I3 | intros _; exact Hcap ] | ].
      split; [ exact I4 | ].
      split; [ exact I5 | ].
      split; [ intros ? ? H; discriminate H | ].
      split; [ exact I7 | ].
      split; [ intros [H | H]; [ rewrite Hnf in H; destruct (H eq_refl) | discriminate H ] | ].
      split; [ exact I9 | ].
      intros H; destruct (I10 H) as (S1 & _); discriminate S1.
    + (* the lease was taken, or it had no data *)
      assert (Hpool : pool_clean (aio_buffer_pool.release_lease (demo.buffer_pool_ d) b1)).
      { apply pool_clean_release_lease; [ exact I3 | ].
        subst b1; destruct (writer_base.nothing_to_add b);
          [ intros _; exact Hcap | cbn; intros H; discriminate H ]. }
      assert (W : exists data,
                 file_writer_holds w0 w1 data /\ demo.hash_ d = data ++ []).
      { destruct (I2 A3) as (data & (J1 & J2 & J3) & Hh); cbn [held] in Hh.
        exists (data ++ if writer_base.nothing_to_add b then []
                        else nb_bytes (lease_buffer b)).
        split.
        - unfold file_writer_holds, reported in *; rewrite A4, A5, A7.
          split; [ | split; assumption ].
          rewrite queued_bytes_app, !app_assoc, J1; f_equal.
          destruct (writer_base.nothing_to_add b); cbn; [ reflexivity | apply app_nil_r ].
        - rewrite app_nil_r, Hh; f_equal.
          destruct (writer_base.nothing_to_add b) eqn:Hn; [ | reflexivity ].
          exact (nothing_to_add_empty b Hlp Hn). }
      assert (Hq : Forall lease_ok (writer_base.buffers_ (file_writer.base w1))).
      { rewrite A7; apply Forall_app; split; [ exact I5 | ].
        destruct (writer_base.nothing_to_add b); [ constructor | ].
        constructor; [ split; assumption | constructor ]. }
      assert (Hplace : forall p,
                 p = demo.waiting_for_event \/ p = demo.stopped
                 \/ p = demo.at_get_buffer (S i) ->
                 demo_invariant r0 w0
                   (demo.mk (aio_buffer_pool.release_lease (demo.buffer_pool_ d) b1)
                            (demo.reader_ d) w1 (demo.done_ d) (demo.hash_ d)
                            (demo.success_ d) p)).
      { intros p Hp.
        assert (Hheld : held p = [])
          by (destruct Hp as [-> | [-> | ->]]; reflexivity).
        assert (Hno : forall x y, p <> demo.at_add_buffer x y)
          by (destruct Hp as [-> | [-> | ->]]; intros ? ?; discriminate).
        assert (Hnz : p <> demo.at_finalize)
          by (destruct Hp as [-> | [-> | ->]]; discriminate).
        unfold demo_invariant;
          cbn [demo.reader_ demo.writer_ demo.buffer_pool_ demo.done_ demo.hash_
               demo.success_ demo.at_] in *.
        rewrite Hheld.
        split; [ exact I1 | ].
        split; [ intros _; exact W | ].
        split; [ exact Hpool | ].
        split; [ exact I4 | ].
        split; [ exact Hq | ].
        split; [ intros x y H; destruct (Hno x y H) | ].
        split; [ exact I7 | ].
        split; [ intros [H | H]; [ rewrite A6, Hnf in H; destruct (H eq_refl) | contradiction ] | ].
        split; [ intros H; rewrite A6, Hnf in H; discriminate H | ].
        intros H; destruct (I10 H) as (S1 & _); discriminate S1. }
      apply Hplace.
      destruct res; [ | left; reflexivity | destruct (A1 eq_refl) ].
      destruct (Nat.ltb (S i) 10); [ right; right; reflexivity | left; reflexivity ].
  - discriminate Hstep.
Qed.

(** Every step keeps the invariant, and so does every run. *)
Lemma demo_step_keeps (d d1 : demo.t) :
  demo_invariant r0 w0 d -> demo.step me d d1 -> demo_invariant r0 w0 d1.
Proof.
  intros Hinv Hstep; destruct Hstep as [d1 H | r1 pool1 who H | w1 pool1 who H | who].
  - exact (demo_handler_step d d1 Hinv H).
  - exact (demo_reader_turn d r1 pool1 who Hinv H).
  - exact (demo_writer_turn d w1 pool1 who Hinv H).
  - exact (demo_notified d who Hinv).
Qed.

Lemma demo_runs_keep (d0 d : demo.t) :
  demo_invariant r0 w0 d0 -> demo.runs me d0 d -> demo_invariant r0 w0 d.
Proof.
  intros Hinv Hrun; induction Hrun as [| d d1 Hrun IH Hstep]; [ exact Hinv | ].
  exact (demo_step_keeps d d1 IH Hstep).
Qed.

End DemoRun.

(** The free list the constructor of the pool carves is clean. *)
Lemma carve_clean (n : nat) (stride capacity : Z) :
  0 < capacity < modulus ->
  forall p,
    Forall (fun b => nb_bytes b = [] /\ 0 < nb_capacity b < modulus)
           (aio_buffer_pool.carve n p stride capacity).
Proof.
  intros Hcap; induction n as [| n IH]; intros p; cbn [aio_buffer_pool.carve];
    constructor; [ cbn; split; [ reflexivity | exact Hcap ] | apply IH ].
Qed.

Lemma default_pool_clean (psz : Z) (allocate : Z -> aio_buffer_pool.allocation) (count : Z) :
  pool_clean (aio_buffer_pool.construct psz allocate count 0).
Proof.
  unfold pool_clean, aio_buffer_pool.construct.
  change (0 =? 0) with true; cbv iota.
  destruct (allocate _); cbn [aio_buffer_pool.buffers_]; try constructor.
  apply carve_clean; unfold aio_buffer_pool.default_buffer_size, modulus; lia.
Qed.

(** [seek] on a reader without queued buffers leaves the free list of
    the pool alone. *)
Lemma seek_keeps_free_list {D : Type} (v : reader_base.virtuals D) (r r1 : reader_base.t)
      (d d1 : D) (pool pool1 : aio_buffer_pool.t) (offset size : Z) (res : bool) :
  reader_base.buffers_ r = [] ->
  reader_base.seek v r d pool offset size = (res, r1, d1, pool1) ->
  aio_buffer_pool.buffers_ pool1 = aio_buffer_pool.buffers_ pool.
Proof.
  intros Hb; unfold reader_base.seek; rewrite Hb.
  repeat match goal with
         | |- context [if ?c then _ else _] => destruct c
         end;
    try (intros H; inversion H; subst; reflexivity).
  destruct (reader_base.do_seek v _ d) as [[res' r'] d'].
  intros H; inversion H; subst; reflexivity.
Qed.

Lemma factory_open_keeps_free_list (self : nat) (pool pool1 : aio_buffer_pool.t) (f : file)
      (can_spawn : bool) (offset size max_buffers : Z) (r : option file_reader.t) :
  file_reader.factory_open self pool f can_spawn offset size max_buffers = (r, pool1) ->
  aio_buffer_pool.buffers_ pool1 = aio_buffer_pool.buffers_ pool.
Proof.
  unfold file_reader.factory_open.
  destruct (negb (f_open f)) eqn:Ho; [ intros H; inversion H; subst; reflexivity | ].
  destruct (file_reader.construct _ _ _ _ _ _ _) as [r1 p1] eqn:Hc.
  assert (Hp : aio_buffer_pool.buffers_ p1 = aio_buffer_pool.buffers_ pool).
  { unfold file_reader.construct in Hc.
    destruct (f_open f); [ | discriminate Ho ].
    unfold file_reader.seek in Hc.
    match type of Hc with
    | context [reader_base.seek ?v ?b ?m ?p ?o ?s] =>
        destruct (reader_base.seek v b m p o s) as [[[res b1] m1] p2] eqn:Hs;
          apply seek_keeps_free_list in Hs
    end.
    - destruct res; inversion Hc; subst; exact Hs.
    - destruct (0 <=? file_ops.size f); reflexivity. }
  destruct (reader_base.error (file_reader.base r1)); intros H; inversion H; subst; exact Hp.
Qed.

(** A finished reader has delivered everything: the range of its size,
    or without a size the file from its first position to the end. *)
Lemma finished_delivered_all (r0 r : file_reader.t) (delivered : list byte) :
  0 <= f_pos (file_reader.file_ r0) ->
  0 <= reader_base.remaining_ (file_reader.base r0) <= nosize ->
  file_reader_holds r0 r delivered ->
  reader_finished r ->
  delivered
  = if reader_base.remaining_ (file_reader.base r0) =? nosize
    then skipn (Z.to_nat (f_pos (file_reader.file_ r0))) (f_bytes (file_reader.file_ r0))
    else bytes_between (f_bytes (file_reader.file_ r0)) (f_pos (file_reader.file_ r0))
           (f_pos (file_reader.file_ r0) + reader_base.remaining_ (file_reader.base r0)).
Proof.
  intros Hpos0 Hrem0 (J1 & J2 & J3 & J4 & J5 & J6) [Heof Hempty]; cbv zeta in *.
  rewrite Hempty in J3; cbn in J3; rewrite app_nil_r in J3.
  specialize (J5 Heof).
  destruct (Z.eqb_spec (reader_base.remaining_ (file_reader.base r0)) nosize) as [E | E].
  - destruct J5 as [H0 | [_ Hlen]]; [ rewrite J4 in H0; discriminate H0 | ].
    rewrite J3; unfold bytes_between; apply firstn_all2.
    unfold file_ops.len in Hlen; rewrite J1 in Hlen.
    rewrite length_skipn; lia.
  - destruct J4 as [J4 J4'].
    destruct J5 as [H0 | [Hn _]].
    + rewrite J3; f_equal; lia.
    + unfold nosize in *; lia.
Qed.

(** A schedule is a run. *)
Lemma schedule_runs (me : nat) (ps : list demo.party) :
  forall d0 d1 d, demo.runs me d0 d1 -> demo.schedule me ps d1 = Some d -> demo.runs me d0 d.
Proof.
  induction ps as [| p ps IH]; intros d0 d1 d Hrun Hs; cbn [demo.schedule] in Hs.
  - inversion Hs; subst; exact Hrun.
  - destruct p.
    + destruct (demo.handler_step me d1) as [d2 |] eqn:Hh; [ | discriminate Hs ].
      apply (IH d0 d2 d); [ | exact Hs ].
      apply (demo.run_step me d0 d1); [ exact Hrun | apply demo.step_handler; exact Hh ].
    + destruct (file_reader.entry_step _ _) as [[[r1 pool1] who] |] eqn:Hr; [ | discriminate Hs ].
      eapply IH; [ | exact Hs ].
      apply (demo.run_step me d0 d1); [ exact Hrun | exact (demo.step_reader me d1 _ _ _ Hr) ].
    + destruct (file_writer.entry_step _ _) as [[[w1 pool1] who] |] eqn:Hw; [ | discriminate Hs ].
      eapply IH; [ | exact Hs ].
      apply (demo.run_step me d0 d1); [ exact Hrun | exact (demo.step_writer me d1 _ _ _ Hw) ].
Qed.

(** What the constructor of the demo leaves: the invariant holds, the
    reader is at the start of the input and has all of it to read, and
    the writer is on an empty file with nothing reported. *)
Lemma demo_construct_state (psz : Z) (allocate : Z -> aio_buffer_pool.allocation)
      (reader_self : nat) (input : file) (can_spawn : bool) (output : disk) (fsync : bool)
      (d0 : demo.t) :
  file_ops.len input < 2 ^ 63 ->
  demo.construct psz allocate reader_self input can_spawn output fsync = Some d0 ->
  demo_invariant (demo.reader_ d0) (demo.writer_ d0) d0
  /\ f_pos (file_reader.file_ (demo.reader_ d0)) = 0
  /\ f_bytes (file_reader.file_ (demo.reader_ d0)) = f_bytes input
  /\ reader_base.remaining_ (file_reader.base (demo.reader_ d0))
     = (if f_size_known input then file_ops.len input else nosize)
  /\ f_bytes (file_writer.file_ (demo.writer_ d0)) = []
  /\ writer_base.progress_ (file_writer.base (demo.writer_ d0)) = [].
Proof.
  intros Hlen; unfold demo.construct.
  destruct (negb (aio_buffer_pool.to_bool _)); [ discriminate | ].
  destruct (file_reader.factory_open _ _ _ _ _ _ _) as [[r |] pool1] eqn:Hopen;
    [ | discriminate ].
  destruct (file_writer_factory_open output fsync 0 0) as [w |] eqn:Hw; [ | discriminate ].
  intros H; inversion H; subst; clear H.
  cbn [demo.reader_ demo.writer_].
  assert (Hlen0 : 0 <= file_ops.len input) by (unfold file_ops.len; lia).
  destruct (file_reader_open_state _ _ _ _ _ _ _ _ _ Hopen ltac:(lia)
              ltac:(unfold nosize, modulus; lia) Hlen Hlen0) as (B1 & B2 & B3 & B4 & B5 & _).
  rewrite Z.eqb_refl, Z.sub_0_r in B4.
  assert (Hrem : 0 <= reader_base.remaining_ (file_reader.base r) <= nosize).
  { rewrite B4; destruct (f_size_known input); unfold nosize, modulus in *; lia. }
  assert (Hposd : file_reader_positioned r).
  { unfold file_reader_positioned; rewrite B1, B2; repeat split; try lia; exact B5. }
  pose proof (file_reader_invariant r r [] Hposd (read_start r)) as HR.
  pose proof (factory_open_keeps_free_list _ _ _ _ _ _ _ _ _ Hopen) as Hfree.
  assert (Hclean : pool_clean pool1).
  { unfold pool_clean; rewrite Hfree; apply default_pool_clean. }
  assert (HW : writer_base.buffers_ (file_writer.base w) = []
               /\ writer_base.finalizing_ (file_writer.base w) = 0
               /\ writer_base.progress_ (file_writer.base w) = []
               /\ f_bytes (file_writer.file_ w) = []
               /\ f_pos (file_writer.file_ w) = 0).
  { unfold file_writer_factory_open in Hw.
    destruct (negb (disk_open_ok output)); [ discriminate Hw | ].
    change (0 =? 0) with true in Hw; cbn [negb] in Hw.
    inversion Hw; subst; clear Hw.
    unfold file_writer.construct; cbn [f_open andb negb orb].
    destruct (disk_can_spawn output); cbn; repeat split. }
  destruct HW as (W1 & W2 & W3 & W4 & W5).
  split; [ | repeat split; assumption ].
  unfold demo_invariant;
    cbn [demo.reader_ demo.writer_ demo.buffer_pool_ demo.done_ demo.hash_ demo.success_
         demo.at_ held].
  split; [ exact HR | ].
  split.
  { intros _; exists []; split; [ | reflexivity ].
    unfold file_writer_holds, file_ops.len; rewrite W1, W4, W5; cbn; repeat split; lia. }
  split; [ exact Hclean | ].
  split; [ rewrite B1; constructor | ].
  split; [ rewrite W1; constructor | ].
  split; [ intros ? ? H; discriminate H | ].
  split; [ reflexivity | ].
  split; [ intros [H | H]; [ destruct (H W2) | discriminate H ] | ].
  split; [ intros H; rewrite W2 in H; discriminate H | ].
  intros H; discriminate H.
Qed.

(** The demo copies the file. Whatever the order in which the handler and
    the two workers take their steps: when the demo reports success, the
    output file holds exactly the bytes of the input file, the hash was
    fed exactly these bytes in order, and [done_] and [written_] are the
    length of the file. *)
Theorem demo_copies_the_file (psz : Z) (allocate : Z -> aio_buffer_pool.allocation)
        (reader_self me : nat) (input : file) (can_spawn : bool) (output : disk)
        (fsync : bool) (d0 d : demo.t) :
  file_ops.len input < 2 ^ 63 ->
  demo.construct psz allocate reader_self input can_spawn output fsync = Some d0 ->
  demo.runs me d0 d ->
  demo.success_ d = true ->
  f_bytes (file_writer.file_ (demo.writer_ d)) = f_bytes input
  /\ demo.hash_ d = f_bytes input
  /\ demo.done_ d = file_ops.len input
  /\ demo.written_ d = file_ops.len input.
Proof.
  intros Hlen Hc Hrun Hsuccess.
  destruct (demo_construct_state _ _ _ _ _ _ _ _ Hlen Hc) as (Hinv & C1 & C2 & C3 & C4 & C5).
  assert (Hpos0 : 0 <= f_pos (file_reader.file_ (demo.reader_ d0))) by (rewrite C1; lia).
  assert (Hrem0 : 0 <= reader_base.remaining_ (file_reader.base (demo.reader_ d0)) <= nosize).
  { rewrite C3; unfold file_ops.len, nosize, modulus in *; destruct (f_size_known input); lia. }
  pose proof (demo_runs_keep _ _ me Hpos0 Hrem0 d0 d Hinv Hrun)
    as (I1 & _ & _ & _ & _ & _ & I7 & _ & _ & I10).
  cbv zeta in *.
  destruct (I10 Hsuccess) as (_ & Hfin & Hempty & (J1 & J2 & J3)).
  pose proof (finished_delivered_all _ _ _ Hpos0 Hrem0 I1 Hfin) as Hall.
  assert (Hhash : demo.hash_ d = f_bytes input).
  { rewrite Hall, C1, C2, C3.
    destruct (f_size_known input).
    - destruct (Z.eqb_spec (file_ops.len input) nosize) as [E | _];
        [ unfold nosize, modulus in E; lia | ].
      unfold bytes_between, file_ops.len; cbn [Z.to_nat skipn].
      rewrite Z.add_0_l, Z.sub_0_r, Nat2Z.id; apply firstn_all.
    - rewrite Z.eqb_refl; reflexivity. }
  rewrite Hempty, C4 in J1; cbn in J1; rewrite app_nil_r in J1.
  assert (Hfile : f_bytes (file_writer.file_ (demo.writer_ d)) = f_bytes input)
    by (rewrite J1; exact Hhash).
  split; [ exact Hfile | split; [ exact Hhash | split ] ].
  - rewrite I7, Hhash; apply wrap_small; unfold file_ops.len, modulus in *; lia.
  - unfold demo.written_; rewrite J3.
    unfold reported, file_ops.len in *; rewrite C5, Hfile, C4; cbn [fold_right length Z.of_nat].
    rewrite Z.add_0_l, Z.sub_0_r; apply wrap_small; unfold modulus; lia.
Qed.

(** The demo on the file ABCDE, after the schedule [demo_schedule]. *)
Lemma demo_copies_the_file_witness :
  exists d0 d,
    demo_start = Some d0 /\ demo.schedule 9 demo_schedule d0 = Some d
    /\ demo.success_ d = true
    /\ f_bytes (file_writer.file_ (demo.writer_ d)) = f_bytes abcde_file
    /\ demo.written_ d = 5.
Proof.
  assert (He : exists d0 d,
             demo_start = Some d0 /\ demo.schedule 9 demo_schedule d0 = Some d
             /\ demo.success_ d = true).
  { eexists; eexists; split; [ vm_compute; reflexivity | split; vm_compute; reflexivity ]. }
  destruct He as (d0 & d & Hstart & Hend & Hsuccess).
  exists d0, d.
  pose proof (schedule_runs 9 demo_schedule d0 d0 d (demo.run_start 9 d0) Hend) as Hrun.
  destruct (demo_copies_the_file 4096 (fun _ => aio_buffer_pool.allocated 65536) 7 9
              abcde_file true (mk_disk None true true true) false d0 d)
    as (H1 & _ & _ & H4).
  - vm_compute; reflexivity.
  - exact Hstart.
  - exact Hrun.
  - exact Hsuccess.
  - exact (conj Hstart (conj Hend (conj Hsuccess (conj H1 H4)))).
Defined.

(** ** rewind of a file reader *)

(** The inner loop of the reader leaves the flags of the file alone. *)
Lemma read_loop_keeps_flags (fuel : nat) :
  forall (f : file) (b : nonowning_buffer) (rem : Z) (err eof : bool)
         (f1 : file) (b1 : nonowning_buffer) (rem1 : Z) (err1 eof1 : bool),
    file_reader.read_loop fuel f b rem err eof = (f1, b1, rem1, err1, eof1) ->
    f_open f1 = f_open f.
Proof.
  induction fuel as [| fuel IH]; intros f b rem err eof f1 b1 rem1 err1 eof1 Hrun.
  { cbn in Hrun; inversion Hrun; subst; reflexivity. }
  cbn [file_reader.read_loop] in Hrun.
  destruct (nonowning_buffer_ops.size b <? nb_capacity b);
    [ | inversion Hrun; subst; reflexivity ].
  destruct (if _ =? 0 then _ else _) as [[r got] f2] eqn:Hread.
  assert (Hf2 : f_open f2 = f_open f).
  { destruct (_ =? 0); [ inversion Hread; subst; reflexivity | ].
    unfold file_ops.read in Hread.
    destruct (f_open f && f_io_ok f); inversion Hread; subst; reflexivity. }
  destruct (r <? 0); [ inversion Hrun; subst; exact Hf2 | ].
  destruct (r =? 0).
  { destruct (negb (rem =? 0) && negb (rem =? nosize)); inversion Hrun; subst; exact Hf2. }
  apply IH in Hrun; rewrite Hrun; exact Hf2.
Qed.

(** What reading leaves alone: the range, the budget and whether the
    file is open and workers can be spawned. *)
Lemma reader_turn_frame (r r1 : file_reader.t) (pool pool1 : aio_buffer_pool.t)
      (who : list aio_waitable.signalled) :
  file_reader.entry_step r pool = Some (r1, pool1, who) ->
  reader_base.start_offset_ (file_reader.base r1) = reader_base.start_offset_ (file_reader.base r)
  /\ reader_base.size_ (file_reader.base r1) = reader_base.size_ (file_reader.base r)
  /\ reader_base.max_size_ (file_reader.base r1) = reader_base.max_size_ (file_reader.base r)
  /\ f_open (file_reader.file_ r1) = f_open (file_reader.file_ r)
  /\ file_reader.can_spawn r1 = file_reader.can_spawn r.
Proof.
  unfold file_reader.entry_step.
  destruct (threaded_reader.task_ (file_reader.tr r)); try discriminate.
  - destruct (threaded_reader.quit_ (file_reader.tr r)
              || reader_base.error_ (file_reader.base r)).
    { intros H; inversion H; subst; clear H; cbn; repeat split. }
    assert (Hwait : reader_base.start_offset_ (file_reader.base (file_reader.cond_wait r))
                    = reader_base.start_offset_ (file_reader.base r)
                    /\ reader_base.size_ (file_reader.base (file_reader.cond_wait r))
                       = reader_base.size_ (file_reader.base r)
                    /\ reader_base.max_size_ (file_reader.base (file_reader.cond_wait r))
                       = reader_base.max_size_ (file_reader.base r)
                    /\ f_open (file_reader.file_ (file_reader.cond_wait r))
                       = f_open (file_reader.file_ r)
                    /\ file_reader.can_spawn (file_reader.cond_wait r) = file_reader.can_spawn r).
    { unfold file_reader.cond_wait; destruct (threaded_reader.cond_ (file_reader.tr r));
        cbn; repeat split. }
    destruct (Z.of_nat (length (reader_base.buffers_ (file_reader.base r)))
              =? reader_base.max_buffers_ (file_reader.base r)).
    { intros H; inversion H; subst; clear H; exact Hwait. }
    destruct (aio_buffer_pool.get_buffer pool (reader_base.self (file_reader.base r)))
      as [lease pool2].
    destruct (negb (lease_pool lease)).
    { intros H; inversion H; subst; clear H; exact Hwait. }
    destruct (file_reader.read_loop _ _ _ _ _ _) as [[[[f1 buf] rem1] err1] eof1] eqn:Hloop.
    pose proof (read_loop_keeps_flags _ _ _ _ _ _ _ _ _ _ _ Hloop) as Hopen.
    repeat match goal with
           | |- context [let (_, _) := ?x in _] => destruct x
           end.
    intros H; inversion H; subst; clear H.
    unfold file_reader.notified.
    repeat match goal with
           | |- context [match ?x with _ => _ end] => destruct x
           end; cbn; repeat split; exact Hopen.
  - destruct (threaded_reader.cond_ (file_reader.tr r)); [ | discriminate ].
    intros H; inversion H; subst; clear H; cbn; repeat split.
Qed.

Lemma reader_get_buffer_frame (r r1 : file_reader.t) (h : nat) (res : aio_result)
      (b : buffer_lease) :
  file_reader.get_buffer r h = (res, b, r1) ->
  reader_base.start_offset_ (file_reader.base r1) = reader_base.start_offset_ (file_reader.base r)
  /\ reader_base.size_ (file_reader.base r1) = reader_base.size_ (file_reader.base r)
  /\ reader_base.max_size_ (file_reader.base r1) = reader_base.max_size_ (file_reader.base r)
  /\ f_open (file_reader.file_ r1) = f_open (file_reader.file_ r)
  /\ file_reader.can_spawn r1 = file_reader.can_spawn r.
Proof.
  unfold file_reader.get_buffer, threaded_reader.get_buffer, threaded_reader.do_get_buffer.
  destruct r as [[bs c k q] f s]; destruct bs as [self wt mx bufs sz msz st rem g e eof].
  cbn [file_reader.tr threaded_reader.base reader_base.buffers_ reader_base.error_
       reader_base.eof_ file_reader.file_ file_reader.can_spawn file_reader.base].
  destruct bufs as [| front rest].
  - destruct e; [ | destruct eof ]; intros H; inversion H; subst; clear H; cbn; repeat split.
  - cbn [reader_base.max_buffers_ reader_base.buffers_].
    destruct (_ =? mx); intros H; inversion H; subst; clear H; cbn; repeat split.
Qed.

Lemma reading_frame (r0 r : file_reader.t) (delivered : list byte) :
  file_reader_read r0 r delivered ->
  reader_base.start_offset_ (file_reader.base r) = reader_base.start_offset_ (file_reader.base r0)
  /\ reader_base.size_ (file_reader.base r) = reader_base.size_ (file_reader.base r0)
  /\ reader_base.max_size_ (file_reader.base r) = reader_base.max_size_ (file_reader.base r0)
  /\ f_open (file_reader.file_ r) = f_open (file_reader.file_ r0)
  /\ file_reader.can_spawn r = file_reader.can_spawn r0.
Proof.
  induction 1 as [ | r r1 delivered h res b _ IH Hget
                   | r r1 delivered pool pool1 who _ IH _ Hstep ].
  - repeat split.
  - destruct IH as (I1 & I2 & I3 & I4 & I5).
    destruct (reader_get_buffer_frame _ _ _ _ _ Hget) as (E1 & E2 & E3 & E4 & E5).
    rewrite E1, E2, E3, E4, E5; repeat split; assumption.
  - destruct IH as (I1 & I2 & I3 & I4 & I5).
    destruct (reader_turn_frame _ _ _ _ _ Hstep) as (E1 & E2 & E3 & E4 & E5).
    rewrite E1, E2, E3, E4, E5; repeat split; assumption.
Qed.

Lemma ranged_positioned (r : file_reader.t) (offset size : Z) :
  file_reader_ranged r offset size -> file_reader_positioned r.
Proof.
  intros (H1 & H2 & H3 & H4 & H5 & H6 & H7 & H8 & H9 & H10 & H11 & H12 & H13); cbv zeta in *.
  unfold file_reader_positioned, file_ops.len, nosize, modulus in *.
  rewrite H5, H7, H3, H6; repeat split; lia.
Qed.

(** rewind() after reading starts the range over. However far a file
    reader positioned on a range of a file of known size was read, in
    whatever order the client and the worker took their turns: once a
    buffer was handed out and no error occurred, rewind() succeeds,
    leaves the reader positioned on the same range with nothing queued,
    and what the reader delivers from then on is again what the file
    holds from the offset, up to the whole range when it has finished. *)
Theorem rewind_reads_again (r0 r : file_reader.t) (offset size : Z) (delivered : list byte)
        (pool : aio_buffer_pool.t) :
  file_reader_ranged r0 offset size ->
  file_reader_read r0 r delivered ->
  reader_base.error_ (file_reader.base r) = false ->
  reader_base.get_buffer_called_ (file_reader.base r) = true ->
  let out := file_reader_rewind r pool in
  let r1 := snd (fst out) in
  fst (fst out) = true
  /\ file_reader_ranged r1 offset size
  /\ f_bytes (file_reader.file_ r1) = f_bytes (file_reader.file_ r0)
  /\ forall r2 delivered2,
       file_reader_read r1 r2 delivered2 ->
       delivered2 ++ queued_bytes (reader_base.buffers_ (file_reader.base r2))
       = bytes_between (f_bytes (file_reader.file_ r0)) offset (f_pos (file_reader.file_ r2))
       /\ (reader_finished r2 ->
           delivered2 = bytes_between (f_bytes (file_reader.file_ r0)) offset (offset + size)).
Proof.
  intros Hranged Hread He Hg out r1.
  pose proof (ranged_positioned _ _ _ Hranged) as Hpos.
  pose proof (file_reader_invariant r0 r delivered Hpos Hread) as (J1 & _).
  destruct (reading_frame r0 r delivered Hread) as (F1 & F2 & F3 & F4 & F5).
  destruct Hranged as (H1 & H2 & H3 & H4 & H5 & H6 & H7 & H8 & H9 & H10 & H11 & H12 & H13).
  cbv zeta in *.
  assert (Hlen : file_ops.len (file_reader.file_ r) = file_ops.len (file_reader.file_ r0))
    by (unfold file_ops.len; rewrite J1; reflexivity).
  rewrite H1 in F1; rewrite H2 in F2; rewrite H4 in F3; rewrite H8 in F4; rewrite H9 in F5.
  set (len := file_ops.len (file_reader.file_ r0)) in *.
  assert (Hlen0 : 0 <= len) by (unfold len, file_ops.len; lia).
  assert (Hout : out
                 = (true,
                    file_reader.mk
                      (threaded_reader.mk
                         (reader_base.mk (reader_base.self (file_reader.base r))
                            aio_waitable.init
                            (reader_base.max_buffers_ (file_reader.base r)) []
                            size len offset size false false (size =? 0))
                         (match threaded_reader.task_ (file_reader.tr r) with
                          | in_wait => false
                          | _ => true
                          end)
                         (if size =? 0 then no_task else at_loop_head) false)
                      (mk_file true (f_bytes (file_reader.file_ r)) offset
                               (f_size_known (file_reader.file_ r))
                               (f_io_ok (file_reader.file_ r))
                               (f_mtime (file_reader.file_ r)))
                      true,
                    aio_buffer_pool.release_all
                      (aio_buffer_pool.remove_waiter pool (reader_base.self (file_reader.base r)))
                      (reader_base.buffers_ (file_reader.base r)))).
  { unfold out, file_reader_rewind, reader_base.rewind, reader_base.seek,
      reader_base.seek_size, reader_base.seek_offset, reader_base.changes,
      reader_base.seek_new_size.
    destruct r as [[bs c k q] f s]; destruct bs as [self wt mx bufs sz msz st rem g e eof].
    cbn [file_reader.base file_reader.tr file_reader.file_ file_reader.can_spawn
         threaded_reader.base threaded_reader.task_ reader_base.start_offset_
         reader_base.size_ reader_base.max_size_ reader_base.error_
         reader_base.get_buffer_called_ reader_base.self reader_base.max_buffers_
         reader_base.buffers_ reader_base.waitable] in *.
    subst st sz msz e g s.
    assert (Hoffn : (offset =? nosize) = false)
      by (apply Z.eqb_neq; unfold nosize, modulus; lia).
    assert (Hsizen : (size =? nosize) = false)
      by (apply Z.eqb_neq; unfold nosize, modulus; lia).
    assert (Hlenn : (len =? nosize) = false)
      by (apply Z.eqb_neq; unfold nosize, modulus; lia).
    assert (Hcast : to_int64 offset = offset)
      by (unfold to_int64; destruct (Z.ltb_spec offset (2 ^ 63)); [ reflexivity | lia ]).
    assert (Hc1 : (wrap (nosize - size) <=? offset) = false).
    { rewrite wrap_small by (unfold nosize, modulus; lia).
      apply Z.leb_gt; unfold nosize, modulus in *; lia. }
    assert (Hc2 : (wrap (offset + size) >? len) = false).
    { rewrite wrap_small by (unfold modulus; lia).
      destruct (Z.gtb_spec (offset + size) len); [ lia | reflexivity ]. }
    assert (Hc3 : (0 <=? offset) = true) by (apply Z.leb_le; lia).
    unfold file_reader.members_of, file_reader.assemble.
    repeat (rewrite ?Hoffn, ?Hsizen, ?Hlenn, ?Hc1, ?Hc2, ?Hc3, ?Hcast, ?F4, ?Z.eqb_refl;
            unfold file_reader.do_seek, file_reader.seekable, file_ops.seek;
            cbn [andb negb orb file_reader.virtuals reader_base.seekable reader_base.do_seek
                 reader_base.max_size_ reader_base.start_offset_ reader_base.eof_
                 reader_base.size_ reader_base.get_buffer_called_ reader_base.error_
                 reader_base.self reader_base.waitable reader_base.buffers_
                 reader_base.max_buffers_
                 file_reader.m_task file_reader.m_file file_reader.m_can_spawn
                 file_reader.m_cond file_reader.m_quit file_reader.tr file_reader.file_
                 file_reader.can_spawn threaded_reader.task_ threaded_reader.cond_
                 threaded_reader.quit_ threaded_reader.base aio_waitable.remove_waiters]).
    destruct (size =? 0); cbn; reflexivity. }
  assert (Hr1 : file_reader_ranged r1 offset size).
  { unfold r1; rewrite Hout; cbn [fst snd].
    unfold file_reader_ranged, file_ops.len; cbn.
    rewrite J1; fold (file_ops.len (file_reader.file_ r0)); fold len.
    repeat split; try reflexivity; try assumption; lia. }
  assert (Hbytes : f_bytes (file_reader.file_ r1) = f_bytes (file_reader.file_ r0))
    by (unfold r1; rewrite Hout; cbn; exact J1).
  split; [ rewrite Hout; reflexivity | ].
  split; [ exact Hr1 | ].
  split; [ exact Hbytes | ].
  intros r2 delivered2 Hread2.
  pose proof (ranged_positioned _ _ _ Hr1) as Hpos1.
  pose proof (file_reader_invariant r1 r2 delivered2 Hpos1 Hread2) as Hinv2.
  destruct Hr1 as (K1 & K2 & K3 & K4 & K5 & K6 & K7 & _).
  destruct Hpos1 as (_ & P2 & P3 & _).
  split.
  - destruct Hinv2 as (_ & _ & L3 & _); cbv zeta in L3.
    rewrite L3, Hbytes, K7; reflexivity.
  - intros Hfin.
    rewrite (finished_delivered_all r1 r2 delivered2 P2 P3 Hinv2 Hfin).
    rewrite K3, K7, Hbytes.
    destruct (Z.eqb_spec size nosize) as [E | _];
      [ unfold nosize, modulus in E; lia | reflexivity ].
Qed.

(** The reader of BCD after its first buffer was taken, rewound. *)
Lemma rewind_reads_again_witness :
  fst (fst (file_reader_rewind bcd_reader_taken small_pool)) = true
  /\ file_reader_ranged (snd (fst (file_reader_rewind bcd_reader_taken small_pool))) 1 3.
Proof.
  destruct (rewind_reads_again bcd_reader_opened bcd_reader_taken 1 3 [Byte.x42; Byte.x43]
              small_pool) as (H1 & H2 & _).
  - unfold file_reader_ranged; cbn; repeat split; try reflexivity; lia.
  - apply (read_get_buffer bcd_reader_opened bcd_reader_filled bcd_reader_taken [] 9 ok
             (mk_lease (mk_nonowning_buffer 77824 2 [Byte.x42; Byte.x43]) true)).
    + apply (read_entry_step bcd_reader_opened bcd_reader_opened bcd_reader_filled []
               small_pool (snd (reader_turns 1 bcd_reader_opened small_pool))
               [aio_waitable.nobody; aio_waitable.nobody]).
      * apply read_start.
      * exact small_pool_clean.
      * reflexivity.
    + reflexivity.
  - reflexivity.
  - reflexivity.
  - split; [ exact H1 | exact H2 ].
Defined.

(** ** The buffers of the demo *)

Lemma release_lease_returns (p : aio_buffer_pool.t) (l : buffer_lease) :
  lease_returns l ->
  aio_buffer_pool.buffers_ (aio_buffer_pool.release_lease p l)
  = aio_buffer_pool.buffers_ p ++ [nonowning_buffer_ops.clear (lease_buffer l)].
Proof.
  intros Hl.
  destruct (release_all_returns [l] p) as [H _]; [ repeat constructor; apply Hl | exact H ].
Qed.

Lemma release_keeps_pool (p : aio_buffer_pool.t) (buf : nonowning_buffer) :
  aio_buffer_pool.buffer_count_ (snd (aio_buffer_pool.release p buf))
  = aio_buffer_pool.buffer_count_ p
  /\ aio_buffer_pool.to_bool (snd (aio_buffer_pool.release p buf)) = aio_buffer_pool.to_bool p.
Proof.
  unfold aio_buffer_pool.release.
  destruct (nb_ptr buf =? 0);
    destruct (aio_waitable.signal_availibility _) as [who w]; split; reflexivity.
Qed.

Lemma release_lease_keeps_pool (p : aio_buffer_pool.t) (l : buffer_lease) :
  aio_buffer_pool.buffer_count_ (aio_buffer_pool.release_lease p l)
  = aio_buffer_pool.buffer_count_ p
  /\ aio_buffer_pool.to_bool (aio_buffer_pool.release_lease p l) = aio_buffer_pool.to_bool p.
Proof.
  unfold aio_buffer_pool.release_lease.
  destruct (lease_pool l); [ apply release_keeps_pool | split; reflexivity ].
Qed.

Lemma release_all_keeps_pool (ls : list buffer_lease) :
  forall p,
    aio_buffer_pool.buffer_count_ (aio_buffer_pool.release_all p ls)
    = aio_buffer_pool.buffer_count_ p
    /\ aio_buffer_pool.to_bool (aio_buffer_pool.release_all p ls) = aio_buffer_pool.to_bool p.
Proof.
  unfold aio_buffer_pool.release_all.
  induction ls as [| l ls IH]; intros p; cbn [fold_left]; [ split; reflexivity | ].
  destruct (IH (aio_buffer_pool.release_lease p l)) as [H1 H2].
  destruct (release_lease_keeps_pool p l) as [E1 E2].
  rewrite H1, H2, E1, E2; split; reflexivity.
Qed.

(** What [get_buffer] of the pool does to the free list. *)
Lemma pool_get_buffer_effect (p p1 : aio_buffer_pool.t) (h : nat) (lease : buffer_lease) :
  aio_buffer_pool.get_buffer p h = (lease, p1) ->
  aio_buffer_pool.buffer_count_ p1 = aio_buffer_pool.buffer_count_ p
  /\ aio_buffer_pool.to_bool p1 = aio_buffer_pool.to_bool p
  /\ ((lease_pool lease = false
       /\ aio_buffer_pool.buffers_ p1 = aio_buffer_pool.buffers_ p)
      \/ (lease_pool lease = true
          /\ aio_buffer_pool.buffers_ p = aio_buffer_pool.buffers_ p1 ++ [lease_buffer lease])).
Proof.
  unfold aio_buffer_pool.get_buffer.
  destruct (rev (aio_buffer_pool.buffers_ p)) as [| b front] eqn:E;
    intros H; inversion H; subst; clear H; cbn.
  - repeat split; left; split; reflexivity.
  - repeat split; right; split; [ reflexivity | ].
    rewrite <- (rev_involutive (aio_buffer_pool.buffers_ p)), E; reflexivity.
Qed.

(** A turn of the worker of the reader moves buffers between the free
    list and its queue and loses none. *)
Lemma reader_turn_accounts (r r1 : file_reader.t) (pool pool1 : aio_buffer_pool.t)
      (who : list aio_waitable.signalled) :
  file_reader.entry_step r pool = Some (r1, pool1, who) ->
  Forall (fun b => nb_ptr b <> 0) (aio_buffer_pool.buffers_ pool) ->
  Forall lease_returns (reader_base.buffers_ (file_reader.base r)) ->
  (length (aio_buffer_pool.buffers_ pool1) + length (reader_base.buffers_ (file_reader.base r1))
   = length (aio_buffer_pool.buffers_ pool) + length (reader_base.buffers_ (file_reader.base r)))%nat
  /\ aio_buffer_pool.buffer_count_ pool1 = aio_buffer_pool.buffer_count_ pool
  /\ aio_buffer_pool.to_bool pool1 = aio_buffer_pool.to_bool pool
  /\ Forall (fun b => nb_ptr b <> 0) (aio_buffer_pool.buffers_ pool1)
  /\ Forall lease_returns (reader_base.buffers_ (file_reader.base r1)).
Proof.
  unfold file_reader.entry_step.
  intros Hstep Hfree Hq; revert Hstep.
  destruct (threaded_reader.task_ (file_reader.tr r)); try discriminate.
  - destruct (threaded_reader.quit_ (file_reader.tr r)
              || reader_base.error_ (file_reader.base r)).
    { intros H; inversion H; subst; clear H; cbn; repeat split; assumption. }
    destruct (Z.of_nat (length (reader_base.buffers_ (file_reader.base r)))
              =? reader_base.max_buffers_ (file_reader.base r)).
    { intros H; inversion H; subst; clear H.
      destruct (cond_wait_keeps r) as [E1 _]; rewrite E1; repeat split; assumption. }
    destruct (aio_buffer_pool.get_buffer pool (reader_base.self (file_reader.base r)))
      as [lease pool2] eqn:Hget.
    destruct (pool_get_buffer_effect _ _ _ _ Hget) as (G1 & G2 & G3).
    destruct (lease_pool lease) eqn:Hreal; cbn [negb].
    2:{ intros H; inversion H; subst; clear H.
        destruct G3 as [[_ G3] | [G3 _]]; [ | discriminate G3 ].
        destruct (cond_wait_keeps r) as [E1 _]; rewrite E1, G3; repeat split; assumption. }
    destruct G3 as [[G3 _] | [_ G3]]; [ discriminate G3 | ].
    rewrite G3 in Hfree; apply Forall_app in Hfree; destruct Hfree as [Hfree2 Hlease].
    inversion Hlease as [| ? ? Hptr _]; subst.
    destruct (file_reader.read_loop _ _ _ _ _ _) as [[[[f1 buf] rem1] err1] eof1] eqn:Hloop.
    destruct (read_loop_keeps _ _ _ _ _ _ _ _ _ _ _ Hloop) as (_ & Hp & _).
    destruct (negb (nonowning_buffer_ops.empty buf)) eqn:Hqueued.
    + cbn [andb].
      repeat match goal with
             | |- context [let (_, _) := ?x in _] => destruct x
             end.
      intros H; inversion H; subst; clear H.
      cbn; rewrite G3, !length_app; cbn [length].
      split; [ lia | ].
      split; [ exact G1 | split; [ exact G2 | split; [ exact Hfree2 | ] ] ].
      apply Forall_app; split; [ exact Hq | ].
      constructor; [ | constructor ].
      split; [ reflexivity | cbn; rewrite Hp; exact Hptr ].
    + cbn [andb].
      assert (Hback : aio_buffer_pool.buffers_ (snd (aio_buffer_pool.release pool2 buf))
                      = aio_buffer_pool.buffers_ pool2 ++ [nonowning_buffer_ops.clear buf]).
      { apply (release_lease_returns pool2 (mk_lease buf true)).
        split; [ reflexivity | cbn; rewrite Hp; exact Hptr ]. }
      destruct (release_keeps_pool pool2 buf) as [K1 K2].
      repeat match goal with
             | |- context [let (_, _) := ?x in _] => destruct x
             end.
      intros H; inversion H; subst; clear H.
      match goal with
      | |- context [file_reader.base (file_reader.notified ?x ?w)] =>
          destruct (notified_keeps x w) as [E1 _]; rewrite E1
      end.
      cbn [snd] in *; cbn.
      rewrite Hback, G3, !length_app; cbn [length].
      split; [ lia | ].
      split; [ congruence | split; [ congruence | split; [ | exact Hq ] ] ].
      apply Forall_app; split; [ exact Hfree2 | ].
      constructor; [ cbn; rewrite Hp; exact Hptr | constructor ].
  - destruct (threaded_reader.cond_ (file_reader.tr r)); [ | discriminate ].
    intros H; inversion H; subst; clear H; cbn; repeat split; assumption.
Qed.

(** A turn of the worker of the writer moves a buffer from its queue to
    the free list or leaves both alone. *)
Lemma writer_turn_accounts (w w1 : file_writer.t) (pool pool1 : aio_buffer_pool.t)
      (who : list aio_waitable.signalled) :
  file_writer.entry_step w pool = Some (w1, pool1, who) ->
  Forall (fun b => nb_ptr b <> 0) (aio_buffer_pool.buffers_ pool) ->
  Forall lease_returns (writer_base.buffers_ (file_writer.base w)) ->
  (length (aio_buffer_pool.buffers_ pool1) + length (writer_base.buffers_ (file_writer.base w1))
   = length (aio_buffer_pool.buffers_ pool) + length (writer_base.buffers_ (file_writer.base w)))%nat
  /\ aio_buffer_pool.buffer_count_ pool1 = aio_buffer_pool.buffer_count_ pool
  /\ aio_buffer_pool.to_bool pool1 = aio_buffer_pool.to_bool pool
  /\ Forall (fun b => nb_ptr b <> 0) (aio_buffer_pool.buffers_ pool1)
  /\ Forall lease_returns (writer_base.buffers_ (file_writer.base w1)).
Proof.
  unfold file_writer.entry_step.
  destruct w as [b c k q f s p o];
    cbn [file_writer.base file_writer.task_ file_writer.cond_ file_writer.quit_
         file_writer.file_ file_writer.fsync_].
  intros Hstep Hfree Hq.
  destruct k; try discriminate.
  - destruct (q || writer_base.error_ b).
    { inversion Hstep; subst; cbn; repeat split; assumption. }
    destruct (writer_base.buffers_ b) as [| front rest] eqn:Hb.
    + destruct (writer_base.finalizing_ b =? 1).
      * destruct (aio_waitable.signal_availibility (writer_base.waitable b)) as [who0 wt].
        inversion Hstep; subst; cbn; repeat split; try assumption; constructor.
      * unfold file_writer.cond_wait in Hstep; cbn [file_writer.cond_] in Hstep.
        destruct c; inversion Hstep; subst; cbn; rewrite ?Hb; repeat split;
          try assumption; constructor.
    + inversion Hq as [| ? ? [Hpool Hptr] Hrest]; subst.
      destruct (file_writer.write_loop _ _ _ _) as [[[f1 buf] rep] |] eqn:Hloop.
      2:{ inversion Hstep; subst; cbn; rewrite Hb; repeat split; assumption. }
      destruct (write_loop_keeps _ _ _ _ _ _ _ Hloop) as [_ Hp].
      destruct (if Z.of_nat (length (front :: rest)) =? writer_base.max_buffers_ b
                then aio_waitable.signal_availibility (writer_base.waitable b)
                else (aio_waitable.nobody, writer_base.waitable b)) as [who0 wt].
      inversion Hstep; subst; cbn.
      assert (Hl : lease_returns (mk_lease buf (lease_pool front)))
        by (split; [ exact Hpool | cbn; rewrite Hp; exact Hptr ]).
      rewrite (release_lease_returns pool _ Hl).
      destruct (release_lease_keeps_pool pool (mk_lease buf (lease_pool front))) as [K1 K2].
      rewrite length_app; cbn [length].
      split; [ lia | split; [ exact K1 | split; [ exact K2 | split; [ | exact Hrest ] ] ] ].
      apply Forall_app; split; [ exact Hfree | ].
      constructor; [ cbn; rewrite Hp; exact Hptr | constructor ].
  - destruct c; [ | discriminate ].
    inversion Hstep; subst; cbn; repeat split; assumption.
Qed.

(** Every step of the demo keeps the account of the buffers. *)
Lemma demo_step_accounts (n me : nat) (d d1 : demo.t) :
  demo_accounts n d -> demo.step me d d1 -> demo_accounts n d1.
Proof.
  intros (A1 & A2 & A3 & A4 & A5 & A6 & A7) Hstep; cbv zeta in *.
  destruct Hstep as [d1 Hh | r1 pool1 who Hr | w1 pool1 who Hw | who].
  - (* the handler *)
    unfold demo.handler_step in Hh.
    destruct (demo.at_ d) as [| i | | i b |] eqn:Hat; cbn [held_leases length] in *.
    + injection Hh as <-.
      unfold demo_accounts; cbn; repeat split; try assumption; lia.
    + destruct (with_handler.get_buffer (demo.reader_ d) me) as [[res b] r1] eqn:Hget.
      destruct (handler_get_buffer_effect _ _ _ _ _ Hget) as (_ & _ & _ & _ & Hq).
      destruct Hq as [(Q1 & Q2 & Q3 & _) | (Q1 & Q2)].
      * rewrite Q3 in Hh; cbn [empty_lease lease_pool negb] in Hh.
        rewrite Q1 in A1.
        destruct res; injection Hh as <-;
          unfold demo_accounts; cbn [demo.reader_ demo.writer_ demo.buffer_pool_ demo.at_
                                     held_leases length];
          rewrite Q2;
          repeat split; try assumption; try constructor; cbn [length] in *; lia.
      * rewrite Q2 in Hh; rewrite Q1 in A1, A5.
        pose proof (Forall_inv A5) as [Hpool Hptr].
        pose proof (Forall_inv_tail A5) as Hrest.
        rewrite Hpool in Hh; cbn [negb] in Hh.
        injection Hh as <-.
        unfold demo_accounts; cbn [demo.reader_ demo.writer_ demo.buffer_pool_ demo.at_
                                   held_leases length] in *.
        repeat split; try assumption; try lia.
        constructor; [ split; assumption | constructor ].
    + destruct (with_handler.finalize (demo.writer_ d) me) as [res w1] eqn:Hfz.
      destruct (handler_finalize_effect _ _ _ _ Hfz) as (_ & _ & F3 & _).
      destruct res; injection Hh as <-;
        unfold demo_accounts; cbn [demo.reader_ demo.writer_ demo.buffer_pool_ demo.at_
                                   held_leases length];
        rewrite F3; repeat split; try assumption; try constructor; lia.
    + destruct (with_handler.add_buffer (demo.writer_ d) b me) as [[res w1] b1] eqn:Hadd.
      pose proof (Forall_inv A7) as Hb.
      injection Hh as <-.
      assert (Hplace : forall p,
                 held_leases p = [] ->
                 demo_accounts n
                   (demo.mk (aio_buffer_pool.release_lease (demo.buffer_pool_ d) b1)
                            (demo.reader_ d) w1 (demo.done_ d) (demo.hash_ d)
                            (demo.success_ d) p)).
      { intros p Hp.
        destruct (release_lease_keeps_pool (demo.buffer_pool_ d) b1) as [K1 K2].
        unfold demo_accounts; cbn [demo.reader_ demo.writer_ demo.buffer_pool_ demo.at_].
        rewrite Hp, K1, K2; cbn [length].
        destruct (handler_add_buffer_effect _ _ _ _ _ _ Hadd)
          as [(_ & E2 & E3 & _) | (_ & _ & _ & _ & _ & _ & E7 & E8)].
        - rewrite E2, E3.
          rewrite (release_lease_returns _ _ Hb), length_app; cbn [length].
          repeat split; try assumption; try constructor; try lia.
          apply Forall_app; split; [ exact A4 | ].
          constructor; [ apply Hb | constructor ].
        - rewrite E7, E8.
          destruct (writer_base.nothing_to_add b).
          + rewrite (release_lease_returns _ _ Hb), app_nil_r, length_app; cbn [length].
            repeat split; try assumption; try constructor; try lia.
            apply Forall_app; split; [ exact A4 | ].
            constructor; [ apply Hb | constructor ].
          + cbn [aio_buffer_pool.release_lease empty_lease lease_pool].
            rewrite length_app; cbn [length].
            repeat split; try assumption; try constructor; try lia.
            apply Forall_app; split; [ exact A6 | ].
            constructor; [ exact Hb | constructor ]. }
      apply Hplace.
      destruct res; [ destruct (Nat.ltb (S i) 10) | | ]; reflexivity.
    + discriminate Hh.
  - (* the worker of the reader *)
    destruct (reader_turn_accounts _ _ _ _ _ Hr A4 A5) as (R1 & R2 & R3 & R4 & R5).
    unfold demo_accounts; cbn [demo.reader_ demo.writer_ demo.buffer_pool_ demo.at_].
    rewrite R2, R3; repeat split; try assumption; lia.
  - (* the worker of the writer *)
    destruct (writer_turn_accounts _ _ _ _ _ Hw A4 A6) as (W1 & W2 & W3 & W4 & W5).
    unfold demo_accounts; cbn [demo.reader_ demo.writer_ demo.buffer_pool_ demo.at_].
    rewrite W2, W3; repeat split; try assumption; lia.
  - (* a notification *)
    destruct (notified_keeps (demo.reader_ d) who) as [E1 _].
    unfold demo_accounts; cbn [demo.reader_ demo.writer_ demo.buffer_pool_ demo.at_].
    rewrite E1; repeat split; assumption.
Qed.

Lemma seek_keeps_pool {D : Type} (v : reader_base.virtuals D) (r r1 : reader_base.t)
      (d d1 : D) (pool pool1 : aio_buffer_pool.t) (offset size : Z) (res : bool) :
  reader_base.seek v r d pool offset size = (res, r1, d1, pool1) ->
  aio_buffer_pool.buffer_count_ pool1 = aio_buffer_pool.buffer_count_ pool
  /\ aio_buffer_pool.to_bool pool1 = aio_buffer_pool.to_bool pool.
Proof.
  unfold reader_base.seek.
  repeat match goal with
         | |- context [if ?c then _ else _] => destruct c
         end;
    try (intros H; inversion H; subst; split; reflexivity).
  destruct (reader_base.do_seek v _ d) as [[res' r'] d'].
  intros H; inversion H; subst.
  apply (release_all_keeps_pool (reader_base.buffers_ r)
           (aio_buffer_pool.remove_waiter pool (reader_base.self r))).
Qed.

Lemma factory_open_keeps_pool (self : nat) (pool pool1 : aio_buffer_pool.t) (f : file)
      (can_spawn : bool) (offset size max_buffers : Z) (r : option file_reader.t) :
  file_reader.factory_open self pool f can_spawn offset size max_buffers = (r, pool1) ->
  aio_buffer_pool.buffer_count_ pool1 = aio_buffer_pool.buffer_count_ pool
  /\ aio_buffer_pool.to_bool pool1 = aio_buffer_pool.to_bool pool.
Proof.
  unfold file_reader.factory_open.
  destruct (negb (f_open f)) eqn:Ho; [ intros H; inversion H; subst; split; reflexivity | ].
  destruct (file_reader.construct _ _ _ _ _ _ _) as [r1 p1] eqn:Hc.
  assert (Hp : aio_buffer_pool.buffer_count_ p1 = aio_buffer_pool.buffer_count_ pool
               /\ aio_buffer_pool.to_bool p1 = aio_buffer_pool.to_bool pool).
  { unfold file_reader.construct in Hc.
    destruct (f_open f); [ | discriminate Ho ].
    unfold file_reader.seek in Hc.
    match type of Hc with
    | context [reader_base.seek ?v ?b ?m ?p ?o ?s] =>
        destruct (reader_base.seek v b m p o s) as [[[res b1] m1] p2] eqn:Hs;
          apply seek_keeps_pool in Hs
    end.
    destruct res; inversion Hc; subst; exact Hs. }
  destruct (reader_base.error (file_reader.base r1)); intros H; inversion H; subst; exact Hp.
Qed.

(** What the constructor of the demo leaves of the pool and the queues. *)
Lemma demo_construct_pool (psz : Z) (allocate : Z -> aio_buffer_pool.allocation)
      (reader_self : nat) (input : file) (can_spawn : bool) (output : disk) (fsync : bool)
      (d0 : demo.t) :
  file_ops.len input < 2 ^ 63 ->
  demo.construct psz allocate reader_self input can_spawn output fsync = Some d0 ->
  reader_base.buffers_ (file_reader.base (demo.reader_ d0)) = []
  /\ writer_base.buffers_ (file_writer.base (demo.writer_ d0)) = []
  /\ demo.at_ d0 = demo.waiting_for_event
  /\ aio_buffer_pool.buffer_count_ (demo.buffer_pool_ d0) = 8
  /\ aio_buffer_pool.to_bool (demo.buffer_pool_ d0) = true.
Proof.
  intros Hlen Hc.
  destruct (demo_construct_state _ _ _ _ _ _ _ _ Hlen Hc) as (Hinv & _).
  unfold demo.construct in Hc.
  destruct (aio_buffer_pool.to_bool _) eqn:Hbool; [ | discriminate Hc ].
  cbn [negb] in Hc.
  destruct (file_reader.factory_open _ _ _ _ _ _ _) as [[r |] pool1] eqn:Hopen;
    [ | discriminate Hc ].
  destruct (file_writer_factory_open output fsync 0 0) as [w |] eqn:Hw; [ | discriminate Hc ].
  injection Hc as <-.
  cbn [demo.reader_ demo.writer_ demo.buffer_pool_ demo.at_].
  assert (Hlen0 : 0 <= file_ops.len input) by (unfold file_ops.len; lia).
  destruct (file_reader_open_state _ _ _ _ _ _ _ _ _ Hopen ltac:(lia)
              ltac:(unfold nosize, modulus; lia) Hlen Hlen0) as (B1 & _).
  destruct (factory_open_keeps_pool _ _ _ _ _ _ _ _ _ Hopen) as [K1 K2].
  split; [ exact B1 | ].
  split.
  { unfold file_writer_factory_open in Hw.
    destruct (negb (disk_open_ok output)); [ discriminate Hw | ].
    change (0 =? 0) with true in Hw; cbn [negb] in Hw.
    injection Hw as <-.
    unfold file_writer.construct; cbn [f_open andb negb orb].
    destruct (disk_can_spawn output); reflexivity. }
  split; [ reflexivity | ].
  split; [ rewrite K1; unfold aio_buffer_pool.construct; destruct (allocate _); reflexivity | ].
  rewrite K2; exact Hbool.
Qed.

(** The demo loses no buffer. When the pool got its eight buffers, then
    whatever the order of the steps: the free buffers, those queued in
    the reader and in the writer and the one in the hands of the handler
    are always eight; and when the worker is destroyed outside of
    operator(), closing the writer and the reader puts all eight back, so
    that the destructor of the pool does not call abort(). *)
Theorem demo_returns_its_buffers (psz : Z) (allocate : Z -> aio_buffer_pool.allocation)
        (reader_self me : nat) (input : file) (can_spawn : bool) (output : disk)
        (fsync : bool) (d0 d : demo.t) :
  file_ops.len input < 2 ^ 63 ->
  demo.construct psz allocate reader_self input can_spawn output fsync = Some d0 ->
  length (aio_buffer_pool.buffers_ (demo.buffer_pool_ d0)) = 8%nat ->
  Forall (fun b => nb_ptr b <> 0) (aio_buffer_pool.buffers_ (demo.buffer_pool_ d0)) ->
  demo.runs me d0 d ->
  (length (aio_buffer_pool.buffers_ (demo.buffer_pool_ d))
   + length (reader_base.buffers_ (file_reader.base (demo.reader_ d)))
   + length (writer_base.buffers_ (file_writer.base (demo.writer_ d)))
   + length (held_leases (demo.at_ d)) = 8)%nat
  /\ (held_leases (demo.at_ d) = [] ->
      fst (demo.destroy d) = false
      /\ length (aio_buffer_pool.buffers_ (snd (demo.destroy d))) = 8%nat).
Proof.
  intros Hlen Hc Hfree Hptr Hrun.
  destruct (demo_construct_pool _ _ _ _ _ _ _ _ Hlen Hc) as (C1 & C2 & C3 & C4 & C5).
  assert (H0 : demo_accounts 8 d0).
  { unfold demo_accounts; rewrite C1, C2, C3, Hfree; cbn [length held_leases].
    repeat split; try assumption; constructor. }
  assert (Hd : demo_accounts 8 d).
  { clear - H0 Hrun; induction Hrun as [| d d1 _ IH Hstep]; [ exact H0 | ].
    exact (demo_step_accounts 8 me d d1 IH Hstep). }
  destruct Hd as (A1 & A2 & A3 & A4 & A5 & A6 & A7); cbv zeta in *.
  split; [ exact A1 | ].
  intros Hheld; rewrite Hheld in A1; cbn [length] in A1.
  unfold demo.destroy, file_writer.close, file_reader_close, file_reader_do_close,
    reader_base.close.
  cbn [fst snd file_reader.base file_reader.tr threaded_reader.base].
  fold (file_reader.base (demo.reader_ d)).
  assert (Hwq : writer_base.buffers_ (file_writer.base (file_writer.do_close (demo.writer_ d)))
                = writer_base.buffers_ (file_writer.base (demo.writer_ d))).
  { unfold file_writer.do_close, file_writer.threaded_do_close.
    cbn [file_writer.file_ file_writer.base].
    destruct (f_open (file_writer.file_ (demo.writer_ d))); reflexivity. }
  rewrite Hwq.
  set (pool1 := aio_buffer_pool.release_all (demo.buffer_pool_ d)
                  (writer_base.buffers_ (file_writer.base (demo.writer_ d)))).
  set (pool2 := aio_buffer_pool.release_all
                  (aio_buffer_pool.remove_waiter pool1
                     (reader_base.self (file_reader.base (demo.reader_ d))))
                  (reader_base.buffers_ (file_reader.base (demo.reader_ d)))).
  destruct (release_all_returns _ (demo.buffer_pool_ d) A6) as [W1 _].
  destruct (release_all_keeps_pool
              (writer_base.buffers_ (file_writer.base (demo.writer_ d)))
              (demo.buffer_pool_ d)) as [W2 W3].
  destruct (release_all_returns _
              (aio_buffer_pool.remove_waiter pool1
                 (reader_base.self (file_reader.base (demo.reader_ d)))) A5) as [R1 _].
  destruct (release_all_keeps_pool
              (reader_base.buffers_ (file_reader.base (demo.reader_ d)))
              (aio_buffer_pool.remove_waiter pool1
                 (reader_base.self (file_reader.base (demo.reader_ d))))) as [R2 R3].
  fold pool1 in W1, W2, W3; fold pool2 in R1, R2, R3.
  cbn [aio_buffer_pool.remove_waiter aio_buffer_pool.set_waitable aio_buffer_pool.buffers_
       aio_buffer_pool.buffer_count_ aio_buffer_pool.to_bool aio_buffer_pool.memory_]
    in R1, R2, R3.
  assert (Hcount : length (aio_buffer_pool.buffers_ pool2) = 8%nat).
  { rewrite R1, W1, !length_app, !length_map; lia. }
  split; [ | exact Hcount ].
  unfold aio_buffer_pool_destructor_aborts.
  rewrite Hcount, R2, W2, A2; cbn; apply andb_false_r.
Qed.

Lemma demo_returns_its_buffers_witness :
  exists d0 d,
    demo_start = Some d0 /\ demo.schedule 9 demo_schedule d0 = Some d
    /\ fst (demo.destroy d) = false
    /\ length (aio_buffer_pool.buffers_ (snd (demo.destroy d))) = 8%nat.
Proof.
  assert (He : exists d0 d,
             demo_start = Some d0 /\ demo.schedule 9 demo_schedule d0 = Some d
             /\ held_leases (demo.at_ d) = []
             /\ length (aio_buffer_pool.buffers_ (demo.buffer_pool_ d0)) = 8%nat
             /\ forallb (fun b => negb (nb_ptr b =? 0))
                        (aio_buffer_pool.buffers_ (demo.buffer_pool_ d0)) = true).
  { eexists; eexists; split; [ vm_compute; reflexivity | ].
    split; [ vm_compute; reflexivity | ].
    split; [ vm_compute; reflexivity | ].
    split; vm_compute; reflexivity. }
  destruct He as (d0 & d & Hstart & Hend & Hheld & Hfree & Hptr).
  exists d0, d.
  pose proof (schedule_runs 9 demo_schedule d0 d0 d (demo.run_start 9 d0) Hend) as Hrun.
  assert (Hptr' : Forall (fun b => nb_ptr b <> 0)
                         (aio_buffer_pool.buffers_ (demo.buffer_pool_ d0))).
  { apply Forall_forall; intros b Hb.
    rewrite forallb_forall in Hptr; specialize (Hptr b Hb).
    destruct (Z.eqb_spec (nb_ptr b) 0); [ discriminate Hptr | assumption ]. }
  destruct (demo_returns_its_buffers 4096 (fun _ => aio_buffer_pool.allocated 65536) 7 9
              abcde_file true (mk_disk None true true true) false d0 d)
    as (_ & H2).
  - vm_compute; reflexivity.
  - exact Hstart.
  - exact Hfree.
  - exact Hptr'.
  - exact Hrun.
  - destruct (H2 Hheld) as [H3 H4].
    exact (conj Hstart (conj Hend (conj H3 H4))).
Defined.
